(* ===== verification/_CoqProject ===== *)
-Q . S2P
Prelude.v
GoTime.v
SqliteTime.v
GoStrings.v
Cron.v
GoFloat.v
GoJson.v
GoJsonValue.v
Job.v
Worker.v
WorkerConc.v
JobHandler.v
Scheduler.v
SchedulerInv.v
SchedulerSystem.v
SchedulerProps.v
SchedulerLock.v
JobMetrics.v
GoBase64.v
GoSha256.v
GoAesGcm.v
Storage.v
StorageProps.v
StorageMetrics.v
Database.v
Backup.v
TransactionProps.v
Auth.v
AuthProps.v
TokenStore.v
TokenRefresh.v
Session.v
UserDetails.v
GoTimeParse.v
Gmail.v
Config.v
App.v
AppProps.v
Summary.v
Telegram.v
Digest.v
