(* ===== verification/Prelude.v ===== *)
(** * Verification of the Gmail Digest Assistant (gmaildigest-go)

    The program is a Go server: users log in with Google, connect a Telegram
    account, and get digests of their unread mail; recurring work is kept in a
    SQLite job table, scheduled with cron expressions and run by a pool of
    workers.  The files of this directory translate the program into Rocq
    definitions, package by package, and prove what they do.  File names below
    are under src/internal.

    ** Conventions

    A definition that translates code carries a line [@src file lines symbol]
    naming what it translates.  A Go pair (value, error) is a [result]; errors
    keep their text, their identity as sentinels and what they wrap.  A call
    that can panic returns an [outcome].  A method of a mutable object takes
    the object last and returns it changed.  Strings are byte strings; [int64]
    and [int] are [Z] with [wrap64] where the code can overflow; instants are
    nanoseconds since Go's zero time and a [Location] gives the zone's offset.
    What comes from outside, the clock, random bytes, uuids, the iteration
    order of a Go map, the failures of the SQLite driver ([db_faults]) and the
    answers of Google, OpenAI and Telegram, is an argument.  Code of other
    modules (oauth2, the API clients) is a parameter; the Go standard library
    is translated as far as it is used.

    ** Files

    Standard library: [GoTime] (instants, calendar, weekdays), [GoTimeParse]
    (RFC 1123 dates), [SqliteTime] (instants as the text SQLite compares), [GoStrings] (strings, strconv), [GoFloat] (binary64,
    [ParseFloat], [ParseDuration]), [GoJson] (the scanner, compaction and
    escaping of encoding/json), [GoJsonValue] (UTF-8, quoting, the tree of a
    JSON text and decoding into structs), [GoBase64], [GoSha256] and
    [GoAesGcm], the last two checked on the published test vectors.

    Configuration (config/): [Config] (config.go): the file, the environment,
    the struct tags, [Load].

    Scheduling (scheduler/):
    - [Cron] (cron.go): [ParseCron], [matches], [Next].
    - [Job] (job.go): the [Job] record, the job table as a list of rows with
      its keys and checks, the operations of [SQLiteJobStore]; [JobStore], the
      store as an interface with laws, and its SQLite instance.
    - [JobHandler] (job_handler.go): the registry, the heap of jobs shared by
      pointer, [Execute].
    - [Scheduler] (scheduler.go, callbacks of job_handler.go): the state and
      every method; [SchedulerInv], its invariant; [SchedulerSystem], the
      scheduler, the store, the queue and the running tasks as a system of
      events; [SchedulerProps], the theorems; [SchedulerLock], [JobMu] as a
      step system in which a search of [Next] takes its turns one by one;
      [JobMetrics] (metrics/metrics.go), the calls these events make to the prometheus instruments.
    - [TokenRefresh] (token_refresh.go and the job half of
      auth/refresh_service.go): the refresh job, its payload and its handler.
    - [Digest] (digest_job.go) with [Gmail] (gmail/service.go), [Summary]
      (summary/service.go) and [Telegram] (telegram/service.go).
    Workers (worker/pool.go): [Worker], the pool's operations one at a time;
    [WorkerConc], its goroutines as a small-step system of threads with the
    channel, the wait group, the locks and the context.

    Storage (storage/):
    - [Storage] (sqlite.go, transaction.go, cleanup.go): the tables users,
      tokens and processed_emails as maps, every statement, transactions on a
      copy that [Commit] publishes; [StorageProps]; [StorageMetrics]
      (metrics.go); [UserDetails] (user.go and the two methods of sqlite.go on
      the other users table the repository declares).
    - [Database] (pool.go, migration.go): the configuration of the database,
      opening it, migrating it; [Backup] (backup.go): the scripts of backup and
      restore around an engine that is a parameter; [TransactionProps],
      transactions as a whole.
    - [TokenStore] (encryption.go, token_store.go): tokens under AES-GCM in
      the table tokens; an instance of the class [TokenStorage].

    Authentication (auth/): [Auth] (oauth.go, in_memory_stores.go,
    refresh_service.go) over any [TokenStorage] and any [OAuthToken] type;
    [AuthProps].  Sessions (session/): [Session], the class [SessionStore] and
    the in-memory instance.  Web (app/): [App] (app.go, handlers.go,
    middleware.go): the routes, the middleware and the handlers over any
    [SessionStore] and [TokenStorage]; [AppProps].

    ** Interfaces

    The scheduler is proved against [JobStore], the OAuth manager, the digest
    job and the web application against [TokenStorage], the web application
    against [SessionStore]; [Job], [TokenStore] and [Session] prove their laws.

    ** Theorems

    - Cron: [Next] is the first matching minute after its argument; what
      [print]ing a schedule gives, [ParseCron] reads back; when the search
      ends.  [Next] has no bound in the source; the model searches 400
      Gregorian years, after which the calendar repeats, so in a zone with a
      fixed offset running out of fuel means running for ever, which the
      theorems on termination state both ways.
    - Job store: every operation keeps the table well formed, whatever fails;
      a job written is the job read.
    - Scheduler: memory and store agree after any sequence of events, with
      failures of the store; without failures memory is a write-through cache;
      scheduling the same (user, type, schedule) twice updates one job; due
      jobs are submitted exactly once, in order; the timer fires for the
      earliest job; and the behaviours that look unintended: finished,
      failed and interrupted jobs never run again, a reschedule during a run
      is lost, a schedule without a date hangs the scheduler: the caller holds
      [JobMu] in every state that follows.
    - Pool: every submitted task is queued, running, done or failed, in every
      interleaving; the counters account for them; and reachable bad states: a
      deadlock with the scheduler, a panic of [Submit] against [Stop], tasks
      abandoned by [Stop].
    - Storage: the tables' invariant, reading back what was written, input
      validation, atomicity of transactions and of the cleanup of inactive
      users, with foreign keys on or off; no token is ever marked valid, so
      the cleanup of invalid tokens deletes every token.
    - Tokens: encryption round trip; the token store refines a map from users
      to tokens.
    - Authentication and web: a callback with the right state stores the token
      and uses the state up; a refresh stores the source's token and keeps
      the refresh token; PKCE codes;
      sessions live until expiry or deletion; protected routes act only for
      the session's user; the flow from callback to logout; and, as the code
      stands, no sequence of requests logs anybody in.
    - Digest: the calls of a run in order; after a failed run the mail
      it could read is no longer unread and no later run is given it; the bot's link connects the account in its token.

    - Instruments: the gauge and the counters against the tasks and jobs of
      any run.
    - Configuration: what [Load] accepts and returns, field by field, and its
      errors; the bounds a loaded configuration guarantees; intervals read back; which accepted
      encryption keys work; the repository's example file is refused.
    - Refresh jobs: a scheduled refresh job carries its user through JSON to the
      handler and back into the schedule; what the handler does to the tokens
      on every path.
    - Database: [OpenDatabase] on every branch; migrations are never found;
      no backup and no restore ever succeeds, and neither loses data; which
      rows the metrics of a range of time count, by the wall clocks of its
      bounds.

    ** Bounds and fuel

    Every loop of the source is structural here but three: [Next] (above);
    [parse_value], whose fuel is the length of the text (each call consumes a
    byte); and [duration_terms] of [ParseDuration], likewise.  Decimal
    exponents beyond 400 digits are infinite or zero in [ParseFloat], as every
    binary64 is within 10^-400 and 10^400.

    ** Not modelled

    SQLite, golang-migrate and the validator are parameters.  The HTTP and
    process wiring of [New], [Run], [Shutdown] and the commands is I/O, and
    half of the constructors it calls do not exist.  Percent
    escapes in request paths are taken as already undone.  The memory model is
    that of properly locked programs: an operation under a lock is atomic,
    save in [WorkerConc], which has the locks.  The source does not compile as
    committed (files of the application name fields and constructors that do
    not exist, package storage declares [User] twice); each file says which
    reading it takes. *)
From Stdlib Require Import ZArith Lia.
From stdpp Require Import base gmap strings list pretty relations.

(** ** Go error values

    [errors.New] and [fmt.Errorf] without [%w] give an [ErrorString];
    a package-level sentinel ([ErrNotFound], ...) is a [Sentinel], compared
    by identity (its name); [fmt.Errorf] with one [%w] is a [WrapError];
    an error value made by code outside the repository (the SQLite driver,
    the network, the random source) is an [ExtError]. *)
Inductive error :=
| ErrorString (msg : string)
| Sentinel (name msg : string)
| WrapError (pre : string) (inner : error) (post : string)
| ExtError (msg : string).

(** The [Error()] method. *)
Fixpoint Error (e : error) : string :=
  match e with
  | ErrorString m => m
  | Sentinel _ m => m
  | WrapError pre i post => pre +:+ Error i +:+ post
  | ExtError m => m
  end.

#[export] Instance error_eq_dec : EqDecision error.
Proof. solve_decision. Defined.

(** [errors.Is]: the target is the value itself or one of the values it wraps. *)
Fixpoint errors_Is (e target : error) : bool :=
  bool_decide (e = target) ||
  match e with
  | WrapError _ i _ => errors_Is i target
  | _ => false
  end.

(** [fmt.Errorf("pre%w", e)] and [fmt.Errorf("%wpost", e)]. *)
Definition wrap_pre (pre : string) (e : error) : error := WrapError pre e "".
Definition wrap_post (e : error) (post : string) : error := WrapError "" e post.

(** ** Results: the Go pair (value, error) with exactly one side meaningful *)
Inductive result (A : Type) :=
| Ok (a : A)
| Err (e : error).
Arguments Ok {A} a.
Arguments Err {A} e.

#[export] Instance result_ret : MRet result := λ A a, Ok a.
#[export] Instance result_bind : MBind result := λ A B f m,
  match m with Ok a => f a | Err e => Err e end.
#[export] Instance result_fmap : FMap result := λ A B f m,
  match m with Ok a => Ok (f a) | Err e => Err e end.

(** [if err != nil { return nil, fmt.Errorf("pre%w", err) }] *)
Definition wrap_err {A} (pre : string) (r : result A) : result A :=
  match r with Ok a => Ok a | Err e => Err (wrap_pre pre e) end.

Definition is_ok {A} (r : result A) : bool :=
  match r with Ok _ => true | Err _ => false end.

Lemma bind_Ok {A B} (f : A → result B) (m : result A) b :
  m ≫= f = Ok b ↔ ∃ a, m = Ok a ∧ f a = Ok b.
Proof.
  destruct m as [a|e]; split.
  - intros H. by exists a.
  - by intros (a' & [= ->] & H).
  - done.
  - by intros (a' & [=] & _).
Qed.

Lemma wrap_err_Ok {A} pre (r : result A) a : wrap_err pre r = Ok a ↔ r = Ok a.
Proof. by destruct r. Qed.

Lemma is_ok_true {A} (r : result A) : is_ok r = true ↔ ∃ a, r = Ok a.
Proof.
  destruct r as [a|e]; split; try done.
  - by exists a.
  - by intros [a [=]].
Qed.

(** [ok_inv H] takes a successful chain of calls apart. *)
Create Rewrite HintDb results.
#[export] Hint Rewrite @bind_Ok @wrap_err_Ok @is_ok_true : results.
Ltac ok_inv H :=
  autorewrite with results in H;
  repeat match type of H with
         | ex _ => let x := fresh "x" in destruct H as [x H]
         | _ ∧ _ => let Hl := fresh "Hl" in destruct H as [Hl H]
         | context [_ ≫= _ = Ok _] => rewrite bind_Ok in H
         | context [wrap_err _ _ = Ok _] => rewrite wrap_err_Ok in H
         end.

(** ** Byte strings *)
Lemma append_cons c (s t : string) : String c s +:+ t = String c (s +:+ t).
Proof. done. Qed.

Lemma append_nil_l (s : string) : "" +:+ s = s.
Proof. done. Qed.

Lemma append_nil_r (s : string) : s +:+ "" = s.
Proof. induction s as [|c s IH]; [done|]. by rewrite append_cons, IH. Qed.

Lemma append_assoc (s1 s2 s3 : string) : s1 +:+ s2 +:+ s3 = (s1 +:+ s2) +:+ s3.
Proof. induction s1 as [|c s1 IH]; [done|]. by rewrite !append_cons, IH. Qed.

Lemma append_length s t : String.length (s +:+ t) = (String.length s + String.length t)%nat.
Proof. induction s as [|a s IH]; [done|]. rewrite append_cons. cbn. by rewrite IH. Qed.

(** ** Machine integers: Go's [int64] (and [int] on 64-bit platforms) *)
Definition int64_min : Z := -9223372036854775808.
Definition int64_max : Z := 9223372036854775807.
Definition wrap64 (z : Z) : Z :=
  (z + 9223372036854775808) `mod` 18446744073709551616 - 9223372036854775808.
Definition in_int64 (z : Z) : Prop := (int64_min ≤ z ≤ int64_max)%Z.

#[export] Instance in_int64_dec z : Decision (in_int64 z).
Proof. unfold in_int64. apply _. Defined.

Lemma wrap64_id z : in_int64 z → wrap64 z = z.
Proof.
  unfold in_int64, int64_min, int64_max, wrap64. intros H.
  rewrite Z.mod_small; lia.
Qed.

Lemma wrap64_range z : in_int64 (wrap64 z).
Proof.
  unfold in_int64, int64_min, int64_max, wrap64.
  pose proof (Z.mod_pos_bound (z + 9223372036854775808) 18446744073709551616 ltac:(lia)).
  lia.
Qed.

Lemma wrap64_shift a k : wrap64 (a + k * 18446744073709551616) = wrap64 a.
Proof.
  unfold wrap64.
  replace (a + k * 18446744073709551616 + 9223372036854775808)%Z
    with (a + 9223372036854775808 + k * 18446744073709551616)%Z by lia.
  by rewrite Z.mod_add.
Qed.

Lemma wrap64_add_l a b : wrap64 (wrap64 a + b) = wrap64 (a + b).
Proof.
  unfold wrap64 at 2.
  pose proof (Z.div_mod (a + 9223372036854775808) 18446744073709551616 ltac:(done)) as D.
  set (k := ((a + 9223372036854775808) / 18446744073709551616)%Z) in *.
  rewrite <- (wrap64_shift (a + b) (- k)). f_equal. lia.
Qed.

(** ** Loops

    [iter_until step p s] runs a loop body at most [p] times, [p] in binary,
    and stops at the first [inr]: [for { if done { return r }; s = next }]. *)
Fixpoint iter_until {S R} (step : S → S + R) (p : positive) (s : S) : S + R :=
  match p with
  | xH => step s
  | xO q => match iter_until step q s with
            | inl s' => iter_until step q s'
            | inr r => inr r
            end
  | xI q => match step s with
            | inl s0 => match iter_until step q s0 with
                        | inl s' => iter_until step q s'
                        | inr r => inr r
                        end
            | inr r => inr r
            end
  end.

(** The same loop with its count in unary, the form the proofs use. *)
Fixpoint iter_nat {S R} (step : S → S + R) (n : nat) (s : S) : S + R :=
  match n with
  | O => inl s
  | Datatypes.S n' => match step s with
                      | inl s' => iter_nat step n' s'
                      | inr r => inr r
                      end
  end.

Lemma iter_nat_add {S R} (step : S → S + R) n m s :
  iter_nat step (n + m) s =
  match iter_nat step n s with
  | inl s' => iter_nat step m s'
  | inr r => inr r
  end.
Proof.
  revert s. induction n as [|n IH]; intros s; simpl; [done|].
  destruct (step s); [apply IH | done].
Qed.

Lemma iter_until_nat {S R} (step : S → S + R) p s :
  iter_until step p s = iter_nat step (Pos.to_nat p) s.
Proof.
  revert s. induction p as [q IH|q IH|]; intros s.
  - rewrite Pos2Nat.inj_xI. simpl. destruct (step s) as [s0|r]; [|done].
    replace (Pos.to_nat q + (Pos.to_nat q + 0)) with (Pos.to_nat q + Pos.to_nat q) by lia.
    rewrite iter_nat_add, IH. destruct (iter_nat _ _ s0); auto.
  - rewrite Pos2Nat.inj_xO.
    replace (2 * Pos.to_nat q) with (Pos.to_nat q + Pos.to_nat q) by lia.
    rewrite iter_nat_add. simpl. rewrite IH. destruct (iter_nat _ _ s); auto.
  - simpl. destruct (step s); done.
Qed.

(** A loop that walks [s, s + d, s + 2d, ...] until the predicate holds. *)
Definition walk_step (P : Z → bool) (d : Z) (s : Z) : Z + Z :=
  if P s then inr s else inl (s + d)%Z.

Lemma walk_found P d n s r :
  iter_nat (walk_step P d) n s = inr r ↔
  ∃ k, k < n ∧ r = (s + Z.of_nat k * d)%Z ∧ P r = true ∧
       ∀ j, j < k → P (s + Z.of_nat j * d)%Z = false.
Proof.
  revert s. induction n as [|n IH]; intros s; simpl.
  { split; [done|]. intros (k & Hk & _). lia. }
  unfold walk_step at 1. destruct (P s) eqn:E.
  - split.
    + intros [= <-]. exists 0. split_and!; [lia|lia|done|lia].
    + intros (k & Hk & -> & HP & Hmin). destruct k as [|k]; [by rewrite Z.add_0_r|].
      specialize (Hmin 0 ltac:(lia)). rewrite Z.add_0_r in Hmin. congruence.
  - rewrite IH. split.
    + intros (k & Hk & -> & HP & Hmin). exists (S k). split_and!; [lia|lia| |].
      * replace (s + Z.of_nat (S k) * d)%Z with (s + d + Z.of_nat k * d)%Z by lia. done.
      * intros [|j] Hj; [by rewrite Z.add_0_r|].
        replace (s + Z.of_nat (S j) * d)%Z with (s + d + Z.of_nat j * d)%Z by lia.
        apply Hmin. lia.
    + intros (k & Hk & -> & HP & Hmin). destruct k as [|k].
      { rewrite Z.add_0_r in HP. congruence. }
      exists k. split_and!; [lia|lia|done|].
      intros j Hj. specialize (Hmin (S j) ltac:(lia)).
      replace (s + d + Z.of_nat j * d)%Z with (s + Z.of_nat (S j) * d)%Z by lia. done.
Qed.

Lemma walk_not_found P d n s s' :
  iter_nat (walk_step P d) n s = inl s' →
  ∀ j, j < n → P (s + Z.of_nat j * d)%Z = false.
Proof.
  revert s. induction n as [|n IH]; intros s; simpl; [lia|].
  unfold walk_step at 1. destruct (P s) eqn:E; [done|].
  intros H [|j] Hj; [by rewrite Z.add_0_r|].
  replace (s + Z.of_nat (S j) * d)%Z with (s + d + Z.of_nat j * d)%Z by lia.
  apply IH; [done|lia].
Qed.

(** If the predicate has period [N * d], a walk of [N] steps decides it for ever. *)
Lemma walk_periodic P d (N : positive) s s' :
  (∀ k x, P (x + k * (Zpos N * d))%Z = P x) →
  iter_nat (walk_step P d) (Pos.to_nat N) s = inl s' →
  ∀ j : nat, P (s + Z.of_nat j * d)%Z = false.
Proof.
  intros HP HN j.
  pose proof (Z.div_mod (Z.of_nat j) (Zpos N) ltac:(done)) as D.
  pose proof (Z.mod_pos_bound (Z.of_nat j) (Zpos N) ltac:(lia)) as B.
  set (r := (Z.of_nat j `mod` Zpos N)%Z) in *.
  set (q := (Z.of_nat j / Zpos N)%Z) in *.
  replace (s + Z.of_nat j * d)%Z with (s + Z.of_nat (Z.to_nat r) * d + q * (Zpos N * d))%Z
    by (rewrite Z2Nat.id by lia; rewrite D; ring).
  rewrite HP. apply (walk_not_found _ _ _ _ _ HN). lia.
Qed.

(** When nothing matches, no number of turns ends the walk. *)
Lemma walk_diverges P d s n :
  (∀ j : nat, P (s + Z.of_nat j * d)%Z = false) →
  ∃ s', iter_nat (walk_step P d) n s = inl s'.
Proof.
  revert s. induction n as [|n IH]; intros s H; simpl; [eauto|].
  unfold walk_step at 1. pose proof (H 0) as H0. rewrite Z.add_0_r in H0. rewrite H0.
  apply IH. intros j. specialize (H (S j)).
  replace (s + d + Z.of_nat j * d)%Z with (s + Z.of_nat (S j) * d)%Z by lia. done.
Qed.
