(* ===== verification/GoTime.v ===== *)
(** * Package [time]: what the program uses of it

    Instants are integers counting nanoseconds from Go's zero [time.Time]
    (January 1 of year 1, 00:00:00 UTC), so [IsZero] is equality with 0 and
    [Truncate] rounds towards minus infinity from that origin.  Durations are
    [int64] nanosecond counts.  A [Location] gives the offset from UTC, in
    seconds, in force at an instant.  The calendar is the proleptic Gregorian
    one, computed with the cycle decomposition of the standard library
    (400-year, 100-year, 4-year and 1-year cycles). *)
From Stdlib Require Import ZArith Lia.
From stdpp Require Import base list.
From S2P Require Import Prelude.
Local Open Scope Z_scope.

Definition Nanosecond : Z := 1.
Definition Second : Z := 1000000000.
Definition Minute : Z := 60 * Second.
Definition Hour : Z := 60 * Minute.

(** ** Instants *)
Definition IsZero (t : Z) : bool := t =? 0.
Definition After (t u : Z) : bool := u <? t.
Definition Before (t u : Z) : bool := t <? u.
Definition Add (t d : Z) : Z := t + d.

(** [t.Sub(u)] saturates to the range of [Duration]. *)
Definition Sub (t u : Z) : Z := Z.max int64_min (Z.min int64_max (t - u)).

Definition Truncate (t d : Z) : Z := if d <=? 0 then t else t - t `mod` d.

(** ** Calendar fields of an instant in a location *)
Definition Location := Z → Z.
Definition UTC : Location := λ _, 0.

(** Seconds of local wall-clock time since the origin. *)
Definition abs_sec (loc : Location) (t : Z) : Z := t / Second + loc t.

Definition minute_of (s : Z) : Z := s `mod` 3600 / 60.
Definition hour_of (s : Z) : Z := s `mod` 86400 / 3600.
Definition day_number (s : Z) : Z := s / 86400.

(** Day 0, January 1 of year 1, is a Monday; Sunday is 0. *)
Definition weekday_of (d : Z) : Z := (d + 1) `mod` 7.

(** Days before each month of a common year; entry 12 is the year's length. *)
Definition daysBefore : list Z :=
  [0; 31; 59; 90; 120; 151; 181; 212; 243; 273; 304; 334; 365].
Definition days_before (m : Z) : Z := nth (Z.to_nat m) daysBefore 0.

Definition isLeap (year : Z) : bool :=
  (year `mod` 4 =? 0) && (negb (year `mod` 100 =? 0) || (year `mod` 400 =? 0)).

Definition days_per_400_years : Z := 146097.
Definition days_per_100_years : Z := 36524.
Definition days_per_4_years : Z := 1461.

(** [abs.date], first half: the year and the zero-based day within it. *)
Definition year_yday (days : Z) : Z * Z :=
  let n400 := days / days_per_400_years in
  let d := days - n400 * days_per_400_years in
  let n100 := let n := d / days_per_100_years in n - n / 4 in
  let d := d - n100 * days_per_100_years in
  let n4 := d / days_per_4_years in
  let d := d - n4 * days_per_4_years in
  let n1 := let n := d / 365 in n - n / 4 in
  (400 * n400 + 100 * n100 + 4 * n4 + n1 + 1, d - n1 * 365).

(** [abs.date], second half: month 1-12 and day of the month. *)
Definition month_mday (leap : bool) (yday : Z) : Z * Z :=
  if leap && (yday =? 59) then (2, 29)
  else
    let day := if leap && (59 <? yday) then yday - 1 else yday in
    let m := day / 31 in
    if days_before (m + 1) <=? day
    then (m + 2, day - days_before (m + 1) + 1)
    else (m + 1, day - days_before m + 1).

Definition civil (days : Z) : Z * Z * Z :=
  let '(year, yday) := year_yday days in
  let '(m, dd) := month_mday (isLeap year) yday in
  (year, m, dd).

Definition month_of_day (d : Z) : Z := let '(_, m, _) := civil d in m.
Definition day_of_day (d : Z) : Z := let '(_, _, dd) := civil d in dd.

(** The methods [t.Minute()], [t.Hour()], [t.Day()], [t.Month()], [t.Weekday()]. *)
Definition t_Minute (loc : Location) (t : Z) : Z := minute_of (abs_sec loc t).
Definition t_Hour (loc : Location) (t : Z) : Z := hour_of (abs_sec loc t).
Definition t_Day (loc : Location) (t : Z) : Z := day_of_day (day_number (abs_sec loc t)).
Definition t_Month (loc : Location) (t : Z) : Z := month_of_day (day_number (abs_sec loc t)).
Definition t_Weekday (loc : Location) (t : Z) : Z := weekday_of (day_number (abs_sec loc t)).

(** [time.Date] in UTC, for normalised arguments. *)
Definition days_since_origin (year month day : Z) : Z :=
  let y := year - 1 in
  365 * y + y / 4 - y / 100 + y / 400
  + days_before (month - 1)
  + (if isLeap year && (2 <? month) then 1 else 0) + (day - 1).
Definition Date_UTC (year month day hour min sec : Z) : Z :=
  (((days_since_origin year month day * 24 + hour) * 60 + min) * 60 + sec) * Second.

Definition days_in_month (year month : Z) : Z :=
  if (month =? 2) && isLeap year then 29
  else days_before month - days_before (month - 1).

(** ** The calendar repeats every 400 years *)
Lemma isLeap_400 y k : isLeap (400 * k + y) = isLeap y.
Proof.
  unfold isLeap.
  replace ((400 * k + y) `mod` 4) with (y `mod` 4)
    by (replace (400 * k + y) with (y + (100 * k) * 4) by lia; now rewrite Z.mod_add).
  replace ((400 * k + y) `mod` 100) with (y `mod` 100)
    by (replace (400 * k + y) with (y + (4 * k) * 100) by lia; now rewrite Z.mod_add).
  replace ((400 * k + y) `mod` 400) with (y `mod` 400)
    by (replace (400 * k + y) with (y + k * 400) by lia; now rewrite Z.mod_add).
  done.
Qed.

Lemma year_yday_period k d :
  year_yday (d + k * days_per_400_years) =
  (let '(y, yd) := year_yday d in (400 * k + y, yd)).
Proof.
  unfold year_yday.
  assert (E : (d + k * days_per_400_years) / days_per_400_years
              = d / days_per_400_years + k) by (apply Z.div_add; done).
  rewrite E.
  replace (d + k * days_per_400_years
           - (d / days_per_400_years + k) * days_per_400_years)
    with (d - d / days_per_400_years * days_per_400_years) by lia.
  cbv zeta. f_equal. lia.
Qed.

Lemma civil_period k d :
  civil (d + k * days_per_400_years) =
  (let '(y, m, dd) := civil d in (400 * k + y, m, dd)).
Proof.
  unfold civil. rewrite year_yday_period. destruct (year_yday d) as [y yd].
  rewrite isLeap_400. by destruct (month_mday _ _).
Qed.

Lemma month_of_day_period k d :
  month_of_day (d + k * days_per_400_years) = month_of_day d.
Proof. unfold month_of_day. rewrite civil_period. by destruct (civil d) as [[??]?]. Qed.

Lemma day_of_day_period k d :
  day_of_day (d + k * days_per_400_years) = day_of_day d.
Proof. unfold day_of_day. rewrite civil_period. by destruct (civil d) as [[??]?]. Qed.

Lemma weekday_period k d : weekday_of (d + k * days_per_400_years) = weekday_of d.
Proof.
  unfold weekday_of, days_per_400_years.
  replace (d + k * 146097 + 1) with ((d + 1) + (k * 20871) * 7) by lia.
  now rewrite Z.mod_add.
Qed.

(** ** Fields stay in range *)

(** The cycle decomposition leaves a day within its year; day 365 only in a
    leap year. *)
Lemma year_yday_range d y yd :
  year_yday d = (y, yd) → 0 ≤ yd ≤ 365 ∧ (yd = 365 → isLeap y = true).
Proof.
  unfold year_yday, isLeap, days_per_400_years, days_per_100_years, days_per_4_years.
  intros [= <- <-].
  set (n400 := d / 146097).
  set (r := d - n400 * 146097).
  assert (Hr : 0 ≤ r < 146097)
    by (subst r n400; pose proof (Z.mul_div_le d 146097);
        pose proof (Z.mul_succ_div_gt d 146097); lia).
  clearbody n400 r. clear d.
  set (n100 := r / 36524 - r / 36524 / 4).
  assert (Hn100 : 0 ≤ n100 ≤ 3 ∧ n100 * 36524 ≤ r ∧
                  (n100 < 3 → r < (n100 + 1) * 36524) ∧ r ≤ n100 * 36524 + 36524).
  { subst n100. Z.to_euclidean_division_equations. lia. }
  set (r1 := r - n100 * 36524) in *.
  assert (Hr1 : 0 ≤ r1 ≤ 36524 ∧ (n100 < 3 → r1 < 36524)) by lia.
  destruct Hn100 as [Hn100 _].
  clearbody n100 r1.
  set (n4 := r1 / 1461).
  assert (Hn4 : 0 ≤ n4 ≤ 24 ∧ n4 * 1461 ≤ r1 < (n4 + 1) * 1461)
    by (subst n4; Z.to_euclidean_division_equations; lia).
  set (r2 := r1 - n4 * 1461) in *.
  assert (Hr2 : 0 ≤ r2 < 1461 ∧ (n4 = 24 → n100 < 3 → r2 < 1460)) by lia.
  clearbody n4 r2.
  set (n1 := r2 / 365 - r2 / 365 / 4).
  assert (Hn1 : 0 ≤ n1 ≤ 3 ∧ n1 * 365 ≤ r2 ≤ n1 * 365 + 365 ∧
                (r2 = n1 * 365 + 365 → n1 = 3 ∧ r2 = 1460))
    by (subst n1; Z.to_euclidean_division_equations; lia).
  clearbody n1. split; [lia|]. intros H365.
  assert (n1 = 3 ∧ r2 = 1460) as [-> ->] by lia.
  replace (400 * n400 + 100 * n100 + 4 * n4 + 3 + 1)
    with (400 * n400 + 100 * n100 + 4 * n4 + 4) by lia.
  apply andb_true_intro; split.
  - replace (400 * n400 + 100 * n100 + 4 * n4 + 4)
      with ((100 * n400 + 25 * n100 + n4 + 1) * 4) by lia.
    now rewrite Z_mod_mult.
  - destruct (decide (n4 = 24)) as [->|Hne]; apply orb_true_intro; [right|left].
    + assert (n100 = 3) as -> by lia.
      replace (400 * n400 + 100 * 3 + 4 * 24 + 4) with ((n400 + 1) * 400) by lia.
      now rewrite Z_mod_mult.
    + replace (400 * n400 + 100 * n100 + 4 * n4 + 4)
        with ((4 * n4 + 4) + (4 * n400 + n100) * 100) by lia.
      rewrite Z.mod_add, Z.mod_small by lia.
      apply negb_true_iff, Z.eqb_neq. lia.
Qed.

Fixpoint check_range (f : Z → bool) (n : nat) (d : Z) : bool :=
  match n with O => true | S n' => f d && check_range f n' (d + 1) end.

Lemma check_range_spec f n d :
  check_range f n d = true → ∀ x, d ≤ x < d + Z.of_nat n → f x = true.
Proof.
  revert d. induction n as [|n IH]; intros d H x Hx; [lia|].
  simpl in H. apply andb_prop in H as [H1 H2].
  destruct (decide (x = d)) as [->|]; [done|].
  apply (IH (d + 1)); [done|lia].
Qed.

(** Length of month [m] in a (leap) year. *)
Definition month_length (leap : bool) (m : Z) : Z :=
  if (m =? 2) && leap then 29 else days_before m - days_before (m - 1).

Definition yday_ok (leap : bool) (yd : Z) : bool :=
  let '(m, dd) := month_mday leap yd in
  (1 <=? m) && (m <=? 12) && (1 <=? dd) && (dd <=? month_length leap m)
  && (days_before (m - 1) + (if leap && (2 <? m) then 1 else 0) + (dd - 1) =? yd).

Lemma yday_ok_all leap yd :
  0 ≤ yd ≤ 365 → (yd = 365 → leap = true) → yday_ok leap yd = true.
Proof.
  intros H HL. destruct leap.
  - apply (check_range_spec (yday_ok true) 366 0); [vm_compute; reflexivity|lia].
  - apply (check_range_spec (yday_ok false) 365 0); [vm_compute; reflexivity|].
    destruct (decide (yd = 365)) as [E|]; [by apply HL in E|lia].
Qed.

(** Every day number has a month in 1-12 and a day within that month. *)
Lemma civil_range d y m dd :
  civil d = (y, m, dd) → 1 ≤ m ≤ 12 ∧ 1 ≤ dd ≤ days_in_month y m.
Proof.
  unfold civil. destruct (year_yday d) as [y0 yd] eqn:E. intros H.
  apply year_yday_range in E as [R L].
  pose proof (yday_ok_all (isLeap y0) yd R L) as C. unfold yday_ok in C.
  destruct (month_mday (isLeap y0) yd) as [m0 d0]. injection H as <- <- <-.
  repeat (apply andb_prop in C as [C ?]).
  unfold days_in_month, month_length in *. lia.
Qed.

Lemma month_of_day_range d : 1 ≤ month_of_day d ≤ 12.
Proof.
  unfold month_of_day. destruct (civil d) as [[y m] dd] eqn:E.
  by apply civil_range in E as [? _].
Qed.

Lemma days_in_month_bounds y m :
  1 ≤ m ≤ 12 → 28 ≤ days_in_month y m ≤ 31.
Proof.
  intros H. unfold days_in_month.
  assert (m = 1 ∨ m = 2 ∨ m = 3 ∨ m = 4 ∨ m = 5 ∨ m = 6 ∨ m = 7 ∨ m = 8 ∨ m = 9
          ∨ m = 10 ∨ m = 11 ∨ m = 12) as C by lia.
  repeat (destruct C as [->|C]); try subst m; simpl;
    repeat case_match; unfold days_before; simpl; lia.
Qed.

Lemma day_of_day_range d : 1 ≤ day_of_day d ≤ 31.
Proof.
  unfold day_of_day. destruct (civil d) as [[y m] dd] eqn:E.
  apply civil_range in E as [Hm Hd].
  pose proof (days_in_month_bounds y m Hm). lia.
Qed.

Lemma weekday_range d : 0 ≤ weekday_of d ≤ 6.
Proof. unfold weekday_of. pose proof (Z.mod_pos_bound (d + 1) 7). lia. Qed.

(** The longest a month can be, over all years. *)
Lemma day_of_day_month_bound d :
  day_of_day d ≤ (if month_of_day d =? 2 then 29
                  else days_before (month_of_day d) - days_before (month_of_day d - 1)).
Proof.
  unfold day_of_day, month_of_day. destruct (civil d) as [[y m] dd] eqn:E.
  apply civil_range in E as [Hm Hd]. unfold days_in_month in Hd.
  destruct (Z.eqb_spec m 2) as [->|]; simpl in *; [|lia].
  destruct (isLeap y); unfold days_before in *; simpl in *; lia.
Qed.

(** ** Fields of the minutes of a day *)
Lemma minute_of_range s : 0 ≤ minute_of s ≤ 59.
Proof.
  unfold minute_of. pose proof (Z.mod_pos_bound s 3600 ltac:(lia)).
  split; [apply Z.div_pos; lia|]. apply Z.lt_succ_r.
  apply Z.div_lt_upper_bound; lia.
Qed.

Lemma hour_of_range s : 0 ≤ hour_of s ≤ 23.
Proof.
  unfold hour_of. pose proof (Z.mod_pos_bound s 86400 ltac:(lia)).
  split; [apply Z.div_pos; lia|]. apply Z.lt_succ_r.
  apply Z.div_lt_upper_bound; lia.
Qed.

(** The second [((d * 24 + h) * 60 + m) * 60 + r] has these fields. *)
Lemma fields_of_second d h m r :
  0 ≤ h < 24 → 0 ≤ m < 60 → 0 ≤ r < 60 →
  let s := ((d * 24 + h) * 60 + m) * 60 + r in
  day_number s = d ∧ hour_of s = h ∧ minute_of s = m.
Proof.
  intros Hh Hm Hr s. unfold day_number, hour_of, minute_of.
  assert (E1 : s `mod` 86400 = h * 3600 + m * 60 + r).
  { subst s. replace (((d * 24 + h) * 60 + m) * 60 + r)
      with ((h * 3600 + m * 60 + r) + d * 86400) by lia.
    rewrite Z.mod_add by lia. apply Z.mod_small. lia. }
  assert (E2 : s `mod` 3600 = m * 60 + r).
  { subst s. replace (((d * 24 + h) * 60 + m) * 60 + r)
      with ((m * 60 + r) + (d * 24 + h) * 3600) by lia.
    rewrite Z.mod_add by lia. apply Z.mod_small. lia. }
  rewrite E1, E2. repeat split.
  - symmetry. apply Z.div_unique with (h * 3600 + m * 60 + r); lia.
  - symmetry. apply Z.div_unique with (m * 60 + r); lia.
  - symmetry. apply Z.div_unique with r; lia.
Qed.
