(* ===== verification/SqliteTime.v ===== *)
(** * Instants as SQLite compares them: text

    SQLite has no type of time.  [CURRENT_TIMESTAMP] is the text
    [YYYY-MM-DD HH:MM:SS] of the instant in UTC, and a column of type DATETIME
    that holds such a text is compared with another text byte by byte.  Here is
    that text, and that its order is the order of the seconds it shows, for
    years of four digits. *)
From Stdlib Require Import ZArith Lia Ascii String.
From stdpp Require Import base list strings.
From S2P Require Import Prelude GoTime.
Local Open Scope Z_scope.

(** ** Numbers of a fixed width *)

Definition digit (d : Z) : ascii := ascii_of_N (Z.to_N (48 + d)).

(** The last [w] decimal digits. *)
Fixpoint pad (w : nat) (n : Z) : string :=
  match w with
  | O => ""
  | S w => String (digit (n / 10 ^ Z.of_nat w)) (pad w (n mod 10 ^ Z.of_nat w))
  end.

(** The first comparison, or the second when it finds no difference. *)
Definition cmp_then (c d : comparison) : comparison := match c with Eq => d | _ => c end.

Lemma cmp_then_assoc c d e : cmp_then c (cmp_then d e) = cmp_then (cmp_then c d) e.
Proof. by destruct c. Qed.

Lemma cmp_then_Z B x1 x2 r1 r2 :
  0 ≤ r1 < B → 0 ≤ r2 < B →
  cmp_then (x1 ?= x2) (r1 ?= r2) = (x1 * B + r1 ?= x2 * B + r2).
Proof.
  intros H1 H2. destruct (Z.compare_spec x1 x2) as [->|H|H]; cbn; symmetry.
  - destruct (Z.compare_spec r1 r2) as [->|?|?]; [apply Z.compare_refl|..];
      [apply Z.compare_lt_iff|apply Z.compare_gt_iff]; lia.
  - apply Z.compare_lt_iff. nia.
  - apply Z.compare_gt_iff. nia.
Qed.

Lemma digit_compare d e :
  0 ≤ d < 10 → 0 ≤ e < 10 → Ascii.compare (digit d) (digit e) = (d ?= e).
Proof.
  intros Hd He. unfold Ascii.compare, digit. rewrite !N_ascii_embedding by lia.
  rewrite <- N2Z.inj_compare, !Z2N.id by lia.
  apply Z.add_compare_mono_l.
Qed.

Lemma compare_String c d s t a b :
  String.compare (String c s +:+ a) (String d t +:+ b)
  = cmp_then (Ascii.compare c d) (String.compare (s +:+ a) (t +:+ b)).
Proof. unfold String.app. simpl. by destruct (Ascii.compare c d). Qed.

Lemma pad_compare w n m a b :
  0 ≤ n < 10 ^ Z.of_nat w → 0 ≤ m < 10 ^ Z.of_nat w →
  String.compare (pad w n +:+ a) (pad w m +:+ b) = cmp_then (n ?= m) (String.compare a b).
Proof.
  revert n m. induction w as [|w IH]; intros n m Hn Hm.
  { change (10 ^ Z.of_nat 0) with 1 in *. replace n with 0 by lia. by replace m with 0 by lia. }
  set (p := 10 ^ Z.of_nat w) in *. assert (Hp : 0 < p) by (apply Z.pow_pos_nonneg; lia).
  assert (E : 10 ^ Z.of_nat (S w) = 10 * p).
  { rewrite Nat2Z.inj_succ, Z.pow_succ_r by lia. done. }
  rewrite E in Hn, Hm. cbn [pad]. fold p.
  rewrite compare_String.
  pose proof (Z.mod_pos_bound n p Hp). pose proof (Z.mod_pos_bound m p Hp).
  rewrite digit_compare by (split; [apply Z.div_pos; lia|apply Z.div_lt_upper_bound; lia]).
  rewrite (IH (n mod p) (m mod p)) by done.
  rewrite cmp_then_assoc, (cmp_then_Z p) by done. f_equal.
  rewrite !(Z.mul_comm _ p), <- !Z_div_mod_eq_full. done.
Qed.

(** ** Dates in order *)

(** A date as a number that grows with it. *)
Definition date_key (d : Z) : Z := let '(y, m, dd) := civil d in (y * 100 + m) * 100 + dd.

Lemma date_key_step d : date_key d < date_key (d + 1).
Proof.
  assert (H : ∀ r, 0 ≤ r < 146097 → date_key r < date_key (r + 1)).
  { intros r Hr. apply Z.ltb_lt.
    apply (check_range_spec (λ r, date_key r <? date_key (r + 1)) (Z.to_nat 146097) 0);
      [vm_compute; reflexivity|]. rewrite Z2Nat.id by done. lia. }
  pose proof (Z_div_mod_eq_full d days_per_400_years) as E.
  set (k := d / days_per_400_years) in E. set (r := d mod days_per_400_years) in E.
  assert (Hr : 0 ≤ r < 146097) by (apply (Z.mod_pos_bound d days_per_400_years); done).
  specialize (H r Hr). replace d with (r + k * days_per_400_years) by lia.
  replace (r + k * days_per_400_years + 1) with ((r + 1) + k * days_per_400_years) by lia.
  unfold date_key in *. rewrite !civil_period. destruct (civil r) as [[? ?] ?].
  destruct (civil (r + 1)) as [[? ?] ?]. lia.
Qed.

Lemma date_key_mono d e : d < e → date_key d < date_key e.
Proof.
  intros H. assert (Hk : ∀ k, 0 ≤ k → date_key d < date_key (d + 1 + k)).
  { apply natlike_ind; [rewrite Z.add_0_r; apply date_key_step|].
    intros k Hk IH. etrans; [exact IH|]. rewrite <- Z.add_1_r, Z.add_assoc. apply date_key_step. }
  replace e with (d + 1 + (e - d - 1)) by lia. apply Hk. lia.
Qed.

Lemma date_key_compare d e : (date_key d ?= date_key e) = (d ?= e).
Proof.
  destruct (Z.compare_spec d e) as [->|H|H]; [apply Z.compare_refl|..].
  - by apply Z.compare_lt_iff, date_key_mono.
  - by apply Z.compare_gt_iff, date_key_mono.
Qed.

(** ** [YYYY-MM-DD HH:MM:SS] *)

(** The text of a second of wall-clock time. *)
Definition datetime_text (s : Z) : string :=
  let '(y, m, d) := civil (day_number s) in
  pad 4 y +:+ "-" +:+ pad 2 m +:+ "-" +:+ pad 2 d +:+ " " +:+
  pad 2 (hour_of s) +:+ ":" +:+ pad 2 (minute_of s) +:+ ":" +:+ pad 2 (s `mod` 60).

Example datetime_text_ex :
  datetime_text (Date_UTC 2024 2 29 7 5 9 / Second) = "2024-02-29 07:05:09"%string.
Proof. vm_compute. reflexivity. Qed.

(** The year has four digits. *)
Definition four_digits (s : Z) : Prop := 0 ≤ (civil (day_number s)).1.1 ≤ 9999.

Lemma second_fields s :
  s = day_number s * 86400 + ((hour_of s * 60 + minute_of s) * 60 + s `mod` 60) ∧
  0 ≤ (hour_of s * 60 + minute_of s) * 60 + s `mod` 60 < 86400.
Proof.
  unfold day_number, hour_of, minute_of.
  assert (E2 : s mod 3600 = s mod 86400 mod 3600) by (symmetry; apply Z.mod_mod_divide; by exists 24).
  assert (E3 : s mod 60 = s mod 3600 mod 60) by (symmetry; apply Z.mod_mod_divide; by exists 60).
  pose proof (Z.mod_pos_bound s 86400 ltac:(lia)).
  pose proof (Z_div_mod_eq_full s 86400). pose proof (Z_div_mod_eq_full (s mod 86400) 3600).
  pose proof (Z_div_mod_eq_full (s mod 3600) 60). lia.
Qed.

(** Such texts are in the order of the seconds, whatever follows them. *)
Lemma datetime_text_compare s t a b :
  four_digits s → four_digits t →
  String.compare (datetime_text s +:+ a) (datetime_text t +:+ b) = cmp_then (s ?= t) (String.compare a b).
Proof.
  intros Hs Ht. destruct (second_fields s) as [Es Rs], (second_fields t) as [Et Rt].
  pose proof (date_key_compare (day_number s) (day_number t)) as Hk. unfold date_key in Hk.
  unfold datetime_text, four_digits in *.
  destruct (civil (day_number s)) as [[y m] d] eqn:Cs, (civil (day_number t)) as [[y' m'] d'] eqn:Ct.
  pose proof (civil_range _ _ _ _ Cs) as [Hm Hd]. pose proof (civil_range _ _ _ _ Ct) as [Hm' Hd'].
  pose proof (days_in_month_bounds y m Hm). pose proof (days_in_month_bounds y' m' Hm').
  pose proof (hour_of_range s). pose proof (hour_of_range t).
  pose proof (minute_of_range s). pose proof (minute_of_range t).
  pose proof (Z.mod_pos_bound s 60 ltac:(lia)). pose proof (Z.mod_pos_bound t 60 ltac:(lia)).
  cbn [fst] in *. rewrite <- !append_assoc.
  assert (Hc : ∀ c u v, String.compare (String c "" +:+ u) (String c "" +:+ v) = String.compare u v).
  { intros c u v. rewrite compare_String. unfold Ascii.compare. by rewrite N.compare_refl. }
  do 5 (rewrite pad_compare by (cbn; lia); rewrite Hc). rewrite pad_compare by (cbn; lia).
  rewrite !cmp_then_assoc, (cmp_then_Z 100 y), (cmp_then_Z 100 (y * 100 + m)), Hk by lia.
  rewrite <- !cmp_then_assoc, (cmp_then_assoc (hour_of s ?= _)), (cmp_then_Z 60) by lia.
  rewrite (cmp_then_assoc (_ ?= hour_of t * 60 + minute_of t)), (cmp_then_Z 60) by lia.
  rewrite cmp_then_assoc, (cmp_then_Z 86400), <- Es, <- Et by lia. done.
Qed.
