(* ===== verification/GoStrings.v ===== *)
(** * Packages [strings] and [strconv]: what the program uses of them

    A Go string is a Rocq [string]: a sequence of bytes.  [strings.Fields]
    recognises the Unicode white space of well-formed UTF-8, [strings.Split]
    and [strings.Contains] are used with one-byte separators only, and
    [strconv.Atoi] / [strconv.ParseInt] in base 10 for 64-bit integers. *)
From Stdlib Require Import ZArith Lia Ascii.
From stdpp Require Import base sets list strings pretty.
From S2P Require Import Prelude.
Local Open Scope Z_scope.

Definition byte_at (c : ascii) : nat := nat_of_ascii c.

(** ** [strings.Contains] and [strings.Split] with a one-byte separator *)
Fixpoint Contains (s : string) (sep : ascii) : bool :=
  match s with
  | EmptyString => false
  | String c s' => if decide (c = sep) then true else Contains s' sep
  end.

(** [Split] never returns an empty list; its last element is the text after
    the last separator. *)
Fixpoint Split (s : string) (sep : ascii) : list string :=
  match s with
  | EmptyString => [""%string]
  | String c s' =>
      if decide (c = sep) then ""%string :: Split s' sep
      else match Split s' sep with
           | part :: parts => String c part :: parts
           | [] => [String c ""]
           end
  end.

(** [strings.Join] *)
Fixpoint Join (parts : list string) (sep : string) : string :=
  match parts with
  | [] => ""
  | [p] => p
  | p :: rest => p +:+ sep +:+ Join rest sep
  end.

(** ** [strings.Fields] *)

(** Length in bytes of the white-space rune at the head of [s], or 0: the
    ASCII spaces, U+0085, U+00A0, U+1680, U+2000-200A, U+2028, U+2029, U+202F,
    U+205F and U+3000.  A lead byte is never a continuation byte, so looking
    at every position finds the runes [utf8.DecodeRune] would. *)
Definition space_width (s : string) : nat :=
  match byte_at <$> String.list_ascii_of_string s with
  | [] => 0
  | b0 :: rest =>
      let b1 := nth 0 rest 0 in
      let b2 := nth 1 rest 0 in
      if bool_decide (b0 ∈ [9; 10; 11; 12; 13; 32]) then 1
      else if (b0 =? 194) && ((b1 =? 133) || (b1 =? 160)) then 2
      else if (b0 =? 225) && (b1 =? 154) && (b2 =? 128) then 3
      else if (b0 =? 226) && (b1 =? 128)
              && ((128 <=? b2) && (b2 <=? 138) || (b2 =? 168) || (b2 =? 169) || (b2 =? 175))
           then 3
      else if (b0 =? 226) && (b1 =? 129) && (b2 =? 159) then 3
      else if (b0 =? 227) && (b1 =? 128) && (b2 =? 128) then 3
      else 0
  end%nat.

Definition flush (cur : string) (l : list string) : list string :=
  if decide (cur = ""%string) then l else String.rev cur :: l.

(** [skip] counts the bytes left of the white-space rune being passed over,
    [cur] is the current field, reversed. *)
Fixpoint fields_go (skip : nat) (cur : string) (s : string) : list string :=
  match s with
  | EmptyString => flush cur []
  | String c s' =>
      match skip with
      | S k => fields_go k cur s'
      | O => match space_width s with
             | O => fields_go 0 (String c cur) s'
             | S k => flush cur (fields_go k "" s')
             end
      end
  end.
Definition Fields (s : string) : list string := fields_go 0 "" s.

(** ** [strconv.Atoi] and [strconv.ParseInt] *)
Definition ErrSyntax : error := Sentinel "strconv.ErrSyntax" "invalid syntax".
Definition ErrRange : error := Sentinel "strconv.ErrRange" "value out of range".

Definition dquote : string := String "034" "".
Definition newline : string := String "010" "".

(** [NumError]; the quoted text is exact for printable input. *)
Definition NumError (fn s : string) (e : error) : error :=
  wrap_pre ("strconv." +:+ fn +:+ ": parsing " +:+ dquote +:+ s +:+ dquote +:+ ": ") e.

Definition digit_value (c : ascii) : option Z :=
  let n := Z.of_nat (byte_at c) in
  if (48 <=? n) && (n <=? 57) then Some (n - 48) else None.

(** The loop of [ParseUint]: the accumulator is a [uint64], and the first bad
    byte or the first overflow ends it. *)
Fixpoint parse_digits (acc : Z) (s : string) : result Z :=
  match s with
  | EmptyString => Ok acc
  | String c s' =>
      match digit_value c with
      | None => Err ErrSyntax
      | Some d => if 18446744073709551615 <? acc * 10 + d then Err ErrRange
                  else parse_digits (acc * 10 + d) s'
      end
  end.

Definition strip_sign (s : string) : bool * string :=
  match s with
  | String c s' => if decide (c = "+"%char) then (false, s')
                   else if decide (c = "-"%char) then (true, s') else (false, s)
  | EmptyString => (false, s)
  end.

Definition parse_int (fn s : string) : result Z :=
  let '(neg, digits) := strip_sign s in
  match (if decide (digits = ""%string) then Err ErrSyntax else parse_digits 0 digits) with
  | Err e => Err (NumError fn s e)
  | Ok un =>
      if negb neg && (int64_max <? un) then Err (NumError fn s ErrRange)
      else if neg && (int64_max + 1 <? un) then Err (NumError fn s ErrRange)
      else Ok (if neg then - un else un)
  end.

Definition Atoi (s : string) : result Z := parse_int "Atoi" s.
Definition ParseInt (s : string) : result Z := parse_int "ParseInt" s.

(** ** Facts *)
Lemma Contains_append s1 s2 c : Contains (s1 +:+ s2) c = Contains s1 c || Contains s2 c.
Proof.
  induction s1 as [|a s1 IH]; [done|]. rewrite append_cons. simpl. by case_decide.
Qed.

Lemma Split_nonempty s sep : Split s sep ≠ [].
Proof. destruct s; simpl; repeat case_match; done. Qed.

Lemma Split_no_sep s sep : Contains s sep = false → Split s sep = [s].
Proof.
  induction s as [|c s IH]; simpl; [done|].
  case_decide; [done|]. intros HS. by rewrite IH.
Qed.

Lemma Split_app_sep s1 sep s2 :
  Contains s1 sep = false →
  Split (s1 +:+ String sep s2) sep = s1 :: Split s2 sep.
Proof.
  induction s1 as [|c s1 IH]; rewrite ?append_cons; simpl.
  - by rewrite decide_True.
  - case_decide; [done|]. intros HS. by rewrite IH.
Qed.

(** Splitting what [Join] glued gives the parts back. *)
Lemma Split_Join (parts : list string) (sep : ascii) :
  parts ≠ [] → Forall (λ p, Contains p sep = false) parts →
  Split (Join parts (String sep "")) sep = parts.
Proof.
  induction parts as [|p [|q rest] IH]; intros Hne HF; [done| |].
  - apply Forall_inv in HF. by apply Split_no_sep.
  - apply Forall_cons in HF as [Hp HF].
    change (Join (p :: q :: rest) (String sep ""))
      with (p +:+ String sep (Join (q :: rest) (String sep ""))).
    rewrite Split_app_sep by done. by rewrite IH.
Qed.

(** *** Printed integers parse back *)
Lemma digit_value_range c d : digit_value c = Some d → 0 ≤ d ≤ 9.
Proof.
  unfold digit_value.
  destruct ((48 <=? Z.of_nat (byte_at c)) && (Z.of_nat (byte_at c) <=? 57)) eqn:E;
    intros [= <-].
  apply andb_prop in E as [E1 E2]. lia.
Qed.

Lemma digit_value_char x :
  (x < 10)%N → digit_value (pretty_N_char x) = Some (Z.of_N x).
Proof.
  intros H.
  assert (x = 0 ∨ x = 1 ∨ x = 2 ∨ x = 3 ∨ x = 4 ∨ x = 5 ∨ x = 6 ∨ x = 7
          ∨ x = 8 ∨ x = 9)%N as C by lia.
  repeat (destruct C as [->|C]; [reflexivity|]). by subst.
Qed.

(** The value of a decimal digit string, with no overflow check. *)
Fixpoint decimal_value (acc : Z) (s : string) : option Z :=
  match s with
  | EmptyString => Some acc
  | String c s' => match digit_value c with
                   | None => None
                   | Some d => decimal_value (acc * 10 + d) s'
                   end
  end.

Lemma pretty_N_go_value x s v :
  decimal_value (Z.of_N x) s = Some v →
  decimal_value 0 (pretty_N_go x s) = Some v.
Proof.
  revert s. induction (N.lt_wf_0 x) as [x _ IH]; intros s H.
  assert (x = 0 ∨ 0 < x)%N as [->|Hx] by lia; [done|].
  rewrite pretty_N_go_step by done. apply IH; [by apply N.div_lt|].
  simpl. rewrite digit_value_char by (by apply N.mod_lt).
  rewrite <- H. f_equal.
  pose proof (N.div_mod x 10 ltac:(done)). lia.
Qed.

Lemma pretty_N_value x : decimal_value 0 (pretty x) = Some (Z.of_N x).
Proof.
  unfold pretty, pretty_N. case_decide as E; [by subst|].
  by apply pretty_N_go_value.
Qed.

Lemma decimal_value_mono acc s v :
  0 ≤ acc → decimal_value acc s = Some v → acc ≤ v.
Proof.
  revert acc. induction s as [|c s IH]; intros acc Ha; simpl.
  - intros [= ->]. lia.
  - destruct (digit_value c) as [d|] eqn:E; [|done].
    apply digit_value_range in E. intros H. apply IH in H; lia.
Qed.

Lemma parse_digits_value acc s v :
  0 ≤ acc → decimal_value acc s = Some v → v ≤ 18446744073709551615 →
  parse_digits acc s = Ok v.
Proof.
  revert acc. induction s as [|c s IH]; intros acc Ha; simpl.
  - by intros [= ->].
  - destruct (digit_value c) as [d|] eqn:E; [|done].
    intros H Hv.
    apply digit_value_range in E.
    assert (acc * 10 + d ≤ v) by (eapply decimal_value_mono; [lia|done]).
    replace (18446744073709551615 <? acc * 10 + d) with false by lia.
    apply IH; [lia|done|done].
Qed.

(** Digit strings: every byte is a digit. *)
Fixpoint all_digits (s : string) : bool :=
  match s with
  | EmptyString => true
  | String c s' => match digit_value c with Some _ => all_digits s' | None => false end
  end.

Lemma decimal_value_digits acc s v : decimal_value acc s = Some v → all_digits s = true.
Proof.
  revert acc. induction s as [|c s IH]; intros acc; simpl; [done|].
  destruct (digit_value c); [apply IH|done].
Qed.

Lemma all_digits_no_char s c :
  all_digits s = true → digit_value c = None → Contains s c = false.
Proof.
  induction s as [|a s IH]; simpl; [done|].
  destruct (digit_value a) eqn:E; [|done]. intros H Hc.
  case_decide; [congruence|]. by apply IH.
Qed.

Lemma pretty_N_digits (x : N) : all_digits (pretty x) = true.
Proof. eapply decimal_value_digits, pretty_N_value. Qed.

Lemma pretty_N_nonempty (x : N) : pretty x ≠ ""%string.
Proof.
  intros E. pose proof (pretty_N_value x) as H. rewrite E in H.
  simpl in H. injection H as H. assert (x = 0%N) as -> by lia. done.
Qed.

Lemma strip_sign_digits s : all_digits s = true → strip_sign s = (false, s).
Proof.
  destruct s as [|c s]; simpl; [done|]. intros H.
  repeat case_decide; subst; done.
Qed.

Lemma pretty_Z_nonneg (z : Z) : 0 ≤ z → pretty z = pretty (Z.to_N z).
Proof. destruct z; intros H; [done|done|lia]. Qed.

Lemma Atoi_pretty (z : Z) : 0 ≤ z ≤ int64_max → Atoi (pretty z) = Ok z.
Proof.
  unfold int64_max. intros H. rewrite pretty_Z_nonneg by lia.
  unfold Atoi, parse_int.
  rewrite strip_sign_digits by apply pretty_N_digits.
  rewrite decide_False by apply pretty_N_nonempty.
  rewrite (parse_digits_value 0 _ z); [|lia| |lia].
  - simpl. unfold int64_max. by replace (9223372036854775807 <? z) with false by lia.
  - rewrite pretty_N_value. f_equal. lia.
Qed.

Lemma pretty_Z_no_char (z : Z) c :
  0 ≤ z → digit_value c = None → Contains (pretty z) c = false.
Proof.
  intros Hz Hc. rewrite pretty_Z_nonneg by done.
  apply all_digits_no_char; [apply pretty_N_digits|done].
Qed.

(** What [Atoi] accepts fits in an [int]. *)
Lemma parse_digits_range acc s v :
  0 ≤ acc → parse_digits acc s = Ok v → 0 ≤ v.
Proof.
  revert acc. induction s as [|c s IH]; intros acc Ha; simpl.
  - by intros [= <-].
  - destruct (digit_value c) as [d|] eqn:E; [|done]. case_match; [done|].
    intros HS. apply digit_value_range in E. apply (IH (acc * 10 + d)); [lia|done].
Qed.

Lemma parse_int_in_int64 fn s v : parse_int fn s = Ok v → in_int64 v.
Proof.
  unfold parse_int, in_int64, int64_max, int64_min.
  destruct (strip_sign s) as [neg digits]. case_decide; [done|].
  destruct (parse_digits 0 digits) as [un|] eqn:E; [|done].
  apply parse_digits_range in E; [|lia].
  destruct neg; cbn [negb andb]; repeat case_match; intros [= <-]; lia.
Qed.

Lemma Atoi_in_int64 s v : Atoi s = Ok v → in_int64 v.
Proof. apply parse_int_in_int64. Qed.

(** *** [Fields] of words joined by single spaces *)

(** No byte of the string can start a white-space rune. *)
Fixpoint space_free (s : string) : bool :=
  match s with
  | EmptyString => true
  | String c s' =>
      negb (bool_decide (byte_at c ∈ [9; 10; 11; 12; 13; 32; 194; 225; 226; 227]%nat))
      && space_free s'
  end.

Lemma space_width_free c s :
  byte_at c ∉ [9; 10; 11; 12; 13; 32; 194; 225; 226; 227]%nat →
  space_width (String c s) = 0%nat.
Proof.
  intros H. unfold space_width. cbn [String.list_ascii_of_string fmap list_fmap].
  assert (F : ∀ n, n ∈ [9; 10; 11; 12; 13; 32; 194; 225; 226; 227]%nat →
                   (byte_at c =? n)%nat = false)
    by (intros n Hn; apply Nat.eqb_neq; congruence).
  rewrite bool_decide_false
    by (intros E; apply H; revert E; rewrite !list_elem_of_In; simpl; tauto).
  rewrite !F by (by apply (bool_decide_unpack _)). done.
Qed.

Lemma fields_go_word w cur s :
  space_free w = true →
  fields_go 0 cur (w +:+ s) = fields_go 0 (String.rev_app w cur) s.
Proof.
  revert cur. induction w as [|c w IH]; intros cur H; [done|].
  cbn [space_free] in H. apply andb_prop in H as [Hc Hw].
  apply negb_true_iff, bool_decide_eq_false in Hc.
  rewrite append_cons. cbn [fields_go]. rewrite space_width_free by done.
  rewrite IH by done. done.
Qed.

Lemma rev_app_app s1 s2 : String.rev_app s1 s2 = String.rev_app s1 "" +:+ s2.
Proof.
  revert s2. induction s1 as [|c s1 IH]; intros s2; simpl; [done|].
  rewrite IH, (IH (String c "")). by rewrite <- append_assoc.
Qed.

Lemma rev_app_rev s1 s2 : String.rev (String.rev_app s1 s2) = String.rev s2 +:+ s1.
Proof.
  unfold String.rev. revert s2. induction s1 as [|c s1 IH]; intros s2; simpl.
  - by rewrite append_nil_r.
  - rewrite IH. simpl. rewrite rev_app_app, <- append_assoc. done.
Qed.

Lemma flush_rev w l : w ≠ ""%string → flush (String.rev_app w "") l = w :: l.
Proof.
  intros H. unfold flush. rewrite decide_False.
  - by rewrite rev_app_rev.
  - intros E. apply H. apply (f_equal String.rev) in E.
    by rewrite rev_app_rev in E.
Qed.

Lemma Fields_Join ws :
  Forall (λ w, space_free w = true ∧ w ≠ ""%string) ws →
  Fields (Join ws " ") = ws.
Proof.
  unfold Fields. induction ws as [|w [|w' ws] IH]; intros HF; [done| |].
  - apply Forall_inv in HF as [H1 H2]. simpl.
    rewrite <- (append_nil_r w) at 1.
    rewrite fields_go_word by done. simpl. by apply flush_rev.
  - apply Forall_cons in HF as [[H1 H2] HF].
    change (Join (w :: w' :: ws) " ") with (w +:+ String " " (Join (w' :: ws) " ")).
    rewrite fields_go_word by done. simpl. rewrite flush_rev by done.
    f_equal. by apply IH.
Qed.
