(* ===== verification/Cron.v ===== *)
(** * Cron schedules: [internal/scheduler/cron.go]

    [ParseCron] and [parseCronField] over byte strings, and the
    minute-by-minute search [Next].  The search of the source has no bound;
    here it is cut after [cron_horizon] minutes, 400 Gregorian years, and
    [Next_None_diverges] shows that in a zone with a fixed offset the cut is
    reached exactly when the source's loop runs for ever. *)
From Stdlib Require Import ZArith Lia Ascii.
From stdpp Require Import base gmap sets list strings pretty.
From S2P Require Import Prelude GoTime GoStrings.
Local Open Scope Z_scope.

(** [CronSchedule], internal/scheduler/cron.go 10-17: each field is a Go
    [map[int]bool]. *)
(** @src internal/scheduler/cron.go 10-17 CronSchedule *)
Record CronSchedule := mkCron {
  c_Minute : gmap Z bool;
  c_Hour : gmap Z bool;
  c_Day : gmap Z bool;
  c_Month : gmap Z bool;
  c_Weekday : gmap Z bool;
}.

(** Indexing a Go map: the zero value when the key is missing. *)
Definition idx (m : gmap Z bool) (k : Z) : bool := default false (m !! k).

(** [for i := start; i <= end; i++ { result[i] = true }], the loops of lines
    58-60 and 75-77. *)
(** @src internal/scheduler/cron.go 75-77 parseCronField *)
Definition set_range (start stop : Z) (result : gmap Z bool) : gmap Z bool :=
  foldl (λ m i, <[start + Z.of_nat i := true]> m) result
        (seq 0 (Z.to_nat (stop - start + 1))).

(** One element of the comma-separated list, lines 65-84. *)
(** @src internal/scheduler/cron.go 65-84 parseCronField *)
Definition parse_part (min max : Z) (part : string) (m : gmap Z bool)
  : result (gmap Z bool) :=
  if Contains part "-" then
    match Split part "-" with
    | [p0; p1] =>
        match Atoi p0, Atoi p1 with
        | Ok start, Ok stop =>
            if (stop <? start) || (start <? min) || (max <? stop)
            then Err (ErrorString ("invalid range: " +:+ part))
            else Ok (set_range start stop m)
        | _, _ => Err (ErrorString ("invalid range: " +:+ part))
        end
    | _ => Err (ErrorString ("invalid range: " +:+ part))
    end
  else
    match Atoi part with
    | Ok val => if (val <? min) || (max <? val)
                then Err (ErrorString ("invalid value: " +:+ part))
                else Ok (<[val := true]> m)
    | Err _ => Err (ErrorString ("invalid value: " +:+ part))
    end.

(** The loop [for _, part := range parts]. *)
(** @src internal/scheduler/cron.go 64-86 parseCronField *)
Fixpoint parse_parts (min max : Z) (parts : list string) (m : gmap Z bool)
  : result (gmap Z bool) :=
  match parts with
  | [] => Ok m
  | part :: rest => m' ← parse_part min max part m; parse_parts min max rest m'
  end.

(** @src internal/scheduler/cron.go 54-87 parseCronField *)
Definition parseCronField (field : string) (min max : Z) : result (gmap Z bool) :=
  if decide (field = "*"%string) then Ok (set_range min max ∅)
  else parse_parts min max (Split field ",") ∅.

(** @src internal/scheduler/cron.go 19-52 ParseCron *)
Definition ParseCron (expr : string) : result CronSchedule :=
  match Fields expr with
  | [f0; f1; f2; f3; f4] =>
      minute ← wrap_err "minute: " (parseCronField f0 0 59);
      hour ← wrap_err "hour: " (parseCronField f1 0 23);
      day ← wrap_err "day: " (parseCronField f2 1 31);
      month ← wrap_err "month: " (parseCronField f3 1 12);
      weekday ← wrap_err "weekday: " (parseCronField f4 0 6);
      Ok (mkCron minute hour day month weekday)
  | fields => Err (ErrorString ("invalid cron expression: expected 5 fields, got "
                                +:+ pretty (length fields)))
  end.

(** The test of lines 94-98. *)
(** @src internal/scheduler/cron.go 94-98 Next *)
Definition matches (loc : Location) (c : CronSchedule) (t : Z) : bool :=
  idx (c_Minute c) (t_Minute loc t) &&
  idx (c_Hour c) (t_Hour loc t) &&
  idx (c_Day c) (t_Day loc t) &&
  idx (c_Month c) (t_Month loc t) &&
  idx (c_Weekday c) (t_Weekday loc t).

(** 400 years of minutes. *)
Definition cron_horizon : positive := 210379680.

(** The first instant tried: [after.Add(time.Minute).Truncate(time.Minute)]. *)
(** @src internal/scheduler/cron.go 92-92 Next *)
Definition next_start (after : Z) : Z := Truncate (Add after Minute) Minute.

(** One turn of the loop of lines 93-102. *)
(** @src internal/scheduler/cron.go 93-102 Next *)
Definition next_step (loc : Location) (c : CronSchedule) : Z → Z + Z :=
  walk_step (matches loc c) Minute.

(** The loop of the source has no bound.  [None] is a search that has found
    nothing in 400 years; in a zone with a fixed offset, where the fields repeat
    with that period, it is then one that never returns ([Next_None_diverges]);
    in a zone that changes its offset it is only what it says. *)
(** @src internal/scheduler/cron.go 89-103 Next *)
Definition Next (loc : Location) (c : CronSchedule) (after : Z) : option Z :=
  match iter_until (next_step loc c) cron_horizon (next_start after) with
  | inr t => Some t
  | inl _ => None
  end.

(** ** Maps built by the parser *)
Lemma set_range_lookup start stop m k :
  set_range start stop m !! k =
  if decide (start ≤ k ≤ stop) then Some true else m !! k.
Proof.
  unfold set_range.
  assert (G : ∀ n a (m : gmap Z bool), foldl (λ m i, <[start + Z.of_nat i := true]> m) m (seq a n) !! k
    = if decide (start + Z.of_nat a ≤ k < start + Z.of_nat a + Z.of_nat n)
      then Some true else m !! k).
  { intros n. induction n as [|n IH]; intros a m'; simpl.
    - by rewrite decide_False by lia.
    - rewrite IH. destruct (decide (k = start + Z.of_nat a)) as [->|Hne].
      + rewrite lookup_insert_eq. repeat case_decide; (done || lia).
      + rewrite lookup_insert_ne by done. repeat case_decide; (done || lia). }
  rewrite G. repeat case_decide; (done || lia).
Qed.

(** The map holds only [true], at keys within [min, max]. *)
Definition in_bounds (min max : Z) (m : gmap Z bool) : Prop :=
  ∀ k b, m !! k = Some b → b = true ∧ min ≤ k ≤ max.

Lemma in_bounds_insert min max m k :
  min ≤ k ≤ max → in_bounds min max m → in_bounds min max (<[k := true]> m).
Proof.
  intros Hk Hm k' b. rewrite lookup_insert. case_decide; [|apply Hm].
  intros [= <-]. subst. done.
Qed.

Lemma in_bounds_range min max start stop m :
  min ≤ start → stop ≤ max → in_bounds min max m →
  in_bounds min max (set_range start stop m).
Proof.
  intros H1 H2 Hm k b. rewrite set_range_lookup. case_decide; [|apply Hm].
  intros [= <-]. split; [done|lia].
Qed.

Lemma parse_part_bounds min max part m m' :
  parse_part min max part m = Ok m' → in_bounds min max m →
  in_bounds min max m' ∧ (∀ k, idx m k = true → idx m' k = true)
  ∧ ∃ k, idx m' k = true.
Proof.
  unfold parse_part, idx. intros H Hm. destruct (Contains part "-").
  - destruct (Split part "-") as [|p0 [|p1 [|]]]; try done.
    destruct (Atoi p0) as [start|]; [|done]. destruct (Atoi p1) as [stop|]; [|done].
    destruct ((stop <? start) || (start <? min) || (max <? stop)) eqn:E; [done|].
    injection H as <-. rewrite !orb_false_iff in E. destruct E as [[E1 E2] E3].
    split_and!.
    + apply in_bounds_range; [lia|lia|done].
    + intros k. rewrite set_range_lookup. by case_decide.
    + exists start. rewrite set_range_lookup. by rewrite decide_True by lia.
  - destruct (Atoi part) as [val|]; [|done].
    destruct ((val <? min) || (max <? val)) eqn:E; [done|]. injection H as <-.
    rewrite orb_false_iff in E. destruct E as [E1 E2]. split_and!.
    + apply in_bounds_insert; [lia|done].
    + intros k. rewrite lookup_insert. by case_decide.
    + exists val. by rewrite lookup_insert_eq.
Qed.

Lemma parse_parts_bounds min max parts m m' :
  parse_parts min max parts m = Ok m' → in_bounds min max m →
  in_bounds min max m' ∧ (∀ k, idx m k = true → idx m' k = true)
  ∧ (parts ≠ [] → ∃ k, idx m' k = true).
Proof.
  revert m. induction parts as [|part rest IH]; intros m; simpl.
  - intros [= ->] Hm. done.
  - rewrite bind_Ok. intros (m1 & H1 & H2) Hm.
    apply parse_part_bounds in H1 as (Hb1 & Hmono & k & Hk); [|done].
    apply IH in H2 as (Hb2 & Hmono2 & _); [|done].
    split_and!; [done|auto|]. intros _. eauto.
Qed.

Lemma parseCronField_bounds field min max m :
  min ≤ max → parseCronField field min max = Ok m →
  in_bounds min max m ∧ ∃ k, idx m k = true.
Proof.
  unfold parseCronField. intros Hle. case_decide.
  - intros [= <-]. split.
    + apply in_bounds_range; [lia|lia|]. by intros k b; rewrite lookup_empty.
    + exists min. unfold idx. rewrite set_range_lookup. by rewrite decide_True by lia.
  - intros HP. apply parse_parts_bounds in HP as (Hb & _ & Hne).
    + split; [done|]. apply Hne, Split_nonempty.
    + by intros k b; rewrite lookup_empty.
Qed.

(** Well-formed schedules: what [ParseCron] returns. *)
Record cron_wf (c : CronSchedule) : Prop := {
  wf_minute : in_bounds 0 59 (c_Minute c) ∧ ∃ k, idx (c_Minute c) k = true;
  wf_hour : in_bounds 0 23 (c_Hour c) ∧ ∃ k, idx (c_Hour c) k = true;
  wf_day : in_bounds 1 31 (c_Day c) ∧ ∃ k, idx (c_Day c) k = true;
  wf_month : in_bounds 1 12 (c_Month c) ∧ ∃ k, idx (c_Month c) k = true;
  wf_weekday : in_bounds 0 6 (c_Weekday c) ∧ ∃ k, idx (c_Weekday c) k = true;
}.

Lemma in_bounds_idx min max m k : in_bounds min max m → idx m k = true → min ≤ k ≤ max.
Proof.
  unfold idx. intros Hm H. destruct (m !! k) as [b|] eqn:E; [|done].
  by apply Hm in E as [_ ?].
Qed.

Lemma ParseCron_wf_lemma expr c : ParseCron expr = Ok c → cron_wf c.
Proof.
  unfold ParseCron.
  destruct (Fields expr) as [|f0 [|f1 [|f2 [|f3 [|f4 [|]]]]]]; try done.
  repeat setoid_rewrite bind_Ok. repeat setoid_rewrite wrap_err_Ok.
  intros (mi & H0 & h & H1 & d & H2 & mo & H3 & w & H4 & [= <-]).
  split; simpl; eapply parseCronField_bounds; eauto; lia.
Qed.

(** ** The notation a field accepts

    An abstract reading of the field syntax: a star, or a list of values and
    inclusive ranges, with its printer and its meaning as a set of numbers. *)
Inductive cron_item := CValue (v : Z) | CRange (a b : Z).
Inductive cron_field := CStar | CList (items : list cron_item).

Definition print_item (i : cron_item) : string :=
  match i with
  | CValue v => pretty v
  | CRange a b => pretty a +:+ "-" +:+ pretty b
  end.
Definition print_field (f : cron_field) : string :=
  match f with
  | CStar => "*"
  | CList items => Join (print_item <$> items) ","
  end.

(** Numbers a user can write: unsigned, within [int]. *)
Definition item_printable (i : cron_item) : Prop :=
  match i with
  | CValue v => 0 ≤ v ≤ int64_max
  | CRange a b => 0 ≤ a ≤ int64_max ∧ 0 ≤ b ≤ int64_max
  end.
Definition field_printable (f : cron_field) : Prop :=
  match f with
  | CStar => True
  | CList items => items ≠ [] ∧ Forall item_printable items
  end.

(** Items the bounds allow. *)
Definition item_ok (min max : Z) (i : cron_item) : bool :=
  match i with
  | CValue v => (min <=? v) && (v <=? max)
  | CRange a b => (a <=? b) && (min <=? a) && (b <=? max)
  end.
Definition field_ok (min max : Z) (f : cron_field) : bool :=
  match f with
  | CStar => true
  | CList items => forallb (item_ok min max) items
  end.

Definition item_denotes (i : cron_item) (k : Z) : bool :=
  match i with
  | CValue v => k =? v
  | CRange a b => (a <=? k) && (k <=? b)
  end.
Definition field_denotes (min max : Z) (f : cron_field) (k : Z) : bool :=
  match f with
  | CStar => (min <=? k) && (k <=? max)
  | CList items => existsb (λ i, item_denotes i k) items
  end.

Lemma parse_part_print min max i m :
  item_printable i →
  if item_ok min max i
  then ∃ m', parse_part min max (print_item i) m = Ok m' ∧
             ∀ k, idx m' k = idx m k || item_denotes i k
  else is_ok (parse_part min max (print_item i) m) = false.
Proof.
  unfold parse_part. destruct i as [v|a b]; simpl; intros Hp.
  - rewrite pretty_Z_no_char by (done || lia). rewrite Atoi_pretty by lia.
    destruct (Z.leb_spec min v), (Z.leb_spec v max); simpl.
    2-4: by replace ((v <? min) || (max <? v)) with true by lia.
    replace ((v <? min) || (max <? v)) with false by lia.
    eexists; split; [done|]. intros k. unfold idx. rewrite lookup_insert.
    case_decide; [subst|]; simpl.
    + by rewrite Z.eqb_refl, orb_true_r.
    + by replace (k =? v) with false by lia; rewrite orb_false_r.
  - destruct Hp as [Ha Hb].
    change (pretty a +:+ "-" +:+ pretty b) with (pretty a +:+ String "-" (pretty b)).
    rewrite Contains_append. cbn [Contains]. rewrite decide_True, orb_true_r by done.
    rewrite Split_app_sep by (apply pretty_Z_no_char; (done || lia)).
    rewrite Split_no_sep by (apply pretty_Z_no_char; (done || lia)).
    rewrite !Atoi_pretty by lia.
    destruct ((a <=? b) && (min <=? a) && (b <=? max)) eqn:E.
    + rewrite !andb_true_iff in E. destruct E as [[E1 E2] E3].
      replace ((b <? a) || (a <? min) || (max <? b)) with false by lia.
      eexists; split; [done|]. intros k. unfold idx. rewrite set_range_lookup.
      case_decide.
      * by replace ((a <=? k) && (k <=? b)) with true by lia; rewrite orb_true_r.
      * by replace ((a <=? k) && (k <=? b)) with false by lia; rewrite orb_false_r.
    + by replace ((b <? a) || (a <? min) || (max <? b)) with true by lia.
Qed.

Lemma parse_parts_print min max items m :
  Forall item_printable items →
  if forallb (item_ok min max) items
  then ∃ m', parse_parts min max (print_item <$> items) m = Ok m' ∧
             ∀ k, idx m' k = idx m k || existsb (λ i, item_denotes i k) items
  else is_ok (parse_parts min max (print_item <$> items) m) = false.
Proof.
  revert m. induction items as [|i items IH]; intros m HF;
    rewrite ?fmap_cons; cbn [forallb existsb parse_parts].
  - exists m. split; [done|]. intros k. by rewrite orb_false_r.
  - apply Forall_cons in HF as [Hi HF].
    pose proof (parse_part_print min max i m Hi) as H1.
    destruct (item_ok min max i); simpl.
    + destruct H1 as (m1 & -> & Hd). cbn [mbind result_bind]. specialize (IH m1 HF).
      destruct (forallb _ items); [|done].
      destruct IH as (m2 & -> & Hd2). exists m2. split; [done|].
      intros k. by rewrite Hd2, Hd, orb_assoc.
    + by destruct (parse_part _ _ _ _).
Qed.

Lemma print_item_no_comma i : item_printable i → Contains (print_item i) "," = false.
Proof.
  destruct i as [v|a b]; simpl.
  - intros H. apply pretty_Z_no_char; (done || lia).
  - intros [H1 H2]. rewrite !Contains_append.
    rewrite !pretty_Z_no_char by (done || lia). done.
Qed.

Lemma print_item_not_star i s : item_printable i → print_item i +:+ s ≠ "*"%string.
Proof.
  intros Hi E.
  assert (N : ∀ z t, 0 ≤ z → pretty z +:+ t ≠ "*"%string).
  { intros z t Hz E1. pose proof (pretty_Z_no_char z "*" Hz eq_refl) as Hc.
    rewrite pretty_Z_nonneg in * by done.
    destruct (pretty (Z.to_N z)) as [|c r] eqn:P; [by apply (pretty_N_nonempty (Z.to_N z))|].
    rewrite append_cons in E1. injection E1 as -> _. cbn [Contains] in Hc.
    by rewrite decide_True in Hc. }
  destruct i as [v|a b]; simpl in *; [|rewrite <- append_assoc in E];
    eapply N; [|exact E| |exact E]; lia.
Qed.

Lemma print_field_list items :
  items ≠ [] → Forall item_printable items →
  print_field (CList items) ≠ "*"%string ∧
  Split (print_field (CList items)) "," = print_item <$> items.
Proof.
  intros Hne HF. split.
  - destruct items as [|i [|i' rest]]; [done| |]; apply Forall_cons in HF as [Hi _].
    + simpl. rewrite <- (append_nil_r (print_item i)). by apply print_item_not_star.
    + by apply print_item_not_star.
  - apply Split_Join.
    + by destruct items.
    + apply Forall_fmap. eapply Forall_impl; [done|].
      intros i Hi. by apply print_item_no_comma.
Qed.

(** A printed field is accepted exactly when its numbers respect the bounds,
    and then the map holds exactly the numbers it denotes. *)
Lemma parseCronField_print f min max :
  min ≤ max → field_printable f →
  if field_ok min max f
  then ∃ m, parseCronField (print_field f) min max = Ok m ∧
            ∀ k, idx m k = field_denotes min max f k
  else is_ok (parseCronField (print_field f) min max) = false.
Proof.
  intros Hle Hp. unfold parseCronField. destruct f as [|items].
  - simpl. eexists; split; [done|]. intros k. unfold idx. rewrite set_range_lookup.
    rewrite lookup_empty. case_decide; simpl; lia.
  - destruct Hp as [Hne HF]. destruct (print_field_list items Hne HF) as [Hs Hsp].
    rewrite decide_False, Hsp by done.
    exact (parse_parts_print min max items ∅ HF).
Qed.

(** Printed fields contain no white space. *)
Lemma space_free_append s t : space_free (s +:+ t) = space_free s && space_free t.
Proof.
  induction s as [|c s IH]; [done|]. rewrite append_cons. cbn [space_free].
  by rewrite IH, andb_assoc.
Qed.

Lemma all_digits_space_free s : all_digits s = true → space_free s = true.
Proof.
  induction s as [|c s IH]; [done|]. cbn [all_digits space_free].
  destruct (digit_value c) eqn:E; [|done]. intros H. rewrite IH by done.
  rewrite andb_true_r. apply negb_true_iff, bool_decide_eq_false.
  unfold digit_value in E. intros Hin.
  destruct ((48 <=? Z.of_nat (byte_at c)) && (Z.of_nat (byte_at c) <=? 57)) eqn:R; [|done].
  apply andb_prop in R as [R1 R2]. rewrite !list_elem_of_In in Hin. simpl in Hin. lia.
Qed.

Lemma print_field_word f :
  field_printable f → space_free (print_field f) = true ∧ print_field f ≠ ""%string.
Proof.
  assert (P : ∀ z, 0 ≤ z → space_free (pretty z) = true).
  { intros z Hz. rewrite pretty_Z_nonneg by done. apply all_digits_space_free, pretty_N_digits. }
  assert (I : ∀ i, item_printable i → space_free (print_item i) = true).
  { intros [v|a b]; simpl; intros H; rewrite ?space_free_append, ?P by lia; done. }
  destruct f as [|items]; simpl; [done|]. intros [Hne HF]. split.
  - clear Hne. induction HF as [|i [|i' rest] Hi HF IH]; [done| |].
    + by apply I.
    + change (Join (print_item <$> i :: i' :: rest) ",")
        with (print_item i +:+ "," +:+ Join (print_item <$> i' :: rest) ",").
      rewrite !space_free_append, I, IH by done. done.
  - assert (N : ∀ z, 0 ≤ z → pretty z ≠ ""%string)
      by (intros z Hz; rewrite pretty_Z_nonneg by done; apply pretty_N_nonempty).
    assert (E : ∀ s t, s ≠ ""%string → s +:+ t ≠ ""%string) by (by intros [|??]).
    assert (NI : ∀ i, item_printable i → print_item i ≠ ""%string).
    { intros [v|a b]; simpl; intros H; [apply N; lia|apply E, N; lia]. }
    destruct items as [|i [|i' rest]]; [done| |]; apply Forall_cons in HF as [Hi _];
      [by apply NI|]. by apply E, NI.
Qed.

(** ** The search *)
Definition boundary (t : Z) : Prop := t `mod` Minute = 0.

Lemma Minute_pos : 0 < Minute.
Proof. done. Qed.

Lemma next_start_spec after :
  boundary (next_start after) ∧ after < next_start after ≤ after + Minute.
Proof.
  unfold next_start, Truncate, Add, boundary.
  destruct (Minute <=? 0) eqn:E; [done|].
  pose proof (Z.mod_pos_bound (after + Minute) Minute Minute_pos).
  pose proof (Z.div_mod (after + Minute) Minute ltac:(done)) as D.
  split; [|lia].
  replace (after + Minute - (after + Minute) `mod` Minute)
    with ((after + Minute) / Minute * Minute) by lia.
  by apply Z_mod_mult.
Qed.

(** The minute boundaries after [after] are the points of the walk. *)
Lemma boundary_walk after u :
  boundary u → after < u → ∃ j : nat, u = next_start after + Z.of_nat j * Minute.
Proof.
  intros Hu Hlt. destruct (next_start_spec after) as [Hs [H1 H2]].
  unfold boundary in *.
  pose proof (Z.div_mod u Minute ltac:(done)) as Du.
  pose proof (Z.div_mod (next_start after) Minute ltac:(done)) as Ds.
  rewrite Hu in Du. rewrite Hs in Ds.
  pose proof Minute_pos.
  exists (Z.to_nat (u / Minute - next_start after / Minute)).
  rewrite Z2Nat.id; nia.
Qed.

Lemma walk_boundary after (j : nat) :
  boundary (next_start after + Z.of_nat j * Minute) ∧
  after < next_start after + Z.of_nat j * Minute.
Proof.
  destruct (next_start_spec after) as [Hs [H1 H2]]. pose proof Minute_pos. split; [|nia].
  unfold boundary in *. by rewrite Z.mod_add.
Qed.

(** [t] is the first minute boundary after [after] that matches. *)
Definition first_match (loc : Location) (c : CronSchedule) (after t : Z) : Prop :=
  after < t ∧ boundary t ∧ matches loc c t = true ∧
  ∀ u, after < u < t → boundary u → matches loc c u = false.

Lemma Next_Some_walk loc c after t :
  Next loc c after = Some t ↔
  ∃ k : nat, (k < Pos.to_nat cron_horizon)%nat ∧
    t = next_start after + Z.of_nat k * Minute ∧ matches loc c t = true ∧
    ∀ j : nat, (j < k)%nat →
      matches loc c (next_start after + Z.of_nat j * Minute) = false.
Proof.
  unfold Next, next_step. rewrite iter_until_nat, <- walk_found.
  split; [|by intros ->].
  destruct (iter_nat _ _ _); [done|]. by intros [= ->].
Qed.

Lemma Next_first_lemma loc c after t : Next loc c after = Some t → first_match loc c after t.
Proof.
  rewrite Next_Some_walk. intros (k & _ & -> & Hm & Hmin).
  destruct (walk_boundary after k) as [Hb Hlt]. split_and!; [done|done|done|].
  intros u [H1 H2] Hu. destruct (boundary_walk after u Hu H1) as [j ->].
  apply Hmin. pose proof Minute_pos. nia.
Qed.

Lemma first_match_unique loc c after t u :
  first_match loc c after t → first_match loc c after u → t = u.
Proof.
  intros (H1 & B1 & M1 & N1) (H2 & B2 & M2 & N2).
  destruct (Z.lt_trichotomy t u) as [L|[E|L]]; [|done|].
  - rewrite N2 in M1; [done|lia|done].
  - rewrite N1 in M2; [done|lia|done].
Qed.

(** A first match less than 400 years away is found. *)
Lemma Next_intro loc c after t :
  first_match loc c after t → t < next_start after + Zpos cron_horizon * Minute →
  Next loc c after = Some t.
Proof.
  intros (H1 & Hb & Hm & Hmin) Hnear. apply Next_Some_walk.
  destruct (boundary_walk after t Hb H1) as [k ->]. exists k.
  pose proof Minute_pos. split_and!; [nia|done|done|].
  intros j Hj. destruct (walk_boundary after j) as [Hbj Hlj].
  apply Hmin; [|done]. split; [done|nia].
Qed.

(** ** Zones with a fixed offset: the fields repeat every 400 years *)
Definition fixed_zone (loc : Location) (off : Z) : Prop := ∀ t, loc t = off.

Definition period : Z := Zpos cron_horizon * Minute.

Lemma abs_sec_period loc off t k :
  fixed_zone loc off →
  abs_sec loc (t + k * period) = abs_sec loc t + k * (days_per_400_years * 86400).
Proof.
  intros Hz. unfold abs_sec. rewrite !Hz.
  replace (t + k * period) with (t + (k * (days_per_400_years * 86400)) * Second)
    by (unfold period, cron_horizon, Minute, Second, days_per_400_years; lia).
  rewrite Z.div_add by done. lia.
Qed.

Lemma mod_add_mult a b m q : m ≠ 0 → b = q * m → (a + b) `mod` m = a `mod` m.
Proof. intros Hm ->. by apply Z.mod_add. Qed.

Lemma matches_period loc off c t k :
  fixed_zone loc off → matches loc c (t + k * period) = matches loc c t.
Proof.
  intros Hz. unfold matches, t_Minute, t_Hour, t_Day, t_Month, t_Weekday.
  rewrite (abs_sec_period loc off) by done. set (s := abs_sec loc t).
  assert (D : day_number (s + k * (days_per_400_years * 86400))
              = day_number s + k * days_per_400_years).
  { unfold day_number. rewrite Z.mul_assoc. by apply Z.div_add. }
  rewrite D, day_of_day_period, month_of_day_period, weekday_period.
  unfold minute_of, hour_of.
  rewrite (mod_add_mult s _ 3600 (k * days_per_400_years * 24)) by lia.
  rewrite (mod_add_mult s _ 86400 (k * days_per_400_years)) by lia.
  done.
Qed.

Lemma matches_horizon loc off c k t :
  fixed_zone loc off → matches loc c (t + k * (Zpos cron_horizon * Minute)) = matches loc c t.
Proof. apply matches_period. Qed.

Lemma Next_None_walk loc c after :
  Next loc c after = None →
  ∃ s, iter_nat (next_step loc c) (Pos.to_nat cron_horizon) (next_start after) = inl s.
Proof.
  unfold Next. rewrite iter_until_nat. destruct (iter_nat _ _ _); [eauto|done].
Qed.

Lemma Next_None_never loc off c after :
  fixed_zone loc off → Next loc c after = None →
  ∀ u, boundary u → after < u → matches loc c u = false.
Proof.
  intros Hz HN u Hu Hlt. apply Next_None_walk in HN as [s E].
  destruct (boundary_walk after u Hu Hlt) as [j ->].
  eapply walk_periodic; [|exact E]. intros k x. by apply (matches_horizon loc off).
Qed.

(** The loop of [Next] never returns. *)
Definition Next_diverges (loc : Location) (c : CronSchedule) (after : Z) : Prop :=
  ∀ n, ∃ s, iter_nat (next_step loc c) n (next_start after) = inl s.

Lemma never_diverges loc c after :
  (∀ u, boundary u → after < u → matches loc c u = false) → Next_diverges loc c after.
Proof.
  intros H n. apply walk_diverges. intros j.
  destruct (walk_boundary after j). by apply H.
Qed.

Lemma diverges_None loc c after : Next_diverges loc c after → Next loc c after = None.
Proof.
  intros H. unfold Next. rewrite iter_until_nat.
  destruct (H (Pos.to_nat cron_horizon)) as [s ->]. done.
Qed.

Lemma Next_None_diverges loc off c after :
  fixed_zone loc off → Next loc c after = None → Next_diverges loc c after.
Proof. intros Hz HN. by eapply never_diverges, Next_None_never. Qed.

(** ** Dates *)

(** The day numbered [d] satisfies the day, month and weekday fields. *)
Definition date_matches (c : CronSchedule) (d : Z) : bool :=
  idx (c_Day c) (day_of_day d) && idx (c_Month c) (month_of_day d)
  && idx (c_Weekday c) (weekday_of d).

Lemma matches_date loc c t :
  matches loc c t = true → date_matches c (day_number (abs_sec loc t)) = true.
Proof. unfold matches, date_matches, t_Day, t_Month, t_Weekday. rewrite !andb_true_iff. tauto. Qed.

(** If some date matches, so does some minute boundary after any instant. *)
Lemma date_matches_later loc off c after d :
  fixed_zone loc off → cron_wf c → date_matches c d = true →
  ∃ u, boundary u ∧ after < u ∧ matches loc c u = true.
Proof.
  intros Hz Hwf Hd.
  destruct (wf_minute c Hwf) as [Bm [m Hm]]. destruct (wf_hour c Hwf) as [Bh [h Hh]].
  pose proof (in_bounds_idx _ _ _ _ Bm Hm). pose proof (in_bounds_idx _ _ _ _ Bh Hh).
  set (r := off `mod` 60). pose proof (Z.mod_pos_bound off 60 ltac:(lia)).
  (* a copy of day [d] far enough in the future *)
  set (k := Z.max 0 (after / Second + off) + Z.max 0 (- d) + 1).
  set (d' := d + k * days_per_400_years).
  set (s := ((d' * 24 + h) * 60 + m) * 60 + r).
  assert (Hs : s - off > after / Second).
  { unfold s, d', days_per_400_years. assert (0 ≤ r) by lia. subst k. lia. }
  exists ((s - off) * Second).
  assert (A : abs_sec loc ((s - off) * Second) = s).
  { unfold abs_sec. rewrite Hz, Z.div_mul by done. lia. }
  split_and!.
  - unfold boundary, Minute.
    replace (s - off) with ((((d' * 24 + h) * 60 + m) - off / 60) * 60)
      by (unfold s, r; pose proof (Z.div_mod off 60 ltac:(lia)); lia).
    rewrite <- Z.mul_assoc. by apply Z_mod_mult.
  - pose proof (Z.mul_succ_div_gt after Second ltac:(done)). unfold Second in *. lia.
  - unfold matches, t_Minute, t_Hour, t_Day, t_Month, t_Weekday. rewrite A.
    destruct (fields_of_second d' h m r ltac:(lia) ltac:(lia) ltac:(lia)) as (E1 & E2 & E3).
    fold s in E1, E2, E3. rewrite E1, E2, E3.
    unfold d'. rewrite day_of_day_period, month_of_day_period, weekday_period.
    rewrite Hm, Hh. unfold date_matches in Hd. rewrite !andb_true_iff in *. tauto.
Qed.

(** The schedule names only days its months do not have. *)
Definition no_such_date (c : CronSchedule) : Prop :=
  ∀ dd mm, idx (c_Day c) dd = true → idx (c_Month c) mm = true →
    month_length true mm < dd.

Lemma no_such_date_matches c d : no_such_date c → date_matches c d = false.
Proof.
  intros H. unfold date_matches.
  destruct (idx (c_Day c) (day_of_day d)) eqn:E1; [|done].
  destruct (idx (c_Month c) (month_of_day d)) eqn:E2; [|done].
  specialize (H _ _ E1 E2). pose proof (day_of_day_month_bound d) as B.
  unfold month_length in H. rewrite andb_true_r in H. lia.
Qed.

Lemma no_such_date_diverges loc c after : no_such_date c → Next_diverges loc c after.
Proof.
  intros H. apply never_diverges. intros u _ _.
  destruct (matches loc c u) eqn:E; [|done].
  apply matches_date in E. by rewrite no_such_date_matches in E.
Qed.

(** ** Properties *)

(** C1: [Next] returns the first minute boundary strictly after [after] whose
    minute, hour, day, month and weekday, in the zone of the argument, are
    all in the schedule: nothing earlier is skipped. *)
Theorem Next_first (loc : Location) (c : CronSchedule) (after t : Z) :
  Next loc c after = Some t →
  after < t ∧ boundary t ∧ matches loc c t = true ∧
  ∀ u, after < u < t → boundary u → matches loc c u = false.
Proof. exact (Next_first_lemma loc c after t). Qed.

Definition cron_of (expr : string) : CronSchedule :=
  match ParseCron expr with Ok c => c | Err _ => mkCron ∅ ∅ ∅ ∅ ∅ end.

Lemma no_such_date_feb30 : no_such_date (cron_of "0 0 30 2 *").
Proof.
  intros dd mm H1 H2. unfold idx in *.
  assert (E1 : c_Day (cron_of "0 0 30 2 *") = {[30 := true]}) by (vm_compute; reflexivity).
  assert (E2 : c_Month (cron_of "0 0 30 2 *") = {[2 := true]}) by (vm_compute; reflexivity).
  rewrite E1 in H1. rewrite E2 in H2.
  destruct (decide (dd = 30)) as [->|N1]; [|rewrite lookup_singleton_ne in H1; done].
  destruct (decide (mm = 2)) as [->|N2]; [|rewrite lookup_singleton_ne in H2; done].
  reflexivity.
Qed.

Lemma Next_first_witness :
  let c := cron_of "30 * * * *" in
  let t := Date_UTC 2024 1 1 0 30 0 in
  Date_UTC 2024 1 1 0 0 0 < t ∧ boundary t ∧ matches UTC c t = true ∧
  ∀ u, Date_UTC 2024 1 1 0 0 0 < u < t → boundary u → matches UTC c u = false.
Proof.
  intros c t. apply (Next_first UTC c (Date_UTC 2024 1 1 0 0 0) t).
  vm_compute. reflexivity.
Defined.

(** C36: for a schedule [ParseCron] can return, in a zone with a fixed offset,
    the loop of [Next] returns if and only if some calendar day has a day, a
    month and a weekday of the schedule, and otherwise it runs for ever, for
    every starting instant. *)
Theorem Next_terminates_iff (loc : Location) (off : Z) (c : CronSchedule) (after : Z) :
  fixed_zone loc off → cron_wf c →
  ((∃ d, date_matches c d = true) → ∃ t, Next loc c after = Some t) ∧
  ((∀ d, date_matches c d = false) → Next_diverges loc c after).
Proof.
  intros Hz Hwf. split.
  - intros [d Hd].
    destruct (date_matches_later loc off c after d Hz Hwf Hd) as (u & Hb & Hlt & Hu).
    destruct (Next loc c after) as [t|] eqn:E; [eauto|].
    by rewrite (Next_None_never loc off c after Hz E u Hb Hlt) in Hu.
  - intros H. apply never_diverges. intros u _ _.
    destruct (matches loc c u) eqn:E; [|done].
    apply matches_date in E. by rewrite H in E.
Qed.

Lemma Next_terminates_iff_witness :
  ∃ t, Next UTC (cron_of "0 0 29 2 *") (Date_UTC 2025 1 1 0 0 0) = Some t.
Proof.
  apply (Next_terminates_iff UTC 0 (cron_of "0 0 29 2 *") (Date_UTC 2025 1 1 0 0 0)).
  - intros t. reflexivity.
  - apply (ParseCron_wf_lemma "0 0 29 2 *"). vm_compute. reflexivity.
  - exists (days_since_origin 2028 2 29). vm_compute. reflexivity.
Defined.

(** A schedule that [ParseCron] accepts but that names only days its
    months never have, such as February 30, makes [Next] loop for ever, in
    any zone and from any instant. *)
Theorem Next_no_such_date_diverges (loc : Location) (expr : string) (c : CronSchedule) (after : Z) :
  ParseCron expr = Ok c → no_such_date c → Next_diverges loc c after.
Proof. intros _ H. by apply no_such_date_diverges. Qed.

Lemma Next_no_such_date_diverges_witness :
  Next_diverges UTC (cron_of "0 0 30 2 *") 0.
Proof.
  apply (Next_no_such_date_diverges UTC "0 0 30 2 *" (cron_of "0 0 30 2 *") 0).
  - vm_compute. reflexivity.
  - exact no_such_date_feb30.
Defined.

(** a schedule returned by [ParseCron] has five non-empty fields, each
    within the bounds of its unit (minutes 0-59, hours 0-23, days 1-31,
    months 1-12, weekdays 0-6). *)
Theorem ParseCron_wf (expr : string) (c : CronSchedule) : ParseCron expr = Ok c → cron_wf c.
Proof. exact (ParseCron_wf_lemma expr c). Qed.

Lemma ParseCron_wf_witness : cron_wf (cron_of "1,15,30 0,12 1-15 1,6,12 0,3,6").
Proof.
  apply (ParseCron_wf "1,15,30 0,12 1-15 1,6,12 0,3,6"). vm_compute. reflexivity.
Defined.

(** C14: printing five fields (stars, or lists of values and ranges) with
    single spaces and parsing the result succeeds exactly when every number
    respects the bounds of its field and no range is reversed, and then each
    map holds exactly the numbers its field denotes. *)
Theorem ParseCron_print (f0 f1 f2 f3 f4 : cron_field) :
  Forall field_printable [f0; f1; f2; f3; f4] →
  let r := ParseCron (Join (print_field <$> [f0; f1; f2; f3; f4]) " ") in
  if field_ok 0 59 f0 && field_ok 0 23 f1 && field_ok 1 31 f2 && field_ok 1 12 f3
     && field_ok 0 6 f4
  then ∃ c, r = Ok c ∧
    (∀ k, idx (c_Minute c) k = field_denotes 0 59 f0 k) ∧
    (∀ k, idx (c_Hour c) k = field_denotes 0 23 f1 k) ∧
    (∀ k, idx (c_Day c) k = field_denotes 1 31 f2 k) ∧
    (∀ k, idx (c_Month c) k = field_denotes 1 12 f3 k) ∧
    (∀ k, idx (c_Weekday c) k = field_denotes 0 6 f4 k)
  else is_ok r = false.
Proof.
  intros HF r.
  assert (Fields (Join (print_field <$> [f0; f1; f2; f3; f4]) " ")
          = print_field <$> [f0; f1; f2; f3; f4]) as E.
  { apply Fields_Join, Forall_fmap. eapply Forall_impl; [exact HF|].
    intros f Hf. by apply print_field_word. }
  unfold r, ParseCron. rewrite E. cbn [fmap list_fmap].
  rewrite !Forall_cons in HF. destruct HF as (P0 & P1 & P2 & P3 & P4 & _).
  pose proof (parseCronField_print f0 0 59 ltac:(lia) P0) as H0.
  pose proof (parseCronField_print f1 0 23 ltac:(lia) P1) as H1.
  pose proof (parseCronField_print f2 1 31 ltac:(lia) P2) as H2.
  pose proof (parseCronField_print f3 1 12 ltac:(lia) P3) as H3.
  pose proof (parseCronField_print f4 0 6 ltac:(lia) P4) as H4.
  destruct (field_ok 0 59 f0); [destruct H0 as (m0 & -> & D0)|]; cbn;
    [|by destruct (parseCronField _ _ _)].
  destruct (field_ok 0 23 f1); [destruct H1 as (m1 & -> & D1)|]; cbn;
    [|by destruct (parseCronField _ _ _)].
  destruct (field_ok 1 31 f2); [destruct H2 as (m2 & -> & D2)|]; cbn;
    [|by destruct (parseCronField _ _ _)].
  destruct (field_ok 1 12 f3); [destruct H3 as (m3 & -> & D3)|]; cbn;
    [|by destruct (parseCronField _ _ _)].
  destruct (field_ok 0 6 f4); [destruct H4 as (m4 & -> & D4)|]; cbn;
    [|by destruct (parseCronField _ _ _)].
  eexists. split_and!; done.
Qed.

Lemma ParseCron_print_witness :
  is_ok (ParseCron "60 * * * *") = false.
Proof.
  apply (ParseCron_print (CList [CValue 60]) CStar CStar CStar CStar).
  repeat constructor; try done; unfold int64_max; lia.
Defined.
