(* ===== verification/GoFloat.v ===== *)
(** * [float64]: what the program uses of it

    Binary64 numbers and their operations are those of the Standard Library's
    [SpecFloat], rounded to nearest, ties to even.  On top of it: conversions,
    [strconv.ParseFloat] of a decimal literal, and [time.ParseDuration], which
    computes fractions of a unit in [float64]. *)
From Stdlib Require Import ZArith Lia Ascii Floats.SpecFloat.
From stdpp Require Import base list strings pretty.
From S2P Require Import Prelude GoTime GoStrings.
Local Open Scope Z_scope.

Definition float64_of_Z (n : Z) : spec_float := binary_normalize 53 1024 n 0 false.
Definition fmul : spec_float → spec_float → spec_float := SFmul 53 1024.
Definition fdiv : spec_float → spec_float → spec_float := SFdiv 53 1024.

(** Truncation towards zero; 0 for what is not finite. *)
Definition int64_of_float (f : spec_float) : Z :=
  match f with
  | S754_finite s m e =>
      let v := if e <? 0 then Z.pos m / 2 ^ (- e) else Z.pos m * 2 ^ e in
      if s then - v else v
  | _ => 0
  end.

(** ** [strconv.ParseFloat] of a decimal literal

    The digits as an integer, the number of them after the point, and the
    exponent.  The value is rounded once, from the exact quotient; a value of
    10^400 or more is out of range and one below 10^-400 is zero, so that
    powers of ten stay small. *)
Record decimal := mkDecimal { d_neg : bool; d_mantissa : Z; d_digits : Z; d_exp : Z }.

Fixpoint scan_digits (after_point : bool) (acc digits exp : Z) (s : string) : Z * Z * Z * string :=
  match s with
  | String c r =>
      match digit_value c with
      | Some d => scan_digits after_point (acc * 10 + d) (digits + 1)
                    (if after_point then exp - 1 else exp) r
      | None => (acc, digits, exp, s)
      end
  | EmptyString => (acc, digits, exp, s)
  end.

Definition scan_decimal (s : string) : option decimal :=
  let '(neg, s) := strip_sign s in
  let '(m, n, _, s) := scan_digits false 0 0 0 s in
  let '(m, n, e, s) :=
    match s with
    | String c r => if decide (c = "."%char) then scan_digits true m n 0 r else (m, n, 0, s)
    | EmptyString => (m, n, 0, s)
    end in
  if n =? 0 then None
  else match s with
  | EmptyString => Some (mkDecimal neg m n e)
  | String c r =>
      if decide (c = "e"%char ∨ c = "E"%char) then
        let '(eneg, r) := strip_sign r in
        match scan_digits false 0 0 0 r with
        | (x, k, _, EmptyString) =>
            if k =? 0 then None else Some (mkDecimal neg m n (e + if eneg then - x else x))
        | _ => None
        end
      else None
  end.

Definition round_decimal (d : decimal) : spec_float :=
  let s := d_neg d in
  match d_mantissa d with
  | Z.pos m =>
      if 400 <? d_exp d then S754_infinity s
      else if d_exp d + d_digits d <? - 400 then S754_zero s
      else if 0 <=? d_exp d
      then binary_normalize 53 1024 ((if s then Z.neg m else Z.pos m) * 10 ^ d_exp d) 0 s
      else fdiv (S754_finite s m 0) (S754_finite false (Z.to_pos (10 ^ (- d_exp d))) 0)
  | _ => S754_zero s
  end.

Definition ParseFloat (s : string) : result spec_float :=
  match scan_decimal s with
  | None => Err (NumError "ParseFloat" s ErrSyntax)
  | Some d => match round_decimal d with
              | S754_infinity _ => Err (NumError "ParseFloat" s ErrRange)
              | f => Ok f
              end
  end.

Example ParseFloat_examples :
  ParseFloat "0.1" = Ok (S754_finite false 7205759403792794 (-56)) ∧
  ParseFloat "-2.5e+3" = Ok (S754_finite true 5497558138880000 (-41)) ∧
  ParseFloat "9007199254740993" = Ok (S754_finite false 4503599627370496 1) ∧
  ParseFloat "4.9e-324" = Ok (S754_finite false 1 (-1074)) ∧
  ParseFloat "1e999" = Err (NumError "ParseFloat" "1e999" ErrRange).
Proof. vm_compute. by split_and!. Qed.

(** ** [time.ParseDuration] *)

Definition two63 : Z := 9223372036854775808.
Definition two64 : Z := 18446744073709551616.

(** [leadingInt]: [None] on overflow. *)
Fixpoint leadingInt (x : Z) (s : string) : option (Z * string) :=
  match s with
  | String c r =>
      match digit_value c with
      | Some d => if two63 / 10 <? x then None
                  else let x := x * 10 + d in
                       if two63 <? x then None else leadingInt x r
      | None => Some (x, s)
      end
  | EmptyString => Some (x, s)
  end.

(** [leadingFraction]: the digits that fit, and 10 to their number. *)
Fixpoint leadingFraction (overflow : bool) (x : Z) (scale : spec_float) (s : string)
  : Z * spec_float * string :=
  match s with
  | String c r =>
      match digit_value c with
      | Some d =>
          if overflow then leadingFraction true x scale r
          else if (two63 - 1) / 10 <? x then leadingFraction true x scale r
          else let y := x * 10 + d in
               if two63 <? y then leadingFraction true x scale r
               else leadingFraction false y (fmul scale (float64_of_Z 10)) r
      | None => (x, scale, s)
      end
  | EmptyString => (x, scale, s)
  end.

(** The unit: everything up to the next digit or point. *)
Fixpoint take_unit (s : string) : string * string :=
  match s with
  | String c r =>
      if decide (c = "."%char) then (EmptyString, s)
      else match digit_value c with
           | Some _ => (EmptyString, s)
           | None => let '(u, r) := take_unit r in (String c u, r)
           end
  | EmptyString => (EmptyString, s)
  end.

(** Microseconds are also written with U+00B5 and U+03BC. *)
Definition unit_value (u : string) : option Z :=
  if decide (u = "ns")%string then Some 1
  else if decide (u = "us" ∨ u = String "194" (String "181" "s") ∨ u = String "206" (String "188" "s"))%string
  then Some 1000
  else if decide (u = "ms")%string then Some 1000000
  else if decide (u = "s")%string then Some Second
  else if decide (u = "m")%string then Some Minute
  else if decide (u = "h")%string then Some Hour else None.

Definition uint64_of_float (f : spec_float) : Z := int64_of_float f `mod` two64.

(** The digits after a point: the fraction, its scale, whether there was a
    digit, and the rest. *)
Definition fraction_part (s : string) : Z * spec_float * bool * string :=
  match s with
  | String c r =>
      if decide (c = "."%char) then
        let '(f, scale, r') := leadingFraction false 0 (float64_of_Z 1) r in
        (f, scale, negb (String.length r' =? String.length r)%nat, r')
      else (0, float64_of_Z 1, false, s)
  | EmptyString => (0, float64_of_Z 1, false, s)
  end.

(** One turn of the loop: the sum so far, with the next term added in
    [uint64], and the rest of the text.  Every error has the same prefix. *)
Definition duration_term (d : Z) (s : string) : option (Z * string) :=
  match leadingInt 0 s with
  | None => None
  | Some (v, s1) =>
      let pre := negb (String.length s1 =? String.length s)%nat in
      let '(f, scale, post, s2) := fraction_part s1 in
      if negb pre && negb post then None
      else
        let '(u, s3) := take_unit s2 in
        match unit_value u with
        | None => None
        | Some unit =>
            if two63 / unit <? v then None
            else
              let v := v * unit in
              let v := if 0 <? f
                       then (v + uint64_of_float (fmul (float64_of_Z f) (fdiv (float64_of_Z unit) scale)))
                            `mod` two64
                       else v in
              if two63 <? v then None
              else let d := (d + v) `mod` two64 in
                   if two63 <? d then None else Some (d, s3)
        end
  end.

Fixpoint duration_terms (fuel : nat) (d : Z) (s : string) : option Z :=
  match s with
  | EmptyString => Some d
  | _ => match fuel with
         | O => None
         | S fuel => '(d, s) ← duration_term d s; duration_terms fuel d s
         end
  end.

Definition invalid_duration (s : string) : error :=
  ErrorString ("time: invalid duration " +:+ dquote +:+ s +:+ dquote).

(** Each term takes at least one byte, so the length is fuel enough. *)
Definition ParseDuration (s : string) : result Z :=
  let '(neg, r) := strip_sign s in
  if decide (r = "0")%string then Ok 0
  else if decide (r = "")%string then Err (invalid_duration s)
  else match duration_terms (String.length r) 0 r with
  | None => Err (invalid_duration s)
  | Some d => if neg then Ok (- d)
              else if two63 - 1 <? d then Err (invalid_duration s) else Ok d
  end.

Example ParseDuration_examples :
  ParseDuration "1h15m30.918s" = Ok (Hour + 15 * Minute + 30918000000) ∧
  ParseDuration "-1.5h" = Ok (- (90 * Minute)) ∧
  ParseDuration "0.3ms" = Ok 300000 ∧
  ParseDuration "9223372036854775807ns" = Ok int64_max ∧
  ParseDuration "-9223372036854775808ns" = Ok int64_min ∧
  is_ok (ParseDuration "9223372036854775808ns") = false ∧
  is_ok (ParseDuration "1") = false ∧ is_ok (ParseDuration "1d") = false ∧ is_ok (ParseDuration "") = false.
Proof. vm_compute. by split_and!. Qed.

(** ** Bounds *)

Lemma duration_term_range d s d' s' :
  duration_term d s = Some (d', s') → 0 ≤ d' ≤ two63.
Proof.
  unfold duration_term. destruct (leadingInt 0 s) as [[v s1]|]; [|done].
  destruct (fraction_part s1) as [[[f scale] post] s2].
  destruct (_ && _); [done|]. destruct (take_unit s2) as [u s3].
  destruct (unit_value u) as [unit|]; [|done]. destruct (two63 / unit <? v); [done|].
  match goal with |- (if two63 <? ?x then _ else _) = _ → _ => set (w := x) end.
  destruct (two63 <? w); [done|]. destruct (Z.ltb_spec two63 ((d + w) `mod` two64)); [done|].
  intros [= <- <-]. pose proof (Z.mod_pos_bound (d + w) two64 ltac:(done)). lia.
Qed.

Lemma duration_terms_range fuel d s d' :
  0 ≤ d ≤ two63 → duration_terms fuel d s = Some d' → 0 ≤ d' ≤ two63.
Proof.
  revert d s. induction fuel as [|fuel IH]; intros d [|c s] Hd; cbn [duration_terms];
    [by intros [= <-]|done|by intros [= <-]|].
  destruct (duration_term d (String c s)) as [[d1 s1]|] eqn:E; [|done]. cbn.
  apply IH. by eapply duration_term_range.
Qed.

Lemma ParseDuration_range s d : ParseDuration s = Ok d → in_int64 d.
Proof.
  unfold ParseDuration, in_int64, int64_min, int64_max. destruct (strip_sign s) as [neg r].
  case_decide; [intros [= <-]; lia|]. case_decide; [done|].
  destruct (duration_terms _ 0 r) as [d0|] eqn:E; [|done].
  apply duration_terms_range in E; [|unfold two63; lia].
  unfold two63 in *. destruct neg; [intros [= <-]; lia|].
  destruct (Z.ltb_spec (9223372036854775808 - 1) d0); [done|]. intros [= <-]. lia.
Qed.

(** ** [Duration.String] *)

Definition digit_char (d : Z) : ascii := ascii_of_nat (Z.to_nat (48 + d)).

(** [fmtFrac]: the last [prec] digits of [v] with their trailing zeros, and the
    point if nothing stays, left out; put before [acc]. *)
Fixpoint fmtFrac (prec : nat) (print : bool) (v : Z) (acc : string) : string * Z :=
  match prec with
  | O => (if print then String "." acc else acc, v)
  | S prec =>
      let digit := v `mod` 10 in
      let print := print || negb (digit =? 0) in
      fmtFrac prec print (v / 10) (if print then String (digit_char digit) acc else acc)
  end.

Definition Duration_String (d : Z) : string :=
  let u := Z.abs d in
  (if d <? 0 then "-" else "") +:+
  (if u <? Second then
     if u =? 0 then "0s"
     else if u <? 1000 then pretty u +:+ "ns"
     else if u <? 1000000 then
       let '(frac, u) := fmtFrac 3 false u (String "194" (String "181" "s")) in pretty u +:+ frac
     else let '(frac, u) := fmtFrac 6 false u "ms" in pretty u +:+ frac
   else
     let '(frac, u) := fmtFrac 9 false u "s" in
     let s := pretty (u `mod` 60) +:+ frac in
     let u := u / 60 in
     if 0 <? u then
       let s := pretty (u `mod` 60) +:+ String "m" s in
       let u := u / 60 in
       if 0 <? u then pretty u +:+ String "h" s else s
     else s).

Example Duration_String_examples :
  Duration_String 0 = "0s"%string ∧ Duration_String (Hour) = "1h0m0s"%string ∧
  Duration_String (- (90 * Minute + 500000000)) = "-1h30m0.5s"%string ∧
  Duration_String 1234567 = "1.234567ms"%string ∧
  Duration_String int64_min = "-2562047h47m16.854775808s"%string.
Proof. vm_compute. by split_and!. Qed.

(** *** Whole seconds read back *)

Definition no_digit_first (s : string) : Prop :=
  match s with String c _ => digit_value c = None | EmptyString => True end.
Definition digit_first (s : string) : Prop :=
  match s with String c _ => is_Some (digit_value c) | EmptyString => True end.

Lemma leadingInt_value acc s v rest :
  0 ≤ acc → decimal_value acc s = Some v → v ≤ two63 → no_digit_first rest →
  leadingInt acc (s +:+ rest) = Some (v, rest).
Proof.
  intros Ha Hd Hv Hr. revert acc Ha Hd. induction s as [|c s IH]; intros acc Ha.
  - cbn [decimal_value]. intros [= ->]. rewrite append_nil_l.
    destruct rest as [|c r]; [done|]. cbn [leadingInt]. by rewrite (Hr : digit_value c = None).
  - rewrite append_cons. cbn [decimal_value leadingInt].
    destruct (digit_value c) as [d|] eqn:E; [|done]. intros Hd.
    apply digit_value_range in E. assert (acc * 10 + d ≤ v) by (eapply decimal_value_mono; [lia|done]).
    unfold two63 in *. change (9223372036854775808 / 10) with 922337203685477580.
    destruct (Z.ltb_spec 922337203685477580 acc); [lia|].
    destruct (Z.ltb_spec 9223372036854775808 (acc * 10 + d)); [lia|]. apply IH; [lia|done].
Qed.

Lemma pretty_value n : 0 ≤ n → decimal_value 0 (pretty n) = Some n.
Proof. intros Hn. rewrite pretty_Z_nonneg by done. rewrite pretty_N_value. f_equal. lia. Qed.

Lemma pretty_digit_first n rest : 0 ≤ n → digit_first (pretty n +:+ rest).
Proof.
  intros Hn. rewrite pretty_Z_nonneg by done. pose proof (pretty_N_digits (Z.to_N n)) as H.
  pose proof (pretty_N_nonempty (Z.to_N n)) as Hne. destruct (pretty (Z.to_N n)) as [|c s]; [done|].
  rewrite append_cons. cbn in *. by destruct (digit_value c); [eexists|].
Qed.

Lemma take_unit_one c rest :
  digit_value c = None → c ≠ "."%char → digit_first rest →
  take_unit (String c rest) = (String c "", rest).
Proof.
  intros Hc Hp Hr. cbn [take_unit]. rewrite decide_False by done. rewrite Hc.
  destruct rest as [|c' r]; [done|]. destruct Hr as [d Hd]. cbn [take_unit].
  destruct (decide (c' = "."%char)) as [->|]; [discriminate Hd|]. by rewrite Hd.
Qed.

(** A number, one letter for a unit, and what follows. *)
Lemma duration_term_whole d n c unit rest :
  0 ≤ d → 0 ≤ n → 0 < unit → d + n * unit ≤ two63 →
  digit_value c = None → c ≠ "."%char → unit_value (String c "") = Some unit → digit_first rest →
  duration_term d (pretty n +:+ String c rest) = Some (d + n * unit, rest).
Proof.
  intros Hd Hn Hu Hsum Hc Hp Hunit Hr. unfold duration_term.
  assert (n ≤ two63) by nia.
  rewrite (leadingInt_value 0 _ n) by (done || by apply pretty_value).
  replace (fraction_part (String c rest)) with (0, float64_of_Z 1, false, String c rest)
    by (unfold fraction_part; by rewrite decide_False).
  assert (Hlen : (String.length (String c rest) =? String.length (pretty n +:+ String c rest))%nat = false).
  { apply Nat.eqb_neq. rewrite append_length. rewrite pretty_Z_nonneg by done.
    pose proof (pretty_N_nonempty (Z.to_N n)). destruct (pretty (Z.to_N n)); [done|]. cbn. lia. }
  rewrite Hlen. cbn [negb andb]. rewrite take_unit_one by done. rewrite Hunit.
  assert (n ≤ two63 / unit) by (apply Z.div_le_lower_bound; [done|nia]).
  destruct (Z.ltb_spec (two63 / unit) n); [lia|]. change (0 <? 0) with false. cbv iota zeta.
  destruct (Z.ltb_spec two63 (n * unit)); [nia|].
  rewrite Z.mod_small by (unfold two64, two63 in *; nia).
  destruct (Z.ltb_spec two63 (d + n * unit)); [lia|done].
Qed.

Lemma fmtFrac_zeros prec w acc :
  0 ≤ w → fmtFrac prec false (w * 10 ^ Z.of_nat prec) acc = (acc, w).
Proof.
  intros Hw. induction prec as [|prec IH]; cbn [fmtFrac].
  - by rewrite Z.mul_1_r.
  - rewrite Nat2Z.inj_succ, Z.pow_succ_r by lia.
    replace (w * (10 * 10 ^ Z.of_nat prec)) with (w * 10 ^ Z.of_nat prec * 10) by ring.
    rewrite Z.mod_mul, Z.div_mul by done. exact IH.
Qed.

Lemma duration_terms_step fuel d n c unit rest :
  0 ≤ d → 0 ≤ n → 0 < unit → d + n * unit ≤ two63 →
  digit_value c = None → c ≠ "."%char → unit_value (String c "") = Some unit → digit_first rest →
  duration_terms (S fuel) d (pretty n +:+ String c rest) = duration_terms fuel (d + n * unit) rest.
Proof.
  intros. pose proof (duration_term_whole d n c unit rest) as E. cbn [duration_terms].
  destruct (pretty n +:+ String c rest) as [|c' s] eqn:Es.
  - apply (f_equal String.length) in Es. rewrite append_length in Es. cbn in Es. lia.
  - by rewrite E.
Qed.

(** The side conditions of a term. *)
Ltac term_side :=
  done || (unfold Hour, Minute, Second, two63 in *; lia) || (apply pretty_digit_first; lia).

Lemma duration_terms_end fuel d : duration_terms fuel d "" = Some d.
Proof. by destruct fuel. Qed.

(** The text of [u] nanoseconds, a whole number of seconds. *)
Definition whole_text (secs : Z) : string :=
  let s := pretty (secs `mod` 60) +:+ "s" in
  let mins := secs / 60 in
  if 0 <? mins then
    let s := pretty (mins `mod` 60) +:+ String "m" s in
    if 0 <? mins / 60 then pretty (mins / 60) +:+ String "h" s else s
  else s.

Lemma whole_text_digit secs : 0 ≤ secs → digit_first (whole_text secs).
Proof.
  intros H. unfold whole_text. pose proof (Z.mod_pos_bound secs 60 ltac:(done)).
  destruct (Z.ltb_spec 0 (secs / 60)); [|apply pretty_digit_first; lia].
  pose proof (Z.mod_pos_bound (secs / 60) 60 ltac:(done)).
  destruct (Z.ltb_spec 0 (secs / 60 / 60)); apply pretty_digit_first; lia.
Qed.

Lemma pretty_length n c s :
  0 ≤ n → (2 + String.length s ≤ String.length (pretty n +:+ String c s))%nat.
Proof.
  intros Hn. rewrite append_length, pretty_Z_nonneg by done.
  pose proof (pretty_N_nonempty (Z.to_N n)). destruct (pretty (Z.to_N n)); [done|]. cbn. lia.
Qed.

Lemma whole_text_length secs : 0 ≤ secs → (2 ≤ String.length (whole_text secs))%nat.
Proof.
  intros H. unfold whole_text. pose proof (Z.mod_pos_bound secs 60 ltac:(done)).
  pose proof (Z.mod_pos_bound (secs / 60) 60 ltac:(done)).
  repeat match goal with |- context [0 <? ?x] => destruct (Z.ltb_spec 0 x) end;
    (etransitivity; [|apply pretty_length; lia]); lia.
Qed.

Lemma whole_text_terms secs fuel :
  0 ≤ secs → secs * Second ≤ two63 → (String.length (whole_text secs) ≤ fuel)%nat →
  duration_terms fuel 0 (whole_text secs) = Some (secs * Second).
Proof.
  intros H0 Hmax. unfold whole_text, two63 in *.
  pose proof (Z.mod_pos_bound secs 60 ltac:(done)). pose proof (Z.div_mod secs 60 ltac:(done)).
  set (mins := secs / 60) in *. set (ss := secs `mod` 60) in *.
  pose proof (Z.mod_pos_bound mins 60 ltac:(done)). pose proof (Z.div_mod mins 60 ltac:(done)).
  set (hours := mins / 60) in *. set (mm := mins `mod` 60) in *.
  pose proof (pretty_length ss "s" "" ltac:(lia)) as L1.
  pose proof (pretty_length mm "m" (pretty ss +:+ "s") ltac:(lia)) as L2.
  assert (Hs : ∀ fuel d, 0 ≤ d → d + ss * Second ≤ two63 →
    duration_terms (S fuel) d (pretty ss +:+ "s") = Some (d + ss * Second)).
  { intros f d Hd Hb. rewrite (duration_terms_step _ _ _ _ Second) by term_side. apply duration_terms_end. }
  assert (Hm : ∀ fuel d, 0 ≤ d → d + mm * Minute + ss * Second ≤ two63 →
    duration_terms (S (S fuel)) d (pretty mm +:+ String "m" (pretty ss +:+ "s"))
    = Some (d + mm * Minute + ss * Second)).
  { intros f d Hd Hb. unfold Minute, Second, two63 in *.
    rewrite (duration_terms_step _ _ _ _ 60000000000) by term_side.
    apply Hs; lia. }
  unfold Hour, Minute, Second, two63 in *.
  destruct (Z.ltb_spec 0 mins); [destruct (Z.ltb_spec 0 hours)|]; intros Hf.
  - pose proof (pretty_length hours "h" (pretty mm +:+ String "m" (pretty ss +:+ "s")) ltac:(lia)).
    cbn [String.length] in *. destruct fuel as [|[|[|fuel]]]; [lia..|].
    rewrite (duration_terms_step _ _ _ _ 3600000000000) by term_side.
    rewrite Hm by lia. f_equal. lia.
  - destruct fuel as [|[|fuel]]; [cbn [String.length] in *; lia..|]. rewrite Hm by lia. f_equal. lia.
  - destruct fuel as [|fuel]; [cbn [String.length] in *; lia|]. rewrite Hs by lia. f_equal. lia.
Qed.

Lemma Duration_String_whole secs :
  1 ≤ secs → ∀ d, Z.abs d = secs * Second →
  Duration_String d = (if d <? 0 then "-" else "") +:+ whole_text secs.
Proof.
  intros Hs d Hd. unfold Duration_String. rewrite Hd. unfold Second in *.
  destruct (Z.ltb_spec (secs * 1000000000) 1000000000); [lia|].
  pose proof (fmtFrac_zeros 9 secs "s" ltac:(lia)) as E.
  change (10 ^ Z.of_nat 9) with 1000000000 in E. by rewrite E.
Qed.

(** A duration of whole seconds reads back from its text. *)
Lemma ParseDuration_String d :
  in_int64 d → d `mod` Second = 0 → ParseDuration (Duration_String d) = Ok d.
Proof.
  unfold in_int64, int64_min, int64_max. intros Hr Hm.
  destruct (decide (d = 0)) as [->|Hd]; [by vm_compute|].
  assert (Ha : ∃ secs, Z.abs d = secs * Second ∧ 1 ≤ secs).
  { exists (Z.abs (d / Second)). unfold Second in *. pose proof (Z.div_mod d 1000000000 ltac:(done)). lia. }
  destruct Ha as (secs & Ha & Hs). rewrite (Duration_String_whole secs Hs d Ha).
  pose proof (whole_text_digit secs ltac:(lia)) as Hdig. pose proof (whole_text_length secs ltac:(lia)) as Hlen.
  assert (Hstrip : strip_sign ((if d <? 0 then "-" else "") +:+ whole_text secs) = (d <? 0, whole_text secs)).
  { destruct (d <? 0); [done|]. rewrite append_nil_l. destruct (whole_text secs) as [|c s]; [done|].
    destruct Hdig as [x Hx]. cbn. repeat case_decide; by subst. }
  unfold ParseDuration. rewrite Hstrip.
  rewrite decide_False by (intros E; rewrite E in Hlen; cbn in Hlen; lia).
  rewrite decide_False by (intros E; rewrite E in Hlen; cbn in Hlen; lia).
  rewrite whole_text_terms by (unfold two63; lia). unfold two63. rewrite <- Ha.
  destruct (Z.ltb_spec d 0); [f_equal; lia|].
  destruct (Z.ltb_spec (9223372036854775808 - 1) (Z.abs d)); [lia|f_equal; lia].
Qed.
