(* ===== verification/GoJson.v ===== *)
(** * Package [encoding/json]: what the program uses of it

    The scanner of the standard library, state by state, and on top of it
    [json.Marshal] of a [json.RawMessage] ([appendCompact] with HTML escaping)
    and [json.Unmarshal] into one.  A nil [RawMessage] is [None].  The texts
    of the package's own error values are not modelled. *)
From Stdlib Require Import ZArith Lia Ascii.
From stdpp Require Import base list strings.
From S2P Require Import Prelude GoStrings.

(** ** The scanner *)
Inductive parse_state := parseObjectKey | parseObjectValue | parseArrayValue.

Inductive scan_state :=
| BeginValue | BeginValueOrEmpty | BeginString | BeginStringOrEmpty
| EndValue | EndTop
| InString | InStringEsc | InStringEscU (left : nat)
| Neg | State1 | State0 | Dot | Dot0 | StateE | StateESign | StateE0
| StateT | StateTr | StateTru | StateF | StateFa | StateFal | StateFals
| StateN | StateNu | StateNul.

(** The current step function and the stack of open objects and arrays. *)
Definition scanner : Type := scan_state * list parse_state.
Definition scanner_init : scanner := (BeginValue, []).

(** What a step does with its byte: keep it ([scanContinue], [scanBegin...],
    [scanEnd...]) or drop it ([scanSkipSpace], [scanEnd]). *)
Inductive scan_op := Keep | Skip.

Definition maxNestingDepth : Z := 10000.

Definition isSpace (c : ascii) : bool :=
  bool_decide (c ∈ [" "; "009"; "013"; "010"]%char).
Definition is_digit (c : ascii) : bool := (48 <=? byte_at c) && (byte_at c <=? 57).
Definition is_digit19 (c : ascii) : bool := (49 <=? byte_at c) && (byte_at c <=? 57).
Definition is_hex (c : ascii) : bool :=
  is_digit c || (97 <=? byte_at c) && (byte_at c <=? 102)
  || (65 <=? byte_at c) && (byte_at c <=? 70).
Definition eqc (c d : ascii) : bool := bool_decide (c = d).

Definition pushParseState (next : scan_state) (p : parse_state) (stk : list parse_state)
  : option (scanner * scan_op) :=
  if (Z.of_nat (length stk) <? maxNestingDepth)%Z then Some ((next, p :: stk), Keep) else None.

Definition popParseState (stk : list parse_state) : scanner :=
  match stk with
  | [] | [_] => (EndTop, [])
  | _ :: rest => (EndValue, rest)
  end.

(** [stateEndValue]. *)
Definition end_value (stk : list parse_state) (c : ascii) : option (scanner * scan_op) :=
  match stk with
  | [] => if isSpace c then Some ((EndTop, []), Skip) else None
  | p :: rest =>
      if isSpace c then Some ((EndValue, stk), Skip)
      else match p with
           | parseObjectKey =>
               if eqc c ":" then Some ((BeginValue, parseObjectValue :: rest), Keep) else None
           | parseObjectValue =>
               if eqc c "," then Some ((BeginString, parseObjectKey :: rest), Keep)
               else if eqc c "}" then Some (popParseState stk, Keep) else None
           | parseArrayValue =>
               if eqc c "," then Some ((BeginValue, stk), Keep)
               else if eqc c "]" then Some (popParseState stk, Keep) else None
           end
  end.

(** [stateBeginValue]. *)
Definition begin_value (st : scan_state) (stk : list parse_state) (c : ascii)
  : option (scanner * scan_op) :=
  if isSpace c then Some ((st, stk), Skip)
  else if eqc c "{" then pushParseState BeginStringOrEmpty parseObjectKey stk
  else if eqc c "[" then pushParseState BeginValueOrEmpty parseArrayValue stk
  else if eqc c "034" then Some ((InString, stk), Keep)
  else if eqc c "-" then Some ((Neg, stk), Keep)
  else if eqc c "0" then Some ((State0, stk), Keep)
  else if eqc c "t" then Some ((StateT, stk), Keep)
  else if eqc c "f" then Some ((StateF, stk), Keep)
  else if eqc c "n" then Some ((StateN, stk), Keep)
  else if is_digit19 c then Some ((State1, stk), Keep)
  else None.

(** [stateBeginString]. *)
Definition begin_string (st : scan_state) (stk : list parse_state) (c : ascii)
  : option (scanner * scan_op) :=
  if isSpace c then Some ((st, stk), Skip)
  else if eqc c "034" then Some ((InString, stk), Keep) else None.

Definition step (s : scanner) (c : ascii) : option (scanner * scan_op) :=
  let '(st, stk) := s in
  match st with
  | BeginValue => begin_value st stk c
  | BeginValueOrEmpty => if eqc c "]" then end_value stk c else begin_value st stk c
  | BeginString => begin_string st stk c
  | BeginStringOrEmpty =>
      if eqc c "}" then
        match stk with
        | _ :: rest => end_value (parseObjectValue :: rest) c
        | [] => None
        end
      else begin_string st stk c
  | EndValue => end_value stk c
  | EndTop => if isSpace c then Some (s, Skip) else None
  | InString =>
      if eqc c "034" then Some ((EndValue, stk), Keep)
      else if eqc c "\" then Some ((InStringEsc, stk), Keep)
      else if byte_at c <? 32 then None else Some (s, Keep)
  | InStringEsc =>
      if bool_decide (c ∈ ["b"; "f"; "n"; "r"; "t"; "\"; "/"; "034"]%char)
      then Some ((InString, stk), Keep)
      else if eqc c "u" then Some ((InStringEscU 3, stk), Keep) else None
  | InStringEscU k =>
      if is_hex c then Some ((match k with O => InString | S k' => InStringEscU k' end, stk), Keep)
      else None
  | Neg => if eqc c "0" then Some ((State0, stk), Keep)
           else if is_digit19 c then Some ((State1, stk), Keep) else None
  | State1 => if is_digit c then Some (s, Keep)
              else if eqc c "." then Some ((Dot, stk), Keep)
              else if eqc c "e" || eqc c "E" then Some ((StateE, stk), Keep)
              else end_value stk c
  | State0 => if eqc c "." then Some ((Dot, stk), Keep)
              else if eqc c "e" || eqc c "E" then Some ((StateE, stk), Keep)
              else end_value stk c
  | Dot => if is_digit c then Some ((Dot0, stk), Keep) else None
  | Dot0 => if is_digit c then Some (s, Keep)
            else if eqc c "e" || eqc c "E" then Some ((StateE, stk), Keep)
            else end_value stk c
  | StateE => if eqc c "+" || eqc c "-" then Some ((StateESign, stk), Keep)
              else if is_digit c then Some ((StateE0, stk), Keep) else None
  | StateESign => if is_digit c then Some ((StateE0, stk), Keep) else None
  | StateE0 => if is_digit c then Some (s, Keep) else end_value stk c
  | StateT => if eqc c "r" then Some ((StateTr, stk), Keep) else None
  | StateTr => if eqc c "u" then Some ((StateTru, stk), Keep) else None
  | StateTru => if eqc c "e" then Some ((EndValue, stk), Keep) else None
  | StateF => if eqc c "a" then Some ((StateFa, stk), Keep) else None
  | StateFa => if eqc c "l" then Some ((StateFal, stk), Keep) else None
  | StateFal => if eqc c "s" then Some ((StateFals, stk), Keep) else None
  | StateFals => if eqc c "e" then Some ((EndValue, stk), Keep) else None
  | StateN => if eqc c "u" then Some ((StateNu, stk), Keep) else None
  | StateNu => if eqc c "l" then Some ((StateNul, stk), Keep) else None
  | StateNul => if eqc c "l" then Some ((EndValue, stk), Keep) else None
  end.

(** [scan.eof()] is not an error. *)
Definition eof (s : scanner) : bool :=
  match s with
  | (EndTop, _) => true
  | _ => match step s " " with Some ((EndTop, _), _) => true | _ => false end
  end.

(** ** [appendCompact] with HTML escaping *)
Definition html_escape (c : ascii) : option string :=
  if eqc c "<" then Some "\u003c"
  else if eqc c ">" then Some "\u003e"
  else if eqc c "&" then Some "\u0026" else None.

(** U+2028 or U+2029 at this byte. *)
Definition line_sep (c : ascii) (rest : string) : option string :=
  if byte_at c =? 226 then
    match rest with
    | String c1 (String c2 _) =>
        if byte_at c1 =? 128 then
          if byte_at c2 =? 168 then Some "\u2028"
          else if byte_at c2 =? 169 then Some "\u2029" else None
        else None
    | _ => None
    end
  else None.

(** [drop] counts the bytes already replaced by an escape. *)
Fixpoint compact_go (drop : nat) (s : scanner) (src : string) : option string :=
  match src with
  | EmptyString => if eof s then Some "" else None
  | String c rest =>
      match step s c with
      | None => None
      | Some (s', op) =>
          match drop with
          | S k => compact_go k s' rest
          | O =>
              match html_escape c, line_sep c rest with
              | Some e, _ => String.append e <$> compact_go 0 s' rest
              | None, Some e => String.append e <$> compact_go 2 s' rest
              | None, None =>
                  match op with
                  | Keep => String c <$> compact_go 0 s' rest
                  | Skip => compact_go 0 s' rest
                  end
              end
          end
      end
  end.

Definition compact (src : string) : option string := compact_go 0 scanner_init src.

Definition SyntaxError : error := Sentinel "json.SyntaxError" "json: syntax error".

(** [json.Marshal] of a [json.RawMessage]. *)
Definition Marshal_raw (m : option string) : result string :=
  match m with
  | None => Ok "null"
  | Some src => match compact src with Some s => Ok s | None => Err SyntaxError end
  end.

(** The bytes of the one value in [src], without the space around it: spaces
    are dropped only where nothing is open. *)
Fixpoint value_go (s : scanner) (src : string) : option string :=
  match src with
  | EmptyString => if eof s then Some "" else None
  | String c rest =>
      match step s c with
      | None => None
      | Some (s', Skip) =>
          match s'.2 with
          | [] => value_go s' rest
          | _ => String c <$> value_go s' rest
          end
      | Some (s', Keep) => String c <$> value_go s' rest
      end
  end.

(** [json.Unmarshal(data, &m)] with [m] a [json.RawMessage]. *)
Definition Unmarshal_raw (data : string) : result string :=
  match value_go scanner_init data with Some s => Ok s | None => Err SyntaxError end.

Example compact_example :
  Marshal_raw (Some " { 'a' : [1, 2 ] } ") = Err SyntaxError.
Proof. reflexivity. Qed.
Example compact_example2 :
  Marshal_raw (Some "[ true , -1.50e+3 ,[ ] ] ") = Ok "[true,-1.50e+3,[]]".
Proof. reflexivity. Qed.

(** ** Compacted text is a fixed point

    Dropping white space can only delay the end of a number: the scanner of
    the compacted text may still be inside a number where the scanner of the
    original already waits for a comma or the end. *)
Definition number_end (st : scan_state) : bool :=
  match st with State1 | State0 | Dot0 | StateE0 => true | _ => false end.

Inductive lags : scanner → scanner → Prop :=
| lags_refl s : lags s s
| lags_end_value st stk : number_end st = true → lags (EndValue, stk) (st, stk)
| lags_end_top st : number_end st = true ∨ st = EndValue → lags (EndTop, []) (st, []).
#[local] Hint Constructors lags : core.

Ltac scan_cases H :=
  repeat first
    [ discriminate H
    | progress cbn [step fst snd] in H
    | progress (unfold begin_value, begin_string, pushParseState in H)
    | match type of H with
      | context [match ?x with _ => _ end] => destruct x eqn:?
      end ].

Lemma end_value_skip stk c s' :
  end_value stk c = Some (s', Skip) →
  (stk = [] ∧ s' = (EndTop, [])) ∨ (stk ≠ [] ∧ s' = (EndValue, stk)).
Proof. unfold end_value. intros H. scan_cases H; injection H as <-; naive_solver. Qed.

Lemma end_value_skip_space stk c s' :
  end_value stk c = Some (s', Skip) → isSpace c = true.
Proof. unfold end_value. intros H. scan_cases H; done. Qed.

Lemma end_value_keep_stk stk c s' : end_value stk c = Some (s', Keep) → stk ≠ [].
Proof. unfold end_value. intros H. scan_cases H; done. Qed.

(** A number ends only with a byte its own states do not take. *)
Lemma end_value_keep_byte stk c s' :
  end_value stk c = Some (s', Keep) → c ∈ [":"; ","; "}"; "]"]%char.
Proof.
  unfold end_value, eqc. intros H.
  scan_cases H; repeat match goal with
    | E : bool_decide _ = true |- _ => apply bool_decide_eq_true in E; subst c
    end; by apply (bool_decide_unpack _).
Qed.

Lemma step_number_end st stk c s' :
  number_end st = true → end_value stk c = Some (s', Keep) → step (st, stk) c = Some (s', Keep).
Proof.
  intros Hst He. pose proof (end_value_keep_byte _ _ _ He) as Hc.
  rewrite !list_elem_of_In in Hc. simpl in Hc.
  destruct Hc as [<-|[<-|[<-|[<-|[]]]]]; destruct st; try discriminate Hst; exact He.
Qed.

Lemma lags_keep s t c s' :
  lags s t → step s c = Some (s', Keep) → step t c = Some (s', Keep).
Proof.
  intros HL Hs. inversion HL as [|st stk Hst|st Hst]; subst.
  - done.
  - apply step_number_end; done.
  - simpl in Hs. by destruct (isSpace c).
Qed.

Lemma lags_skip s t c s' : lags s t → step s c = Some (s', Skip) → lags s' t.
Proof.
  intros HL Hs.
  assert (End : ∀ st stk, number_end st = true ∨ st = EndValue →
    end_value stk c = Some (s', Skip) → lags s' (st, stk)).
  { intros st stk Hst He. apply end_value_skip in He as [[-> ->]|[_ ->]]; [by constructor|].
    destruct Hst as [Hst| ->]; auto. }
  inversion HL as [[st stk]|st stk Hst|st Hst]; subst.
  - destruct st; try (apply End; [by auto|exact Hs]); scan_cases Hs;
      first
        [ injection Hs as <-; by auto
        | apply End; [by auto|exact Hs]
        | exfalso; apply end_value_skip_space in Hs;
          match goal with E : eqc _ _ = true |- _ => apply bool_decide_eq_true in E end;
          by subst ].
  - apply End; [by left|exact Hs].
  - cbn [step] in Hs. destruct (isSpace c); [|done]. injection Hs as <-. by constructor.
Qed.

(** Bytes from 128 up, and the HTML characters, occur only inside strings. *)
Definition string_only (c : ascii) : bool :=
  (128 <=? byte_at c) || eqc c "<" || eqc c ">" || eqc c "&".

Lemma string_only_classes c :
  string_only c = true →
  isSpace c = false ∧ is_digit c = false ∧ is_hex c = false ∧
  bool_decide (c ∈ ["b"; "f"; "n"; "r"; "t"; "\"; "/"; "034"]%char) = false ∧
  (byte_at c <? 32) = false ∧ is_digit19 c = false ∧
  Forall (λ d, eqc c d = false)
    ["{"; "["; "034"; "-"; "0"; "t"; "f"; "n"; "]"; "}"; "\"; "u"; "."; "e"; "E";
     "+"; ":"; ","; "r"; "a"; "l"; "s"]%char.
Proof.
  intros H.
  assert (A : forallb negb
    ([isSpace c; is_digit c; is_hex c;
      bool_decide (c ∈ ["b"; "f"; "n"; "r"; "t"; "\"; "/"; "034"]%char);
      (byte_at c <? 32); is_digit19 c] ++
     (eqc c <$> ["{"; "["; "034"; "-"; "0"; "t"; "f"; "n"; "]"; "}"; "\"; "u"; "."; "e"; "E";
     "+"; ":"; ","; "r"; "a"; "l"; "s"]%char)) = true).
  { destruct c as [[] [] [] [] [] [] [] []];
      first [discriminate H | vm_compute; reflexivity]. }
  cbn [forallb app fmap list_fmap] in A. rewrite !andb_true_iff, !negb_true_iff in A.
  rewrite !Forall_cons, Forall_nil. tauto.
Qed.

Lemma step_string_only st stk c s' op :
  string_only c = true → step (st, stk) c = Some (s', op) → st = InString ∧ s' = (st, stk) ∧ op = Keep.
Proof.
  intros Hc H. destruct (string_only_classes c Hc) as (E1 & E2 & E3 & E4 & E6 & E7 & E5).
  rewrite !Forall_cons in E5. destruct_and! E5.
  assert (V : end_value stk c = None)
    by (unfold end_value; destruct stk as [|[] ?]; rewrite E1;
        repeat match goal with E : eqc c _ = false |- _ => rewrite E; clear E end; done).
  destruct st; cbn [step] in H; unfold begin_value, begin_string in H;
    rewrite ?E1, ?E2, ?E3, ?E4, ?E6, ?E7 in H;
    repeat match goal with E : eqc c _ = false |- _ => rewrite ?E in H; clear E end;
    cbn [orb] in H; rewrite ?V in H; try discriminate H.
  by injection H as <- <-.
Qed.

Lemma html_escape_string_only c e : html_escape c = Some e → string_only c = true.
Proof.
  unfold html_escape, string_only. repeat case_match; try done;
    intros _; rewrite ?orb_true_r; done.
Qed.

(** One kept byte. *)
Lemma compact_keep s s' c out :
  step s c = Some (s', Keep) → html_escape c = None → line_sep c out = None →
  compact_go 0 s' out = Some out → compact_go 0 s (String c out) = Some (String c out).
Proof. intros E1 E2 E3 E4. cbn [compact_go]. by rewrite E1, E2, E3, E4. Qed.

Lemma value_keep s s' c out :
  step s c = Some (s', Keep) →
  value_go s' out = Some out → value_go s (String c out) = Some (String c out).
Proof. intros E1 E2. cbn [value_go]. by rewrite E1, E2. Qed.

(** An escape is read back inside the string it came from. *)
Definition escape_ok (e : string) : Prop :=
  (∃ r, e = String "\" r) ∧
  ∀ stk out, compact_go 0 (InString, stk) out = Some out →
    value_go (InString, stk) out = Some out →
    compact_go 0 (InString, stk) (e +:+ out) = Some (e +:+ out) ∧
    value_go (InString, stk) (e +:+ out) = Some (e +:+ out).

Lemma escapes_ok : Forall escape_ok ["\u003c"; "\u003e"; "\u0026"; "\u2028"; "\u2029"].
Proof.
  repeat (apply Forall_cons_2 || apply Forall_nil_2); (split; [by eexists|]);
    intros stk out H1 H2; rewrite !append_cons, append_nil_l; split;
    repeat (eapply compact_keep; [reflexivity|reflexivity|reflexivity|]);
    repeat (eapply value_keep; [reflexivity|]); done.
Qed.

Lemma html_escape_ok c e : html_escape c = Some e → escape_ok e.
Proof.
  pose proof escapes_ok as HF. rewrite !Forall_cons in HF.
  unfold html_escape. repeat case_match; intros [= <-]; tauto.
Qed.

Lemma line_sep_inv c rest e :
  line_sep c rest = Some e →
  escape_ok e ∧ string_only c = true ∧
  ∃ c1 c2 r, rest = String c1 (String c2 r) ∧ string_only c1 = true ∧ string_only c2 = true.
Proof.
  unfold line_sep, string_only. pose proof escapes_ok as HF. rewrite !Forall_cons in HF.
  destruct (byte_at c =? 226) eqn:E0; [|done]. apply Nat.eqb_eq in E0.
  destruct rest as [|c1 [|c2 r]]; try done.
  destruct (byte_at c1 =? 128) eqn:E; [|done]. apply Nat.eqb_eq in E.
  destruct (byte_at c2 =? 168) eqn:E1; [|destruct (byte_at c2 =? 169) eqn:E2; [|done]];
    intros [= <-]; (split; [tauto|]; split; [by rewrite E0|]);
    exists c1, c2, r; rewrite Nat.eqb_eq in E1 || apply Nat.eqb_eq in E2;
    rewrite ?E, ?E1, ?E2; done.
Qed.

(** The first bytes of a compacted string tail, when not ASCII, are those of
    its source. *)
Lemma compact_head stk src x o :
  (128 <=? byte_at x) = true →
  compact_go 0 (InString, stk) src = Some (String x o) →
  ∃ rest, src = String x rest ∧ compact_go 0 (InString, stk) rest = Some o.
Proof.
  intros Hx H. assert (Hxs : string_only x = true) by (unfold string_only; by rewrite Hx).
  assert (Esc : ∀ e r, escape_ok e → String.append e <$> r ≠ Some (String x o)).
  { intros e r [[t ->] _] E. destruct r as [r|]; [|done].
    simpl in E. injection E as <- _. done. }
  destruct src as [|c rest]; cbn [compact_go] in H.
  { by destruct (eof _). }
  destruct (step (InString, stk) c) as [[s' op]|] eqn:E; [|done].
  destruct (html_escape c) as [e|] eqn:Eh.
  { exfalso. eapply Esc; [by eapply html_escape_ok|exact H]. }
  destruct (line_sep c rest) as [e|] eqn:El.
  { exfalso. eapply Esc; [by eapply line_sep_inv|exact H]. }
  assert (op = Keep) as ->.
  { cbn [step] in E. repeat case_match; congruence. }
  destruct (compact_go 0 s' rest) as [r|] eqn:Er; [|done].
  simpl in H. injection H as -> ->. exists rest. split; [done|].
  apply step_string_only in E as (_ & -> & _); done.
Qed.

Lemma eof_lags s t : lags s t → eof s = true → eof t = true.
Proof.
  intros HL. inversion HL as [|st stk Hst|st Hst]; subst; [done| |].
  - destruct stk; destruct st; done.
  - intros _. destruct Hst as [Hst| ->]; [by destruct st|done].
Qed.

Lemma line_sep_string_only c rest : line_sep c rest ≠ None → string_only c = true.
Proof. destruct (line_sep c rest) eqn:E; [|done]. intros _. by apply line_sep_inv in E as (_ & ? & _). Qed.

Lemma compact_fixed n src s t out :
  String.length src ≤ n → lags s t → compact_go 0 s src = Some out →
  compact_go 0 t out = Some out ∧ value_go t out = Some out.
Proof.
  revert src s t out. induction n as [|n IH]; intros src s t out Hn HL H;
    (destruct src as [|c rest]; cbn [compact_go] in H;
     [destruct (eof s) eqn:E; [|done]; injection H as <-;
      cbn; by rewrite (eof_lags s t HL E)|]); [cbn in Hn; lia|].
  cbn in Hn. destruct (step s c) as [[s' op]|] eqn:E; [|done].
  assert (InStr : string_only c = true → ∃ stk, s = (InString, stk) ∧ s' = s ∧ t = s).
  { intros Hc. destruct s as [st stk]. apply step_string_only in E as (-> & -> & ->); [|done].
    exists stk. split_and!; [done|done|]. by inversion HL. }
  destruct (html_escape c) as [e|] eqn:Eh.
  { destruct (InStr (html_escape_string_only _ _ Eh)) as (stk & -> & -> & ->).
    destruct (compact_go 0 _ rest) as [o|] eqn:Eo; [|done]. simpl in H. injection H as <-.
    apply (html_escape_ok _ _ Eh); eapply (IH rest); eauto; lia. }
  destruct (line_sep c rest) as [e|] eqn:El.
  { apply line_sep_inv in El as (He & Hc & c1 & c2 & r & -> & H1 & H2).
    destruct (InStr Hc) as (stk & -> & -> & ->). cbn [compact_go] in H.
    destruct (step (InString, stk) c1) as [[s1 op1]|] eqn:E1; [|done].
    apply step_string_only in E1 as (_ & -> & _); [|done].
    destruct (step (InString, stk) c2) as [[s2 op2]|] eqn:E2; [|done].
    apply step_string_only in E2 as (_ & -> & _); [|done].
    destruct (compact_go 0 _ r) as [o|] eqn:Eo; [|done]. simpl in H. injection H as <-.
    cbn [String.length] in Hn. apply He; eapply (IH r); eauto; lia. }
  destruct op; [|apply (IH rest s' t out); [lia|by eapply lags_skip|done]].
  destruct (compact_go 0 s' rest) as [o|] eqn:Eo; [|done]. simpl in H. injection H as <-.
  destruct (IH rest s' s' o ltac:(lia) (lags_refl s') Eo) as [F1 F2].
  pose proof (lags_keep _ _ _ _ HL E) as Et. split; [|by eapply value_keep].
  eapply compact_keep; [done|done| |done].
  destruct (line_sep c o) as [e|] eqn:El'; [|done]. exfalso.
  pose proof El' as El2.
  apply line_sep_inv in El' as (_ & Hc & c1 & c2 & r & -> & _).
  destruct (InStr Hc) as (stk & -> & -> & ->).
  assert (Hb : (128 <=? byte_at c1) = true ∧ (128 <=? byte_at c2) = true).
  { unfold line_sep in El2. repeat (case_match; try done);
      repeat match goal with H : (_ =? _) = true |- _ => apply Nat.eqb_eq in H; rewrite H end; done. }
  apply compact_head in Eo as (rest1 & -> & Eo); [|tauto].
  apply compact_head in Eo as (rest2 & -> & _); [|tauto].
  unfold line_sep in El, El2. by rewrite El in El2.
Qed.

(** What [Marshal] writes for a [RawMessage] is read back unchanged, and
    marshalling it again does not change it. *)
Lemma Marshal_raw_fixed m s :
  Marshal_raw m = Ok s → Unmarshal_raw s = Ok s ∧ Marshal_raw (Some s) = Ok s.
Proof.
  unfold Marshal_raw, Unmarshal_raw, compact. destruct m as [src|].
  - destruct (compact_go 0 scanner_init src) as [out|] eqn:E; [|done]. intros [= <-].
    destruct (compact_fixed _ src scanner_init scanner_init out (le_n _) (lags_refl _) E)
      as [-> ->]. done.
  - intros [= <-]. done.
Qed.
