(* ===== verification/GoJsonValue.v ===== *)
(** * Package [encoding/json]: values, and the strings in them

    On top of the scanner of file GoJson: the value a valid text denotes, as a
    tree; Go strings written and read as JSON strings; and what decoding into
    a struct does with the tree (fields found by name in any case, the last
    one wins, [null] changes nothing, a value of another type is remembered as
    an error while decoding goes on). *)
From Stdlib Require Import ZArith NArith Lia Ascii.
From stdpp Require Import base list strings.
From S2P Require Import Prelude GoStrings GoJson.

(** ** UTF-8 *)

Definition is_cont (c : ascii) : bool := (128 <=? byte_at c) && (byte_at c <=? 191).

(** The bytes of the rune [s] starts with, 0 when it is not well formed. *)
Definition utf8_len (s : string) : nat :=
  match s with
  | EmptyString => 0
  | String c0 r0 =>
      let b := byte_at c0 in
      if b <? 128 then 1
      else match r0 with
      | EmptyString => 0
      | String c1 r1 =>
          if (194 <=? b) && (b <=? 223) && is_cont c1 then 2
          else match r1 with
          | EmptyString => 0
          | String c2 r2 =>
              if (224 <=? b) && (b <=? 239) && is_cont c1 && is_cont c2
                 && (negb (b =? 224) || (160 <=? byte_at c1)) && (negb (b =? 237) || (byte_at c1 <=? 159))
              then 3
              else match r2 with
              | EmptyString => 0
              | String c3 _ =>
                  if (240 <=? b) && (b <=? 244) && is_cont c1 && is_cont c2 && is_cont c3
                     && (negb (b =? 240) || (144 <=? byte_at c1)) && (negb (b =? 244) || (byte_at c1 <=? 143))
                  then 4 else 0
              end
          end
      end
  end.

(** [k] bytes of the current rune remain. *)
Fixpoint valid_go (k : nat) (s : string) : bool :=
  match s with
  | EmptyString => k =? 0
  | String c r =>
      match k with
      | S k' => (128 <=? byte_at c) && valid_go k' r
      | O => match utf8_len s with O => false | S n => valid_go n r end
      end
  end.
Definition valid_utf8 (s : string) : bool := valid_go 0 s.

(** U+FFFD, three bytes. *)
Definition replacement : string := String "239" (String "191" (String "189" "")).

Fixpoint sanitize_go (k : nat) (s : string) : string :=
  match s with
  | EmptyString => EmptyString
  | String c r =>
      match k with
      | S k' => String c (sanitize_go k' r)
      | O => match utf8_len s with
             | O => replacement +:+ sanitize_go 0 r
             | S n => String c (sanitize_go n r)
             end
      end
  end.

Definition byte_char (n : N) : ascii := ascii_of_N n.
Definition utf8_encode (x : N) : string :=
  (if x <? 128 then String (byte_char x) ""
   else if x <? 2048 then String (byte_char (192 + x / 64)) (String (byte_char (128 + x mod 64)) "")
   else if x <? 65536 then
     String (byte_char (224 + x / 4096)) (String (byte_char (128 + x / 64 mod 64))
       (String (byte_char (128 + x mod 64)) ""))
   else String (byte_char (240 + x / 262144)) (String (byte_char (128 + x / 4096 mod 64))
       (String (byte_char (128 + x / 64 mod 64)) (String (byte_char (128 + x mod 64)) ""))))%N.

(** ** Strings *)

Definition hex_value (c : ascii) : N :=
  let n := N_of_ascii c in
  (if (48 <=? n) && (n <=? 57) then n - 48
   else if (97 <=? n) && (n <=? 102) then n - 87 else n - 55)%N.
Definition hex4 (a b c d : ascii) : N :=
  (((hex_value a * 16 + hex_value b) * 16 + hex_value c) * 16 + hex_value d)%N.
Definition hex_digit (n : N) : ascii := ascii_of_N (if (n <? 10)%N then 48 + n else 87 + n).

(** [appendString] on one ASCII byte. *)
Definition escape_byte (c : ascii) : string :=
  if eqc c "034" || eqc c "\" then String "\" (String c "")
  else if eqc c "008" then "\b" else if eqc c "012" then "\f" else if eqc c "010" then "\n"
  else if eqc c "013" then "\r" else if eqc c "009" then "\t"
  else if (byte_at c <? 32) || eqc c "<" || eqc c ">" || eqc c "&"
  then "\u00" +:+ String (hex_digit (N_of_ascii c / 16)) (String (hex_digit (N_of_ascii c mod 16)) "")
  else String c "".

Fixpoint quote_go (k : nat) (s : string) : string :=
  match s with
  | EmptyString => EmptyString
  | String c r =>
      match k with
      | S k' => String c (quote_go k' r)
      | O =>
          if byte_at c <? 128 then escape_byte c +:+ quote_go 0 r
          else match line_sep c r, r with
          | Some e, String _ (String _ r2) => e +:+ quote_go 0 r2
          | _, _ => match utf8_len s with
                    | O => "\ufffd" +:+ quote_go 0 r
                    | S n => String c (quote_go n r)
                    end
          end
      end
  end.

(** [json.Marshal] of a string. *)
Definition quote (s : string) : string := dquote +:+ quote_go 0 s +:+ dquote.

Definition simple_escape (e : ascii) : ascii :=
  if eqc e "b" then "008" else if eqc e "f" then "012" else if eqc e "n" then "010"
  else if eqc e "r" then "013" else if eqc e "t" then "009" else e.

Definition is_surrogate (x : N) : bool := ((55296 <=? x) && (x <? 57344))%N.
Definition surrogate_pair (x y : N) : option N :=
  (if (55296 <=? x) && (x <? 56320) && (56320 <=? y) && (y <? 57344)
   then Some ((x - 55296) * 1024 + (y - 56320) + 65536) else None)%N.

(** [unquote] of the text between the quotes. *)
Fixpoint unescape (s : string) : string :=
  match s with
  | EmptyString => EmptyString
  | String c r =>
      if eqc c "\" then
        match r with
        | EmptyString => EmptyString
        | String e r1 =>
            if eqc e "u" then
              match r1 with
              | String a (String b (String c' (String d r2))) =>
                  let x := hex4 a b c' d in
                  if is_surrogate x then
                    match r2 with
                    | String s1 (String s2 (String a' (String b' (String c'' (String d' r3))))) =>
                        if eqc s1 "\" && eqc s2 "u" then
                          match surrogate_pair x (hex4 a' b' c'' d') with
                          | Some y => utf8_encode y +:+ unescape r3
                          | None => replacement +:+ unescape r2
                          end
                        else replacement +:+ unescape r2
                    | _ => replacement +:+ unescape r2
                    end
                  else utf8_encode x +:+ unescape r2
              | _ => EmptyString
              end
            else String (simple_escape e) (unescape r1)
        end
      else String c (unescape r)
  end.

(** The text up to the closing quote, and what follows it. *)
Definition cons_fst (c : ascii) (p : string * string) : string * string := (String c p.1, p.2).
Fixpoint raw_string (s : string) : option (string * string) :=
  match s with
  | EmptyString => None
  | String c r =>
      if eqc c "034" then Some (EmptyString, r)
      else if eqc c "\" then
        match r with
        | EmptyString => None
        | String e r1 =>
            if bool_decide (e ∈ ["b"; "f"; "n"; "r"; "t"; "\"; "/"; "034"]%char)
            then (λ p, cons_fst c (cons_fst e p)) <$> raw_string r1
            else if eqc e "u" then
              match r1 with
              | String x1 (String x2 (String x3 (String x4 r2))) =>
                  if is_hex x1 && is_hex x2 && is_hex x3 && is_hex x4
                  then (λ p, cons_fst c (cons_fst e (cons_fst x1 (cons_fst x2 (cons_fst x3 (cons_fst x4 p))))))
                       <$> raw_string r2
                  else None
              | _ => None
              end
            else None
        end
      else if byte_at c <? 32 then None else cons_fst c <$> raw_string r
  end.

(** The string literal whose opening quote has been read. *)
Definition parse_string (s : string) : option (string * string) :=
  '(raw, rest) ← raw_string s; Some (unescape (sanitize_go 0 raw), rest).

(** ** Values *)

#[warnings="-register-all"]
Inductive json :=
| JNull
| JBool (b : bool)
| JNumber (literal : string)
| JString (s : string)
| JArray (l : list json)
| JObject (l : list (string * json)).

Fixpoint skip_space (s : string) : string :=
  match s with
  | String c r => if isSpace c then skip_space r else s
  | EmptyString => s
  end.

Definition number_char (c : ascii) : bool :=
  is_digit c || bool_decide (c ∈ ["-"; "+"; "."; "e"; "E"]%char).
Fixpoint take_number (s : string) : string * string :=
  match s with
  | String c r => if number_char c then cons_fst c (take_number r) else (EmptyString, s)
  | EmptyString => (EmptyString, s)
  end.

Definition expect (c : ascii) (s : string) : option string :=
  match s with String d r => if eqc d c then Some r else None | EmptyString => None end.
Fixpoint expect_word (w s : string) : option string :=
  match w with EmptyString => Some s | String c w' => r ← expect c s; expect_word w' r end.

(** A value and the text after it; [fuel] bounds the nesting and the members. *)
Fixpoint parse_value (fuel : nat) (s : string) : option (json * string) :=
  match fuel with
  | O => None
  | S fuel =>
      match skip_space s with
      | EmptyString => None
      | String c r as s' =>
          if eqc c "034" then '(x, r) ← parse_string r; Some (JString x, r)
          else if eqc c "{" then
            match expect "}" (skip_space r) with
            | Some r' => Some (JObject [], r')
            | None => '(l, r') ← parse_members fuel r; Some (JObject l, r')
            end
          else if eqc c "[" then
            match expect "]" (skip_space r) with
            | Some r' => Some (JArray [], r')
            | None => '(l, r') ← parse_elements fuel r; Some (JArray l, r')
            end
          else if eqc c "t" then r' ← expect_word "rue" r; Some (JBool true, r')
          else if eqc c "f" then r' ← expect_word "alse" r; Some (JBool false, r')
          else if eqc c "n" then r' ← expect_word "ull" r; Some (JNull, r')
          else if eqc c "-" || is_digit c then
            let '(n, r') := take_number s' in Some (JNumber n, r')
          else None
      end
  end
with parse_members (fuel : nat) (s : string) : option (list (string * json) * string) :=
  match fuel with
  | O => None
  | S fuel =>
      r ← expect "034" (skip_space s);
      '(key, r) ← parse_string r;
      r ← expect ":" (skip_space r);
      '(v, r) ← parse_value fuel r;
      match expect "," (skip_space r) with
      | Some r' => '(l, r') ← parse_members fuel r'; Some ((key, v) :: l, r')
      | None => r' ← expect "}" (skip_space r); Some ([(key, v)], r')
      end
  end
with parse_elements (fuel : nat) (s : string) : option (list json * string) :=
  match fuel with
  | O => None
  | S fuel =>
      '(v, r) ← parse_value fuel s;
      match expect "," (skip_space r) with
      | Some r' => '(l, r') ← parse_elements fuel r'; Some (v :: l, r')
      | None => r' ← expect "]" (skip_space r); Some ([v], r')
      end
  end.

(** [checkValid]: the scanner accepts the whole text. *)
Definition valid_json (src : string) : bool :=
  match value_go scanner_init src with Some _ => true | None => false end.

Definition parse_json (src : string) : result json :=
  if valid_json src then
    match parse_value (S (String.length src)) src with
    | Some (v, _) => Ok v
    | None => Err SyntaxError
    end
  else Err SyntaxError.

Definition q (s : string) : string := dquote +:+ s +:+ dquote.
Example parse_example :
  parse_json (" {" +:+ q "a" +:+ ": [1, -2.5e+3, true , null], " +:+ q "b\u00e9\n" +:+ ":{} } ")
  = Ok (JObject [("a", JArray [JNumber "1"; JNumber "-2.5e+3"; JBool true; JNull]);
                 ("b" +:+ String "195" (String "169" newline), JObject [])])%string.
Proof. vm_compute. reflexivity. Qed.
Example surrogates_example :
  parse_json (q "\ud83d\ude00 \ud800x") = Ok (JString (String "240" (String "159" (String "152"
    (String "128" (" " +:+ replacement +:+ "x")))))).
Proof. vm_compute. reflexivity. Qed.

(** ** A quoted string reads back *)

Lemma utf8_len_ascii c r : byte_at c < 128 → utf8_len (String c r) = 1.
Proof. intros H. apply Nat.ltb_lt in H. unfold utf8_len. by rewrite H. Qed.

Lemma line_sep_ascii c r : byte_at c < 128 → line_sep c r = None.
Proof. intros H. unfold line_sep. destruct (Nat.eqb_spec (byte_at c) 226); [lia|done]. Qed.

(** What an escape of an ASCII byte is to the other functions. *)
Ltac ascii_cases c :=
  destruct c as [[] [] [] [] [] [] [] []];
  try (intros H; exfalso; revert H; vm_compute; lia).

Lemma unescape_escape c s : byte_at c < 128 → unescape (escape_byte c +:+ s) = String c (unescape s).
Proof. ascii_cases c; intros _; reflexivity. Qed.

Lemma raw_string_escape c s :
  byte_at c < 128 →
  raw_string (escape_byte c +:+ s) = (λ p, (escape_byte c +:+ p.1, p.2)) <$> raw_string s.
Proof. ascii_cases c; intros _; reflexivity. Qed.

Lemma valid_escape c s : byte_at c < 128 → valid_go 0 (escape_byte c +:+ s) = valid_go 0 s.
Proof. ascii_cases c; intros _; reflexivity. Qed.

(** Bytes of other runes are copied as they are. *)
Fixpoint all_high (s : string) : bool :=
  match s with EmptyString => true | String c r => (128 <=? byte_at c) && all_high r end.

Lemma high_byte c s :
  128 ≤ byte_at c →
  unescape (String c s) = String c (unescape s) ∧ raw_string (String c s) = cons_fst c <$> raw_string s.
Proof. ascii_cases c; intros _; split; reflexivity. Qed.

Lemma unescape_high p s : all_high p = true → unescape (p +:+ s) = p +:+ unescape s.
Proof.
  induction p as [|c p IH]; [done|]. cbn [all_high]. intros [H1%Nat.leb_le H2]%andb_prop.
  rewrite !append_cons. destruct (high_byte c (p +:+ s) H1) as [-> _]. by rewrite IH.
Qed.

Lemma raw_string_high p s :
  all_high p = true → raw_string (p +:+ s) = (λ x, (p +:+ x.1, x.2)) <$> raw_string s.
Proof.
  induction p as [|c p IH]; [intros _; rewrite append_nil_l; by destruct (raw_string s) as [[]|]|].
  cbn [all_high]. intros [H1%Nat.leb_le H2]%andb_prop.
  rewrite append_cons. destruct (high_byte c (p +:+ s) H1) as [_ ->]. rewrite IH by done.
  by destruct (raw_string s) as [[]|].
Qed.

Lemma valid_high p s : all_high p = true → valid_go (String.length p) (p +:+ s) = valid_go 0 s.
Proof.
  induction p as [|c p IH]; [done|]. cbn [all_high]. intros [H1 H2]%andb_prop.
  rewrite append_cons. cbn [valid_go String.length]. by rewrite H1, IH.
Qed.

Lemma quote_high p s : quote_go (String.length p) (p +:+ s) = p +:+ quote_go 0 s.
Proof. induction p as [|c p IH]; [done|]. rewrite !append_cons. cbn [quote_go String.length]. by rewrite IH. Qed.

Lemma is_cont_high c : is_cont c = true → (128 <=? byte_at c) = true.
Proof. unfold is_cont. by intros [H _]%andb_prop. Qed.

Fixpoint all_cont (s : string) : bool :=
  match s with EmptyString => true | String c r => is_cont c && all_cont r end.

Lemma all_cont_high p : all_cont p = true → all_high p = true.
Proof.
  induction p as [|c p IH]; [done|]. cbn [all_cont all_high]. intros [H1 H2]%andb_prop.
  by rewrite is_cont_high, IH.
Qed.

(** A rune of more than one byte: its other bytes, and that it is recognised
    by them alone. *)
Lemma utf8_len_split c r n :
  128 ≤ byte_at c → utf8_len (String c r) = S n →
  ∃ p r0, r = p +:+ r0 ∧ String.length p = n ∧ all_cont p = true ∧
    ∀ x, utf8_len (String c (p +:+ x)) = S n.
Proof.
  intros Hc. unfold utf8_len. destruct (Nat.ltb_spec (byte_at c) 128); [lia|].
  destruct r as [|c1 r1]; [done|].
  destruct ((194 <=? byte_at c) && (byte_at c <=? 223) && is_cont c1) eqn:E2.
  { intros [= <-]. exists (String c1 ""), r1. apply andb_prop in E2 as [E21 E22].
    split_and!; try done; [cbn [all_cont]; by rewrite E22|].
    intros x. change (String c1 "" +:+ x) with (String c1 x). cbv beta iota. by rewrite E21, E22. }
  destruct r1 as [|c2 r2]; [done|].
  match goal with |- (if ?b then 3 else _) = _ → _ => destruct b eqn:E3 end.
  { intros [= <-]. exists (String c1 (String c2 "")), r2.
    split_and!; try done.
    - repeat apply andb_prop in E3 as [E3 ?]. cbn [all_cont]. by repeat match goal with H : is_cont _ = true |- _ => rewrite H; clear H end.
    - intros x. change (String c1 (String c2 "") +:+ x) with (String c1 (String c2 x)).
      cbv beta iota. by rewrite E2, E3. }
  destruct r2 as [|c3 r3]; [done|].
  match goal with |- (if ?b then 4 else _) = _ → _ => destruct b eqn:E4; [|done] end.
  intros [= <-]. exists (String c1 (String c2 (String c3 ""))), r3.
  split_and!; try done.
  - repeat apply andb_prop in E4 as [E4 ?]. cbn [all_cont]. by repeat match goal with H : is_cont _ = true |- _ => rewrite H; clear H end.
  - intros x. change (String c1 (String c2 (String c3 "")) +:+ x) with (String c1 (String c2 (String c3 x))).
    cbv beta iota. by rewrite E2, E3, E4.
Qed.

(** Text that compaction keeps as it is, whatever follows it. *)
Fixpoint run_plain (s : scanner) (e : string) : option scanner :=
  match e with
  | EmptyString => Some s
  | String c e' =>
      if (byte_at c =? 226) || bool_decide (is_Some (html_escape c)) then None
      else match step s c with Some (s', Keep) => run_plain s' e' | _ => None end
  end.

Lemma compact_plain s e s' t :
  run_plain s e = Some s' → compact_go 0 s (e +:+ t) = String.append e <$> compact_go 0 s' t.
Proof.
  revert s. induction e as [|c e IH]; intros s.
  - intros [= <-]. rewrite append_nil_l. by destruct (compact_go 0 s t).
  - cbn [run_plain]. destruct (byte_at c =? 226) eqn:Ec; [done|]. cbn [orb].
    case_bool_decide as Hh; [done|]. destruct (step s c) as [[s1 []]|] eqn:Es; [|done..].
    intros H. rewrite append_cons. cbn [compact_go]. rewrite Es.
    assert (Hn : html_escape c = None) by (destruct (html_escape c); [by destruct Hh; eexists|done]).
    rewrite Hn. unfold line_sep. rewrite Ec, IH by done. by destruct (compact_go 0 s' t).
Qed.

Lemma escape_plain c stk :
  byte_at c < 128 → run_plain (InString, stk) (escape_byte c) = Some (InString, stk).
Proof. ascii_cases c; intros _; reflexivity. Qed.

Lemma high_step c stk :
  128 ≤ byte_at c → step (InString, stk) c = Some ((InString, stk), Keep) ∧ html_escape c = None.
Proof. ascii_cases c; intros _; split; reflexivity. Qed.

Lemma compact_conts p stk t :
  all_cont p = true →
  compact_go 0 (InString, stk) (p +:+ t) = String.append p <$> compact_go 0 (InString, stk) t.
Proof.
  induction p as [|c p IH]; [intros _; rewrite append_nil_l; by destruct (compact_go 0 (InString, stk) t)|].
  cbn [all_cont]. intros [H1 H2]%andb_prop. rewrite append_cons. cbn [compact_go].
  pose proof (is_cont_high _ H1) as Hh%Nat.leb_le. destruct (high_step c stk Hh) as [-> ->].
  unfold line_sep. apply andb_prop in H1 as [_ H1%Nat.leb_le].
  destruct (Nat.eqb_spec (byte_at c) 226); [lia|]. rewrite IH by done.
  by destruct (compact_go 0 (InString, stk) t).
Qed.

Lemma line_sep_rune c p x y :
  utf8_len (String c p) = S (String.length p) → line_sep c (p +:+ x) = None → line_sep c (p +:+ y) = None.
Proof.
  intros Hl. unfold line_sep. destruct (byte_at c =? 226) eqn:E; [|done]. apply Nat.eqb_eq in E.
  unfold utf8_len in Hl. rewrite E in Hl. cbn in Hl.
  destruct p as [|c1 [|c2 [|c3 p]]]; [done..| |].
  - done.
  - done.
Qed.

Lemma compact_rune c p stk x t :
  128 ≤ byte_at c → all_cont p = true → utf8_len (String c p) = S (String.length p) →
  line_sep c (p +:+ x) = None →
  compact_go 0 (InString, stk) (String c p +:+ t)
  = String.append (String c p) <$> compact_go 0 (InString, stk) t.
Proof.
  intros Hc Hp Hl Hs. rewrite append_cons. cbn [compact_go].
  destruct (high_step c stk Hc) as [-> ->]. rewrite (line_sep_rune c p x t Hl Hs).
  rewrite compact_conts by done. by destruct (compact_go 0 (InString, stk) t).
Qed.

(** U+2028 and U+2029 are written as escapes. *)
Lemma line_sep_text c r e :
  line_sep c r = Some e →
  ∃ p r0, String c r = p +:+ r0 ∧ (String.length r0 < String.length (String c r))%nat ∧
    (∀ stk t, compact_go 0 (InString, stk) (e +:+ t)
              = String.append e <$> compact_go 0 (InString, stk) t) ∧
    (∀ t, unescape (e +:+ t) = p +:+ unescape t) ∧
    (∀ t, valid_go 0 (e +:+ t) = valid_go 0 t) ∧
    (∀ t, raw_string (e +:+ t) = (λ x, (e +:+ x.1, x.2)) <$> raw_string t) ∧
    (∀ t, valid_go 0 (p +:+ t) = valid_go 0 t) ∧
    (∀ t, quote_go 0 (p +:+ t) = e +:+ quote_go 0 t).
Proof.
  unfold line_sep. destruct (byte_at c =? 226) eqn:E0; [|done].
  destruct r as [|c1 [|c2 r0]]; try done.
  destruct (byte_at c1 =? 128) eqn:E1; [|done]. intros H.
  assert (Hb : ∀ n x, (byte_at x =? n) = true → x = ascii_of_nat n).
  { intros n x Hx. apply Nat.eqb_eq in Hx as <-. unfold byte_at. by rewrite ascii_nat_embedding. }
  apply Hb in E0 as ->. apply Hb in E1 as ->.
  destruct (byte_at c2 =? 168) eqn:E2; [|destruct (byte_at c2 =? 169) eqn:E3; [|done]];
    [apply Hb in E2 as ->|apply Hb in E3 as ->]; injection H as <-;
    eexists (String _ (String _ (String _ ""))), r0; (split; [reflexivity|]);
    (split; [cbn; lia|]); split_and!; intros; first [apply compact_plain; reflexivity | reflexivity].
Qed.

(** A well-formed string is written as well-formed text that reads back. *)
Definition reads_back (s : string) : Prop :=
  (∀ stk t, compact_go 0 (InString, stk) (quote_go 0 s +:+ t)
            = String.append (quote_go 0 s) <$> compact_go 0 (InString, stk) t) ∧
  unescape (quote_go 0 s) = s ∧ valid_go 0 (quote_go 0 s) = true ∧
  ∀ rest, raw_string (quote_go 0 s +:+ dquote +:+ rest) = Some (quote_go 0 s, rest).

(** What a piece of text contributes, in front of any other. *)
Lemma reads_back_app e p s :
  (∀ stk t, compact_go 0 (InString, stk) (e +:+ t)
            = String.append e <$> compact_go 0 (InString, stk) t) →
  (∀ t, unescape (e +:+ t) = p +:+ unescape t) →
  (∀ t, valid_go 0 (e +:+ t) = valid_go 0 t) →
  (∀ t, raw_string (e +:+ t) = (λ x, (e +:+ x.1, x.2)) <$> raw_string t) →
  quote_go 0 (p +:+ s) = e +:+ quote_go 0 s →
  reads_back s → reads_back (p +:+ s).
Proof.
  intros H0 H1 H2 H3 Hq (G0 & G1 & G2 & G3). unfold reads_back. rewrite Hq. split_and!.
  - intros stk t. rewrite <- append_assoc, H0, G0.
    destruct (compact_go 0 (InString, stk) t); cbn; [by rewrite append_assoc|done].
  - by rewrite H1, G1.
  - by rewrite H2.
  - intros rest. by rewrite <- append_assoc, H3, G3.
Qed.

Lemma quote_reads_back s : valid_utf8 s = true → reads_back s.
Proof.
  unfold valid_utf8. remember (String.length s) as n eqn:Hn. revert s Hn.
  induction (lt_wf n) as [n _ IH]. intros s -> Hv. destruct s as [|c r].
  { split_and!; try done. intros stk t. cbn [quote_go]. rewrite append_nil_l.
    by destruct (compact_go 0 (InString, stk) t). }
  pose proof Hv as Hv0. cbn [valid_go] in Hv.
  destruct (utf8_len (String c r)) as [|k] eqn:El; [done|].
  destruct (Nat.lt_ge_cases (byte_at c) 128) as [Hc|Hc].
  - rewrite utf8_len_ascii in El by done. injection El as <-.
    change (String c r) with (String c "" +:+ r).
    apply (reads_back_app (escape_byte c)); intros.
    + by apply compact_plain, escape_plain.
    + by apply unescape_escape.
    + by apply valid_escape.
    + by apply raw_string_escape.
    + rewrite append_cons, append_nil_l. cbn [quote_go].
      by apply Nat.ltb_lt in Hc as ->.
    + eapply IH; [|reflexivity|done]. cbn. lia.
  - destruct (line_sep c r) as [e|] eqn:Es.
    + destruct (line_sep_text c r e Es) as (p & r0 & E & Hlt & H0 & H1 & H2 & H3 & H4 & H5).
      rewrite E in Hv0 |- *. apply (reads_back_app e); try done.
      eapply IH; [exact Hlt|reflexivity|]. by rewrite H4 in Hv0.
    + destruct (utf8_len_split c r k Hc El) as (p & r0 & -> & <- & Hp & Hx).
      pose proof (all_cont_high p Hp) as Hh. rewrite valid_high in Hv by done.
      change (String c (p +:+ r0)) with (String c p +:+ r0).
      assert (Hb : all_high (String c p) = true)
        by (cbn [all_high]; rewrite Hh; by apply Nat.leb_le in Hc as ->).
      apply (reads_back_app (String c p)); intros; try done.
      * apply (compact_rune c p stk r0); try done. specialize (Hx ""). by rewrite append_nil_r in Hx.
      * by apply unescape_high.
      * rewrite append_cons. cbn [valid_go]. by rewrite Hx, valid_high.
      * by apply raw_string_high.
      * rewrite append_cons. cbn [quote_go]. destruct (Nat.ltb_spec (byte_at c) 128); [lia|].
        rewrite Es, Hx. rewrite append_cons. f_equal. apply quote_high.
      * eapply IH; [|reflexivity|done]. cbn [String.length]. rewrite append_length. lia.
Qed.

Lemma sanitize_valid k s : valid_go k s = true → sanitize_go k s = s.
Proof.
  revert k. induction s as [|c s IH]; intros k; [done|]. cbn [valid_go sanitize_go].
  destruct k as [|k].
  - destruct (utf8_len (String c s)); [done|]. intros H. by rewrite IH.
  - intros [_ H]%andb_prop. by rewrite IH.
Qed.

Lemma parse_quote s rest :
  valid_utf8 s = true → parse_string (quote_go 0 s +:+ dquote +:+ rest) = Some (s, rest).
Proof.
  intros (_ & H1 & H2 & H3)%quote_reads_back. unfold parse_string. rewrite H3. cbn.
  by rewrite sanitize_valid, H1.
Qed.

Lemma compact_valid k s src : is_Some (compact_go k s src) → is_Some (value_go s src).
Proof.
  revert k s. induction src as [|c src IH]; intros k s; cbn [compact_go value_go].
  - destruct (eof s); [by eexists|by intros []].
  - destruct (step s c) as [[s' op]|]; [|by intros []]. intros H.
    assert (Hv : is_Some (value_go s' src)).
    { destruct k; [|by eapply IH]. destruct (html_escape c); [|destruct (line_sep c src); [|destruct op]];
        by rewrite ?fmap_is_Some in H; eapply IH. }
    destruct op; [by rewrite fmap_is_Some|]. destruct s'.2; by rewrite ?fmap_is_Some.
Qed.

(** ** Decoding into a struct *)

(** A type error is remembered while decoding goes on. *)
Definition UnmarshalTypeError : error := Sentinel "json.UnmarshalTypeError" "json: cannot unmarshal".

(** The key in upper case, with the two other letters that fold to ASCII. *)
Definition to_upper (c : ascii) : ascii :=
  if (97 <=? byte_at c) && (byte_at c <=? 122) then ascii_of_nat (byte_at c - 32) else c.
Fixpoint foldName (s : string) : string :=
  match s with
  | String a (String b (String c r as s2) as s1) =>
      if (byte_at a =? 226) && (byte_at b =? 132) && (byte_at c =? 170) then String "K" (foldName r)
      else if (byte_at a =? 197) && (byte_at b =? 191) then String "S" (foldName s2)
      else String (to_upper a) (foldName s1)
  | String a (String b r as s1) =>
      if (byte_at a =? 197) && (byte_at b =? 191) then String "S" (foldName r)
      else String (to_upper a) (foldName s1)
  | String a s1 => String (to_upper a) (foldName s1)
  | EmptyString => EmptyString
  end.

(** The field a key names: by its exact name, else by its folded name. *)
Definition field_of (names : list string) (key : string) : option string :=
  if decide (key ∈ names) then Some key
  else snd <$> list_find (λ n, foldName n = foldName key) names.

(** A decoder writes into a value of its type.  A value of the wrong type
    leaves an error and decoding goes on; the error of a type's own
    [UnmarshalJSON] ends it. *)
Definition decoder (A : Type) : Type := json → A → result (A * option error).

Definition decode_string : decoder string := λ v cur,
  match v with
  | JString s => Ok (s, None)
  | JNull => Ok (cur, None)
  | _ => Ok (cur, Some UnmarshalTypeError)
  end.

(** An [int]: the literal must be one for [strconv.ParseInt]. *)
Definition decode_int : decoder Z := λ v cur,
  match v with
  | JNumber lit => match ParseInt lit with
                   | Ok n => Ok (n, None)
                   | Err _ => Ok (cur, Some UnmarshalTypeError)
                   end
  | JNull => Ok (cur, None)
  | _ => Ok (cur, Some UnmarshalTypeError)
  end.

(** The first error stays. *)
Definition first_error (e1 e2 : option error) : option error := match e1 with Some _ => e1 | None => e2 end.

(** [set] decodes one field. *)
Fixpoint decode_fields {A} (names : list string) (set : string → decoder A)
    (l : list (string * json)) (cur : A) (saved : option error) : result (A * option error) :=
  match l with
  | [] => Ok (cur, saved)
  | (key, v) :: rest =>
      match field_of names key with
      | None => decode_fields names set rest cur saved
      | Some f => '(x, e) ← set f v cur; decode_fields names set rest x (first_error saved e)
      end
  end.

Definition decode_struct {A} (names : list string) (set : string → decoder A) : decoder A := λ v cur,
  match v with
  | JObject l => decode_fields names set l cur None
  | JNull => Ok (cur, None)
  | _ => Ok (cur, Some UnmarshalTypeError)
  end.

(** One field of a struct, by its getter and setter. *)
Definition field {A B} (get : A → B) (put : B → A → A) (dec : decoder B) : decoder A := λ v cur,
  '(x, e) ← dec v (get cur); Ok (put x cur, e).

(** [json.Unmarshal(data, &x)] with [x] holding [zero]; what it has written
    when it fails is dropped, as its callers do. *)
Definition Unmarshal {A} (dec : decoder A) (zero : A) (data : string) : result A :=
  v ← parse_json data;
  '(x, e) ← dec v zero;
  match e with None => Ok x | Some er => Err er end.

(** ** An object with one string field *)

Definition object1 (key value : string) : string :=
  "{" +:+ dquote +:+ key +:+ dquote +:+ ":" +:+ quote value +:+ "}".

(** [{"user_id":"..."}]: compact already, and decoded to its string. *)
Lemma compact_user_id u : valid_utf8 u = true → compact (object1 "user_id" u) = Some (object1 "user_id" u).
Proof.
  intros Hu. destruct (quote_reads_back u Hu) as (H & _).
  unfold compact, object1, quote.
  change ("{" +:+ dquote +:+ "user_id" +:+ dquote +:+ ":" +:+ (dquote +:+ quote_go 0 u +:+ dquote) +:+ "}")
    with (("{" +:+ dquote +:+ "user_id" +:+ dquote +:+ ":" +:+ dquote) +:+ (quote_go 0 u +:+ dquote) +:+ "}").
  rewrite (compact_plain _ _ (InString, [parseObjectValue])) by reflexivity.
  rewrite <- append_assoc, H. reflexivity.
Qed.

Lemma parse_user_id u :
  valid_utf8 u = true → parse_json (object1 "user_id" u) = Ok (JObject [("user_id"%string, JString u)]).
Proof.
  intros Hu. unfold parse_json.
  assert (Hv : valid_json (object1 "user_id" u) = true).
  { unfold valid_json. destruct (compact_valid 0 scanner_init (object1 "user_id" u)) as [x ->]; [|done].
    exists (object1 "user_id" u). by apply compact_user_id. }
  rewrite Hv. unfold object1, quote.
  assert (E : ∀ fuel, parse_value (S (S (S fuel)))
     ("{" +:+ dquote +:+ "user_id" +:+ dquote +:+ ":" +:+ (dquote +:+ quote_go 0 u +:+ dquote) +:+ "}")
     = Some (JObject [("user_id"%string, JString u)], ""%string)).
  { intros fuel. rewrite <- !append_assoc.
    pose proof (parse_quote u "}" Hu) as Hp.
    assert (Hs : parse_value (S fuel) (dquote +:+ quote_go 0 u +:+ dquote +:+ "}")
                 = Some (JString u, "}"%string)).
    { change (parse_value (S fuel) (dquote +:+ quote_go 0 u +:+ dquote +:+ "}"))
        with ('(x, r) ← parse_string (quote_go 0 u +:+ dquote +:+ "}"); Some (JString x, r)).
      by rewrite Hp. }
    change (parse_value (S (S (S fuel))) _) with
      ('(l, r') ← ('(v, r) ← parse_value (S fuel) (dquote +:+ quote_go 0 u +:+ dquote +:+ "}");
         match expect "," (skip_space r) with
         | Some r' => '(l, r') ← parse_members (S fuel) r'; Some (("user_id"%string, v) :: l, r')
         | None => r' ← expect "}" (skip_space r); Some ([("user_id"%string, v)], r')
         end); Some (JObject l, r')).
    by rewrite Hs. }
  set (src := "{" +:+ _). assert (Hl : ∃ n, S (String.length src) = S (S (S n))).
  { unfold src. by eexists. }
  destruct Hl as [n ->]. by rewrite E.
Qed.

(** A quoted string alone. *)
Lemma parse_quoted u : valid_utf8 u = true → parse_json (quote u) = Ok (JString u).
Proof.
  intros Hu. destruct (quote_reads_back u Hu) as (H & _). unfold parse_json.
  assert (Hv : valid_json (quote u) = true).
  { unfold valid_json. destruct (compact_valid 0 scanner_init (quote u)) as [x ->]; [|done].
    exists (quote u). unfold quote. rewrite (compact_plain _ _ (InString, [])) by reflexivity.
    rewrite H. reflexivity. }
  rewrite Hv. pose proof (parse_quote u "" Hu) as Hp.
  change (parse_value (S (String.length (quote u))) (quote u))
    with ('(x, r) ← parse_string (quote_go 0 u +:+ dquote +:+ ""); Some (JString x, r)).
  by rewrite Hp.
Qed.

(** *** ASCII text *)
Fixpoint all_ascii (s : string) : bool :=
  match s with String c r => (byte_at c <? 128) && all_ascii r | EmptyString => true end.

Lemma all_ascii_app s t : all_ascii (s +:+ t) = all_ascii s && all_ascii t.
Proof. induction s as [|c s IH]; [done|]. rewrite append_cons. cbn [all_ascii]. by rewrite IH, andb_assoc. Qed.

Lemma all_ascii_utf8 s : all_ascii s = true → valid_utf8 s = true.
Proof.
  unfold valid_utf8. induction s as [|c s IH]; [done|]. cbn [all_ascii valid_go].
  intros [Hc Hs]%andb_prop. rewrite utf8_len_ascii by (by apply Nat.ltb_lt). by apply IH.
Qed.

Lemma digits_ascii s : all_digits s = true → all_ascii s = true.
Proof.
  induction s as [|c s IH]; [done|]. cbn [all_digits all_ascii].
  destruct (digit_value c) as [d|] eqn:E; [|done]. intros H. rewrite IH by done.
  rewrite andb_true_r. apply Nat.ltb_lt. unfold digit_value in E. case_match; [|done].
  apply andb_prop in H0 as [_ ?]. lia.
Qed.
