(* ===== verification/Job.v ===== *)
(** * Jobs and their SQLite store: [internal/scheduler/job.go]

    The data model, and [SQLiteJobStore] as operations on the rows of the
    [jobs] table of [Initialize]: primary key, UNIQUE(user_id, type,
    schedule) and the CHECK on status are enforced by the statements, and a
    statement or [RowsAffected] can fail for reasons of the engine, given as
    an argument ([db_faults]).  The driver keeps instants exactly.  SQLite
    compares and orders next_run by its text, which the driver writes in the
    instant's own zone; here it is compared as an instant, which is the same
    when all the instants bound have one offset and no fraction of a second. *)
From Stdlib Require Import ZArith Lia.
From stdpp Require Import base gmap list strings pretty sorting.
From S2P Require Import Prelude GoTime GoJson.

(** [JobStatus] is a Go string with five named values. *)
(** @src internal/scheduler/job.go 14-23 JobStatus *)
Definition JobStatus : Type := string.
(** @src internal/scheduler/job.go 18-18 JobStatusPending *)
Definition JobStatusPending : JobStatus := "pending".
(** @src internal/scheduler/job.go 19-19 JobStatusRunning *)
Definition JobStatusRunning : JobStatus := "running".
(** @src internal/scheduler/job.go 20-20 JobStatusCompleted *)
Definition JobStatusCompleted : JobStatus := "completed".
(** @src internal/scheduler/job.go 21-21 JobStatusFailed *)
Definition JobStatusFailed : JobStatus := "failed".
(** @src internal/scheduler/job.go 22-22 JobStatusDead *)
Definition JobStatusDead : JobStatus := "dead".

(** A nil payload is [None]; [LastRun] is a pointer. *)
(** @src internal/scheduler/job.go 25-39 Job *)
Record Job := mkJob {
  ID : string;
  UserID : string;
  JType : string;
  Schedule : string;
  Payload : option string;
  Status : string;
  RetryCount : Z;
  LastError : string;
  NextRun : Z;
  LastRun : option Z;
  CreatedAt : Z;
  UpdatedAt : Z;
}.

(** @src internal/scheduler/job.go 62-69 JobFilter *)
Record JobFilter := mkFilter {
  f_UserID : string;
  f_Type : string;
  f_Status : string;
  f_NextRun : Z;
  f_Statuses : list string;
}.
Definition empty_filter : JobFilter := mkFilter "" "" "" 0 [].

(** @src internal/scheduler/job.go 71-79 ListJobsOptions *)
Record ListJobsOptions := mkOpts {
  o_Type : string;
  o_UserID : string;
  o_Status : string;
  o_Before : Z;
  o_After : Z;
  o_Limit : Z;
}.

(** ** The table *)

(** One row of [jobs]; the columns in their order.  [last_error] and
    [last_run] may be NULL. *)
(** @src internal/scheduler/job.go 94-108 Initialize *)
Record JobRow := mkRow {
  r_id : string;
  r_user_id : string;
  r_type : string;
  r_schedule : string;
  r_payload : string;
  r_status : string;
  r_retry_count : Z;
  r_last_error : option string;
  r_next_run : Z;
  r_last_run : option Z;
  r_created_at : Z;
  r_updated_at : Z;
}.

Abbreviation JobTable := (list JobRow).

Definition r_key (r : JobRow) : string * string * string :=
  (r_user_id r, r_type r, r_schedule r).

(** CHECK (status IN (...)). *)
(** @src internal/scheduler/job.go 100-100 Initialize *)
Definition check_status (s : string) : bool :=
  bool_decide (s ∈ [JobStatusPending; JobStatusRunning; JobStatusCompleted;
                    JobStatusFailed; JobStatusDead]).

Definition constraint_failed (what : string) : error :=
  ExtError (what +:+ " constraint failed: jobs").

(** What the engine or the driver answers beyond the table's own rules. *)
Record db_faults := mkFaults { exec_fault : option error; rows_fault : option error }.
Definition no_faults : db_faults := mkFaults None None.
#[export] Instance db_faults_eq_dec : EqDecision db_faults.
Proof. solve_decision. Defined.

(** INSERT INTO jobs. *)
(** @src internal/scheduler/job.go 137-149 CreateJob *)
Definition insert_row (r : JobRow) (db : JobTable) : result JobTable :=
  if negb (check_status (r_status r)) then Err (constraint_failed "CHECK")
  else if bool_decide (r_id r ∈ (r_id <$> db)) then Err (constraint_failed "UNIQUE")
  else if bool_decide (r_key r ∈ (r_key <$> db)) then Err (constraint_failed "UNIQUE")
  else Ok (db ++ [r]).

(** The SET clause of UPDATE: id and created_at keep their values. *)
(** @src internal/scheduler/job.go 170-183 UpdateJob *)
Definition set_row (job : Job) (payload : string) (r : JobRow) : JobRow :=
  mkRow (r_id r) (UserID job) (JType job) (Schedule job) payload (Status job)
        (RetryCount job) (Some (LastError job)) (NextRun job) (LastRun job)
        (r_created_at r) (UpdatedAt job).

(** UPDATE jobs SET ... WHERE id = ?: the new table and the rows affected. *)
(** @src internal/scheduler/job.go 170-183 UpdateJob *)
Definition update_rows (job : Job) (payload : string) (db : JobTable) : result (JobTable * nat) :=
  let hit r := bool_decide (r_id r = ID job) in
  let others := filter (λ r, r_id r ≠ ID job) db in
  let n := length (filter (λ r, r_id r = ID job) db) in
  if (0 <? n) then
    if negb (check_status (Status job)) then Err (constraint_failed "CHECK")
    else if bool_decide ((UserID job, JType job, Schedule job) ∈ (r_key <$> others))
    then Err (constraint_failed "UNIQUE")
    else Ok ((λ r, if hit r then set_row job payload r else r) <$> db, n)
  else Ok (db, 0).

(** DELETE FROM jobs WHERE id = ?. *)
(** @src internal/scheduler/job.go 257-258 DeleteJob *)
Definition delete_rows (id : string) (db : JobTable) : JobTable * nat :=
  (filter (λ r, r_id r ≠ id) db, length (filter (λ r, r_id r = id) db)).

(** The conditions [ListJobs] collects, joined with AND. *)
(** @src internal/scheduler/job.go 200-232 ListJobs *)
Definition row_matches (f : JobFilter) (r : JobRow) : bool :=
  (if decide (f_UserID f = "") then true else bool_decide (r_user_id r = f_UserID f)) &&
  (if decide (f_Type f = "") then true else bool_decide (r_type r = f_Type f)) &&
  (if decide (f_Status f = "") then true else bool_decide (r_status r = f_Status f)) &&
  (if decide (f_Statuses f = []) then true else bool_decide (r_status r ∈ f_Statuses f)) &&
  (if IsZero (f_NextRun f) then true else (f_NextRun f <=? r_next_run r)%Z).

Definition next_run_le (r1 r2 : JobRow) : Prop := (r_next_run r1 ≤ r_next_run r2)%Z.
#[export] Instance next_run_le_dec : RelDecision next_run_le.
Proof. intros r1 r2. unfold next_run_le. apply _. Defined.
#[export] Instance next_run_le_total : Total next_run_le.
Proof. intros r1 r2. unfold next_run_le. lia. Qed.
#[export] Instance next_run_le_trans : Transitive next_run_le.
Proof. intros r1 r2 r3. unfold next_run_le. lia. Qed.

(** SELECT * FROM jobs WHERE ... ORDER BY next_run ASC. *)
(** @src internal/scheduler/job.go 229-235 ListJobs *)
Definition select_rows (f : JobFilter) (db : JobTable) : list JobRow :=
  merge_sort next_run_le (filter (λ r, row_matches f r = true) db).

(** ** The operations *)

(** @src internal/scheduler/job.go 273-291 scanJob *)
Definition scanJob (r : JobRow) : result Job :=
  match r_last_error r with
  | None => Err (wrap_pre "scan job: " (ExtError "converting NULL to string is unsupported"))
  | Some last_error =>
      payload ← wrap_err "unmarshal payload: " (Unmarshal_raw (r_payload r));
      Ok (mkJob (r_id r) (r_user_id r) (r_type r) (r_schedule r) (Some payload) (r_status r)
                (r_retry_count r) last_error (r_next_run r) (r_last_run r)
                (r_created_at r) (r_updated_at r))
  end.

(** The fields [CreateJob] fills in before it writes, lines 120-130. *)
(** @src internal/scheduler/job.go 120-130 CreateJob *)
Definition create_defaults (uuid : string) (now : Z) (job : Job) : Job :=
  mkJob (if decide (ID job = "") then uuid else ID job)
        (UserID job) (JType job) (Schedule job) (Payload job)
        (if decide (Status job = "") then JobStatusPending else Status job)
        (RetryCount job) (LastError job) (NextRun job) (LastRun job)
        (if IsZero (CreatedAt job) then now else CreatedAt job) now.

Definition row_of_job (job : Job) (payload : string) : JobRow :=
  mkRow (ID job) (UserID job) (JType job) (Schedule job) payload (Status job) (RetryCount job)
        (Some (LastError job)) (NextRun job) (LastRun job) (CreatedAt job) (UpdatedAt job).

(** The job the caller holds is changed even when the insertion fails. *)
(** @src internal/scheduler/job.go 118-154 CreateJob *)
Definition CreateJob (uuid : string) (now : Z) (flt : db_faults) (job : Job) (db : JobTable)
  : Job * JobTable * result unit :=
  let job := create_defaults uuid now job in
  match Marshal_raw (Payload job) with
  | Err e => (job, db, Err (wrap_pre "marshal payload: " e))
  | Ok payload =>
      match exec_fault flt with
      | Some e => (job, db, Err (wrap_pre "insert job: " e))
      | None =>
          match insert_row (row_of_job job payload) db with
          | Err e => (job, db, Err (wrap_pre "insert job: " e))
          | Ok db' => (job, db', Ok tt)
          end
      end
  end.

(** @src internal/scheduler/job.go 293-315 queryJob *)
Definition queryJob (flt : db_faults) (rows : list JobRow) : result Job :=
  match exec_fault flt with
  | Some e => Err (wrap_pre "query job: " e)
  | None =>
      match rows with
      | [] => Err (ErrorString "job not found")
      | r :: _ =>
          job ← scanJob r;
          match rows_fault flt with
          | Some e => Err (wrap_pre "iterate rows: " e)
          | None => Ok job
          end
      end
  end.

(** @src internal/scheduler/job.go 156-160 GetJob *)
Definition GetJob (flt : db_faults) (id : string) (db : JobTable) : result Job :=
  queryJob flt (filter (λ r, r_id r = id) db).

Definition set_UpdatedAt (now : Z) (job : Job) : Job :=
  mkJob (ID job) (UserID job) (JType job) (Schedule job) (Payload job) (Status job)
        (RetryCount job) (LastError job) (NextRun job) (LastRun job) (CreatedAt job) now.

(** @src internal/scheduler/job.go 162-196 UpdateJob *)
Definition UpdateJob (now : Z) (flt : db_faults) (job : Job) (db : JobTable)
  : Job * JobTable * result unit :=
  let job := set_UpdatedAt now job in
  match Marshal_raw (Payload job) with
  | Err e => (job, db, Err (wrap_pre "marshal payload: " e))
  | Ok payload =>
      match exec_fault flt with
      | Some e => (job, db, Err (wrap_pre "update job: " e))
      | None =>
          match update_rows job payload db with
          | Err e => (job, db, Err (wrap_pre "update job: " e))
          | Ok (db', rows) =>
              match rows_fault flt with
              | Some e => (job, db', Err (wrap_pre "get rows affected: " e))
              | None => if (rows =? 0)
                        then (job, db', Err (ErrorString ("job not found: " +:+ ID job)))
                        else (job, db', Ok tt)
              end
          end
      end
  end.

(** [for rows.Next()]: the first row that does not scan ends the loop. *)
(** @src internal/scheduler/job.go 241-248 ListJobs *)
Fixpoint scan_all (rows : list JobRow) : result (list Job) :=
  match rows with
  | [] => Ok []
  | r :: rest => job ← scanJob r; jobs ← scan_all rest; Ok (job :: jobs)
  end.

(** @src internal/scheduler/job.go 198-253 ListJobs *)
Definition ListJobs (flt : db_faults) (f : JobFilter) (db : JobTable) : result (list Job) :=
  match exec_fault flt with
  | Some e => Err (wrap_pre "query jobs: " e)
  | None =>
      jobs ← scan_all (select_rows f db);
      match rows_fault flt with
      | Some e => Err (wrap_pre "iterate rows: " e)
      | None => Ok jobs
      end
  end.

(** @src internal/scheduler/job.go 255-271 DeleteJob *)
Definition DeleteJob (flt : db_faults) (id : string) (db : JobTable) : JobTable * result unit :=
  match exec_fault flt with
  | Some e => (db, Err (wrap_pre "delete job: " e))
  | None =>
      let '(db', rows) := delete_rows id db in
      match rows_fault flt with
      | Some e => (db', Err (wrap_pre "get rows affected: " e))
      | None => if (rows =? 0) then (db', Err (ErrorString ("job not found: " +:+ id)))
                else (db', Ok tt)
      end
  end.

(** CREATE TABLE IF NOT EXISTS; [None] is a database without the table.  The
    rows that are there stay. *)
(** @src internal/scheduler/job.go 91-116 Initialize *)
Definition Initialize (flt : db_faults) (db : option JobTable) : result JobTable :=
  match exec_fault flt with
  | Some e => Err e
  | None => Ok (default [] db)
  end.

(** ** The invariant of the table *)

(** What this store writes: a legal status, a non-null last error, and a
    payload that [json.Marshal] produced. *)
Definition row_ok (r : JobRow) : Prop :=
  check_status (r_status r) = true ∧ is_Some (r_last_error r) ∧
  ∃ m, Marshal_raw m = Ok (r_payload r).

Record table_wf (db : JobTable) : Prop := {
  wf_ids : NoDup (r_id <$> db);
  wf_keys : NoDup (r_key <$> db);
  wf_rows : Forall row_ok db;
}.

(** ** The abstract store: jobs by their ID *)
Definition job_of_row (r : JobRow) : Job :=
  mkJob (r_id r) (r_user_id r) (r_type r) (r_schedule r) (Some (r_payload r)) (r_status r)
        (r_retry_count r) (default "" (r_last_error r)) (r_next_run r) (r_last_run r)
        (r_created_at r) (r_updated_at r).

Definition abs_jobs (db : JobTable) : gmap string Job :=
  list_to_map ((λ r, (r_id r, job_of_row r)) <$> db).

(** The job as it is once stored: its payload compacted. *)
Definition with_payload (p : string) (j : Job) : Job :=
  mkJob (ID j) (UserID j) (JType j) (Schedule j) (Some p) (Status j) (RetryCount j)
        (LastError j) (NextRun j) (LastRun j) (CreatedAt j) (UpdatedAt j).
Definition with_CreatedAt (t : Z) (j : Job) : Job :=
  mkJob (ID j) (UserID j) (JType j) (Schedule j) (Payload j) (Status j) (RetryCount j)
        (LastError j) (NextRun j) (LastRun j) t (UpdatedAt j).

Definition job_key (j : Job) : string * string * string := (UserID j, JType j, Schedule j).

Lemma scanJob_ok r : row_ok r → scanJob r = Ok (job_of_row r).
Proof.
  intros (_ & [e He] & m & Hm). unfold scanJob, job_of_row. rewrite He.
  apply Marshal_raw_fixed in Hm as [-> _]. done.
Qed.

Lemma abs_lookup db id j :
  NoDup (r_id <$> db) →
  abs_jobs db !! id = Some j ↔ ∃ r, r ∈ db ∧ r_id r = id ∧ j = job_of_row r.
Proof.
  intros Hnd. unfold abs_jobs. rewrite <- elem_of_list_to_map.
  - rewrite list_elem_of_fmap. split.
    + intros (r & [= -> ->] & Hr). by exists r.
    + intros (r & Hr & <- & ->). by exists r.
  - rewrite <- list_fmap_compose. exact Hnd.
Qed.

Lemma abs_lookup_None db id : abs_jobs db !! id = None ↔ id ∉ r_id <$> db.
Proof.
  unfold abs_jobs. rewrite <- not_elem_of_list_to_map.
  rewrite <- list_fmap_compose. done.
Qed.

Lemma abs_app_fresh db r :
  r_id r ∉ r_id <$> db → abs_jobs (db ++ [r]) = <[r_id r := job_of_row r]> (abs_jobs db).
Proof.
  intros H. unfold abs_jobs. rewrite fmap_app, list_to_map_app. cbn.
  rewrite <- insert_union_r; [by rewrite map_union_empty|].
  by apply abs_lookup_None.
Qed.

(** ** Insertion *)
Lemma insert_row_wf r db db' :
  insert_row r db = Ok db' → row_ok r → table_wf db →
  table_wf db' ∧ abs_jobs db !! r_id r = None ∧
  abs_jobs db' = <[r_id r := job_of_row r]> (abs_jobs db).
Proof.
  unfold insert_row. intros H Hr Hwf.
  destruct (negb _); [done|].
  destruct (bool_decide _) eqn:E1; [done|]. destruct (bool_decide (r_key r ∈ _)) eqn:E2; [done|].
  injection H as <-. apply bool_decide_eq_false in E1, E2. destruct Hwf as [H1 H2 H3].
  split; [split|split].
  - rewrite fmap_app. apply NoDup_app. split_and!; [done| |apply NoDup_singleton].
    intros x Hx ->%list_elem_of_singleton. done.
  - rewrite fmap_app. apply NoDup_app. split_and!; [done| |apply NoDup_singleton].
    intros x Hx ->%list_elem_of_singleton. done.
  - apply Forall_app. by rewrite Forall_singleton.
  - by apply abs_lookup_None.
  - by apply abs_app_fresh.
Qed.

Lemma CreateJob_spec uuid now flt job db job' db' res :
  table_wf db → CreateJob uuid now flt job db = (job', db', res) →
  job' = create_defaults uuid now job ∧ table_wf db' ∧
  match res with
  | Err _ => db' = db
  | Ok _ => abs_jobs db !! ID job' = None ∧ check_status (Status job') = true ∧
      (∀ j, j ∈ (map_to_list (abs_jobs db)).*2 → job_key j ≠ job_key job') ∧
      ∃ p, Marshal_raw (Payload job) = Ok p ∧
           abs_jobs db' = <[ID job' := with_payload p job']> (abs_jobs db)
  end.
Proof.
  intros Hwf. unfold CreateJob. set (j := create_defaults uuid now job).
  change (Payload j) with (Payload job).
  destruct (Marshal_raw (Payload job)) as [p|e] eqn:Ep; [|by intros [= <- <- <-]].
  destruct (exec_fault flt); [by intros [= <- <- <-]|].
  destruct (insert_row _ db) as [db2|e] eqn:Ei; [|by intros [= <- <- <-]].
  intros [= <- <- <-]. split; [done|].
  assert (Hst : check_status (Status j) = true ∧ r_key (row_of_job j p) ∉ r_key <$> db).
  { unfold insert_row in Ei. destruct (check_status _) eqn:Es in Ei; [|done]. cbn in Ei.
    destruct (bool_decide _); [done|].
    destruct (bool_decide (r_key (row_of_job j p) ∈ _)) eqn:E2 in Ei; [done|].
    by apply bool_decide_eq_false in E2. }
  apply insert_row_wf in Ei as (Hwf' & Hnone & Habs); [| |done].
  - split; [done|]. split_and!; [done|tauto| |eauto].
    intros k Hk Heq. apply list_elem_of_fmap in Hk as ([i k'] & -> & Hik).
    apply elem_of_map_to_list, abs_lookup in Hik as (r & Hr & _ & E); [|apply Hwf].
    apply (proj2 Hst), list_elem_of_fmap. exists r. split; [|done].
    simpl in Heq. subst k'. symmetry. exact Heq.
  - split_and!; [tauto|by eexists|by eexists].
Qed.

(** ** Statements that select by primary key *)

(** The one row with an ID, and the rows around it. *)
Definition id_split (id : string) (db l1 l2 : JobTable) (r : JobRow) : Prop :=
  db = l1 ++ r :: l2 ∧ r_id r = id ∧
  Forall (λ r, r_id r ≠ id) l1 ∧ Forall (λ r, r_id r ≠ id) l2.

Lemma id_split_exists id db :
  NoDup (r_id <$> db) → id ∈ r_id <$> db → ∃ l1 r l2, id_split id db l1 l2 r.
Proof.
  intros Hnd Hin. apply list_elem_of_fmap in Hin as (r & -> & Hr).
  apply list_elem_of_split in Hr as (l1 & l2 & ->). exists l1, r, l2.
  rewrite fmap_app, fmap_cons in Hnd. apply NoDup_app in Hnd as (N1 & N2 & N3).
  apply NoDup_cons in N3 as [N3 N4]. split_and!; [done|done| |].
  - apply Forall_forall. intros x Hx E. apply (N2 (r_id x)).
    + apply list_elem_of_fmap; eauto.
    + rewrite E. left.
  - apply Forall_forall. intros x Hx E. apply N3. rewrite <- E.
    apply list_elem_of_fmap; eauto.
Qed.

Lemma filter_all {A} (P : A → Prop) `{!∀ x, Decision (P x)} (l : list A) :
  Forall P l → filter P l = l.
Proof.
  induction 1 as [|x l Hx HF IH]; [done|]. rewrite filter_cons_True by done. by rewrite IH.
Qed.

Lemma filter_none {A} (P : A → Prop) `{!∀ x, Decision (P x)} (l : list A) :
  Forall (λ x, ¬ P x) l → filter P l = [].
Proof.
  induction 1 as [|x l Hx HF IH]; [done|]. by rewrite filter_cons_False.
Qed.

Lemma id_split_filter id db l1 l2 r :
  id_split id db l1 l2 r →
  filter (λ r, r_id r = id) db = [r] ∧ filter (λ r, r_id r ≠ id) db = l1 ++ l2.
Proof.
  intros (-> & Hr & F1 & F2). rewrite !filter_app.
  rewrite filter_cons_True by done. rewrite filter_cons_False by (intros N; by apply N).
  rewrite (filter_none _ l1), (filter_none _ l2), (filter_all _ l1), (filter_all _ l2) by done.
  done.
Qed.

Lemma id_absent_filter id db :
  id ∉ r_id <$> db →
  filter (λ r, r_id r = id) db = [] ∧ filter (λ r, r_id r ≠ id) db = db.
Proof.
  intros H. assert (F : Forall (λ r, r_id r ≠ id) db).
  { apply Forall_forall. intros r Hr E. apply H, list_elem_of_fmap. eauto. }
  split; [by apply filter_none|by apply filter_all].
Qed.

Lemma abs_app db1 db2 : abs_jobs (db1 ++ db2) = abs_jobs db1 ∪ abs_jobs db2.
Proof. unfold abs_jobs. by rewrite fmap_app, list_to_map_app. Qed.

Lemma abs_cons r db : abs_jobs (r :: db) = <[r_id r := job_of_row r]> (abs_jobs db).
Proof. done. Qed.

Lemma abs_Forall_None id l : Forall (λ r, r_id r ≠ id) l → abs_jobs l !! id = None.
Proof.
  intros F. apply abs_lookup_None. intros Hin. apply list_elem_of_fmap in Hin as (r & -> & Hr).
  rewrite Forall_forall in F. by apply (F r).
Qed.

Lemma id_split_abs id db l1 l2 r :
  id_split id db l1 l2 r →
  abs_jobs db !! id = Some (job_of_row r) ∧ abs_jobs (l1 ++ l2) = delete id (abs_jobs db).
Proof.
  intros (-> & <- & F1 & F2). rewrite !abs_app, abs_cons.
  pose proof (abs_Forall_None _ _ F1) as N1. pose proof (abs_Forall_None _ _ F2) as N2. split.
  - rewrite lookup_union_r by done. apply lookup_insert_eq.
  - rewrite <- insert_union_r by done. rewrite delete_insert_id; [done|].
    by rewrite lookup_union_None.
Qed.

Lemma id_split_replace id db l1 l2 r r' :
  id_split id db l1 l2 r → r_id r' = id →
  abs_jobs (l1 ++ r' :: l2) = <[id := job_of_row r']> (abs_jobs db).
Proof.
  intros (-> & <- & F1 & F2) Hr'. rewrite !abs_app, !abs_cons, Hr'.
  pose proof (abs_Forall_None _ _ F1) as N1.
  rewrite <- !insert_union_r by done. by rewrite insert_insert_eq.
Qed.

(** UPDATE with a legal status and no clash replaces the row in place. *)
Lemma update_rows_spec job p db db' n :
  table_wf db → (∃ m, Marshal_raw m = Ok p) → update_rows job p db = Ok (db', n) →
  (n = 0 ∧ db' = db ∧ abs_jobs db !! ID job = None) ∨
  (n = 1 ∧ table_wf db' ∧ check_status (Status job) = true ∧ ∃ old,
     abs_jobs db !! ID job = Some old ∧
     abs_jobs db' = <[ID job := with_CreatedAt (CreatedAt old) (with_payload p job)]> (abs_jobs db)).
Proof.
  intros Hwf Hp. unfold update_rows.
  destruct (decide (ID job ∈ r_id <$> db)) as [Hin|Hout].
  2:{ destruct (id_absent_filter _ _ Hout) as [-> _]. cbn. intros [= <- <-].
      left. split_and!; [done|done|by apply abs_lookup_None]. }
  destruct (id_split_exists _ _ (wf_ids _ Hwf) Hin) as (l1 & r & l2 & Hs).
  destruct (id_split_filter _ _ _ _ _ Hs) as [-> ->]. cbn [length Nat.ltb Nat.leb].
  destruct (check_status (Status job)) eqn:Est; [|done]. cbn [negb].
  destruct (bool_decide _) eqn:Ek; [done|]. apply bool_decide_eq_false in Ek.
  intros [= <- <-]. right.
  assert (Emap : (λ r0, if bool_decide (r_id r0 = ID job) then set_row job p r0 else r0) <$> db
                 = l1 ++ set_row job p r :: l2).
  { destruct Hs as (-> & Hr & F1 & F2). rewrite fmap_app, fmap_cons.
    rewrite bool_decide_true by done.
    assert (G : ∀ l, Forall (λ r, r_id r ≠ ID job) l →
      (λ r0, if bool_decide (r_id r0 = ID job) then set_row job p r0 else r0) <$> l = l).
    { induction 1 as [|x l Hx HF IH]; [done|]. rewrite fmap_cons, IH.
      by rewrite bool_decide_false. }
    by rewrite !G. }
  rewrite Emap. destruct (id_split_abs _ _ _ _ _ Hs) as [Hlook _].
  pose proof (id_split_replace _ _ _ _ _ (set_row job p r) Hs (proj1 (proj2 Hs))) as Habs.
  destruct Hs as (-> & Hr & F1 & F2). destruct Hwf as [W1 W2 W3].
  rewrite fmap_app, fmap_cons in W1. rewrite fmap_app, fmap_cons in W2.
  apply Forall_app in W3 as [W3a W3b].
  apply Forall_cons in W3b as [W3b W3c].
  split_and!; [done| |done|].
  - split.
    + rewrite fmap_app, fmap_cons. exact W1.
    + rewrite fmap_app, fmap_cons. rewrite fmap_app in Ek.
      apply NoDup_app in W2 as (N1 & N2 & N3%NoDup_cons).
      apply NoDup_app. split_and!; [done| |apply NoDup_cons; split; [|tauto]].
      * intros k Hk. rewrite elem_of_cons. intros [->|Hk2].
        -- apply Ek. rewrite elem_of_app. by left.
        -- apply (N2 k Hk). by right.
      * intros Hk. apply Ek. rewrite elem_of_app. by right.
    + apply Forall_app. split; [done|]. apply Forall_cons. split; [|done].
      split_and!; [done|by eexists|done].
  - eexists. split; [exact Hlook|]. rewrite Habs. f_equal.
    unfold job_of_row, with_CreatedAt, with_payload, set_row. simpl. by rewrite Hr.
Qed.

Lemma UpdateJob_spec now flt job db job' db' res :
  table_wf db → UpdateJob now flt job db = (job', db', res) →
  job' = set_UpdatedAt now job ∧ table_wf db' ∧
  let updated := check_status (Status job) = true ∧ ∃ old p,
      abs_jobs db !! ID job = Some old ∧ Marshal_raw (Payload job) = Ok p ∧
      abs_jobs db' = <[ID job := with_CreatedAt (CreatedAt old) (with_payload p job')]> (abs_jobs db)
  in match res with
     | Ok _ => updated
     | Err _ => db' = db ∨ rows_fault flt ≠ None ∧ updated
     end.
Proof.
  intros Hwf. unfold UpdateJob. set (j := set_UpdatedAt now job).
  change (Payload j) with (Payload job). change (ID j) with (ID job).
  destruct (Marshal_raw (Payload job)) as [p|e] eqn:Ep;
    [|intros [= <- <- <-]; split_and!; by try left].
  destruct (exec_fault flt); [intros [= <- <- <-]; split_and!; by try left|].
  destruct (update_rows j p db) as [[db2 n]|e] eqn:Eu;
    [|intros [= <- <- <-]; split_and!; by try left].
  apply update_rows_spec in Eu; [|done|by eexists].
  destruct Eu as [(-> & -> & Hn)|(-> & Hwf' & Hst & old & Ho & Ha)]; cbn [Nat.eqb].
  - destruct (rows_fault flt); intros [= <- <- <-]; split_and!; by try left.
  - destruct (rows_fault flt); intros [= <- <- <-]; (split; [done|]); (split; [done|]).
    + right. split; [done|]. split; [done|]. by exists old, p.
    + split; [done|]. by exists old, p.
Qed.

(** Without faults, an update fails only for one of these reasons. *)
Lemma UpdateJob_succeeds now job db :
  table_wf db → is_Some (abs_jobs db !! ID job) →
  is_ok (Marshal_raw (Payload job)) = true → check_status (Status job) = true →
  (∀ i a, abs_jobs db !! i = Some a → job_key a = job_key job → i = ID job) →
  ∃ db', UpdateJob now no_faults job db = (set_UpdatedAt now job, db', Ok tt).
Proof.
  intros Hwf [old Ho] [p Hp]%is_ok_true Hst Hk. unfold UpdateJob, update_rows.
  change (Payload (set_UpdatedAt now job)) with (Payload job). rewrite Hp. cbn [exec_fault no_faults].
  change (ID (set_UpdatedAt now job)) with (ID job).
  change (Status (set_UpdatedAt now job)) with (Status job).
  assert (Hin : ID job ∈ r_id <$> db).
  { destruct (decide (ID job ∈ r_id <$> db)); [done|].
    by rewrite (proj2 (abs_lookup_None _ _)) in Ho. }
  destruct (id_split_exists _ _ (wf_ids _ Hwf) Hin) as (l1 & r & l2 & Hs).
  destruct (id_split_filter _ _ _ _ _ Hs) as [-> ->]. cbn [length Nat.ltb Nat.leb].
  rewrite Hst. cbn [negb]. rewrite bool_decide_false; [by eexists|].
  intros Hc. apply list_elem_of_fmap in Hc as (x & Hx & Hin').
  destruct Hs as (-> & Hr & F1 & F2). rewrite Forall_forall in F1, F2.
  assert (Hxid : r_id x ≠ ID job).
  { apply elem_of_app in Hin' as [?|?]; [by apply F1|by apply F2]. }
  apply Hxid. apply (Hk (r_id x) (job_of_row x)); [|exact (eq_sym Hx)].
  apply abs_lookup; [apply Hwf|]. exists x. split_and!; [|done|done].
  apply elem_of_app in Hin' as [?|?]; apply elem_of_app; [by left|right; by right].
Qed.

Lemma CreateJob_succeeds uuid now job db :
  table_wf db → let j := create_defaults uuid now job in
  abs_jobs db !! ID j = None →
  is_ok (Marshal_raw (Payload job)) = true → check_status (Status j) = true →
  (∀ i a, abs_jobs db !! i = Some a → job_key a ≠ job_key job) →
  ∃ db', CreateJob uuid now no_faults job db = (j, db', Ok tt).
Proof.
  intros Hwf j Hid [p Hp]%is_ok_true Hst Hk. unfold CreateJob, insert_row.
  change (Payload (create_defaults uuid now job)) with (Payload job). rewrite Hp.
  cbn [exec_fault no_faults]. fold j.
  change (r_status (row_of_job j p)) with (Status j). rewrite Hst. cbn [negb].
  rewrite bool_decide_false by (by apply abs_lookup_None).
  rewrite bool_decide_false; [by eexists|].
  intros Hc. apply list_elem_of_fmap in Hc as (x & Hx & Hin).
  apply (Hk (r_id x) (job_of_row x)); [|exact (eq_sym Hx)].
  apply abs_lookup; [apply Hwf|]. by exists x.
Qed.

Lemma DeleteJob_spec flt id db db' res :
  table_wf db → DeleteJob flt id db = (db', res) →
  table_wf db' ∧
  match res with
  | Ok _ => is_Some (abs_jobs db !! id) ∧ abs_jobs db' = delete id (abs_jobs db)
  | Err _ => rows_fault flt = None → db' = db
  end.
Proof.
  intros Hwf. unfold DeleteJob, delete_rows.
  destruct (exec_fault flt); [by intros [= <- <-]|].
  destruct (decide (id ∈ r_id <$> db)) as [Hin|Hout].
  - destruct (id_split_exists _ _ (wf_ids _ Hwf) Hin) as (l1 & r & l2 & Hs).
    destruct (id_split_filter _ _ _ _ _ Hs) as [-> ->]. cbn [length Nat.eqb].
    destruct (id_split_abs _ _ _ _ _ Hs) as [H1 H2].
    assert (table_wf (l1 ++ l2)).
    { destruct Hs as (-> & _). destruct Hwf as [W1 W2 W3].
      assert (SL : l1 ++ l2 `sublist_of` l1 ++ r :: l2)
        by (apply sublist_app; [done|by apply sublist_cons]).
      split.
      - eapply sublist_NoDup; [exact W1|by apply fmap_sublist].
      - eapply sublist_NoDup; [exact W2|by apply fmap_sublist].
      - apply Forall_app in W3 as [? [? ?]%Forall_cons]. by apply Forall_app. }
    destruct (rows_fault flt); intros [= <- <-]; [done|]. split_and!; [done|by eexists|done].
  - destruct (id_absent_filter _ _ Hout) as [-> ->]. cbn [length Nat.eqb].
    by destruct (rows_fault flt); intros [= <- <-].
Qed.

Lemma row_ok_elem db r : table_wf db → r ∈ db → row_ok r.
Proof. intros [_ _ W] Hr. rewrite Forall_forall in W. by apply W. Qed.

Lemma GetJob_spec id db :
  table_wf db →
  GetJob no_faults id db =
  match abs_jobs db !! id with Some j => Ok j | None => Err (ErrorString "job not found") end.
Proof.
  intros Hwf. unfold GetJob, queryJob. cbn [exec_fault rows_fault no_faults].
  destruct (decide (id ∈ r_id <$> db)) as [Hin|Hout].
  - destruct (id_split_exists _ _ (wf_ids _ Hwf) Hin) as (l1 & r & l2 & Hs).
    rewrite (proj1 (id_split_filter _ _ _ _ _ Hs)), (proj1 (id_split_abs _ _ _ _ _ Hs)).
    rewrite scanJob_ok; [done|]. apply (row_ok_elem db); [done|].
    destruct Hs as (-> & _). apply elem_of_app. right. left.
  - rewrite (proj1 (id_absent_filter _ _ Hout)).
    by rewrite (proj2 (abs_lookup_None _ _)).
Qed.

Lemma scan_all_ok rows : Forall row_ok rows → scan_all rows = Ok (job_of_row <$> rows).
Proof.
  induction 1 as [|r rows Hr HF IH]; [done|]. cbn [scan_all].
  rewrite scanJob_ok by done. rewrite IH. done.
Qed.

(** What a filter asks of a stored job. *)
Definition job_matches (f : JobFilter) (j : Job) : Prop :=
  (f_UserID f = "" ∨ UserID j = f_UserID f) ∧
  (f_Type f = "" ∨ JType j = f_Type f) ∧
  (f_Status f = "" ∨ Status j = f_Status f) ∧
  (f_Statuses f = [] ∨ Status j ∈ f_Statuses f) ∧
  (f_NextRun f = 0%Z ∨ (f_NextRun f ≤ NextRun j)%Z).

Lemma optional_cond (P Q : Prop) `{!Decision P} `{!Decision Q} :
  (if decide P then true else bool_decide Q) = true ↔ P ∨ Q.
Proof. case_decide; rewrite ?bool_decide_eq_true; tauto. Qed.

Lemma row_matches_job f r : row_matches f r = true ↔ job_matches f (job_of_row r).
Proof.
  unfold row_matches, job_matches, IsZero.
  rewrite !andb_true_iff, !optional_cond.
  assert (E : (if (f_NextRun f =? 0)%Z then true else (f_NextRun f <=? r_next_run r)%Z) = true
              ↔ f_NextRun f = 0%Z ∨ (f_NextRun f ≤ r_next_run r)%Z).
  { destruct (Z.eqb_spec (f_NextRun f) 0); rewrite ?Z.leb_le; tauto. }
  rewrite E. tauto.
Qed.

(** Without faults [ListJobs] returns the stored jobs the filter selects, each
    once, by increasing [NextRun]. *)
Lemma ListJobs_spec f db :
  table_wf db → ∃ js, ListJobs no_faults f db = Ok js ∧
    NoDup (ID <$> js) ∧ Sorted (λ a b, (NextRun a ≤ NextRun b)%Z) js ∧
    ∀ j, j ∈ js ↔ abs_jobs db !! ID j = Some j ∧ job_matches f j.
Proof.
  intros Hwf. unfold ListJobs. cbn [exec_fault rows_fault no_faults].
  pose proof (merge_sort_Permutation next_run_le (filter (λ r, row_matches f r = true) db)) as P.
  fold (select_rows f db) in P.
  assert (Sub : ∀ r, r ∈ select_rows f db ↔ row_matches f r = true ∧ r ∈ db)
    by (intros r; rewrite P, list_elem_of_filter; done).
  rewrite scan_all_ok.
  2:{ apply Forall_forall. intros r [_ Hr]%Sub. by apply (row_ok_elem db). }
  eexists. split; [done|]. split_and!.
  - rewrite <- list_fmap_compose. change (ID ∘ job_of_row) with r_id. rewrite P.
    eapply sublist_NoDup; [apply (wf_ids _ Hwf)|]. apply fmap_sublist, sublist_filter.
  - pose proof (Sorted_merge_sort next_run_le (filter (λ r, row_matches f r = true) db)) as HS.
    fold (select_rows f db) in HS. clear P Sub.
    induction HS as [|r l HS IH Hd]; [constructor|]. rewrite fmap_cons. constructor; [done|].
    destruct Hd; constructor. done.
  - intros j. rewrite list_elem_of_fmap. split.
    + intros (r & -> & [Hm Hr]%Sub). rewrite <- row_matches_job. split; [|done].
      apply abs_lookup; [apply Hwf|]. by exists r.
    + intros [Hj Hm]. apply abs_lookup in Hj as (r & Hr & Hid & E); [|apply Hwf].
      exists r. split; [done|]. apply Sub. split; [|done]. apply row_matches_job. by rewrite <- E.
Qed.

(** [NewSQLiteJobStore] followed by [Initialize] on a database without the
    table. *)
(** @src internal/scheduler/job.go 86-89 NewSQLiteJobStore *)
Definition empty_table : JobTable := [].

Lemma empty_table_wf : table_wf empty_table.
Proof. split; constructor. Qed.

(** ** The [JobStore] interface

    The Go interface, lines 41-60, as a class: the operations the scheduler
    calls, and what it may rely on, stated on the abstract map of jobs. *)
Class JobStore (S : Type) := {
  js_wf : S → Prop;
  js_abs : S → gmap string Job;
  js_CreateJob : string → Z → db_faults → Job → S → Job * S * result unit;
  js_UpdateJob : Z → db_faults → Job → S → Job * S * result unit;
  js_ListJobs : db_faults → JobFilter → S → result (list Job);
  js_Initialize : db_faults → option S → result S;

  (** Stored jobs carry their own ID, a legal status and a marshalled payload;
      no two share user, type and schedule. *)
  js_stored s i a : js_wf s → js_abs s !! i = Some a →
    ID a = i ∧ check_status (Status a) = true ∧
    ∃ p, Payload a = Some p ∧ Marshal_raw (Some p) = Ok p;
  js_keys s i j a b : js_wf s → js_abs s !! i = Some a → js_abs s !! j = Some b →
    job_key a = job_key b → i = j;

  js_create_law uuid now flt job s job' s' res :
    js_wf s → js_CreateJob uuid now flt job s = (job', s', res) →
    job' = create_defaults uuid now job ∧ js_wf s' ∧
    match res with
    | Err _ => s' = s
    | Ok _ => js_abs s !! ID job' = None ∧ ∃ p, Marshal_raw (Payload job) = Ok p ∧
        js_abs s' = <[ID job' := with_payload p job']> (js_abs s)
    end;
  js_create_succeeds uuid now job s :
    js_wf s → let j := create_defaults uuid now job in
    js_abs s !! ID j = None → is_ok (Marshal_raw (Payload job)) = true →
    check_status (Status j) = true →
    (∀ i a, js_abs s !! i = Some a → job_key a ≠ job_key job) →
    ∃ s', js_CreateJob uuid now no_faults job s = (j, s', Ok tt);

  js_update_law now flt job s job' s' res :
    js_wf s → js_UpdateJob now flt job s = (job', s', res) →
    job' = set_UpdatedAt now job ∧ js_wf s' ∧
    let updated := check_status (Status job) = true ∧ ∃ old p,
        js_abs s !! ID job = Some old ∧ Marshal_raw (Payload job) = Ok p ∧
        js_abs s' = <[ID job := with_CreatedAt (CreatedAt old) (with_payload p job')]> (js_abs s)
    in match res with
       | Ok _ => updated
       | Err _ => s' = s ∨ rows_fault flt ≠ None ∧ updated
       end;
  js_update_succeeds now job s :
    js_wf s → is_Some (js_abs s !! ID job) →
    is_ok (Marshal_raw (Payload job)) = true → check_status (Status job) = true →
    (∀ i a, js_abs s !! i = Some a → job_key a = job_key job → i = ID job) →
    ∃ s', js_UpdateJob now no_faults job s = (set_UpdatedAt now job, s', Ok tt);

  js_list_law f s : js_wf s →
    ∃ js, js_ListJobs no_faults f s = Ok js ∧
      NoDup (ID <$> js) ∧ Sorted (λ a b, (NextRun a ≤ NextRun b)%Z) js ∧
      ∀ j, j ∈ js ↔ js_abs s !! ID j = Some j ∧ job_matches f j;
  js_list_fault flt f s js : js_ListJobs flt f s = Ok js → js_ListJobs no_faults f s = Ok js;

  js_init_law flt db s' :
    (∀ s, db = Some s → js_wf s) → js_Initialize flt db = Ok s' →
    js_wf s' ∧ js_abs s' = match db with Some s => js_abs s | None => ∅ end;
}.

(** [SQLiteJobStore] keeps the promise. *)
#[export] Program Instance SQLiteJobStore : JobStore JobTable := {
  js_wf := table_wf;
  js_abs := abs_jobs;
  js_CreateJob := CreateJob;
  js_UpdateJob := UpdateJob;
  js_ListJobs := ListJobs;
  js_Initialize := Initialize;
}.
Next Obligation.
  intros db i a Hwf Ha. apply abs_lookup in Ha as (r & Hr & <- & ->); [|apply Hwf].
  destruct (row_ok_elem db r Hwf Hr) as (Hst & _ & m & Hm).
  split_and!; [done|done|]. exists (r_payload r). split; [done|].
  by apply Marshal_raw_fixed in Hm as [_ ?].
Qed.
Next Obligation.
  intros db i j a b Hwf Ha Hb E.
  apply abs_lookup in Ha as (r & Hr & <- & ->); [|apply Hwf].
  apply abs_lookup in Hb as (r' & Hr' & <- & ->); [|apply Hwf].
  apply list_elem_of_lookup in Hr as [n Hn]. apply list_elem_of_lookup in Hr' as [n' Hn'].
  assert (n = n') as <-.
  { apply (NoDup_lookup (r_key <$> db) n n' (r_key r)); [apply Hwf| |].
    - by rewrite list_lookup_fmap, Hn.
    - rewrite list_lookup_fmap, Hn'. exact (f_equal Some (eq_sym E)). }
  by simplify_eq.
Qed.
Next Obligation.
  intros uuid now flt job db job' db' res Hwf H.
  destruct (CreateJob_spec _ _ _ _ _ _ _ _ Hwf H) as (-> & Hwf' & Hr).
  split_and!; [done|done|]. destruct res; [|done].
  destruct Hr as (H1 & _ & _ & H2). by split.
Qed.
Next Obligation. exact CreateJob_succeeds. Qed.
Next Obligation. exact UpdateJob_spec. Qed.
Next Obligation. exact UpdateJob_succeeds. Qed.
Next Obligation. exact ListJobs_spec. Qed.
Next Obligation.
  intros flt f db js. unfold ListJobs. destruct (exec_fault flt); [done|].
  cbn [exec_fault rows_fault no_faults]. destruct (scan_all _); [|done].
  cbn. by destruct (rows_fault flt).
Qed.
Next Obligation.
  intros flt db s' Hwf. unfold Initialize. destruct (exec_fault flt); [done|]. intros [= <-].
  destruct db as [db|]; cbn; (split; [|done]); [by apply Hwf|exact empty_table_wf].
Qed.

(** ** Properties *)

(** A requested operation of the store. *)
Inductive store_op :=
| OpCreate (uuid : string) (now : Z) (flt : db_faults) (job : Job)
| OpUpdate (now : Z) (flt : db_faults) (job : Job)
| OpDelete (flt : db_faults) (id : string).

Definition run_op (op : store_op) (db : JobTable) : JobTable :=
  match op with
  | OpCreate uuid now flt job => (CreateJob uuid now flt job db).1.2
  | OpUpdate now flt job => (UpdateJob now flt job db).1.2
  | OpDelete flt id => (DeleteJob flt id db).1
  end.

Lemma run_op_wf op db : table_wf db → table_wf (run_op op db).
Proof.
  intros Hwf. destruct op as [uuid now flt job|now flt job|flt id]; simpl.
  - destruct (CreateJob uuid now flt job db) as [[j d] r] eqn:E.
    by apply CreateJob_spec in E as (_ & ? & _).
  - destruct (UpdateJob now flt job db) as [[j d] r] eqn:E.
    by apply UpdateJob_spec in E as (_ & ? & _).
  - destruct (DeleteJob flt id db) as [d r] eqn:E. by apply DeleteJob_spec in E as (? & _).
Qed.

(** C20: whatever sequence of creations, updates and deletions is run from the
    empty table, with any engine failures, the table keeps distinct IDs, at
    most one job per (user, type, schedule), only the five legal statuses,
    and payloads that marshal to themselves. *)
Theorem store_ops_wf (ops : list store_op) :
  table_wf (foldl (λ db op, run_op op db) empty_table ops).
Proof.
  assert (G : ∀ db, table_wf db → table_wf (foldl (λ db op, run_op op db) db ops)).
  { induction ops as [|op ops IH]; intros db Hwf; [done|]. by apply IH, run_op_wf. }
  apply G, empty_table_wf.
Qed.

(** C13: on a well-formed table and without engine failures the store is a map
    from IDs to jobs: a job just created is read back, field by field, with
    its payload compacted; an update is read back with the creation time of
    the row it replaced; the other jobs do not change. *)
Theorem create_update_get (uuid : string) (t0 t1 : Z) (job job0 job1 : Job)
    (db db0 db1 : JobTable) (changed : Job) :
  table_wf db →
  CreateJob uuid t0 no_faults job db = (job0, db0, Ok tt) →
  ID changed = ID job0 →
  UpdateJob t1 no_faults changed db0 = (job1, db1, Ok tt) →
  (∃ p, Marshal_raw (Payload job) = Ok p ∧
     GetJob no_faults (ID job0) db0 = Ok (with_payload p job0)) ∧
  (∃ p, Marshal_raw (Payload changed) = Ok p ∧
     GetJob no_faults (ID job0) db1 =
       Ok (with_CreatedAt (CreatedAt job0) (with_payload p job1))) ∧
  (∀ id, id ≠ ID job0 → GetJob no_faults id db1 = GetJob no_faults id db).
Proof.
  intros Hwf HC Hid HU.
  apply CreateJob_spec in HC as (_ & Hwf0 & _ & _ & _ & p & Hp & A0); [|done].
  apply UpdateJob_spec in HU as (_ & Hwf1 & _ & old & q & Ho & Hq & A1); [|done].
  rewrite A0, Hid, lookup_insert_eq in Ho. injection Ho as <-.
  rewrite Hid in A1. split_and!.
  - exists p. split; [done|]. by rewrite GetJob_spec, A0, lookup_insert_eq.
  - exists q. split; [done|]. by rewrite GetJob_spec, A1, lookup_insert_eq.
  - intros id Hne. rewrite !GetJob_spec, A1, A0 by done.
    by rewrite !lookup_insert_ne by done.
Qed.

Definition sample_job : Job :=
  mkJob "" "user-1" "token_refresh" "0 * * * *" (Some "[1, 2]") "" 0 "" 7 None 0 0.
Definition sample_create := CreateJob "id-1" 5 no_faults sample_job empty_table.
Definition sample_changed : Job :=
  mkJob "id-1" "user-1" "token_refresh" "0 * * * *" None "running" 1 "x" 9 (Some 8%Z) 3 3.
Definition sample_update := UpdateJob 6 no_faults sample_changed sample_create.1.2.

Lemma create_update_get_witness :
  (∃ p, Marshal_raw (Payload sample_job) = Ok p ∧
     GetJob no_faults "id-1" sample_create.1.2 = Ok (with_payload p sample_create.1.1)).
Proof.
  apply (create_update_get "id-1" 5 6 sample_job sample_create.1.1 sample_update.1.1
           empty_table sample_create.1.2 sample_update.1.2 sample_changed).
  - exact empty_table_wf.
  - vm_compute. reflexivity.
  - vm_compute. reflexivity.
  - vm_compute. reflexivity.
Defined.

(** without engine failures [ListJobs] returns exactly the stored jobs
    its filter selects, each once, in increasing order of next run; the
    filter's [NextRun] is a lower bound. *)
Theorem ListJobs_selects (f : JobFilter) (db : JobTable) :
  table_wf db → ∃ js, ListJobs no_faults f db = Ok js ∧
    NoDup (ID <$> js) ∧ Sorted (λ a b, (NextRun a ≤ NextRun b)%Z) js ∧
    ∀ j, j ∈ js ↔ GetJob no_faults (ID j) db = Ok j ∧ job_matches f j.
Proof.
  intros Hwf. destruct (ListJobs_spec f db Hwf) as (js & H1 & H2 & H3 & H4).
  exists js. split_and!; [done|done|done|]. intros j. rewrite H4, GetJob_spec by done.
  destruct (abs_jobs db !! ID j); split; intros [E ?]; by simplify_eq.
Qed.

Lemma ListJobs_selects_witness :
  ∃ js, ListJobs no_faults empty_filter sample_create.1.2 = Ok js ∧
    NoDup (ID <$> js) ∧ Sorted (λ a b, (NextRun a ≤ NextRun b)%Z) js ∧
    ∀ j, j ∈ js ↔ GetJob no_faults (ID j) sample_create.1.2 = Ok j ∧ job_matches empty_filter j.
Proof.
  apply (ListJobs_selects empty_filter sample_create.1.2).
  exact (run_op_wf (OpCreate "id-1" 5 no_faults sample_job) empty_table empty_table_wf).
Defined.
