(* ===== verification/Worker.v ===== *)
(** * The worker pool: [internal/worker/pool.go]

    The pool's state and its operations, each run by one goroutine with no
    interleaving.  File WorkerConc models the same code as interleaved steps
    of the workers, of the scheduler and of [Stop].  A task is an element of
    an arbitrary type; a buffered channel is the list of its elements, oldest
    first, its capacity and whether it is closed. *)
From Stdlib Require Import ZArith Lia.
From stdpp Require Import base list strings.
From S2P Require Import Prelude GoTime.
Local Open Scope Z_scope.

(** @src internal/worker/pool.go 28-37 Metrics *)
Record Metrics := mkMetrics {
  activeWorkers : Z;
  completedTasks : Z;
  failedTasks : Z;
  queuedTasks : Z;
  processingTime : Z;
  lastProcessed : Z;
}.
Definition zero_Metrics : Metrics := mkMetrics 0 0 0 0 0 0.

(** [wg], [mu] and the metrics lock are free between operations. *)
(** @src internal/worker/pool.go 16-26 WorkerPool *)
Record WorkerPool (T : Type) := mkPool {
  workers : Z;
  tasks : list T;
  tasks_cap : nat;
  tasks_closed : bool;
  ctx_done : bool;
  metrics : Metrics;
  isStopped : bool;
  goroutines : Z;
}.
Arguments mkPool {T}.
Arguments workers {T}. Arguments tasks {T}. Arguments tasks_cap {T}.
Arguments tasks_closed {T}. Arguments ctx_done {T}. Arguments metrics {T}.
Arguments isStopped {T}. Arguments goroutines {T}.

(** A run of an operation: it returns, or it panics. *)
Inductive outcome (A : Type) := Returns (a : A) | Panics (msg : string).
Arguments Returns {A} a.
Arguments Panics {A} msg.

Section ops.
Context {T : Type}.
Implicit Types p : WorkerPool T.

(** @src internal/worker/pool.go 39-53 NewWorkerPool *)
Definition NewWorkerPool (n : Z) : WorkerPool T :=
  let n := if n <=? 0 then 1 else n in
  mkPool n [] (Z.to_nat (n * 2)) false false zero_Metrics false 0.

(** @src internal/worker/pool.go 55-61 Start *)
Definition Start p : WorkerPool T :=
  mkPool (workers p) (tasks p) (tasks_cap p) (tasks_closed p) (ctx_done p) (metrics p)
         (isStopped p) (goroutines p + Z.max 0 (workers p)).

Definition with_tasks (ts : list T) p : WorkerPool T :=
  mkPool (workers p) ts (tasks_cap p) (tasks_closed p) (ctx_done p) (metrics p)
         (isStopped p) (goroutines p).
Definition with_metrics (m : Metrics) p : WorkerPool T :=
  mkPool (workers p) (tasks p) (tasks_cap p) (tasks_closed p) (ctx_done p) m
         (isStopped p) (goroutines p).

(** [p.metrics.queuedTasks++], line 120. *)
(** @src internal/worker/pool.go 119-121 Submit *)
Definition count_queued (m : Metrics) : Metrics :=
  mkMetrics (activeWorkers m) (completedTasks m) (failedTasks m) (wrap64 (queuedTasks m + 1))
            (processingTime m) (lastProcessed m).

(** A nil task is [None].  The send of the [select] panics on a closed
    channel, is taken when the buffer has room, and is skipped otherwise. *)
(** @src internal/worker/pool.go 104-127 Submit *)
Definition Submit (task : option T) p : WorkerPool T * outcome bool :=
  match task with
  | None => (p, Returns false)
  | Some t =>
      if isStopped p then (p, Returns false)
      else if tasks_closed p then (p, Panics "send on closed channel")
      else if (Z.of_nat (length (tasks p)) <? Z.of_nat (tasks_cap p))
      then (with_metrics (count_queued (metrics p)) (with_tasks (tasks p ++ [t]) p), Returns true)
      else (p, Returns false)
  end.

(** Up to the wait for the workers. *)
(** @src internal/worker/pool.go 129-138 Stop *)
Definition Stop p : WorkerPool T * outcome unit :=
  let p' := mkPool (workers p) (tasks p) (tasks_cap p) (tasks_closed p) true (metrics p)
                   true (goroutines p) in
  if tasks_closed p then (p', Panics "close of closed channel")
  else (mkPool (workers p) (tasks p) (tasks_cap p) true true (metrics p) true (goroutines p),
        Returns tt).

(** @src internal/worker/pool.go 140-153 GetMetrics *)
Definition GetMetrics p : Metrics :=
  mkMetrics (activeWorkers (metrics p)) (completedTasks (metrics p)) (failedTasks (metrics p))
            (queuedTasks (metrics p)) (processingTime (metrics p)) (lastProcessed (metrics p)).

(** [activeWorkers] is not reset. *)
(** @src internal/worker/pool.go 155-165 ResetMetrics *)
Definition ResetMetrics p : WorkerPool T :=
  with_metrics (mkMetrics (activeWorkers (metrics p)) 0 0 0 0 0) p.

(** Lines 79-82, when a worker takes a task. *)
(** @src internal/worker/pool.go 79-82 worker *)
Definition begin_task (m : Metrics) : Metrics :=
  mkMetrics (wrap64 (activeWorkers m + 1)) (completedTasks m) (failedTasks m)
            (wrap64 (queuedTasks m - 1)) (processingTime m) (lastProcessed m).

(** Lines 88-98, when [Execute] has returned: the counter that moves depends
    on its error. *)
(** @src internal/worker/pool.go 88-98 worker *)
Definition end_task (failed : bool) (duration now : Z) (m : Metrics) : Metrics :=
  mkMetrics (wrap64 (activeWorkers m - 1))
            (if failed then completedTasks m else wrap64 (completedTasks m + 1))
            (if failed then wrap64 (failedTasks m + 1) else failedTasks m)
            (queuedTasks m) (wrap64 (processingTime m + duration)) now.

(** One turn of a worker's loop that finds a task, with nothing in between:
    [exec] gives the error of [Execute] and the time it took, and the callback
    follows.  [None] when the [select] takes the cancelled context or the
    closed, drained channel, or when the worker would block. *)
(** @src internal/worker/pool.go 63-102 worker *)
Definition worker_turn (exec : T → option error * Z) (now : Z) p
  : option (WorkerPool T * T * option error) :=
  match tasks p with
  | [] => None
  | t :: rest =>
      let '(err, duration) := exec t in
      let m := begin_task (metrics p) in
      let m := end_task (match err with Some _ => true | None => false end) duration now m in
      Some (with_metrics m (with_tasks rest p), t, err)
  end.

(** ** The buffer never overflows *)
Lemma Submit_cap task p p' o :
  Submit task p = (p', o) →
  Z.of_nat (length (tasks p)) ≤ Z.of_nat (tasks_cap p) →
  tasks_cap p' = tasks_cap p ∧ Z.of_nat (length (tasks p')) ≤ Z.of_nat (tasks_cap p').
Proof.
  unfold Submit. destruct task; [|by intros [= <- <-]].
  destruct (isStopped p); [by intros [= <- <-]|].
  destruct (tasks_closed p); [by intros [= <- <-]|].
  destruct (Z.ltb_spec (Z.of_nat (length (tasks p))) (Z.of_nat (tasks_cap p)));
    intros [= <- <-]; simpl; [|done].
  rewrite length_app. simpl. split; [done|lia].
Qed.

Lemma Submit_running t p :
  isStopped p = false → tasks_closed p = false →
  Submit (Some t) p =
  if decide (length (tasks p) < tasks_cap p)%nat
  then (with_metrics (count_queued (metrics p)) (with_tasks (tasks p ++ [t]) p), Returns true)
  else (p, Returns false).
Proof.
  intros H1 H2. unfold Submit. rewrite H1, H2.
  destruct (Z.ltb_spec (Z.of_nat (length (tasks p))) (Z.of_nat (tasks_cap p)));
    case_decide; (done || lia).
Qed.
End ops.
