(* ===== verification/WorkerConc.v ===== *)
(** * The worker pool and the scheduler's lock, interleaved

    The goroutines of [internal/worker/pool.go] together with the ones of
    [internal/scheduler] that take [Scheduler.JobMu]: the workers, whose
    callbacks [JobTask.OnSuccess] and [JobTask.OnFailure] lock [JobMu]; the
    scheduling loop, whose [dispatchDueJobs] calls [Submit] while it holds
    [JobMu]; other holders of [JobMu]; and [Stop].  One rule is one atomic
    step: a channel operation, a lock, an unlock with the updates it guards.
    The critical sections of [WorkerPool.mu] hold one read or one write of
    [isStopped] and are single steps.  The two last fields of a configuration
    are history: tasks put into the channel and tasks counted as done. *)
From Stdlib Require Import ZArith Lia.
From stdpp Require Import base list relations.
From S2P Require Import Prelude Worker.

Section conc.
Context {T : Type}.

(** Where a goroutine is.  Worker states follow the lines of [worker],
    scheduler states those of [dispatchDueJobs] and [Submit], stopper states
    those of [Stop]. *)
(** @src internal/worker/pool.go 63-102 worker *)
Inductive thread :=
| WSelect
| WRecv (t : T)
| WCount (t : T)
| WExec (t : T)
| WDone (t : T) (failed : bool)
| WCallback (t : T) (failed : bool)
| WInCallback (t : T) (failed : bool)
| WRelease
| WExited
| DIdle
| DHold (due : list T)
| DSend (t : T) (due : list T)
| DCountWait (t : T) (due : list T)
| DCounting (t : T) (due : list T)
| LHold
| SIdle
| SMarked
| SCancelled
| SClosed
| SStopped
| Panicked.

Record conf := mkConf {
  q_tasks : list T;
  q_cap : nat;
  q_closed : bool;
  q_cancelled : bool;
  q_stopped : bool;
  q_metrics : Metrics;
  metrics_mu : option nat;
  job_mu : option nat;
  threads : list thread;
  submitted : list T;
  finished : list T;
}.

Definition set_thread (i : nat) (th : thread) (c : conf) : conf :=
  mkConf (q_tasks c) (q_cap c) (q_closed c) (q_cancelled c) (q_stopped c) (q_metrics c)
         (metrics_mu c) (job_mu c) (<[i := th]> (threads c)) (submitted c) (finished c).
Definition set_tasks (ts : list T) (c : conf) : conf :=
  mkConf ts (q_cap c) (q_closed c) (q_cancelled c) (q_stopped c) (q_metrics c)
         (metrics_mu c) (job_mu c) (threads c) (submitted c) (finished c).
Definition set_flags (closed cancelled stopped : bool) (c : conf) : conf :=
  mkConf (q_tasks c) (q_cap c) closed cancelled stopped (q_metrics c)
         (metrics_mu c) (job_mu c) (threads c) (submitted c) (finished c).
Definition set_metrics_mu (o : option nat) (m : Metrics) (c : conf) : conf :=
  mkConf (q_tasks c) (q_cap c) (q_closed c) (q_cancelled c) (q_stopped c) m
         o (job_mu c) (threads c) (submitted c) (finished c).
Definition set_job_mu (o : option nat) (c : conf) : conf :=
  mkConf (q_tasks c) (q_cap c) (q_closed c) (q_cancelled c) (q_stopped c) (q_metrics c)
         (metrics_mu c) o (threads c) (submitted c) (finished c).
Definition set_history (sub fin : list T) (c : conf) : conf :=
  mkConf (q_tasks c) (q_cap c) (q_closed c) (q_cancelled c) (q_stopped c) (q_metrics c)
         (metrics_mu c) (job_mu c) (threads c) sub fin.

Definition all_workers_exited (ths : list thread) : Prop :=
  ∀ th, th ∈ ths → match th with
    | WSelect | WRecv _ | WCount _ | WExec _ | WDone _ _ | WCallback _ _ | WInCallback _ _
    | WRelease => False
    | _ => True
    end.

(** What goroutine [i], now at [th], can do next. *)
(** @src internal/worker/pool.go 63-138 worker *)
Inductive step_at (i : nat) (c : conf) : thread → conf → Prop :=
(* worker *)
| w_ctx_done : q_cancelled c = true →
    step_at i c WSelect (set_thread i WExited c)
| w_closed : q_closed c = true → q_tasks c = [] →
    step_at i c WSelect (set_thread i WExited c)
| w_receive t rest : q_tasks c = t :: rest →
    step_at i c WSelect (set_thread i (WRecv t) (set_tasks rest c))
| w_lock_begin t : metrics_mu c = None →
    step_at i c (WRecv t) (set_thread i (WCount t) (set_metrics_mu (Some i) (q_metrics c) c))
| w_begin t :
    step_at i c (WCount t)
      (set_thread i (WExec t) (set_metrics_mu None (begin_task (q_metrics c)) c))
| w_execute t failed :
    step_at i c (WExec t) (set_thread i (WDone t failed) c)
| w_end t failed duration now : metrics_mu c = None →
    step_at i c (WDone t failed)
      (set_thread i (WCallback t failed)
        (set_history (submitted c) (finished c ++ [t])
          (set_metrics_mu (Some i) (end_task failed duration now (q_metrics c)) c)))
| w_callback_lock t failed : job_mu c = None →
    step_at i c (WCallback t failed)
      (set_thread i (WInCallback t failed) (set_job_mu (Some i) c))
| w_callback_unlock t failed :
    step_at i c (WInCallback t failed) (set_thread i WRelease (set_job_mu None c))
| w_unlock :
    step_at i c WRelease (set_thread i WSelect (set_metrics_mu None (q_metrics c) c))
(* scheduling loop: dispatchDueJobs *)
| d_lock due : job_mu c = None →
    step_at i c DIdle (set_thread i (DHold due) (set_job_mu (Some i) c))
| d_unlock :
    step_at i c (DHold []) (set_thread i DIdle (set_job_mu None c))
| d_refused t due : q_stopped c = true →
    step_at i c (DHold (t :: due)) (set_thread i (DHold due) c)
| d_running t due : q_stopped c = false →
    step_at i c (DHold (t :: due)) (set_thread i (DSend t due) c)
| d_send t due : q_closed c = false → length (q_tasks c) < q_cap c →
    step_at i c (DSend t due)
      (set_thread i (DCountWait t due)
        (set_history (submitted c ++ [t]) (finished c) (set_tasks (q_tasks c ++ [t]) c)))
| d_full t due : q_closed c = false → q_cap c ≤ length (q_tasks c) →
    step_at i c (DSend t due) (set_thread i (DHold due) c)
| d_panic t due : q_closed c = true →
    step_at i c (DSend t due) (set_thread i Panicked (set_job_mu None c)) (* deferred unlock *)
| d_lock_metrics t due : metrics_mu c = None →
    step_at i c (DCountWait t due)
      (set_thread i (DCounting t due) (set_metrics_mu (Some i) (q_metrics c) c))
| d_count t due :
    step_at i c (DCounting t due)
      (set_thread i (DHold due) (set_metrics_mu None (count_queued (q_metrics c)) c))
(* other sections under JobMu: ScheduleJob, findNextJobTime *)
| l_lock : job_mu c = None →
    step_at i c DIdle (set_thread i LHold (set_job_mu (Some i) c))
| l_unlock :
    step_at i c LHold (set_thread i DIdle (set_job_mu None c))
(* Stop *)
| s_mark :
    step_at i c SIdle (set_thread i SMarked (set_flags (q_closed c) (q_cancelled c) true c))
| s_cancel :
    step_at i c SMarked (set_thread i SCancelled (set_flags (q_closed c) true (q_stopped c) c))
| s_close : q_closed c = false →
    step_at i c SCancelled (set_thread i SClosed (set_flags true (q_cancelled c) (q_stopped c) c))
| s_close_twice : q_closed c = true →
    step_at i c SCancelled (set_thread i Panicked c)
| s_wait : all_workers_exited (threads c) →
    step_at i c SClosed (set_thread i SStopped c).

(** An interleaving step: any one goroutine moves. *)
Definition pool_step (c c' : conf) : Prop :=
  ∃ i th, threads c !! i = Some th ∧ step_at i c th c'.

(** [NewWorkerPool(n)] after [Start], with [k] goroutines of the scheduler and
    one that may call [Stop]. *)
(** @src internal/worker/pool.go 39-61 NewWorkerPool *)
Definition init_conf (n k : nat) : conf :=
  let p := NewWorkerPool (T:=T) (Z.of_nat n) in
  mkConf (tasks p) (tasks_cap p) (tasks_closed p) (ctx_done p) (isStopped p) (metrics p)
         None None
         (replicate (Z.to_nat (workers p)) WSelect ++ replicate k DIdle ++ [SIdle]) [] [].

(** ** Ownership of the locks *)
Definition holds_metrics (th : thread) : bool :=
  match th with
  | WCount _ | WCallback _ _ | WInCallback _ _ | WRelease | DCounting _ _ => true
  | _ => false
  end.
Definition holds_job (th : thread) : bool :=
  match th with
  | WInCallback _ _ | DHold _ | DSend _ _ | DCountWait _ _ | DCounting _ _ | LHold => true
  | _ => false
  end.

(** ** What a goroutine carries *)

(** Tasks received and not yet counted as done. *)
Definition in_hand (th : thread) : list T :=
  match th with
  | WRecv t | WCount t | WExec t | WDone t _ => [t]
  | _ => []
  end.
(** Contribution to [activeWorkers]. *)
Definition active (th : thread) : Z :=
  match th with WExec _ | WDone _ _ => 1 | _ => 0 end.
(** Contribution to [queuedTasks] beyond the length of the channel: received
    but not yet subtracted, sent but not yet added. *)
Definition uncounted (th : thread) : Z :=
  match th with
  | WRecv _ | WCount _ => 1
  | DCountWait _ _ | DCounting _ _ => -1
  | _ => 0
  end.

Definition sumZ {A} (f : A → Z) (l : list A) : Z := foldr (λ x s, (f x + s)%Z) 0%Z l.

Lemma sumZ_insert {A} (f : A → Z) (l : list A) i x y :
  l !! i = Some x → (sumZ f (<[i := y]> l) = sumZ f l + f y - f x)%Z.
Proof.
  revert i. induction l as [|z l IH]; intros [|i] H; [done|done| |].
  - injection H as ->. change (<[0:=y]> (x :: l)) with (y :: l). cbn. lia.
  - change (sumZ f (<[S i:=y]> (z :: l))) with (f z + sumZ f (<[i:=y]> l))%Z.
    rewrite (IH i H). change (sumZ f (z :: l)) with (f z + sumZ f l)%Z. lia.
Qed.

Lemma sumZ_app {A} (f : A → Z) (l1 l2 : list A) : sumZ f (l1 ++ l2) = (sumZ f l1 + sumZ f l2)%Z.
Proof. unfold sumZ. induction l1 as [|x l IH]; simpl; [done|]. rewrite IH. lia. Qed.

Lemma sumZ_zero {A} (f : A → Z) (l : list A) : (∀ x, x ∈ l → f x = 0%Z) → sumZ f l = 0%Z.
Proof.
  unfold sumZ. induction l as [|x l IH]; intros H; simpl; [done|].
  rewrite IH by (intros y Hy; apply H; by right). rewrite (H x) by left. done.
Qed.

Lemma concat_insert {A B} (f : A → list B) (l : list A) i x y :
  l !! i = Some x → concat (f <$> <[i := y]> l) ++ f x ≡ₚ concat (f <$> l) ++ f y.
Proof.
  revert i. induction l as [|z l IH]; intros [|i] H; [done|done| |].
  - injection H as ->. change (<[0:=y]> (x :: l)) with (y :: l). cbn.
    rewrite <- !app_assoc, (Permutation_app_comm (f y)), <- app_assoc.
    apply Permutation_app_swap_app.
  - change (concat (f <$> <[S i:=y]> (z :: l))) with (f z ++ concat (f <$> <[i:=y]> l)).
    change (concat (f <$> (z :: l))) with (f z ++ concat (f <$> l)).
    rewrite <- !app_assoc. by rewrite (IH i H).
Qed.

(** ** The invariant *)
Record inv (c : conf) : Prop := {
  inv_metrics_mu : ∀ i th, threads c !! i = Some th →
    (holds_metrics th = true ↔ metrics_mu c = Some i);
  inv_job_mu : ∀ i th, threads c !! i = Some th →
    (holds_job th = true ↔ job_mu c = Some i);
  inv_tasks : submitted c ≡ₚ q_tasks c ++ concat (in_hand <$> threads c) ++ finished c;
  inv_cap : length (q_tasks c) ≤ q_cap c;
  inv_queued : queuedTasks (q_metrics c)
    = wrap64 (Z.of_nat (length (q_tasks c)) + sumZ uncounted (threads c));
  inv_active : activeWorkers (q_metrics c) = wrap64 (sumZ active (threads c));
  inv_done : wrap64 (completedTasks (q_metrics c) + failedTasks (q_metrics c))
    = wrap64 (Z.of_nat (length (finished c)));
}.

(** A goroutine that moves keeps, takes or gives back a lock. *)
Lemma lock_step (h : thread → bool) mu mu' (ths : list thread) i th th' :
  (∀ j x, ths !! j = Some x → (h x = true ↔ mu = Some j)) →
  ths !! i = Some th →
  (h th' = h th ∧ mu' = mu) ∨ (mu = None ∧ h th' = true ∧ mu' = Some i) ∨
  (h th = true ∧ h th' = false ∧ mu' = None) →
  ∀ j x, <[i := th']> ths !! j = Some x → (h x = true ↔ mu' = Some j).
Proof.
  intros Hl Hi Hc j x. rewrite list_lookup_insert_Some.
  intros [(-> & <- & _)|[Hne Hj]].
  - pose proof (Hl j th Hi) as H0.
    destruct Hc as [[-> ->]|[(_ & H1 & ->)|(_ & H1 & ->)]]; [done|tauto|].
    rewrite H1. done.
  - pose proof (Hl j x Hj) as H0. pose proof (Hl i th Hi) as H1.
    destruct Hc as [[_ ->]|[(E & _ & ->)|(E & _ & ->)]]; [done| |].
    + rewrite H0, E. split; congruence.
    + assert (mu = Some i) as -> by tauto. rewrite H0. split; congruence.
Qed.

(** The three ways a step moves tasks between the hands of a goroutine, the
    channel and the record of finished tasks. *)
Lemma hands_same (ths : list thread) i th th' :
  ths !! i = Some th → in_hand th' = in_hand th →
  concat (in_hand <$> <[i := th']> ths) ≡ₚ concat (in_hand <$> ths).
Proof.
  intros Hi E. pose proof (concat_insert in_hand ths i th th' Hi) as P.
  rewrite E in P. by apply Permutation_app_inv_r in P.
Qed.

Lemma hands_take (ths : list thread) i th th' t :
  ths !! i = Some th → in_hand th = [] → in_hand th' = [t] →
  concat (in_hand <$> <[i := th']> ths) ≡ₚ t :: concat (in_hand <$> ths).
Proof.
  intros Hi E E'. pose proof (concat_insert in_hand ths i th th' Hi) as P.
  rewrite E, E', app_nil_r in P. rewrite P. symmetry. apply Permutation_cons_append.
Qed.

Lemma hands_drop (ths : list thread) i th th' t :
  ths !! i = Some th → in_hand th = [t] → in_hand th' = [] →
  concat (in_hand <$> ths) ≡ₚ t :: concat (in_hand <$> <[i := th']> ths).
Proof.
  intros Hi E E'. pose proof (concat_insert in_hand ths i th th' Hi) as P.
  rewrite E, E', app_nil_r in P. rewrite <- P. symmetry. apply Permutation_cons_append.
Qed.

Lemma wrap64_add_r a b : wrap64 (a + wrap64 b) = wrap64 (a + b).
Proof. rewrite Z.add_comm, wrap64_add_l. f_equal. lia. Qed.

Lemma wrap64_sub_l a b : wrap64 (wrap64 a - b) = wrap64 (a - b).
Proof. apply (wrap64_add_l a (- b)). Qed.

Lemma inv_step c c' : inv c → pool_step c c' → inv c'.
Proof.
  intros Hinv (i & th & Hth & Hs).
  destruct Hinv as [Imm Ijm Itk Icap Iq Ia Id].
  assert (Isum : ∀ (f : thread → Z) th', sumZ f (<[i := th']> (threads c))
                  = (sumZ f (threads c) + f th' - f th)%Z)
    by (intros f th'; by apply sumZ_insert).
  inversion Hs; subst; clear Hs; (split; cbn [threads q_tasks q_cap q_metrics metrics_mu job_mu
      submitted finished set_thread set_tasks set_flags set_metrics_mu set_job_mu set_history];
    [ eapply lock_step; [exact Imm|exact Hth|];
        first [left; by split | right; left; by split_and! | right; right; by split_and!]
    | eapply lock_step; [exact Ijm|exact Hth|];
        first [left; by split | right; left; by split_and! | right; right; by split_and!]
    | .. ]);
  rewrite ?Isum; cbn [uncounted active begin_task end_task count_queued queuedTasks activeWorkers
    completedTasks failedTasks]; rewrite ?Iq, ?Ia, ?length_app; cbn [length];
  try lia; try done;
  try (rewrite ?wrap64_add_l, ?wrap64_sub_l; f_equal; lia);
  try (rewrite Itk, (hands_same _ _ _ _ Hth) by done; done).
  - rewrite Itk, H, (hands_take _ _ _ _ _ Hth) by done.
    cbn. apply Permutation_middle.
  - rewrite H in Icap. cbn in Icap. lia.
  - rewrite H. cbn [length]. f_equal. lia.
  - rewrite Itk, (hands_drop _ _ _ (WCallback t failed) t Hth) by done.
    apply Permutation_app_head. rewrite (app_assoc (concat _)). apply Permutation_cons_append.
  - replace (Z.of_nat (length (finished c) + 1)) with (Z.of_nat (length (finished c)) + 1)%Z by lia.
    rewrite <- (wrap64_add_l (Z.of_nat (length (finished c))) 1), <- Id, wrap64_add_l.
    destruct failed; rewrite ?wrap64_add_l, ?wrap64_add_r; f_equal; lia.
  - rewrite Itk, (hands_same _ _ _ _ Hth) by done.
    rewrite <- !app_assoc. apply Permutation_app_head.
    rewrite (app_assoc (concat _) (finished c)). apply Permutation_app_comm.
Qed.

Lemma inv_init n k : inv (init_conf n k).
Proof.
  unfold init_conf, NewWorkerPool.
  set (w := if (Z.of_nat n <=? 0)%Z then 1%Z else Z.of_nat n).
  assert (El : ∀ th, th ∈ replicate (Z.to_nat w) WSelect ++ replicate k DIdle ++ [SIdle] →
    holds_metrics th = false ∧ holds_job th = false ∧ in_hand th = [] ∧ active th = 0%Z
    ∧ uncounted th = 0%Z).
  { intros th. rewrite !elem_of_app, !elem_of_replicate, list_elem_of_singleton.
    intros [[-> _]|[[-> _]| ->]]; done. }
  assert (Lk : ∀ i th, (replicate (Z.to_nat w) WSelect ++ replicate k DIdle ++ [SIdle]) !! i
                       = Some th → holds_metrics th = false ∧ holds_job th = false).
  { intros i th Hi. apply list_elem_of_lookup_2, El in Hi. tauto. }
  split; cbn [threads q_tasks q_cap q_metrics metrics_mu job_mu submitted finished tasks tasks_cap
     workers metrics].
  - intros i th Hi. apply Lk in Hi as [-> _]. done.
  - intros i th Hi. apply Lk in Hi as [_ ->]. done.
  - rewrite !app_nil_r. cbn [app]. revert El. generalize (replicate (Z.to_nat w) WSelect ++
      replicate k DIdle ++ [SIdle]). intros l El. induction l as [|x l IH]; [done|].
    rewrite fmap_cons. cbn [concat]. destruct (El x) as (_ & _ & -> & _); [left|].
    apply IH. intros y Hy. apply El. by right.
  - cbn. lia.
  - rewrite sumZ_zero; [done|]. intros x Hx. apply El in Hx. tauto.
  - rewrite sumZ_zero; [done|]. intros x Hx. apply El in Hx. tauto.
  - done.
Qed.

Definition reachable (n k : nat) (c : conf) : Prop := rtc pool_step (init_conf n k) c.

Lemma reachable_inv n k c : reachable n k c → inv c.
Proof.
  unfold reachable. generalize (inv_init n k). generalize (init_conf n k).
  intros c0 H0 Hr. induction Hr as [|c0 c1 c2 Hs Hr IH]; [done|].
  apply IH. by eapply inv_step.
Qed.

(** ** Goroutines keep their role *)
Definition is_worker (th : thread) : Z :=
  match th with
  | WSelect | WRecv _ | WCount _ | WExec _ | WDone _ _ | WCallback _ _ | WInCallback _ _
  | WRelease | WExited => 1
  | _ => 0
  end.

Lemma reachable_workers n k c : reachable n k c →
  sumZ is_worker (threads c) = Z.max 1 (Z.of_nat n) ∧ q_cap c = Z.to_nat (2 * Z.max 1 (Z.of_nat n)).
Proof.
  assert (Step : ∀ c c', pool_step c c' →
    sumZ is_worker (threads c') = sumZ is_worker (threads c) ∧ q_cap c' = q_cap c).
  { intros c1 c2 (i & th & Hth & Hs). inversion Hs; subst;
      (split; [|done]); cbn [threads set_thread set_tasks set_flags set_metrics_mu set_job_mu
        set_history]; rewrite (sumZ_insert _ _ _ _ _ Hth); cbn [is_worker]; lia. }
  assert (Init : sumZ is_worker (threads (init_conf n k)) = Z.max 1 (Z.of_nat n) ∧
    q_cap (init_conf n k) = Z.to_nat (2 * Z.max 1 (Z.of_nat n))).
  { unfold init_conf, NewWorkerPool. cbn [threads q_cap tasks_cap workers].
    assert (W : (if (Z.of_nat n <=? 0)%Z then 1 else Z.of_nat n)%Z = Z.max 1 (Z.of_nat n))
      by (destruct (Z.leb_spec (Z.of_nat n) 0); lia).
    rewrite W. split; [|f_equal; lia].
    rewrite !sumZ_app. cbn [sumZ foldr is_worker].
    assert (R : ∀ m th, sumZ is_worker (replicate m th) = (Z.of_nat m * is_worker th)%Z).
    { intros m th. unfold sumZ. induction m as [|m IH]; cbn [replicate foldr]; lia. }
    rewrite !R. cbn. lia. }
  unfold reachable. revert Init. generalize (init_conf n k). intros c0 H0 Hr.
  induction Hr as [|c0 c1 c2 Hs Hr IH]; [done|].
  apply IH. apply Step in Hs as [-> ->]. done.
Qed.

Lemma sumZ_le {A} (f g : A → Z) (l : list A) :
  (∀ x, 0 ≤ f x ≤ g x)%Z → (0 ≤ sumZ f l ≤ sumZ g l)%Z.
Proof.
  intros H. unfold sumZ. induction l as [|x l IH]; cbn [foldr]; [lia|]. specialize (H x). lia.
Qed.

(** ** Paths *)
Lemma path_step (i : nat) (th : thread) (c c1 c2 : conf) :
  threads c !! i = Some th → step_at i c th c1 → rtc pool_step c1 c2 → rtc pool_step c c2.
Proof. intros H1 H2 H3. eapply rtc_l; [|exact H3]. by exists i, th. Qed.

(** The lock order inversion: a worker in a callback and the scheduling loop in
    [Submit] each wait for the lock the other holds. *)
Record deadlocked (c : conf) (i j : nat) (t1 t2 : T) (due : list T) (failed : bool) : Prop := {
  dl_worker : threads c !! i = Some (WCallback t1 failed);
  dl_loop : threads c !! j = Some (DCountWait t2 due);
  dl_metrics : metrics_mu c = Some i;
  dl_job : job_mu c = Some j;
}.

Lemma deadlocked_step c c' i j t1 t2 due failed :
  inv c → deadlocked c i j t1 t2 due failed → pool_step c c' →
  deadlocked c' i j t1 t2 due failed ∧ submitted c' = submitted c ∧ finished c' = finished c.
Proof.
  intros Hinv [D1 D2 D3 D4] (l & th & Hth & Hs).
  pose proof (inv_metrics_mu c Hinv l th Hth) as Hm. rewrite D3 in Hm.
  pose proof (inv_job_mu c Hinv l th Hth) as Hj. rewrite D4 in Hj.
  assert (l ≠ i) as Hli.
  { intros ->. assert (th = WCallback t1 failed) as -> by congruence.
    inversion Hs; congruence. }
  assert (l ≠ j) as Hlj.
  { intros ->. assert (th = DCountWait t2 due) as -> by congruence.
    inversion Hs; congruence. }
  assert (holds_metrics th = false) as Nm
    by (destruct (holds_metrics th); [exfalso; assert (i = l) by (by injection (proj1 Hm eq_refl)); congruence|done]).
  assert (holds_job th = false) as Nj
    by (destruct (holds_job th); [exfalso; assert (j = l) by (by injection (proj1 Hj eq_refl)); congruence|done]).
  inversion Hs; subst; try discriminate Nm; try discriminate Nj; try congruence;
    (split; [split; cbn; rewrite ?list_lookup_insert_ne by done; done|done]).
Qed.

Lemma deadlocked_forever c c' i j t1 t2 due failed :
  inv c → deadlocked c i j t1 t2 due failed → rtc pool_step c c' →
  deadlocked c' i j t1 t2 due failed ∧ submitted c' = submitted c ∧ finished c' = finished c.
Proof.
  intros Hinv Hd Hr. induction Hr as [|c c1 c2 Hs Hr IH]; [done|].
  destruct (deadlocked_step _ _ _ _ _ _ _ _ Hinv Hd Hs) as (Hd1 & <- & <-).
  apply IH; [by eapply inv_step|done].
Qed.
End conc.
Arguments thread : clear implicits.
Arguments conf : clear implicits.

(** Reads a goroutine's state through a sequence of updates. *)
Ltac thread_lookup :=
  cbn [threads set_thread set_tasks set_flags set_metrics_mu set_job_mu set_history];
  repeat first
    [ rewrite list_lookup_insert_eq by (rewrite ?length_insert; assumption)
    | rewrite list_lookup_insert_ne by congruence ];
  try eassumption; try reflexivity.

(** One step of goroutine [i] by [rule]. *)
Tactic Notation "go" constr(i) open_constr(rule) :=
  eapply (path_step i);
  [ thread_lookup
  | eapply rule; cbn [q_tasks q_cap q_closed q_cancelled q_stopped metrics_mu job_mu set_thread
      set_tasks set_flags set_metrics_mu set_job_mu set_history]; try done
  | ].

Section paths.
Context {T : Type}.
Implicit Types c : conf T.

(** An idle pool with room in its channel. *)
Record idle (c : conf T) (i j : nat) : Prop := {
  idle_worker : threads c !! i = Some WSelect;
  idle_loop : threads c !! j = Some DIdle;
  idle_tasks : q_tasks c = [];
  idle_cap : 1 < q_cap c;
  idle_closed : q_closed c = false;
  idle_stopped : q_stopped c = false;
  idle_metrics : metrics_mu c = None;
  idle_job : job_mu c = None;
}.

Lemma deadlock_path c i j t1 t2 due :
  idle c i j → ∃ c', rtc pool_step c c' ∧ deadlocked c' i j t1 t2 due false.
Proof.
  intros [H1 H2 H3 H4 H5 H6 H7 H8].
  assert (i ≠ j) by congruence.
  pose proof (lookup_lt_Some _ _ _ H1). pose proof (lookup_lt_Some _ _ _ H2).
  eexists. split.
  - go j (d_lock j _ [t1]).
    go j d_running.
    go j d_send; [rewrite H3; cbn; lia|].
    go j d_lock_metrics.
    go j d_count.
    go j d_unlock.
    go i (w_receive i _ t1 []); [by rewrite H3|].
    go i w_lock_begin.
    go i w_begin.
    go i (w_execute i _ t1 false).
    go i (w_end i _ t1 false 0%Z 0%Z).
    go j (d_lock j _ (t2 :: due)).
    go j d_running.
    go j d_send; [cbn; lia|].
    apply rtc_refl.
  - split; thread_lookup.
Qed.
End paths.


(** Reads the flags, the channel and the locks after the steps so far. *)
Ltac conf_simpl :=
  cbn [q_tasks q_cap q_closed q_cancelled q_stopped metrics_mu job_mu submitted finished threads
       set_thread set_tasks set_flags set_metrics_mu set_job_mu set_history].

Section more_paths.
Context {T : Type}.
Implicit Types c : conf T.

(** [Stop] runs between the check of [isStopped] and the send of [Submit]. *)
Lemma race_path c i j s (t : T) (due : list T) :
  idle c i j → threads c !! s = Some SIdle →
  ∃ c', rtc pool_step c c' ∧ threads c' !! j = Some Panicked ∧ threads c' !! s = Some SClosed.
Proof.
  intros [H1 H2 H3 H4 H5 H6 H7 H8] Hs.
  assert (j ≠ s) by congruence.
  pose proof (lookup_lt_Some _ _ _ H2). pose proof (lookup_lt_Some _ _ _ Hs).
  eexists. split.
  - go j (d_lock j _ (t :: due)).
    go j d_running.
    go s s_mark.
    go s s_cancel.
    go s s_close.
    go j d_panic.
    apply rtc_refl.
  - split; thread_lookup.
Qed.

(** [l] holds the states of the goroutines when the workers of [c] have all
    taken the branch of the cancelled context. *)
Definition exit_select (th : thread T) : thread T :=
  match th with WSelect => WExited | _ => th end.

Lemma workers_exit c :
  q_cancelled c = true →
  ∃ c', rtc pool_step c c' ∧ threads c' = exit_select <$> threads c ∧ q_tasks c' = q_tasks c
        ∧ submitted c' = submitted c ∧ finished c' = finished c.
Proof.
  intros Hc.
  assert (G : ∀ m, m ≤ length (threads c) → ∃ c', rtc pool_step c c' ∧
    threads c' = (exit_select <$> take m (threads c)) ++ drop m (threads c) ∧
    q_tasks c' = q_tasks c ∧ submitted c' = submitted c ∧ finished c' = finished c ∧
    q_cancelled c' = true).
  { induction m as [|m IH]; intros Hm; [by exists c|].
    destruct IH as (c1 & R & E & Q & Sb & F & X); [lia|].
    destruct (lookup_lt_is_Some_2 (threads c) m) as [th Hth]; [lia|].
    assert (Hl : length (exit_select <$> take m (threads c)) = m)
      by (rewrite length_fmap, length_take; lia).
    assert (Hth1 : threads c1 !! m = Some th).
    { rewrite E, lookup_app_r by lia. rewrite Hl, Nat.sub_diag.
      by rewrite lookup_drop, Nat.add_0_r. }
    assert (E' : (exit_select <$> take (S m) (threads c)) ++ drop (S m) (threads c)
                 = <[m := exit_select th]> (threads c1)).
    { rewrite (take_S_r _ _ _ Hth), fmap_app, E, (drop_S _ _ _ Hth).
      rewrite insert_app_r_alt by lia. rewrite Hl, Nat.sub_diag.
      rewrite <- app_assoc. done. }
    rewrite E'.
    destruct th; cbn [exit_select];
      try (exists c1; rewrite list_insert_id by done; by split_and!).
    exists (set_thread m WExited c1). conf_simpl. split_and!; try done.
    eapply rtc_r; [exact R|]. exists m, WSelect. split; [done|]. by constructor. }
  destruct (G (length (threads c))) as (c' & R & E & Q & S & F & X); [done|].
  exists c'. rewrite firstn_all, drop_all, app_nil_r in E. done.
Qed.

(** With every worker gone no task is taken, executed or counted any more. *)
Lemma exited_step c c' :
  all_workers_exited (threads c) → pool_step c c' →
  all_workers_exited (threads c') ∧ finished c' = finished c ∧ ∃ l, q_tasks c' = q_tasks c ++ l.
Proof.
  intros Hall (i & th & Hth & Hs).
  pose proof (Hall th (list_elem_of_lookup_2 _ _ _ Hth)) as Hi.
  assert (Ins : ∀ th', match th' with
      | WSelect | WRecv _ | WCount _ | WExec _ | WDone _ _ | WCallback _ _ | WInCallback _ _
      | WRelease => False | _ => True end → all_workers_exited (<[i := th']> (threads c))).
  { intros th' H x Hx. apply list_elem_of_lookup in Hx as [j Hj].
    apply list_lookup_insert_Some in Hj as [(-> & <- & _)|[_ Hj]]; [done|].
    apply Hall. by eapply list_elem_of_lookup_2. }
  inversion Hs; subst; try (exfalso; exact Hi); conf_simpl;
    (split; [apply Ins; exact I|split; [done|]]);
    first [ by eexists | exists []; by rewrite app_nil_r ].
Qed.

Lemma exited_forever c c' :
  all_workers_exited (threads c) → rtc pool_step c c' →
  finished c' = finished c ∧ ∃ l, q_tasks c' = q_tasks c ++ l.
Proof.
  intros Hall Hr. induction Hr as [c|c c1 c2 Hs Hr IH].
  - split; [done|]. exists []. by rewrite app_nil_r.
  - destruct (exited_step _ _ Hall Hs) as (Ha & Hf & l & Hl).
    destruct (IH Ha) as (Hf' & l' & Hl'). split; [congruence|].
    exists (l ++ l'). by rewrite Hl', Hl, app_assoc.
Qed.
End more_paths.

(** ** From the start *)
Section start.
Context {T : Type}.
Implicit Types c : conf T.

Definition n_workers (n : nat) : nat := Nat.max 1 n.

Lemma init_conf_eq n k :
  init_conf (T:=T) n k
  = mkConf [] (2 * n_workers n) false false false zero_Metrics None None
      (replicate (n_workers n) WSelect ++ replicate k DIdle ++ [SIdle]) [] [].
Proof.
  unfold init_conf, NewWorkerPool, n_workers. cbn [tasks tasks_cap tasks_closed ctx_done isStopped
    metrics workers].
  replace (if (Z.of_nat n <=? 0)%Z then 1%Z else Z.of_nat n) with (Z.of_nat (Nat.max 1 n))
    by (destruct (Z.leb_spec (Z.of_nat n) 0); lia).
  rewrite Nat2Z.id. f_equal. lia.
Qed.

Lemma init_idle n k : idle (init_conf (T:=T) n (S k)) 0 (n_workers n).
Proof.
  rewrite init_conf_eq. split; conf_simpl; try done; unfold n_workers; [..|lia].
  - destruct n; done.
  - rewrite lookup_app_r, length_replicate by (rewrite length_replicate; lia).
    by rewrite Nat.sub_diag.
Qed.

Lemma init_stopper n k :
  threads (init_conf (T:=T) n k) !! (n_workers n + k) = Some SIdle.
Proof.
  rewrite init_conf_eq. conf_simpl.
  rewrite lookup_app_r by (rewrite length_replicate; lia).
  rewrite length_replicate, lookup_app_r by (rewrite length_replicate; lia).
  rewrite length_replicate. by replace (n_workers n + k - n_workers n - k) with 0 by lia.
Qed.

(** A task is accepted, [Stop] runs to its end and the task is left behind. *)
Lemma abandon_path c i j s (t : T) :
  idle c i j → threads c !! s = Some SIdle →
  (∀ x th, threads c !! x = Some th → x ≠ s → th = WSelect ∨ th = DIdle) →
  ∃ c', rtc pool_step c c' ∧ threads c' !! s = Some SStopped ∧ q_tasks c' = [t] ∧
        submitted c' = submitted c ++ [t] ∧ finished c' = finished c ∧
        all_workers_exited (threads c').
Proof.
  intros Hidle Hs Hall.
  destruct Hidle as [H1 H2 H3 H4 H5 H6 H7 H8].
  assert (Hjs : j ≠ s) by congruence.
  pose proof (lookup_lt_Some _ _ _ H2) as Lj. pose proof (lookup_lt_Some _ _ _ Hs) as Ls.
  assert (∃ c1, rtc pool_step c c1 ∧ threads c1 = <[s := SClosed]> (<[j := DIdle]> (threads c)) ∧
    q_tasks c1 = [t] ∧ submitted c1 = submitted c ++ [t] ∧ finished c1 = finished c ∧
    q_cancelled c1 = true) as (c1 & R1 & E1 & Q1 & S1 & F1 & X1).
  { eexists. split.
    - go j (d_lock j _ [t]).
      go j d_running.
      go j d_send; [rewrite H3; cbn; lia|].
      go j d_lock_metrics.
      go j d_count.
      go j d_unlock.
      go s s_mark.
      go s s_cancel.
      go s s_close.
      apply rtc_refl.
    - conf_simpl. rewrite !list_insert_insert_eq, H3. done. }
  destruct (workers_exit c1 X1) as (c2 & R2 & E2 & Q2 & S2 & F2).
  assert (Hexit : all_workers_exited (threads c2)).
  { intros x Hx. rewrite E2, E1 in Hx. apply list_elem_of_fmap in Hx as (y & -> & Hy).
    apply list_elem_of_lookup in Hy as [m Hm].
    apply list_lookup_insert_Some in Hm as [(_ & <- & _)|[Hms Hm]]; [done|].
    apply list_lookup_insert_Some in Hm as [(_ & <- & _)|[_ Hm]]; [done|].
    destruct (Hall m y Hm) as [-> | ->]; done. }
  assert (Hs2 : threads c2 !! s = Some SClosed).
  { rewrite E2, E1, list_lookup_fmap, list_lookup_insert_eq; [done|by rewrite length_insert]. }
  exists (set_thread s SStopped c2). conf_simpl. split_and!; try congruence.
  - transitivity c1; [exact R1|]. eapply rtc_r; [exact R2|].
    exists s, SClosed. split; [done|]. by constructor.
  - apply list_lookup_insert_eq. by eapply lookup_lt_Some.
  - intros x Hx. apply list_elem_of_lookup in Hx as [m Hm].
    apply list_lookup_insert_Some in Hm as [(_ & <- & _)|[_ Hm]]; [done|].
    apply Hexit. by eapply list_elem_of_lookup_2.
Qed.

Lemma init_threads n k x th :
  threads (init_conf (T:=T) n k) !! x = Some th → x ≠ n_workers n + k → th = WSelect ∨ th = DIdle.
Proof.
  rewrite init_conf_eq. conf_simpl. intros H Hne.
  apply lookup_app_Some in H as [H|[Hl H]].
  - apply lookup_replicate in H as [-> _]. by left.
  - apply lookup_app_Some in H as [H|[Hl' H]].
    + apply lookup_replicate in H as [-> _]. by right.
    + rewrite !length_replicate in *. exfalso.
      apply lookup_lt_Some in H. cbn in H. lia.
Qed.
End start.

Lemma reachable_panicked {T} n k (c : conf T) :
  reachable n k c → Panicked ∈ threads c → q_closed c = true.
Proof.
  assert (Step : ∀ c c' : conf T, (Panicked ∈ threads c → q_closed c = true) → pool_step c c' →
    Panicked ∈ threads c' → q_closed c' = true).
  { intros c1 c2 Hc (i & th & Hth & Hs).
    assert (Ins : ∀ th', Panicked ∈ <[i := th']> (threads c1) → th' = Panicked ∨ q_closed c1 = true).
    { intros th' H. apply list_elem_of_lookup in H as [m Hm].
      apply list_lookup_insert_Some in Hm as [(_ & <- & _)|[_ Hm]]; [by left|].
      right. apply Hc. by eapply list_elem_of_lookup_2. }
    inversion Hs; subst; conf_simpl; intros Hp; try done;
      (destruct (Ins _ Hp) as [E|E]; [discriminate E || done|done]). }
  assert (Init : Panicked ∈ threads (init_conf (T:=T) n k) → q_closed (init_conf (T:=T) n k) = true).
  { rewrite init_conf_eq. conf_simpl.
    rewrite !elem_of_app, !elem_of_replicate, list_elem_of_singleton. intuition congruence. }
  unfold reachable. revert Init. generalize (init_conf (T:=T) n k). intros c0 H0 Hr.
  induction Hr as [|c0 c1 c2 Hs Hr IH]; [done|]. apply IH. by eapply Step.
Qed.

(** ** Properties *)

(** C10: No task is lost or run twice under any interleaving of the workers,
    the scheduler and [Stop]: the accepted tasks are exactly those waiting in
    the channel, in the hands of a worker, or done; the channel never exceeds
    twice the number of workers; each lock has at most one holder. *)
Theorem pool_conserves_tasks {T} n k (c : conf T) :
  reachable n k c →
  submitted c ≡ₚ q_tasks c ++ concat (in_hand <$> threads c) ++ finished c ∧
  length (q_tasks c) ≤ 2 * Nat.max 1 n ∧
  (∀ i j a b, threads c !! i = Some a → threads c !! j = Some b →
     holds_metrics a = true → holds_metrics b = true → i = j) ∧
  (∀ i j a b, threads c !! i = Some a → threads c !! j = Some b →
     holds_job a = true → holds_job b = true → i = j).
Proof.
  intros Hr. pose proof (reachable_inv n k c Hr) as Hi. split_and!.
  - apply Hi.
  - pose proof (inv_cap c Hi) as Hc. destruct (reachable_workers n k c Hr) as [_ E].
    rewrite E in Hc. lia.
  - intros i j a b Ha Hb H1 H2.
    apply (inv_metrics_mu c Hi i a Ha) in H1. apply (inv_metrics_mu c Hi j b Hb) in H2. congruence.
  - intros i j a b Ha Hb H1 H2.
    apply (inv_job_mu c Hi i a Ha) in H1. apply (inv_job_mu c Hi j b Hb) in H2. congruence.
Qed.

Lemma pool_conserves_tasks_witness :
  ∃ c : conf nat, reachable 1 1 c ∧ submitted c ≡ₚ q_tasks c ++ concat (in_hand <$> threads c) ++ finished c.
Proof.
  destruct (deadlock_path (init_conf 1 1) 0 1 5 6 [] (init_idle 1 0)) as (c & R & _).
  exists c. split; [exact R|]. exact (proj1 (pool_conserves_tasks 1 1 c R)).
Defined.

(** The metrics account for the tasks: at most as many active workers as
    the pool has, and exactly as many as are between the two updates;
    completed plus failed tasks are the tasks done; and when no task is between
    the channel and its count, [queuedTasks] is the length of the channel. *)
Theorem pool_metrics_account {T} n k (c : conf T) :
  (Z.max 1 (Z.of_nat n) < 2 ^ 63)%Z → reachable n k c →
  (0 ≤ activeWorkers (q_metrics c) ≤ Z.max 1 (Z.of_nat n))%Z ∧
  wrap64 (completedTasks (q_metrics c) + failedTasks (q_metrics c))
    = wrap64 (Z.of_nat (length (finished c))) ∧
  ((∀ th, th ∈ threads c → uncounted th = 0%Z) →
     queuedTasks (q_metrics c) = wrap64 (Z.of_nat (length (q_tasks c)))).
Proof.
  intros Hn Hr. pose proof (reachable_inv n k c Hr) as Hi. split_and!.
  1, 2: destruct (reachable_workers n k c Hr) as [E _];
    pose proof (sumZ_le active is_worker (threads c) ltac:(intros []; cbn; lia)) as B;
    rewrite (inv_active c Hi), wrap64_id by (unfold in_int64, int64_min, int64_max; lia); lia.
  - apply Hi.
  - intros H0. rewrite (inv_queued c Hi), sumZ_zero by done. f_equal. lia.
Qed.

Lemma pool_metrics_account_witness :
  ∃ c : conf nat, reachable 2 1 c ∧ submitted c = [7] ∧
    (0 ≤ activeWorkers (q_metrics c) ≤ 2)%Z.
Proof.
  destruct (abandon_path (init_conf 2 1) 0 2 3 7 (init_idle 2 0) (init_stopper 2 1)
              (init_threads 2 1)) as (c & R & _ & _ & S & _).
  exists c. split_and!; [exact R|exact S|..];
    apply (pool_metrics_account 2 1 c ltac:(reflexivity) R).
Defined.

(** C40: The pool and the scheduler can deadlock, whatever the number of
    workers: [worker] runs the callbacks [OnSuccess] and [OnFailure], which take
    [Scheduler.JobMu], while it holds the metrics lock, and [dispatchDueJobs]
    calls [Submit], which takes the metrics lock, while it holds [JobMu].  The
    state is reachable, no sequence of steps leaves it, and from then on no task
    is accepted and none is counted as done. *)
Theorem pool_scheduler_deadlock {T} (t1 t2 : T) n k :
  ∃ c i j, reachable n (S k) c ∧ deadlocked c i j t1 t2 [] false ∧
    ∀ c', rtc pool_step c c' →
      deadlocked c' i j t1 t2 [] false ∧ submitted c' = submitted c ∧ finished c' = finished c.
Proof.
  destruct (deadlock_path (init_conf n (S k)) 0 (n_workers n) t1 t2 [] (init_idle n k))
    as (c & R & D).
  exists c, 0, (n_workers n). split; [exact R|]. split; [exact D|].
  intros c' R'. by eapply deadlocked_forever; [eapply reachable_inv|..].
Qed.

(** Stopping the pool while the scheduler submits crashes the process:
    [Submit] checks [isStopped] and sends in separate steps, so [Stop] can
    close the channel in between and the send panics.  Without a closed channel
    [Submit] never panics: in every reachable state with a panicked goroutine
    the channel is closed. *)
Theorem submit_stop_race {T} (t : T) n k :
  (∃ (c : conf T) j, reachable n (S k) c ∧ threads c !! j = Some Panicked ∧
          threads c !! (n_workers n + S k) = Some SClosed) ∧
  ∀ c : conf T, reachable n k c → Panicked ∈ threads c → q_closed c = true.
Proof.
  split.
  - destruct (race_path (init_conf n (S k)) 0 (n_workers n) (n_workers n + S k) t []
                (init_idle n k) (init_stopper n (S k))) as (c & R & P & S).
    by exists c, (n_workers n).
  - intros c R. by apply (reachable_panicked n k).
Qed.

(** [Stop] is not a graceful shutdown: a task that [Submit] accepted may
    still be in the channel when [Stop] has returned, because a worker leaves
    when the context is cancelled; and then it is never executed: no later step
    takes it from the channel or counts it as done. *)
Theorem Stop_abandons_tasks {T} (t : T) n k :
  ∃ c : conf T, reachable n (S k) c ∧ threads c !! (n_workers n + S k) = Some SStopped ∧
       submitted c = [t] ∧ q_tasks c = [t] ∧ finished c = [] ∧
       ∀ c', rtc pool_step c c' → finished c' = [] ∧ ∃ l, q_tasks c' = t :: l.
Proof.
  destruct (abandon_path (init_conf n (S k)) 0 (n_workers n) (n_workers n + S k) t
    (init_idle n k) (init_stopper n (S k)) (init_threads n (S k))) as (c & R & S & Q & Su & F & X).
  exists c. rewrite init_conf_eq in Su, F. split_and!; try done.
  intros c' R'. destruct (exited_forever c c' X R') as (F' & l & Q').
  split; [by rewrite F', F|]. exists l. by rewrite Q', Q.
Qed.
