(* ===== verification/JobHandler.v ===== *)
(** * Handlers of jobs: [internal/scheduler/job_handler.go]

    The registry of handlers and [JobTask], the [worker.Task] that runs a
    job's handler.  A job is reached through a pointer: an address in a heap
    of jobs shared by the scheduler's map, the tasks in the pool and the
    callers of [ScheduleJob].  A handler may change the job it is given and
    the world outside the scheduler (mail, tokens, messages), an arbitrary
    type [W].  The callbacks [OnSuccess] and [OnFailure] are in Scheduler:
    they change the scheduler's state. *)
From Stdlib Require Import ZArith Lia.
From stdpp Require Import base gmap list strings.
From S2P Require Import Prelude Job.

Section handlers.
Context {W : Type}.

(** The context only carries cancellation to the calls the handler makes. *)
(** @src internal/scheduler/job_handler.go 11-12 JobHandler *)
Definition JobHandler : Type := W → Job → W * Job * option error.

(** @src internal/scheduler/job_handler.go 14-18 JobHandlerRegistry *)
Record JobHandlerRegistry := mkRegistry { handlers : gmap string JobHandler }.

(** @src internal/scheduler/job_handler.go 20-25 NewJobHandlerRegistry *)
Definition NewJobHandlerRegistry : JobHandlerRegistry := mkRegistry ∅.

(** A nil handler is [None]. *)
(** @src internal/scheduler/job_handler.go 27-36 RegisterHandler *)
Definition RegisterHandler (jobType : string) (handler : option JobHandler)
    (r : JobHandlerRegistry) : JobHandlerRegistry :=
  match handler with
  | None => r
  | Some h => if decide (jobType = "") then r else mkRegistry (<[jobType := h]> (handlers r))
  end.

(** @src internal/scheduler/job_handler.go 38-43 GetHandler *)
Definition GetHandler (jobType : string) (r : JobHandlerRegistry) : option JobHandler :=
  handlers r !! jobType.

(** @src internal/scheduler/job_handler.go 45-50 UnregisterHandler *)
Definition UnregisterHandler (jobType : string) (r : JobHandlerRegistry) : JobHandlerRegistry :=
  mkRegistry (delete jobType (handlers r)).

(** In the order in which the map is iterated, which Go leaves open. *)
(** @src internal/scheduler/job_handler.go 52-62 ListHandlerTypes *)
Definition ListHandlerTypes (r : JobHandlerRegistry) : list string :=
  (map_to_list (handlers r)).*1.

(** [ctx] and [registry] are the scheduler's; a nil job is [None]. *)
(** @src internal/scheduler/job_handler.go 64-70 JobTask *)
Record JobTask := mkTask { t_job : option nat; t_scheduler : bool }.

(** @src internal/scheduler/job_handler.go 72-79 NewJobTask *)
Definition NewJobTask (job : option nat) : JobTask := mkTask job false.

(** The duration it observes is in file JobMetrics.  A Go pointer is nil or points to a
    job, so the address of a task is always in the heap. *)
(** @src internal/scheduler/job_handler.go 81-99 Execute *)
Definition Execute (r : JobHandlerRegistry) (t : JobTask) (w : W) (heap : gmap nat Job)
  : W * gmap nat Job * option error :=
  match t_job t with
  | None => (w, heap, Some (ErrorString "job cannot be nil"))
  | Some p =>
      match heap !! p with
      | None => (w, heap, None)
      | Some job =>
          match GetHandler (JType job) r with
          | None => (w, heap, Some (ErrorString ("no handler registered for job type: "
                                                 +:+ JType job)))
          | Some handler =>
              let '(w', job', err) := handler w job in (w', <[p := job']> heap, err)
          end
      end
  end.

(** ** The registry is a map *)
Lemma GetHandler_Register t t' (h : JobHandler) r :
  t ≠ "" → GetHandler t' (RegisterHandler t (Some h) r)
           = if decide (t' = t) then Some h else GetHandler t' r.
Proof.
  intros Ht. unfold RegisterHandler, GetHandler. rewrite decide_False by done. simpl.
  case_decide as E; [by rewrite E, lookup_insert_eq|by rewrite lookup_insert_ne by done].
Qed.

Lemma RegisterHandler_refused t (h : option JobHandler) r :
  t = "" ∨ h = None → RegisterHandler t h r = r.
Proof. unfold RegisterHandler. intros [->| ->]; [by destruct h|done]. Qed.

Lemma GetHandler_Unregister t t' r :
  GetHandler t' (UnregisterHandler t r) = if decide (t' = t) then None else GetHandler t' r.
Proof.
  unfold UnregisterHandler, GetHandler. simpl.
  case_decide as E; [by rewrite E, lookup_delete_eq|by rewrite lookup_delete_ne by done].
Qed.

Lemma ListHandlerTypes_spec t r : t ∈ ListHandlerTypes r ↔ is_Some (GetHandler t r).
Proof.
  unfold ListHandlerTypes, GetHandler. rewrite list_elem_of_fmap. split.
  - intros ([k h] & -> & H%elem_of_map_to_list). by exists h.
  - intros [h H]. exists (t, h). split; [done|]. by apply elem_of_map_to_list.
Qed.

Lemma ListHandlerTypes_NoDup r : NoDup (ListHandlerTypes r).
Proof. apply NoDup_fst_map_to_list. Qed.

(** What the scheduler relies on in a handler: it may set the status, the
    retry bookkeeping and the times of the job it is given, not its identity,
    and its payload stays one that marshals. *)
Definition same_identity (j j' : Job) : Prop :=
  ID j' = ID j ∧ job_key j' = job_key j ∧ CreatedAt j' = CreatedAt j ∧ Payload j' = Payload j.

Definition handler_ok (h : JobHandler) : Prop :=
  ∀ w j w' j' e, h w j = (w', j', e) → same_identity j j'.

Definition registry_ok (r : JobHandlerRegistry) : Prop :=
  ∀ t h, GetHandler t r = Some h → handler_ok h.

Lemma registry_ok_new : registry_ok NewJobHandlerRegistry.
Proof. by intros t h. Qed.

Lemma registry_ok_register t h r :
  registry_ok r → handler_ok h → registry_ok (RegisterHandler t (Some h) r).
Proof.
  intros Hr Hh. destruct (decide (t = "")) as [->|Ht]; [by rewrite RegisterHandler_refused by auto|].
  intros t' h' H. rewrite GetHandler_Register in H by done.
  case_decide; [by simplify_eq|by eapply Hr].
Qed.

Lemma Execute_spec r t w heap w' heap' e :
  registry_ok r → Execute r t w heap = (w', heap', e) →
  heap' = heap ∨ ∃ p j j', t_job t = Some p ∧ heap !! p = Some j ∧ same_identity j j' ∧
                           heap' = <[p := j']> heap.
Proof.
  intros Hr. unfold Execute. destruct (t_job t) as [p|] eqn:Et; [|intros [= <- <- <-]; by left].
  destruct (heap !! p) as [j|] eqn:Ej; [|intros [= <- <- <-]; by left].
  destruct (GetHandler (JType j) r) as [h|] eqn:Eh; [|intros [= <- <- <-]; by left].
  destruct (h w j) as [[w2 j2] e2] eqn:E. intros [= <- <- <-]. right.
  exists p, j, j2. split_and!; try done; by eapply Hr.
Qed.
End handlers.
Arguments JobHandler : clear implicits.
Arguments JobHandlerRegistry : clear implicits.
