(* ===== verification/Scheduler.v ===== *)
(** * The scheduler: [internal/scheduler/scheduler.go], callbacks of
    [internal/scheduler/job_handler.go]

    State and operations.  [Jobs] maps IDs to pointers into the heap of jobs;
    tasks in the pool hold the same pointers.  Every operation runs under
    [JobMu], so each is one atomic transition (file WorkerConc models the
    locks themselves).  The store is any instance of the class [JobStore].
    The order in which Go iterates over [Jobs], the clock, new UUIDs and engine
    failures are arguments.  The calls of the prometheus instruments are in file
    JobMetrics. *)
From Stdlib Require Import ZArith Lia.
From stdpp Require Import base gmap list strings.
From S2P Require Import Prelude GoTime Cron GoJson Job Worker JobHandler.

(** What one call sees of the outside: the clock when it computes a next run,
    a fresh UUID, and the clock and failures of its call to the store. *)
Record env := mkEnv { e_now : Z; e_uuid : string; e_store_now : Z; e_flt : db_faults }.

(** The [payload interface{}] of [ScheduleJob]: a [json.RawMessage], or
    another value, given by what [json.Marshal] answers for it. *)
Inductive payload_arg :=
| RawMessage (p : option string)
| OtherPayload (marshalled : result string).

(** Setters of the fields of a job. *)
Definition reset_job (payload : option string) (next : Z) (j : Job) : Job :=
  mkJob (ID j) (UserID j) (JType j) (Schedule j) payload JobStatusPending 0
        (LastError j) next (LastRun j) (CreatedAt j) (UpdatedAt j).
Definition set_running (now : Z) (j : Job) : Job :=
  mkJob (ID j) (UserID j) (JType j) (Schedule j) (Payload j) JobStatusRunning (RetryCount j)
        (LastError j) (NextRun j) (Some now) (CreatedAt j) (UpdatedAt j).
Definition set_completed (next : Z) (j : Job) : Job :=
  mkJob (ID j) (UserID j) (JType j) (Schedule j) (Payload j) JobStatusCompleted 0
        "" next (LastRun j) (CreatedAt j) (UpdatedAt j).
Definition set_failed (rc : Z) (msg : string) (next : Z) (j : Job) : Job :=
  mkJob (ID j) (UserID j) (JType j) (Schedule j) (Payload j) JobStatusFailed rc
        msg next (LastRun j) (CreatedAt j) (UpdatedAt j).

(** The delay before a retry, lines 118-122: the square is taken in [int],
    the product in [time.Duration]. *)
(** @src internal/scheduler/job_handler.go 148-152 OnFailure *)
Definition retry_delay (retryCount : Z) : Z :=
  let delay := wrap64 (wrap64 (retryCount * retryCount) * Minute) in
  if (24 * Hour <? delay)%Z then (24 * Hour)%Z else delay.

Section scheduler.
Context {S W : Type} `{!JobStore S} (loc : Location).

(** [JobMu] is free between operations; [wg] counts the loop. *)
(** @src internal/scheduler/scheduler.go 14-25 Scheduler *)
Record Scheduler := mkScheduler {
  store : S;
  heap : gmap nat Job;
  next_ptr : nat;
  Jobs : gmap string nat;
  cronWakeup : bool;
  pool : WorkerPool JobTask;
  registry : JobHandlerRegistry W;
  cancelled : bool;
}.
Implicit Types s : Scheduler.

Definition set_store (st : S) s : Scheduler :=
  mkScheduler st (heap s) (next_ptr s) (Jobs s) (cronWakeup s) (pool s) (registry s) (cancelled s).
Definition set_heap (h : gmap nat Job) s : Scheduler :=
  mkScheduler (store s) h (next_ptr s) (Jobs s) (cronWakeup s) (pool s) (registry s) (cancelled s).
Definition put_job (p : nat) (j : Job) s : Scheduler := set_heap (<[p := j]> (heap s)) s.
Definition set_Jobs (m : gmap string nat) s : Scheduler :=
  mkScheduler (store s) (heap s) (next_ptr s) m (cronWakeup s) (pool s) (registry s) (cancelled s).
Definition set_pool (pl : WorkerPool JobTask) s : Scheduler :=
  mkScheduler (store s) (heap s) (next_ptr s) (Jobs s) (cronWakeup s) pl (registry s) (cancelled s).
Definition set_wakeup (b : bool) s : Scheduler :=
  mkScheduler (store s) (heap s) (next_ptr s) (Jobs s) b (pool s) (registry s) (cancelled s).
Definition set_registry (r : JobHandlerRegistry W) s : Scheduler :=
  mkScheduler (store s) (heap s) (next_ptr s) (Jobs s) (cronWakeup s) (pool s) r (cancelled s).

(** A new cell of the heap. *)
Definition alloc (j : Job) s : nat * Scheduler :=
  (next_ptr s,
   mkScheduler (store s) (<[next_ptr s := j]> (heap s)) (next_ptr s + 1) (Jobs s) (cronWakeup s)
               (pool s) (registry s) (cancelled s)).

(** The job with an ID in memory. *)
Definition mem_job s (id : string) : option Job := p ← Jobs s !! id; heap s !! p.

(** [s.Jobs[job.ID] = job] for a job read from the store. *)
Definition load_job s (job : Job) : Scheduler :=
  let '(p, s') := alloc job s in set_Jobs (<[ID job := p]> (Jobs s')) s'.

(** @src internal/scheduler/scheduler.go 52-62 loadJobsFromDB *)
Definition loadJobsFromDB (flt : db_faults) s : result Scheduler :=
  match js_ListJobs flt empty_filter (store s) with
  | Err e => Err e
  | Ok jobs => Ok (foldl load_job s jobs)
  end.

(** The database may not have the table yet ([None]). *)
(** @src internal/scheduler/scheduler.go 27-50 NewScheduler *)
Definition NewScheduler (flt1 flt2 : db_faults) (db : option S) (pl : WorkerPool JobTask)
  : result Scheduler :=
  st ← js_Initialize flt1 db;
  loadJobsFromDB flt2 (mkScheduler st ∅ 0 ∅ false pl NewJobHandlerRegistry false).

(** [None] when [Next] finds nothing in 400 years, which in a zone with a fixed
    offset means that it never returns (file SchedulerLock). *)
(** @src internal/scheduler/scheduler.go 118-125 nextRunTime *)
Definition nextRunTime (schedule : string) (now : Z) : option Z :=
  match ParseCron schedule with
  | Err _ => Some (Add now Hour)
  | Ok cron => Next loc cron now
  end.

(** A non-blocking send to a channel of capacity one. *)
(** @src internal/scheduler/scheduler.go 127-133 signalCronWakeup *)
Definition signalCronWakeup s : Scheduler := set_wakeup true s.

(** @src internal/scheduler/scheduler.go 135-139 ForceCheck *)
Definition ForceCheck s : Scheduler := signalCronWakeup s.

(** The store's [UpdateJob] through a pointer: it writes [UpdatedAt]. *)
Definition store_update (now : Z) (flt : db_faults) (p : nat) (j : Job) s
  : Scheduler * result unit :=
  let '(j', st', r) := js_UpdateJob now flt j (store s) in
  (set_store st' (put_job p j' s), r).

(** The loop that looks for an existing job. *)
(** @src internal/scheduler/scheduler.go 81-83 ScheduleJob *)
Fixpoint find_existing s (userID jobType schedule : string) (order : list string) : option nat :=
  match order with
  | [] => None
  | id :: rest =>
      match Jobs s !! id with
      | None => find_existing s userID jobType schedule rest
      | Some p =>
          match heap s !! p with
          | None => find_existing s userID jobType schedule rest
          | Some job =>
              if decide (job_key job = (userID, jobType, schedule)) then Some p
              else find_existing s userID jobType schedule rest
          end
      end
  end.

(** @src internal/scheduler/scheduler.go 69-79 ScheduleJob *)
Definition payload_json (payload : payload_arg) : result (option string) :=
  match payload with
  | RawMessage p => Ok p
  | OtherPayload (Ok b) => Ok (Some b)
  | OtherPayload (Err e) => Err e
  end.

(** [None] when [nextRunTime] finds nothing, see there; otherwise the pointer
    to the job or the error. *)
(** @src internal/scheduler/scheduler.go 64-116 ScheduleJob *)
Definition ScheduleJob (e : env) (order : list string) (userID jobType schedule : string)
    (payload : payload_arg) s : option (Scheduler * result nat) :=
  match payload_json payload with
  | Err err => Some (s, Err err)
  | Ok payloadJSON =>
      match find_existing s userID jobType schedule order with
      | Some p =>
          job ← heap s !! p;
          next ← nextRunTime schedule (e_now e);
          let job := reset_job payloadJSON next job in
          match store_update (e_store_now e) (e_flt e) p job (put_job p job s) with
          | (s', Err err) => Some (s', Err err)
          | (s', Ok _) => Some (signalCronWakeup s', Ok p)
          end
      | None =>
          nextRun ← nextRunTime schedule (e_now e);
          let job := mkJob "" userID jobType schedule payloadJSON JobStatusPending 0 "" nextRun
                           None 0 0 in
          match js_CreateJob (e_uuid e) (e_store_now e) (e_flt e) job (store s) with
          | (_, st', Err err) => Some (set_store st' s, Err err)
          | (job', st', Ok _) =>
              let '(p, s') := alloc job' (set_store st' s) in
              Some (signalCronWakeup (set_Jobs (<[ID job' := p]> (Jobs s')) s'), Ok p)
          end
      end
  end.

(** Pending and due. *)
(** @src internal/scheduler/scheduler.go 172-172 dispatchDueJobs *)
Definition due (now : Z) (job : Job) : bool :=
  bool_decide (Status job = JobStatusPending) && negb (After (NextRun job) now).

(** One turn of the loop.  A panic of [Submit] leaves the loop. *)
(** @src internal/scheduler/scheduler.go 171-189 dispatchDueJobs *)
Definition dispatch_one (envs : string → env) (now : Z) (id : string) s : Scheduler * outcome unit :=
  match Jobs s !! id with
  | None => (s, Returns tt)
  | Some p =>
      match heap s !! p with
      | None => (s, Returns tt)
      | Some job =>
          if due now job then
            let jt := mkTask (t_job (NewJobTask (Some p))) true in
            match Submit (Some jt) (pool s) with
            | (pl, Panics msg) => (set_pool pl s, Panics msg)
            | (pl, Returns false) => (set_pool pl s, Returns tt)
            | (pl, Returns true) =>
                let s := set_pool pl s in
                let job := set_running now job in
                let s := put_job p job s in
                match store_update (e_store_now (envs id)) (e_flt (envs id)) p job s with
                | (s', Err _) => (s', Returns tt)
                | (s', Ok _) => (set_Jobs (<[id := p]> (Jobs s')) s', Returns tt)
                end
            end
          else (s, Returns tt)
      end
  end.

(** The deferred unlock releases [JobMu] in both cases. *)
(** @src internal/scheduler/scheduler.go 167-190 dispatchDueJobs *)
Fixpoint dispatchDueJobs (envs : string → env) (now : Z) (order : list string) s
  : Scheduler * outcome unit :=
  match order with
  | [] => (s, Returns tt)
  | id :: rest =>
      match dispatch_one envs now id s with
      | (s', Panics msg) => (s', Panics msg)
      | (s', Returns _) => dispatchDueJobs envs now rest s'
      end
  end.

(** @src internal/scheduler/scheduler.go 197-201 findNextJobTime *)
Fixpoint sooner s (order : list string) (next : Z) : Z :=
  match order with
  | [] => next
  | id :: rest =>
      match mem_job s id with
      | Some job =>
          sooner s rest
            (if bool_decide (Status job = JobStatusPending) && Before (NextRun job) next
             then NextRun job else next)
      | None => sooner s rest next
      end
  end.

(** @src internal/scheduler/scheduler.go 192-203 findNextJobTime *)
Definition findNextJobTime (now : Z) (order : list string) s : Z :=
  sooner s order (Add now (24 * Hour)).

(** [t.scheduler.Jobs[t.job.ID] = t.job]. *)
Definition remember (p : nat) s : Scheduler :=
  match heap s !! p with
  | None => s
  | Some j => set_Jobs (<[ID j := p]> (Jobs s)) s
  end.

(** [None] when [nextRunTime] finds nothing, see there: it is called with [JobMu]
    and the metrics lock of the pool held.  The store's error is only printed. *)
(** @src internal/scheduler/job_handler.go 101-129 OnSuccess *)
Definition OnSuccess (e : env) (t : JobTask) s : option Scheduler :=
  if negb (t_scheduler t) then Some s
  else match t_job t with
       | None => Some s
       | Some p =>
           job ← heap s !! p;
           next ← nextRunTime (Schedule job) (e_now e);
           let job := set_completed next job in
           let '(s', _) := store_update (e_store_now e) (e_flt e) p job (put_job p job s) in
           Some (signalCronWakeup (remember p s'))
       end.

(** @src internal/scheduler/job_handler.go 131-170 OnFailure *)
Definition OnFailure (e : env) (err : error) (t : JobTask) s : option Scheduler :=
  if negb (t_scheduler t) then Some s
  else match t_job t with
       | None => Some s
       | Some p =>
           job ← heap s !! p;
           let rc := wrap64 (RetryCount job + 1) in
           let nextRun := Add (e_now e) (retry_delay rc) in
           let nextRun := if (5 <=? rc)%Z then 0%Z else nextRun in
           let job := set_failed rc (Error err) nextRun job in
           let '(s', _) := store_update (e_store_now e) (e_flt e) p job (put_job p job s) in
           Some (signalCronWakeup (remember p s'))
       end.

(** @src internal/scheduler/scheduler.go 216-219 RegisterHandler *)
Definition RegisterHandler (jobType : string) (handler : option (JobHandler W)) s : Scheduler :=
  set_registry (JobHandler.RegisterHandler jobType handler (registry s)) s.

(** @src internal/scheduler/scheduler.go 211-214 RegisterTokenRefreshHandler *)
Definition RegisterTokenRefreshHandler (handler : option (JobHandler W)) s : Scheduler :=
  RegisterHandler "token_refresh" handler s.

(** [filtered[:limit]]. *)
(** @src internal/scheduler/scheduler.go 242-254 ListJobs *)
Definition post_filter (opts : ListJobsOptions) (jobs : list Job) : list Job :=
  let filtered := filter (λ job, IsZero (o_After opts) = true ∨
                                 Before (NextRun job) (o_After opts) = false) jobs in
  if (0 <? o_Limit opts)%Z && (o_Limit opts <? Z.of_nat (length filtered))%Z
  then take (Z.to_nat (o_Limit opts)) filtered else filtered.

(** @src internal/scheduler/scheduler.go 221-257 ListJobs *)
Definition ListJobs (flt : db_faults) (opts : option ListJobsOptions) s : result (list Job) :=
  let opts := default (mkOpts "" "" "" 0 0 0) opts in
  let f := mkFilter (o_UserID opts) (o_Type opts) (o_Status opts)
                    (if IsZero (o_Before opts) then 0%Z else o_Before opts) [] in
  jobs ← js_ListJobs flt f (store s);
  Ok (post_filter opts jobs).

(** What wakes the loop: the timer set for [next], the channel, the context.
    [Start] runs turns of this loop; [Stop] cancels the context and waits for
    the turn that sees it. *)
Inductive wake := TimerFired | Wakeup | ContextDone.

(** One turn of the loop from the time [now] at which it looks for the next
    job; [None] ends the loop. *)
(** @src internal/scheduler/scheduler.go 147-165 schedulingLoop *)
Definition schedulingTurn (envs : string → env) (now : Z) (order1 order2 : list string) (w : wake) s
  : option (Scheduler * outcome unit) :=
  let next := findNextJobTime now order1 s in
  match w with
  | ContextDone => None
  | TimerFired => Some (dispatchDueJobs envs next order2 s)
  | Wakeup => Some (set_wakeup false s, Returns tt)
  end.

(** @src internal/scheduler/scheduler.go 205-209 Stop *)
Definition Stop s : Scheduler :=
  mkScheduler (store s) (heap s) (next_ptr s) (Jobs s) (cronWakeup s) (pool s) (registry s) true.
End scheduler.
Arguments Scheduler : clear implicits.
