(* ===== verification/SchedulerInv.v ===== *)
(** * The scheduler's invariant

    Memory and store agree: same IDs, same (user, type, schedule), at most one
    job per triple; every task in the pool points to a job in memory.  All
    operations of file Scheduler preserve it whatever the store answers; when
    the store does not fail, memory is a write-through cache of it. *)
From Stdlib Require Import ZArith Lia.
From stdpp Require Import base gmap list strings.
From S2P Require Import Prelude GoTime Cron GoJson Job Worker JobHandler Scheduler.

Section inv.
Context {S W : Type} `{!JobStore S} (loc : Location).
Implicit Types s : Scheduler S W.

Record sched_inv s : Prop := {
  si_store : js_wf (store s);
  si_ptr : ∀ p, is_Some (heap s !! p) → p < next_ptr s;
  si_jobs : ∀ id p, Jobs s !! id = Some p → ∃ j, heap s !! p = Some j ∧ ID j = id;
  si_rows : ∀ id, is_Some (Jobs s !! id) ↔ is_Some (js_abs (store s) !! id);
  si_keys : ∀ id j a, mem_job s id = Some j → js_abs (store s) !! id = Some a →
    job_key a = job_key j ∧ CreatedAt a = CreatedAt j;
  si_cap : length (tasks (pool s)) ≤ tasks_cap (pool s);
}.

(** The job [j] in memory is what the store holds, payload compacted. *)
Definition job_synced (j : Job) (a : option Job) : Prop :=
  ∃ p, Marshal_raw (Payload j) = Ok p ∧ a = Some (with_payload p j).
Definition synced s (id : string) : Prop :=
  ∀ j, mem_job s id = Some j → job_synced j (js_abs (store s) !! id).

Lemma mem_job_Some s id j :
  mem_job s id = Some j ↔ ∃ p, Jobs s !! id = Some p ∧ heap s !! p = Some j.
Proof. 
  unfold mem_job. destruct (Jobs s !! id) as [p|]; cbn; split.
  - intros Hj. by exists p.
  - by intros (q & [= ->] & Hj).
  - done.
  - by intros (q & [=] & _).
Qed.

Lemma inv_mem_ID s id j : sched_inv s → mem_job s id = Some j → ID j = id.
Proof.
  intros Hi (p & Hp & Hj)%mem_job_Some.
  destruct (si_jobs s Hi id p Hp) as (j' & Hj' & E). congruence.
Qed.

Lemma inv_mem s id p : sched_inv s → Jobs s !! id = Some p →
  ∃ j a, heap s !! p = Some j ∧ mem_job s id = Some j ∧ ID j = id ∧
         js_abs (store s) !! id = Some a ∧ job_key a = job_key j ∧ CreatedAt a = CreatedAt j.
Proof.
  intros Hi Hp. destruct (si_jobs s Hi id p Hp) as (j & Hj & E).
  assert (Hm : mem_job s id = Some j) by (apply mem_job_Some; by exists p).
  destruct (proj1 (si_rows s Hi id) ltac:(by exists p)) as [a Ha].
  exists j, a. destruct (si_keys s Hi id j a Hm Ha). done.
Qed.

(** Two IDs never share a pointer. *)
Lemma inv_ptr_inj s id id' p :
  sched_inv s → Jobs s !! id = Some p → Jobs s !! id' = Some p → id = id'.
Proof.
  intros Hi H H'. destruct (si_jobs s Hi id p H) as (j & Hj & <-).
  destruct (si_jobs s Hi id' p H') as (j' & Hj' & <-). congruence.
Qed.

(** Deduplication: at most one job per (user, type, schedule). *)
Lemma inv_mem_key s id id' j j' :
  sched_inv s → mem_job s id = Some j → mem_job s id' = Some j' → job_key j = job_key j' →
  id = id'.
Proof.
  intros Hi H H' E.
  apply mem_job_Some in H as (p & Hp & Hj). apply mem_job_Some in H' as (p' & Hp' & Hj').
  destruct (inv_mem s id p Hi Hp) as (k & a & Hk & _ & _ & Ha & Ka & _).
  destruct (inv_mem s id' p' Hi Hp') as (k' & a' & Hk' & _ & _ & Ha' & Ka' & _).
  apply (js_keys (store s) id id' a a'); [apply Hi|done|done|congruence].
Qed.

(** ** Writing one job *)
Lemma mem_job_put s id p j id' :
  Jobs s !! id = Some p → (∀ i, Jobs s !! i = Some p → i = id) → is_Some (heap s !! p) →
  mem_job (put_job p j s) id' = if decide (id' = id) then Some j else mem_job s id'.
Proof.
  intros Hp Hinj Hh. unfold mem_job, put_job, set_heap. simpl. case_decide as E.
  - subst. rewrite Hp. cbn. apply lookup_insert_eq.
  - destruct (Jobs s !! id') as [p'|] eqn:Hp'; [|done]. cbn.
    apply lookup_insert_ne. intros <-. by apply E, Hinj.
Qed.

Definition keeps_identity (j j' : Job) : Prop :=
  ID j' = ID j ∧ job_key j' = job_key j ∧ CreatedAt j' = CreatedAt j.

Lemma put_job_inv s id p j j' :
  sched_inv s → Jobs s !! id = Some p → heap s !! p = Some j → keeps_identity j j' →
  sched_inv (put_job p j' s).
Proof.
  intros Hi Hp Hj (H1 & H2 & H3).
  assert (Hm : ∀ id', mem_job (put_job p j' s) id'
                      = if decide (id' = id) then Some j' else mem_job s id').
  { intros id'. apply mem_job_put; [done| |by exists j].
    intros i Hip. by eapply inv_ptr_inj. }
  split.
  - apply Hi.
  - intros q. unfold put_job, set_heap. simpl. rewrite lookup_insert_is_Some.
    intros [<-|[_ Hq]]; apply (si_ptr s Hi); [by exists j|done].
  - intros i q Hq. unfold put_job, set_heap in *. simpl in *.
    destruct (si_jobs s Hi i q Hq) as (k & Hk & Ek). destruct (decide (q = p)) as [->|Hne].
    + exists j'. rewrite lookup_insert_eq. split; [done|]. congruence.
    + exists k. by rewrite lookup_insert_ne by done.
  - apply Hi.
  - intros i k a. rewrite Hm. change (store (put_job p j' s)) with (store s).
    case_decide as E.
    + subst i. intros [= <-] Ha.
      destruct (si_keys s Hi id j a) as [K C]; [apply mem_job_Some; by exists p|done|].
      split; congruence.
    + apply (si_keys s Hi).
  - apply Hi.
Qed.

Lemma set_store_put p j s st : set_store st (put_job p j s) = put_job p j (set_store st s).
Proof. done. Qed.

Lemma put_job_twice p j j' s : put_job p j' (put_job p j s) = put_job p j' s.
Proof. unfold put_job, set_heap. simpl. by rewrite insert_insert_eq. Qed.

Lemma with_CreatedAt_id c j : CreatedAt j = c → with_CreatedAt c j = j.
Proof. intros <-. by destruct j. Qed.

(** What the code does to a job everywhere: change its fields through the
    pointer, then [UpdateJob]. *)
Definition write_job (now : Z) (flt : db_faults) (p : nat) (j' : Job) s : Scheduler S W * result unit :=
  store_update now flt p j' (put_job p j' s).

Record written (now : Z) (id : string) (p : nat) (j' : Job) s s' (r : result unit) : Prop := {
  wr_inv : sched_inv s';
  wr_state : ∃ st, s' = put_job p (set_UpdatedAt now j') (set_store st s);
  wr_mem : ∀ i, mem_job s' i = if decide (i = id) then Some (set_UpdatedAt now j') else mem_job s i;
  wr_other : ∀ i, i ≠ id → js_abs (store s') !! i = js_abs (store s) !! i;
  wr_ok : is_ok r = true → synced s' id;
}.

Lemma write_job_spec now flt id p j j' s s' r :
  sched_inv s → Jobs s !! id = Some p → heap s !! p = Some j → keeps_identity j j' →
  write_job now flt p j' s = (s', r) → written now id p j' s s' r.
Proof.
  intros Hi Hp Hj Hk Hw. unfold write_job, store_update in Hw.
  change (store (put_job p j' s)) with (store s) in Hw.
  destruct (js_UpdateJob now flt j' (store s)) as [[jj st] rr] eqn:E.
  injection Hw as <- <-.
  destruct (js_update_law _ _ _ _ _ _ _ (si_store s Hi) E) as (-> & Hwf & Hr).
  rewrite put_job_twice, set_store_put.
  destruct (inv_mem s id p Hi Hp) as (j0 & old & Hj0 & Hm0 & E0 & Hold & Kold & Cold).
  assert (j0 = j) as -> by congruence. destruct Hk as (K1 & K2 & K3).
  set (u := set_UpdatedAt now j') in *.
  assert (Hst : js_abs st = js_abs (store s) ∨
     ∃ py, Marshal_raw (Payload j') = Ok py ∧
           js_abs st = <[id := with_payload py u]> (js_abs (store s))).
  { assert (U : (check_status (Status j') = true ∧ ∃ old p0,
        js_abs (store s) !! ID j' = Some old ∧ Marshal_raw (Payload j') = Ok p0 ∧
        js_abs st = <[ID j' := with_CreatedAt (CreatedAt old) (with_payload p0 u)]>
                      (js_abs (store s))) →
      ∃ py, Marshal_raw (Payload j') = Ok py ∧
           js_abs st = <[id := with_payload py u]> (js_abs (store s))).
    { intros (_ & o & py & Ho & Hpy & Ha). exists py. split; [done|].
      rewrite K1, E0 in Ho, Ha. rewrite Ha. f_equal. apply with_CreatedAt_id.
      change (CreatedAt j' = CreatedAt o). congruence. }
    destruct rr; [right; auto|]. destruct Hr as [->|[_ Hr]]; [by left|right; auto]. }
  assert (Hcr : ∀ a, js_abs st !! id = Some a → job_key a = job_key j ∧ CreatedAt a = CreatedAt j).
  { intros a Ha. destruct Hst as [Hst|(py & _ & Hst)]; rewrite Hst in Ha.
    - by apply (si_keys s Hi id j).
    - rewrite lookup_insert_eq in Ha. injection Ha as <-.
      split; [exact K2|exact K3]. }
  assert (Hoth : ∀ i, i ≠ id → js_abs st !! i = js_abs (store s) !! i).
  { intros i Hi'. destruct Hst as [->|(py & _ & ->)]; [done|]. by rewrite lookup_insert_ne. }
  assert (Hi2 : sched_inv (set_store st s)).
  { destruct Hi as [I1 I2 I3 I4 I5 I6]. split; simpl; try done.
    - intros i. rewrite I4. destruct (decide (i = id)) as [->|Hne].
      + destruct Hst as [->|(py & _ & ->)]; [done|].
        rewrite lookup_insert_eq, Hold. split; by eexists.
      + by rewrite Hoth.
    - intros i k a Hik Ha. change (mem_job (set_store st s) i) with (mem_job s i) in Hik.
      destruct (decide (i = id)) as [->|Hne]; [|rewrite Hoth in Ha by done; eauto].
      rewrite Hm0 in Hik. injection Hik as <-. by apply Hcr. }
  assert (Hmem : ∀ i, mem_job (put_job p u (set_store st s)) i
                 = if decide (i = id) then Some u else mem_job s i).
  { intros i. apply (mem_job_put (set_store st s) id); [done| |by exists j].
    intros i' Hi'. by eapply (inv_ptr_inj s). }
  split.
  - apply (put_job_inv _ id _ j); done.
  - by exists st.
  - exact Hmem.
  - exact Hoth.
  - intros Hok k. rewrite Hmem, decide_True by done. intros [= <-].
    destruct rr; [|done]. destruct Hr as (_ & o & py & Ho & Hpy & Ha).
    exists py. split; [exact Hpy|]. change (js_abs st !! id = Some (with_payload py u)).
    rewrite Ha, K1, E0, lookup_insert_eq. f_equal. apply with_CreatedAt_id.
    rewrite K1, E0 in Ho. change (CreatedAt j' = CreatedAt o). congruence.
Qed.

(** Without failures the write succeeds. *)
Lemma write_job_ok now id p j j' s :
  sched_inv s → Jobs s !! id = Some p → heap s !! p = Some j → keeps_identity j j' →
  is_ok (Marshal_raw (Payload j')) = true → check_status (Status j') = true →
  ∃ s', write_job now no_faults p j' s = (s', Ok tt).
Proof.
  intros Hi Hp Hj (K1 & K2 & _) Hm Hs.
  destruct (inv_mem s id p Hi Hp) as (j0 & old & Hj0 & Hm0 & E0 & Hold & Kold & Cold).
  assert (j0 = j) as -> by congruence.
  destruct (js_update_succeeds now j' (store s)) as [st Hst]; [apply Hi| |done|done| |].
  - rewrite K1, E0. by exists old.
  - intros i a Ha E. rewrite K1, E0.
    apply (js_keys (store s) i id a old); [apply Hi|done|done|congruence].
  - unfold write_job, store_update. change (store (put_job p j' s)) with (store s).
    rewrite Hst. by eexists.
Qed.

Lemma remember_id s id p j :
  sched_inv s → Jobs s !! id = Some p → heap s !! p = Some j → remember p s = s.
Proof.
  intros Hi Hp Hj. unfold remember. rewrite Hj.
  destruct (si_jobs s Hi id p Hp) as (j' & Hj' & E). assert (j' = j) as -> by congruence.
  unfold set_Jobs. rewrite insert_id by congruence. by destruct s.
Qed.

(** Fields outside memory and store do not matter. *)
Lemma inv_same s s' :
  sched_inv s → store s' = store s → heap s' = heap s → next_ptr s' = next_ptr s →
  Jobs s' = Jobs s → length (tasks (pool s')) ≤ tasks_cap (pool s') → sched_inv s'.
Proof.
  intros [H1 H2 H3 H4 H5 H6] E1 E2 E3 E4 Hc.
  split; unfold mem_job in *; rewrite ?E1, ?E2, ?E3, ?E4; done.
Qed.

Lemma inv_wakeup s b : sched_inv s → sched_inv (set_wakeup b s).
Proof. intros Hi. apply (inv_same s); try done. apply Hi. Qed.

(** ** Operations *)

(** An operation that concerns one ID: it keeps the invariant and the other
    jobs, in memory and in the store. *)
Record touches (id : string) s s' : Prop := {
  tc_inv : sched_inv s';
  tc_mem : ∀ i, i ≠ id → mem_job s' i = mem_job s i;
  tc_abs : ∀ i, i ≠ id → js_abs (store s') !! i = js_abs (store s) !! i;
  tc_Jobs : Jobs s ⊆ Jobs s';
  tc_registry : registry s' = registry s;
}.

Lemma touches_refl id s : sched_inv s → touches id s s.
Proof. by split. Qed.

Lemma touches_trans id s1 s2 s3 : touches id s1 s2 → touches id s2 s3 → touches id s1 s3.
Proof.
  intros [A1 A2 A3 A4 A5] [B1 B2 B3 B4 B5]. split; try done.
  - intros i Hi. by rewrite B2, A2.
  - intros i Hi. by rewrite B3, A3.
  - by etrans.
  - congruence.
Qed.

Lemma written_touches now id p j' s s' r : written now id p j' s s' r → touches id s s'.
Proof.
  intros [H1 [st ->] H3 H4 _]. split; try done.
  intros i Hi. by rewrite H3, decide_False.
Qed.

Lemma touches_wakeup id s b : sched_inv s → touches id s (set_wakeup b s).
Proof. intros Hi. split; try done. by apply inv_wakeup. Qed.

Lemma find_existing_Some s u t sch order p :
  find_existing s u t sch order = Some p →
  ∃ id j, id ∈ order ∧ Jobs s !! id = Some p ∧ heap s !! p = Some j ∧ job_key j = (u, t, sch).
Proof.
  induction order as [|id rest IH]; [done|]. cbn [find_existing].
  assert (R : find_existing s u t sch rest = Some p →
    ∃ id' j, id' ∈ id :: rest ∧ Jobs s !! id' = Some p ∧ heap s !! p = Some j ∧ job_key j = (u, t, sch)).
  { intros H. destruct (IH H) as (i & j & ? & ?). exists i, j. split; [by right|done]. }
  destruct (Jobs s !! id) as [q|] eqn:Eq; [|exact R].
  destruct (heap s !! q) as [j|] eqn:Ej; [|exact R].
  case_decide as E; [|exact R]. intros [= <-]. exists id, j. split_and!; try done. left.
Qed.

Lemma find_existing_None s u t sch order :
  find_existing s u t sch order = None →
  ∀ id j, id ∈ order → mem_job s id = Some j → job_key j ≠ (u, t, sch).
Proof.
  induction order as [|id rest IH]; intros H i j Hin Hm; [by apply elem_of_nil in Hin|].
  cbn [find_existing] in H. apply mem_job_Some in Hm as Hm'. destruct Hm' as (p & Hp & Hj).
  apply elem_of_cons in Hin as [->|Hin].
  - rewrite Hp, Hj in H. by case_decide.
  - apply (IH) with (id := i); try done.
    destruct (Jobs s !! id) as [q|]; [|done]. destruct (heap s !! q); [|done]. by case_decide.
Qed.

(** Adding a job that the store has just accepted. *)
Lemma insert_job_touches s st j p :
  sched_inv s → js_wf st → js_abs (store s) !! ID j = None →
  Marshal_raw (Payload j) = Ok p → js_abs st = <[ID j := with_payload p j]> (js_abs (store s)) →
  let '(q, s1) := alloc j (set_store st s) in
  let s' := set_Jobs (<[ID j := q]> (Jobs s1)) s1 in
  touches (ID j) s s' ∧ mem_job s' (ID j) = Some j ∧ synced s' (ID j).
Proof.
  intros Hi Hwf Hnone Hp Ha. cbn [alloc].
  set (q := next_ptr (set_store st s)). set (s1 := mkScheduler _ _ _ _ _ _ _ _).
  set (s' := set_Jobs _ _).
  assert (HnJ : Jobs s !! ID j = None).
  { destruct (Jobs s !! ID j) eqn:E; [|done].
    destruct (proj1 (si_rows s Hi (ID j)) ltac:(by eexists)). congruence. }
  assert (Hq : ∀ i r, Jobs s !! i = Some r → r ≠ q).
  { intros i r Hr ->. destruct (si_jobs s Hi i q Hr) as (k & Hk & _).
    pose proof (si_ptr s Hi q ltac:(by exists k)). change (next_ptr s < next_ptr s) in H. lia. }
  assert (Hm : ∀ i, mem_job s' i = if decide (i = ID j) then Some j else mem_job s i).
  { intros i. unfold mem_job. cbn. case_decide as E.
    - subst i. rewrite lookup_insert_eq. cbn. by rewrite lookup_insert_eq.
    - rewrite lookup_insert_ne by done. destruct (Jobs s !! i) as [r|] eqn:Er; [|done]. cbn.
      rewrite lookup_insert_ne; [done|]. intros E2. by apply (Hq i r Er). }
  split; [split|split].
  - split.
    + done.
    + intros r. cbn. rewrite lookup_insert_is_Some. intros [<-|[_ Hr]].
      * unfold q. cbn. lia.
      * pose proof (si_ptr s Hi r Hr). lia.
    + intros i r. cbn. destruct (decide (i = ID j)) as [->|Hne].
      * rewrite lookup_insert_eq. intros [= <-]. exists j. by rewrite lookup_insert_eq.
      * rewrite lookup_insert_ne by done. intros Hr.
        destruct (si_jobs s Hi i r Hr) as (k & Hk & Ek). exists k.
        rewrite lookup_insert_ne; [done|]. intros E2. by apply (Hq i r Hr).
    + intros i. cbn. rewrite Ha. destruct (decide (i = ID j)) as [->|Hne].
      * rewrite !lookup_insert_eq. split; by eexists.
      * rewrite !lookup_insert_ne by done. apply (si_rows s Hi).
    + intros i k a. rewrite Hm. change (store s') with st. rewrite Ha. case_decide as E.
      * subst i. rewrite lookup_insert_eq. by intros [= <-] [= <-].
      * rewrite lookup_insert_ne by done. apply (si_keys s Hi).
    + apply (si_cap s Hi).
  - intros i Hne. by rewrite Hm, decide_False.
  - intros i Hne. change (store s') with st. rewrite Ha. by rewrite lookup_insert_ne.
  - cbn. by apply insert_subseteq.
  - done.
  - by rewrite Hm, decide_True.
  - intros k. rewrite Hm, decide_True by done. intros [= <-]. exists p. split; [done|].
    change (store s') with st. by rewrite Ha, lookup_insert_eq.
Qed.

(** *** ScheduleJob *)
Record scheduled (e : env) (u t sch : string) (pj : option string) (id : string) (p : nat) s' : Prop := {
  sd_Jobs : Jobs s' !! id = Some p;
  sd_mem : ∃ j next, mem_job s' id = Some j ∧ job_key j = (u, t, sch) ∧ Payload j = pj ∧
    Status j = JobStatusPending ∧ RetryCount j = 0%Z ∧
    nextRunTime loc sch (e_now e) = Some next ∧ NextRun j = next;
  sd_synced : synced s' id;
  sd_wakeup : cronWakeup s' = true;
}.

Lemma reset_identity pj next j : keeps_identity j (reset_job pj next j).
Proof. done. Qed.

Lemma ScheduleJob_spec e order u t sch payload s s' r :
  sched_inv s → ScheduleJob loc e order u t sch payload s = Some (s', r) →
  pool s' = pool s ∧ ∃ id, touches id s s' ∧
  (mem_job s id = None ∨ ∃ j, mem_job s id = Some j ∧ job_key j = (u, t, sch)) ∧
  match r with
  | Err _ => s' = s ∨ e_flt e ≠ no_faults ∨
             ∃ pj, payload_json payload = Ok pj ∧ is_ok (Marshal_raw pj) = false
  | Ok p => ∃ pj, payload_json payload = Ok pj ∧ scheduled e u t sch pj id p s'
  end.
Proof.
  intros Hi. unfold ScheduleJob.
  assert (Hnothing : ∀ P, ∃ id, touches id s s ∧
    (mem_job s id = None ∨ ∃ j, mem_job s id = Some j ∧ job_key j = (u, t, sch)) ∧ (s = s ∨ P)).
  { intros P. exists (fresh (dom (Jobs s))). split; [by apply touches_refl|]. split; [left|by left].
    unfold mem_job. by rewrite (proj1 (not_elem_of_dom _ _) (is_fresh (dom (Jobs s)))). }
  destruct (payload_json payload) as [pj|err]; [|by intros [= <- <-]].
  destruct (find_existing s u t sch order) as [p|] eqn:Ef.
  - apply find_existing_Some in Ef as (id & j & _ & Hp & Hj & Hk).
    rewrite Hj. cbn [mbind option_bind].
    destruct (nextRunTime loc sch (e_now e)) as [next|] eqn:En; [|done]. cbn [mbind option_bind].
    set (j' := reset_job pj next j).
    change (store_update (e_store_now e) (e_flt e) p j' (put_job p j' s))
      with (write_job (e_store_now e) (e_flt e) p j' s).
    destruct (write_job _ _ p j' s) as [s1 r1] eqn:Ew. intros Hr.
    apply (write_job_spec _ _ id p j) in Ew as Hwr; [|done..].
    pose proof (written_touches _ _ _ _ _ _ _ Hwr) as Ht.
    destruct Hwr as [H1 [st ->] H3 H4 H5].
    assert (Hmj : mem_job s id = Some j) by (apply mem_job_Some; by exists p).
    destruct r1 as [[]|err]; injection Hr as <- <-; (split; [done|]); exists id.
    + split; [|split; [right; by exists j|]].
      * eapply touches_trans; [exact Ht|]. by apply touches_wakeup.
      * exists pj. split; [done|]. split; [done| |by apply H5|done].
        exists (set_UpdatedAt (e_store_now e) j'), next.
        change (mem_job (signalCronWakeup ?x) id) with (mem_job x id).
        rewrite H3, decide_True by done. by split_and!.
    + split; [exact Ht|]. split; [right; by exists j|].
      destruct (decide (e_flt e = no_faults)) as [Ef|]; [|right; by left].
      right; right. exists pj. split; [done|].
      destruct (is_ok (Marshal_raw pj)) eqn:Em; [|done]. exfalso.
      destruct (write_job_ok (e_store_now e) id p j j' s) as [s1 E1]; try done.
      rewrite Ef in Ew. congruence.
  - destruct (nextRunTime loc sch (e_now e)) as [next|] eqn:En; [|done]. cbn [mbind option_bind].
    set (j := mkJob "" u t sch pj JobStatusPending 0 "" next None 0 0).
    destruct (js_CreateJob _ _ _ j _) as [[j' st] rr] eqn:Ec.
    destruct (js_create_law _ _ _ _ _ _ _ _ (si_store s Hi) Ec) as (-> & Hwf & Hr).
    set (j' := create_defaults _ _ j) in *.
    destruct rr as [[]|err].
    + destruct Hr as (Hnone & p & Hp & Ha).
      pose proof (insert_job_touches s st j' p Hi Hwf Hnone Hp Ha) as HT.
      cbn [alloc] in *. destruct HT as (Ht & Hm & Hs). intros [= <- <-].
      split; [done|]. exists (ID j'). split; [|split].
      * eapply touches_trans; [exact Ht|]. apply touches_wakeup. apply Ht.
      * left. destruct (mem_job s (ID j')) eqn:E; [|done].
        apply mem_job_Some in E as (q & Hq & _).
        destruct (proj1 (si_rows s Hi (ID j')) ltac:(by eexists)). congruence.
      * exists pj. split; [done|]. split; [cbn; apply lookup_insert_eq| |exact Hs|done].
        exists j', next. by split_and!.
    + intros [= <- <-]. subst st. replace (set_store (store s) s) with s by (by destruct s). done.
Qed.

(** Any order of iteration that meets every key. *)
Definition complete_order s (order : list string) : Prop :=
  ∀ id, is_Some (Jobs s !! id) → id ∈ order.

(** What [ScheduleJob] needs to succeed, the store's health apart. *)
Lemma ScheduleJob_ok now uuid now' order u t sch payload pj next s :
  sched_inv s → complete_order s order →
  payload_json payload = Ok pj → is_ok (Marshal_raw pj) = true →
  nextRunTime loc sch now = Some next → uuid ≠ "" → js_abs (store s) !! uuid = None →
  ∃ s' p, ScheduleJob loc (mkEnv now uuid now' no_faults) order u t sch payload s = Some (s', Ok p).
Proof.
  intros Hi Ho Hpj Hm Hn Huu Hu. unfold ScheduleJob. rewrite Hpj.
  destruct (find_existing s u t sch order) as [p|] eqn:Ef.
  - apply find_existing_Some in Ef as (id & j & _ & Hp & Hj & Hk).
    rewrite Hj. cbn [mbind option_bind e_now]. rewrite Hn. cbn [mbind option_bind e_store_now e_flt].
    set (j' := reset_job pj next j).
    change (store_update now' no_faults p j' (put_job p j' s)) with (write_job now' no_faults p j' s).
    destruct (write_job_ok now' id p j j' s) as [s' ->]; try done. by eexists _, _.
  - cbn [e_now]. rewrite Hn. cbn [mbind option_bind e_store_now e_flt e_uuid].
    set (j := mkJob "" u t sch pj JobStatusPending 0 "" next None 0 0).
    destruct (js_create_succeeds uuid now' j (store s)) as [st ->]; try done.
    + apply Hi.
    + intros i a Ha E.
      destruct (proj2 (si_rows s Hi i) ltac:(by exists a)) as [p Hp].
      destruct (inv_mem s i p Hi Hp) as (k & a' & Hk & Hmk & _ & Ha' & K & _).
      apply (find_existing_None _ _ _ _ _ Ef i k); [apply Ho; by exists p|done|].
      change (job_key a = (u, t, sch)) in E. congruence.
    + cbn [alloc]. by eexists _, _.
Qed.

(** *** dispatchDueJobs *)
Definition task_for (p : nat) : JobTask := mkTask (Some p) true.

Record dispatched (now : Z) (e : env) (id : string) (p : nat) (j : Job) s s' : Prop := {
  di_Jobs : Jobs s !! id = Some p;
  di_job : heap s !! p = Some j;
  di_due : due now j = true;
  di_running : isStopped (pool s) = false;
  di_open : tasks_closed (pool s) = false;
  di_room : length (tasks (pool s)) < tasks_cap (pool s);
  di_pool : pool s' = with_metrics (count_queued (metrics (pool s)))
                        (with_tasks (tasks (pool s) ++ [task_for p]) (pool s));
  di_touches : touches id s s';
  di_same : Jobs s' = Jobs s;
  di_mem : mem_job s' id = Some (set_UpdatedAt (e_store_now e) (set_running now j));
  di_synced : e_flt e = no_faults → is_ok (Marshal_raw (Payload j)) = true → synced s' id;
}.

Lemma running_identity now j : keeps_identity j (set_running now j).
Proof. done. Qed.

Lemma dispatch_one_spec envs now id s s' o :
  sched_inv s → dispatch_one envs now id s = (s', o) →
  (s' = s ∧ (o = Returns tt → ∀ p j, Jobs s !! id = Some p → heap s !! p = Some j →
             due now j = true → isStopped (pool s) = true ∨
                                tasks_cap (pool s) ≤ length (tasks (pool s)))) ∨
  (o = Returns tt ∧ ∃ p j, dispatched now (envs id) id p j s s').
Proof.
  intros Hi. unfold dispatch_one.
  destruct (Jobs s !! id) as [p|] eqn:Hp; [|intros [= <- <-]; left; by split].
  destruct (heap s !! p) as [j|] eqn:Hj; [|intros [= <- <-]; left; split; [done|congruence]].
  destruct (due now j) eqn:Hd; [|intros [= <- <-]; left; split; [done|congruence]].
  assert (Hsame : set_pool (pool s) s = s) by (by destruct s).
  unfold Submit. destruct (isStopped (pool s)) eqn:Hs.
  { intros [= <- <-]. rewrite Hsame. left. split; [done|]. by left. }
  destruct (tasks_closed (pool s)) eqn:Hc; [intros [= <- <-]; left; by rewrite Hsame|].
  destruct (Z.ltb_spec (Z.of_nat (length (tasks (pool s)))) (Z.of_nat (tasks_cap (pool s)))) as [Hl|Hl].
  2:{ intros [= <- <-]. rewrite Hsame. left. split; [done|]. intros _ _ _ _ _ _. right. lia. }
  set (pl := with_metrics _ _). set (s1 := set_pool pl s). set (j' := set_running now j).
  assert (Hi1 : sched_inv s1).
  { apply (inv_same s); try done. cbn. rewrite length_app. cbn. lia. }
  change (store_update (e_store_now (envs id)) (e_flt (envs id)) p j' (put_job p j' s1))
    with (write_job (e_store_now (envs id)) (e_flt (envs id)) p j' s1).
  destruct (write_job _ _ p j' s1) as [s2 r] eqn:Ew.
  apply (write_job_spec _ _ id p j) in Ew as Hwr; [|done..].
  assert (Hok : e_flt (envs id) = no_faults → is_ok (Marshal_raw (Payload j)) = true → is_ok r = true).
  { intros Ef Hm. rewrite Ef in Ew.
    destruct (write_job_ok (e_store_now (envs id)) id p j j' s1) as [s3 E]; try done.
    rewrite E in Ew. by injection Ew as _ <-. }
  pose proof (written_touches _ _ _ _ _ _ _ Hwr) as Ht. destruct Hwr as [H1 [st ->] H3 H4 H5].
  intros Hr. right.
  assert (Hfin : s' = put_job p (set_UpdatedAt (e_store_now (envs id)) j') (set_store st s1) ∧ o = Returns tt).
  { destruct r as [[]|err]; injection Hr as <- <-; (split; [|done]); [|done].
    unfold set_Jobs. cbn [Jobs put_job set_heap set_store]. change (Jobs s1) with (Jobs s).
    by rewrite insert_id by done. }
  destruct Hfin as [-> ->]. split; [done|]. exists p, j. split; try done.
  - lia.
  - destruct Ht as [T1 T2 T3 T4 T5]. by split.
  - by rewrite H3, decide_True.
  - intros Ef Hm. apply H5. by apply Hok.
Qed.

(** A property that every dispatch keeps holds after the loop. *)
Lemma dispatch_ind (P : Scheduler S W → Prop) envs now :
  (∀ s id p j s', sched_inv s → P s → dispatched now (envs id) id p j s s' → P s') →
  ∀ order s s' o, sched_inv s → P s → dispatchDueJobs envs now order s = (s', o) →
  sched_inv s' ∧ P s'.
Proof.
  intros Hstep order. induction order as [|id rest IH]; intros s s' o Hi HP H.
  { by injection H as <- <-. }
  cbn [dispatchDueJobs] in H.
  destruct (dispatch_one envs now id s) as [s1 o1] eqn:E1.
  apply dispatch_one_spec in E1 as [(-> & _)|(-> & p & j & D)]; [| |done].
  - destruct o1; [by eapply IH|by injection H as <- <-].
  - eapply IH; [|by eapply Hstep|exact H]. apply D.
Qed.

Definition mem_due (now : Z) s (id : string) : bool :=
  match mem_job s id with Some j => due now j | None => false end.

(** The jobs that get a place in the channel: the first due ones, as many as
    there is room. *)
Definition picked (now : Z) s (order : list string) : list string :=
  take (tasks_cap (pool s) - length (tasks (pool s))) (filter (λ id, mem_due now s id = true) order).

Definition dispatched_job (now now' : Z) (j : Job) : Job := set_UpdatedAt now' (set_running now j).

Lemma filter_mem_due_ext now s s' (l : list string) :
  (∀ i, i ∈ l → mem_job s' i = mem_job s i) →
  filter (λ id, mem_due now s' id = true) l = filter (λ id, mem_due now s id = true) l.
Proof.
  induction l as [|i l IH]; intros H; [done|]. rewrite !filter_cons.
  rewrite IH by (intros k Hk; apply H; by right).
  assert (E : mem_due now s' i = mem_due now s i) by (unfold mem_due; by rewrite (H i) by left).
  by rewrite E.
Qed.

Lemma dispatchDueJobs_spec envs now order s s' o :
  sched_inv s → NoDup order → isStopped (pool s) = false → tasks_closed (pool s) = false →
  dispatchDueJobs envs now order s = (s', o) →
  o = Returns tt ∧ sched_inv s' ∧ Jobs s' = Jobs s ∧
  tasks (pool s') = tasks (pool s)
    ++ omap (λ id, task_for <$> Jobs s !! id) (picked now s order) ∧
  ∀ id, mem_job s' id =
    if decide (id ∈ picked now s order)
    then dispatched_job now (e_store_now (envs id)) <$> mem_job s id
    else mem_job s id.
Proof.
  revert s. induction order as [|id rest IH]; intros s Hi Hnd Hrun Hopen H.
  { injection H as <- <-. unfold picked. rewrite filter_nil, take_nil, app_nil_r. by split_and!. }
  cbn [dispatchDueJobs] in H. apply NoDup_cons in Hnd as [Hid Hnd].
  destruct (dispatch_one envs now id s) as [s1 o1] eqn:E1.
  assert (Ho1 : o1 = Returns tt).
  { unfold dispatch_one in E1. repeat (case_match; simplify_eq; try done).
    all: match goal with E : Submit _ _ = (_, Panics _) |- _ =>
           unfold Submit in E; rewrite Hrun, Hopen in E; case_match; done end. }
  subst o1. apply dispatch_one_spec in E1 as [(-> & Hno)|(_ & p & j & D)]; [| |done].
  - apply IH in H as (-> & Hi' & HJ & Ht & Hm); [|done..]. specialize (Hno eq_refl).
    assert (Hp : picked now s (id :: rest) = picked now s rest).
    { unfold picked. destruct (mem_due now s id) eqn:Hd.
      - unfold mem_due in Hd. destruct (mem_job s id) as [j|] eqn:Ej; [|done].
        apply mem_job_Some in Ej as (p & Hp & Hj).
        destruct (Hno p j Hp Hj Hd) as [?|Hfull]; [congruence|].
        replace (tasks_cap (pool s) - length (tasks (pool s))) with 0 by lia. done.
      - by rewrite filter_cons_False by congruence. }
    rewrite Hp. done.
  - pose proof (di_touches _ _ _ _ _ _ _ D) as T. pose proof (di_pool _ _ _ _ _ _ _ D) as Pl.
    pose proof (di_room _ _ _ _ _ _ _ D) as Room. pose proof (di_same _ _ _ _ _ _ _ D) as SJ.
    apply IH in H as (-> & Hi' & HJ & Ht & Hm); [|apply T|done|by rewrite Pl..].
    assert (Hdue : mem_due now s id = true).
    { unfold mem_due. rewrite (proj2 (mem_job_Some s id j)); [apply D|].
      exists p. split; apply D. }
    assert (Hp : picked now s (id :: rest) = id :: picked now s1 rest).
    { unfold picked. rewrite filter_cons_True by done.
      rewrite (filter_mem_due_ext now s s1 rest).
      2:{ intros i Hir. apply T. intros ->. done. }
      rewrite Pl. cbn [tasks tasks_cap with_metrics with_tasks]. rewrite length_app. cbn [length].
      destruct (tasks_cap (pool s) - length (tasks (pool s))) as [|k] eqn:Ek; [lia|].
      replace (tasks_cap (pool s) - (length (tasks (pool s)) + 1)) with k by lia. done. }
    assert (Hnp : id ∉ picked now s1 rest).
    { unfold picked. intros Hin. apply Hid. apply elem_of_take in Hin as (n & Hn & _).
      apply list_elem_of_lookup_2, list_elem_of_filter in Hn. tauto. }
    rewrite Hp. split_and!; [done|done|congruence| |].
    + rewrite Ht, Pl, SJ. cbn [tasks with_metrics with_tasks].
      rewrite <- app_assoc. f_equal. cbn [omap list_omap].
      rewrite (di_Jobs _ _ _ _ _ _ _ D). done.
    + intros i. rewrite Hm. destruct (decide (i = id)) as [->|Hne].
      * rewrite decide_False by done. rewrite decide_True by left.
        rewrite (di_mem _ _ _ _ _ _ _ D).
        rewrite (proj2 (mem_job_Some s id j)); [done|]. exists p. split; apply D.
      * rewrite (tc_mem _ _ _ T i Hne).
        destruct (decide (i ∈ picked now s1 rest)) as [Hin|Hin].
        -- rewrite decide_True by (by right). done.
        -- rewrite decide_False; [done|]. rewrite elem_of_cons. intros [?|?]; done.
Qed.

(** *** The callbacks *)
Record called_back (e : env) (id : string) (j' : Job) s s' : Prop := {
  cb_pool : pool s' = pool s;
  cb_touches : touches id s s';
  cb_Jobs : Jobs s' = Jobs s;
  cb_mem : mem_job s' id = Some (set_UpdatedAt (e_store_now e) j');
  cb_synced : e_flt e = no_faults → is_ok (Marshal_raw (Payload j')) = true → synced s' id;
  cb_wakeup : cronWakeup s' = true;
}.

Lemma callback_write e id p j j' s s1 r :
  sched_inv s → Jobs s !! id = Some p → heap s !! p = Some j → keeps_identity j j' →
  check_status (Status j') = true →
  write_job (e_store_now e) (e_flt e) p j' s = (s1, r) →
  called_back e id j' s (signalCronWakeup (remember p s1)).
Proof.
  intros Hi Hp Hj Hk Hst Ew.
  apply (write_job_spec _ _ id p j) in Ew as Hwr; [|done..].
  pose proof (written_touches _ _ _ _ _ _ _ Hwr) as Ht.
  assert (Hok : e_flt e = no_faults → is_ok (Marshal_raw (Payload j')) = true → is_ok r = true).
  { intros Ef Hm. rewrite Ef in Ew.
    destruct (write_job_ok (e_store_now e) id p j j' s) as [s3 E]; try done.
    rewrite E in Ew. by injection Ew as _ <-. }
  destruct Hwr as [H1 [st E] H3 H4 H5].
  assert (HJ : Jobs s1 = Jobs s) by (by rewrite E).
  assert (R : remember p s1 = s1).
  { apply (remember_id s1 id p (set_UpdatedAt (e_store_now e) j')); [done|by rewrite HJ|].
    rewrite E. cbn. apply lookup_insert_eq. }
  rewrite R. split; try done.
  - by rewrite E.
  - eapply touches_trans; [exact Ht|]. by apply touches_wakeup.
  - change (mem_job (signalCronWakeup s1) id) with (mem_job s1 id). by rewrite H3, decide_True.
  - intros Ef Hm. by apply H5, Hok.
Qed.

Lemma OnSuccess_spec e t id p j s :
  sched_inv s → t_scheduler t = true → t_job t = Some p →
  Jobs s !! id = Some p → heap s !! p = Some j →
  match OnSuccess loc e t s with
  | None => nextRunTime loc (Schedule j) (e_now e) = None
  | Some s' => ∃ next, nextRunTime loc (Schedule j) (e_now e) = Some next ∧
                       called_back e id (set_completed next j) s s'
  end.
Proof.
  intros Hi Hts Htj Hp Hj. unfold OnSuccess. rewrite Hts, Htj. cbn [negb].
  rewrite Hj. cbn [mbind option_bind].
  destruct (nextRunTime loc (Schedule j) (e_now e)) as [next|]; [|done]. cbn [mbind option_bind].
  change (store_update (e_store_now e) (e_flt e) p (set_completed next j)
            (put_job p (set_completed next j) s))
    with (write_job (e_store_now e) (e_flt e) p (set_completed next j) s).
  destruct (write_job _ _ p _ s) as [s1 r] eqn:Ew.
  exists next. split; [done|]. by eapply callback_write.
Qed.

(** The job a failed attempt leaves. *)
Definition failed_job (now : Z) (err : error) (j : Job) : Job :=
  let rc := wrap64 (RetryCount j + 1) in
  set_failed rc (Error err) (if (5 <=? rc)%Z then 0%Z else Add now (retry_delay rc)) j.

Lemma OnFailure_spec e err t id p j s :
  sched_inv s → t_scheduler t = true → t_job t = Some p →
  Jobs s !! id = Some p → heap s !! p = Some j →
  ∃ s', OnFailure e err t s = Some s' ∧ called_back e id (failed_job (e_now e) err j) s s'.
Proof.
  intros Hi Hts Htj Hp Hj. unfold OnFailure. rewrite Hts, Htj. cbn [negb].
  rewrite Hj. cbn [mbind option_bind]. fold (failed_job (e_now e) err j).
  change (store_update (e_store_now e) (e_flt e) p (failed_job (e_now e) err j)
            (put_job p (failed_job (e_now e) err j) s))
    with (write_job (e_store_now e) (e_flt e) p (failed_job (e_now e) err j) s).
  destruct (write_job _ _ p _ s) as [s1 r] eqn:Ew.
  eexists. split; [done|]. by eapply callback_write.
Qed.

(** *** findNextJobTime *)
Definition waiting s (id : string) (t : Z) : Prop :=
  ∃ j, mem_job s id = Some j ∧ Status j = JobStatusPending ∧ NextRun j = t.

Lemma sooner_spec s order next :
  (sooner s order next ≤ next)%Z ∧
  (∀ id t, id ∈ order → waiting s id t → sooner s order next ≤ t)%Z ∧
  (sooner s order next = next ∨ ∃ id, id ∈ order ∧ waiting s id (sooner s order next)).
Proof.
  revert next. induction order as [|id rest IH]; intros next; cbn [sooner].
  { split_and!; [lia| |by left]. intros id t H. by apply elem_of_nil in H. }
  destruct (mem_job s id) as [j|] eqn:Ej.
  - set (next' := if bool_decide (Status j = JobStatusPending) && Before (NextRun j) next
                  then NextRun j else next).
    assert (Hn : (next' ≤ next)%Z ∧ (Status j = JobStatusPending → (next' ≤ NextRun j)%Z) ∧
                 (next' = next ∨ waiting s id next')).
    { unfold next', Before. case_bool_decide; cbn [andb]; [|split_and!; [lia|done|by left]].
      destruct (Z.ltb_spec (NextRun j) next); (split; [lia|]); (split; [lia|]).
      - right. by exists j.
      - by left. }
    destruct Hn as (N1 & N2 & N3). destruct (IH next') as (A & B & C). split_and!.
    + lia.
    + intros i t [->|Hi]%elem_of_cons Hw; [|by eapply B].
      destruct Hw as (k & Hk & Hs & <-). rewrite Ej in Hk. injection Hk as <-.
      specialize (N2 Hs). lia.
    + destruct C as [->|(i & Hi & Hw)]; [|right; exists i; split; [by right|done]].
      destruct N3 as [->|N3]; [by left|]. right. exists id. split; [left|done].
  - destruct (IH next) as (A & B & C). split_and!; [done| |].
    + intros i t [->|Hi]%elem_of_cons Hw; [|by eapply B].
      destruct Hw as (k & Hk & _). congruence.
    + destruct C as [->|(i & Hi & Hw)]; [by left|]. right. exists i. split; [by right|done].
Qed.

(** *** NewScheduler *)
Record loading (st : S) (ids : list string) s : Prop := {
  ld_store : store s = st;
  ld_ptr : ∀ p, is_Some (heap s !! p) → p < next_ptr s;
  ld_jobs : ∀ id p, Jobs s !! id = Some p → ∃ j, heap s !! p = Some j ∧ ID j = id ∧
              js_abs st !! id = Some j;
  ld_dom : ∀ id, is_Some (Jobs s !! id) ↔ id ∈ ids;
}.

Lemma load_job_loading st ids s j :
  loading st ids s → js_abs st !! ID j = Some j → loading st (ID j :: ids) (load_job s j).
Proof.
  intros [L1 L2 L3 L4] Hj. unfold load_job. cbn [alloc].
  assert (Hq : ∀ p, is_Some (heap s !! p) → next_ptr s ≠ p).
  { intros p Hp <-. specialize (L2 _ Hp). lia. }
  split; cbn.
  - done.
  - intros p. rewrite lookup_insert_is_Some. intros [<-|[_ Hp]]; [lia|].
    specialize (L2 p Hp). lia.
  - intros id p. destruct (decide (id = ID j)) as [->|Hne].
    + rewrite lookup_insert_eq. intros [= <-]. exists j. by rewrite lookup_insert_eq.
    + rewrite lookup_insert_ne by done. intros Hp. destruct (L3 id p Hp) as (k & Hk & ?).
      exists k. rewrite lookup_insert_ne; [done|]. apply Hq. by exists k.
  - intros id. rewrite lookup_insert_is_Some, elem_of_cons, L4.
    destruct (decide (id = ID j)); intuition congruence.
Qed.

Lemma load_all_loading st js ids s :
  loading st ids s → Forall (λ j, js_abs st !! ID j = Some j) js →
  loading st (rev (ID <$> js) ++ ids) (foldl load_job s js) ∧
  pool (foldl load_job s js) = pool s ∧ registry (foldl load_job s js) = registry s.
Proof.
  intros Hl Hjs. revert ids s Hl. induction Hjs as [|j js Hj Hjs IH]; intros ids s Hl; [done|].
  cbn [foldl fmap list_fmap rev]. rewrite <- app_assoc.
  destruct (IH (ID j :: ids) (load_job s j)) as (H1 & H2 & H3); [by apply load_job_loading|].
  done.
Qed.

Lemma NewScheduler_inv flt1 flt2 db pl s :
  (∀ st, db = Some st → js_wf st) → length (tasks pl) ≤ tasks_cap pl →
  NewScheduler (W:=W) flt1 flt2 db pl = Ok s →
  sched_inv s ∧ pool s = pl ∧ registry s = NewJobHandlerRegistry ∧
  js_abs (store s) = match db with Some st => js_abs st | None => ∅ end ∧
  ∀ id, mem_job s id = js_abs (store s) !! id ∧ synced s id.
Proof.
  intros Hdb Hcap H. unfold NewScheduler in H. apply bind_Ok in H as (st & Hst & H).
  destruct (js_init_law _ _ _ Hdb Hst) as (Hwf & Habs).
  unfold loadJobsFromDB in H. cbn [store] in H.
  destruct (js_ListJobs flt2 empty_filter st) as [js|e] eqn:El; [|done].
  injection H as <-. apply js_list_fault in El.
  destruct (js_list_law empty_filter st Hwf) as (js' & El' & Hnd & _ & Hin).
  rewrite El in El'. injection El' as <-.
  set (s0 := mkScheduler st ∅ 0 ∅ false pl NewJobHandlerRegistry false : Scheduler S W).
  assert (L0 : loading st [] s0).
  { split; cbn; try done.
    - intros p. rewrite lookup_empty. by intros [? [=]].
    - intros id. rewrite lookup_empty. split; [by intros [? [=]]|]. by intros ?%elem_of_nil. }
  assert (Hall : Forall (λ j, js_abs st !! ID j = Some j) js).
  { apply Forall_forall. intros j Hj. by apply Hin. }
  destruct (load_all_loading st js [] s0 L0 Hall) as ([L1 L2 L3 L4] & Lp & Lr).
  set (s := foldl load_job s0 js) in *.
  assert (Hdom : ∀ id, is_Some (Jobs s !! id) ↔ is_Some (js_abs st !! id)).
  { intros id. rewrite L4, app_nil_r. rewrite list_elem_of_In, <- in_rev, <- list_elem_of_In.
    rewrite list_elem_of_fmap. split.
    - intros (j & -> & Hj). exists j. by apply Hin.
    - intros [a Ha]. exists a. destruct (js_stored st id a Hwf Ha) as (E & _).
      split; [done|]. apply Hin. rewrite E. split; [done|]. by repeat split; left. }
  assert (Hmem : ∀ id, mem_job s id = js_abs st !! id).
  { intros id. destruct (Jobs s !! id) as [p|] eqn:Hp.
    - destruct (L3 id p Hp) as (j & Hj & _ & Ha). rewrite Ha. apply mem_job_Some. by exists p.
    - unfold mem_job. rewrite Hp. cbn. destruct (js_abs st !! id) as [a|] eqn:Ha; [|done].
      destruct (proj2 (Hdom id) ltac:(by exists a)). congruence. }
  split; [|split; [done|split; [done|split; [by rewrite L1|]]]].
  - split; rewrite ?L1, ?Lp; try done.
    + intros id p Hp. destruct (L3 id p Hp) as (j & Hj & E & _). by exists j.
    + intros id j a Hj Ha. rewrite Hmem in Hj. assert (a = j) as -> by congruence. done.
  - intros id. rewrite L1. split; [done|]. intros j Hj. rewrite L1. rewrite Hmem in Hj.
    destruct (js_stored st id j Hwf Hj) as (_ & _ & p & Hp & Hm).
    exists p. rewrite Hp. split; [done|]. rewrite Hj. f_equal. clear -Hp. destruct j; cbn in *. by subst.
Qed.
End inv.
