(* ===== verification/SchedulerSystem.v ===== *)
(** * The scheduler and its workers as a system of events

    The scheduler of file Scheduler with the tasks its workers are running:
    a worker takes the oldest task of the channel and runs its handler; its
    callback comes later, with any other events in between.  Each event is
    one critical section of [JobMu], or one handler.  The theorems hold for
    every sequence of events from [NewScheduler] on. *)
From Stdlib Require Import ZArith Lia.
From stdpp Require Import base gmap list strings.
From S2P Require Import Prelude GoTime Cron GoJson Job Worker JobHandler Scheduler SchedulerInv.

Section system.
Context {S W : Type} `{!JobStore S} (loc : Location).

(** The tasks taken by workers whose callbacks have not run yet, each with
    the error its [Execute] returned. *)
Record sys := mkSys {
  sched : Scheduler S W;
  world : W;
  in_progress : list (JobTask * option error);
}.
Implicit Types (y : sys) (s : Scheduler S W).

Inductive event :=
| EvSchedule (e : env) (order : list string) (u t sch : string) (payload : payload_arg)
| EvTurn (envs : string → env) (now : Z) (order1 order2 : list string) (w : wake)
| EvExecute
| EvCallback (i : nat) (e : env) (duration : Z)
| EvForceCheck
| EvRegister (jobType : string) (handler : option (JobHandler W)).

(** [Execute] of the oldest task, lines 79-85 of [worker]. *)
(** @src internal/worker/pool.go 72-85 worker *)
Definition run_execute y : option sys :=
  match tasks (pool (sched y)) with
  | [] => None
  | t :: rest =>
      let s := sched y in
      let pl := with_metrics (begin_task (metrics (pool s))) (with_tasks rest (pool s)) in
      let '(w, h, err) := Execute (registry s) t (world y) (heap s) in
      Some (mkSys (set_heap h (set_pool pl s)) w (in_progress y ++ [(t, err)]))
  end.

(** The end of a task, lines 88-99 of [worker]. *)
(** @src internal/worker/pool.go 88-99 worker *)
Definition run_callback (i : nat) (e : env) (duration : Z) y : option sys :=
  '(t, err) ← in_progress y !! i;
  let s := sched y in
  let failed := match err with Some _ => true | None => false end in
  let s := set_pool (with_metrics (end_task failed duration (e_now e) (metrics (pool s))) (pool s)) s in
  s' ← match err with
       | Some er => OnFailure e er t s
       | None => OnSuccess loc e t s
       end;
  Some (mkSys s' (world y) (delete i (in_progress y))).

(** [None]: the event cannot happen, never returns, or ends the process. *)
Definition run_event (ev : event) y : option sys :=
  match ev with
  | EvSchedule e order u t sch payload =>
      '(s', _) ← ScheduleJob loc e order u t sch payload (sched y);
      Some (mkSys s' (world y) (in_progress y))
  | EvTurn envs now order1 order2 w =>
      match schedulingTurn envs now order1 order2 w (sched y) with
      | Some (s', Returns _) => Some (mkSys s' (world y) (in_progress y))
      | _ => None
      end
  | EvExecute => run_execute y
  | EvCallback i e duration => run_callback i e duration y
  | EvForceCheck => Some (mkSys (ForceCheck (sched y)) (world y) (in_progress y))
  | EvRegister jt h => Some (mkSys (RegisterHandler jt h (sched y)) (world y) (in_progress y))
  end.

Fixpoint run_events (evs : list event) y : option sys :=
  match evs with
  | [] => Some y
  | ev :: rest => y' ← run_event ev y; run_events rest y'
  end.

(** Handlers change only what they may (see [handler_ok]). *)
Definition event_ok (ev : event) : Prop :=
  match ev with
  | EvRegister _ (Some h) => handler_ok h
  | _ => True
  end.

(** A task of the scheduler: its job is in memory. *)
Definition live_task (s : Scheduler S W) (t : JobTask) : Prop :=
  ∃ id p, t = task_for p ∧ Jobs s !! id = Some p.

Record sys_inv y : Prop := {
  sy_sched : sched_inv (sched y);
  sy_registry : registry_ok (registry (sched y));
  sy_tasks : ∀ t, t ∈ tasks (pool (sched y)) → live_task (sched y) t;
  sy_progress : ∀ t, t ∈ (in_progress y).*1 → live_task (sched y) t;
}.

Lemma live_mono s s' t : Jobs s ⊆ Jobs s' → live_task s t → live_task s' t.
Proof.
  intros Hs (id & p & Ht & Hp). exists id, p. split; [done|]. by eapply lookup_weaken.
Qed.

(** The events that change one job or none. *)
Lemma sys_inv_touch y id s' :
  sys_inv y → touches id (sched y) s' → tasks (pool s') = tasks (pool (sched y)) →
  sys_inv (mkSys s' (world y) (in_progress y)).
Proof.
  intros [Y1 Y2 Y3 Y4] [T1 T2 T3 T4 T5] E. split; cbn; [done|by rewrite T5| |].
  - rewrite E. intros t Ht. eapply live_mono; [exact T4|by apply Y3].
  - intros t Ht. eapply live_mono; [exact T4|by apply Y4].
Qed.

Lemma dispatch_sys_inv envs now order y s' o :
  sys_inv y → dispatchDueJobs envs now order (sched y) = (s', o) →
  sys_inv (mkSys s' (world y) (in_progress y)) ∧ Jobs s' = Jobs (sched y).
Proof.
  intros Hy H.
  apply (dispatch_ind (λ s, sys_inv (mkSys s (world y) (in_progress y)) ∧ Jobs s = Jobs (sched y)))
    in H; [tauto| |apply Hy|].
  - intros s id p j s1 Hi [Hs HJ] D. split; [|rewrite <- HJ; apply D].
    destruct Hs as [Y1 Y2 Y3 Y4]. destruct (di_touches _ _ _ _ _ _ _ D) as [T1 T2 T3 T4 T5].
    split; cbn in *; [done|by rewrite T5| |].
    + rewrite (di_pool _ _ _ _ _ _ _ D). cbn. intros t [Ht|Ht]%elem_of_app.
      * eapply live_mono; [exact T4|by apply Y3].
      * apply list_elem_of_singleton in Ht as ->. exists id, p. split; [done|].
        eapply lookup_weaken; [apply D|exact T4].
    + intros t Ht. eapply live_mono; [exact T4|by apply Y4].
  - split; [|done]. destruct y. exact Hy.
Qed.

(** What [Execute] does to the heap keeps the invariant. *)
Lemma execute_inv s t w w' h err :
  sched_inv s → registry_ok (registry s) → live_task s t →
  Execute (registry s) t w (heap s) = (w', h, err) →
  sched_inv (set_heap h s) ∧
  ∃ id, t_job t = Jobs s !! id ∧ (∀ i, i ≠ id → mem_job (set_heap h s) i = mem_job s i) ∧
  match mem_job s id with
  | Some j => ∃ j', mem_job (set_heap h s) id = Some j' ∧ same_identity j j'
  | None => False
  end.
Proof.
  intros Hi Hr (id & p & -> & Hp) H. destruct (inv_mem s id p Hi Hp) as (j & a & Hj & Hm & _).
  assert (Hs0 : set_heap (heap s) s = s) by (by destruct s).
  apply Execute_spec in H as [->|(q & k & j' & [= <-] & Hk & Hid & ->)]; [| |done].
  - rewrite Hs0. split; [done|]. exists id. rewrite Hm. cbn. split_and!; [done|done|].
    exists j. by repeat split.
  - rewrite Hj in Hk. injection Hk as <-.
    change (set_heap (<[p:=j']> (heap s)) s) with (put_job p j' s). split.
    + apply (put_job_inv s id p j); [done..|]. destruct Hid as (I1 & I2 & I3 & _). done.
    + exists id.
      assert (Hput : ∀ i, mem_job (put_job p j' s) i = if decide (i = id) then Some j' else mem_job s i).
      { intros i. apply mem_job_put; [done| |by exists j]. intros i' Hi'. by eapply inv_ptr_inj. }
      cbn [t_job task_for]. split_and!; [done| |].
      * intros i Hne. by rewrite Hput, decide_False.
      * rewrite Hm. exists j'. by rewrite Hput, decide_True.
Qed.

(** Changing only the pool. *)
Lemma set_pool_inv s pl :
  sched_inv s → length (tasks pl) ≤ tasks_cap pl → sched_inv (set_pool pl s).
Proof. intros Hi Hl. by apply (inv_same s). Qed.

Lemma run_execute_inv y y' :
  sys_inv y → run_execute y = Some y' →
  sys_inv y' ∧ ∃ t rest err, tasks (pool (sched y)) = t :: rest ∧
    tasks (pool (sched y')) = rest ∧ in_progress y' = in_progress y ++ [(t, err)] ∧
    Jobs (sched y') = Jobs (sched y) ∧ store (sched y') = store (sched y) ∧
    ∃ id, t_job t = Jobs (sched y) !! id ∧
      (∀ i, i ≠ id → mem_job (sched y') i = mem_job (sched y) i) ∧
      match mem_job (sched y) id with
      | Some j => ∃ j', mem_job (sched y') id = Some j' ∧ same_identity j j'
      | None => False
      end.
Proof.
  intros Hy. unfold run_execute. destruct (tasks (pool (sched y))) as [|t rest] eqn:Et; [done|].
  set (pl := with_metrics _ _). set (s1 := set_pool pl (sched y)).
  change (heap (sched y)) with (heap s1). change (registry (sched y)) with (registry s1).
  destruct (Execute (registry s1) t (world y) (heap s1)) as [[w h] err] eqn:E.
  intros [= <-]. destruct Hy as [Y1 Y2 Y3 Y4]. rewrite Et in Y3.
  assert (Hi1 : sched_inv s1).
  { apply set_pool_inv; [done|]. cbn. pose proof (si_cap _ Y1) as Hc. rewrite Et in Hc. cbn in Hc. lia. }
  assert (Hlive : live_task s1 t) by (apply Y3; left).
  destruct (execute_inv s1 t (world y) w h err Hi1 Y2 Hlive E) as (Hi2 & id & Hid & Hoth & Hm).
  split; [split; cbn|].
  - exact Hi2.
  - exact Y2.
  - intros t' Ht'. apply Y3. by right.
  - rewrite fmap_app. intros t' [Ht'|Ht']%elem_of_app; [by apply Y4|].
    apply list_elem_of_singleton in Ht' as ->. exact Hlive.
  - exists t, rest, err. split_and!; try done. exists id. split; [exact Hid|]. split; [exact Hoth|exact Hm].
Qed.

(** A callback changes one job, the one of its task. *)
Lemma run_callback_inv i e duration y y' :
  sys_inv y → run_callback i e duration y = Some y' →
  sys_inv y' ∧ ∃ t err id j s1, in_progress y !! i = Some (t, err) ∧
    in_progress y' = delete i (in_progress y) ∧
    t_job t = Jobs (sched y) !! id ∧ mem_job (sched y) id = Some j ∧
    sched_inv s1 ∧ store s1 = store (sched y) ∧ Jobs s1 = Jobs (sched y) ∧
    (∀ k, mem_job s1 k = mem_job (sched y) k) ∧
    tasks (pool s1) = tasks (pool (sched y)) ∧
    called_back e id
      (match err with
       | Some er => failed_job (e_now e) er j
       | None => set_completed (default 0%Z (nextRunTime loc (Schedule j) (e_now e))) j
       end) s1 (sched y').
Proof.
  intros Hy. unfold run_callback. destruct (in_progress y !! i) as [[t err]|] eqn:Ei; [|done].
  cbn [mbind option_bind]. set (pl := with_metrics _ _). set (s1 := set_pool pl (sched y)).
  assert (Hi1 : sched_inv s1).
  { apply set_pool_inv; [apply Hy|]. apply (si_cap _ (sy_sched _ Hy)). }
  destruct (sy_progress y Hy t) as (id & p & -> & Hp).
  { apply list_elem_of_fmap. exists (t, err). split; [done|]. by eapply list_elem_of_lookup_2. }
  destruct (inv_mem s1 id p Hi1 Hp) as (j & a & Hj & Hm & _).
  assert (G : ∀ s' j', called_back e id j' s1 s' →
    sys_inv (mkSys s' (world y) (delete i (in_progress y)))).
  { intros s' j' C. destruct (cb_touches _ _ _ _ _ C) as [T1 T2 T3 T4 T5].
    destruct Hy as [Y1 Y2 Y3 Y4]. split; cbn; [done|by rewrite T5| |].
    - rewrite (cb_pool _ _ _ _ _ C). intros t Ht. eapply live_mono; [exact T4|by apply Y3].
    - intros t Ht. eapply live_mono; [exact T4|]. apply Y4.
      apply list_elem_of_fmap in Ht as (x & -> & Hx). apply list_elem_of_fmap. exists x.
      split; [done|]. apply list_elem_of_lookup in Hx as [k Hk].
      rewrite list_lookup_delete in Hk. destruct (decide _) in Hk; by eapply list_elem_of_lookup_2. }
  assert (F : ∀ s' j', called_back e id j' s1 s' →
    j' = match err with
         | Some er => failed_job (e_now e) er j
         | None => set_completed (default 0%Z (nextRunTime loc (Schedule j) (e_now e))) j
         end →
    y' = mkSys s' (world y) (delete i (in_progress y)) →
    sys_inv y' ∧ ∃ t' err' id' j0 s2, Some (task_for p, err) = Some (t', err') ∧
      in_progress y' = delete i (in_progress y) ∧
      t_job t' = Jobs (sched y) !! id' ∧ mem_job (sched y) id' = Some j0 ∧
      sched_inv s2 ∧ store s2 = store (sched y) ∧ Jobs s2 = Jobs (sched y) ∧
      (∀ k, mem_job s2 k = mem_job (sched y) k) ∧ tasks (pool s2) = tasks (pool (sched y)) ∧
      called_back e id'
       (match err' with
        | Some er => failed_job (e_now e) er j0
        | None => set_completed (default 0%Z (nextRunTime loc (Schedule j0) (e_now e))) j0
        end) s2 (sched y')).
  { intros s' j' C -> ->. split; [by eapply G|].
    exists (task_for p), err, id, j, s1. split_and!; try done. }
  destruct err as [er|].
  - destruct (OnFailure_spec e er (task_for p) id p j s1 Hi1 eq_refl eq_refl Hp Hj)
      as (s' & Hs' & C).
    rewrite Hs'. cbn [mbind option_bind]. intros [= <-]. by eapply F.
  - pose proof (OnSuccess_spec loc e (task_for p) id p j s1 Hi1 eq_refl eq_refl Hp Hj) as C.
    destruct (OnSuccess loc e (task_for p) s1) as [s'|]; [|done]. cbn [mbind option_bind].
    destruct C as (next & Hnext & C). intros [= <-]. eapply F; [exact C| |done]. by rewrite Hnext.
Qed.

Lemma run_event_inv ev y y' : event_ok ev → sys_inv y → run_event ev y = Some y' → sys_inv y'.
Proof.
  intros Hok Hy. destruct ev as [e order u t sch payload|envs now order1 order2 w| |i e d| |jt h];
    cbn [run_event].
  - destruct (ScheduleJob _ _ _ _ _ _ _ _) as [[s' r]|] eqn:E; [|done]. cbn. intros [= <-].
    apply ScheduleJob_spec in E as (Ep & id & Ht & _); [|apply Hy].
    eapply sys_inv_touch; [done|exact Ht|by rewrite Ep].
  - unfold schedulingTurn. destruct w; [| |done].
    + destruct (dispatchDueJobs _ _ _ _) as [s' []] eqn:E; [|done]. intros [= <-].
      by apply dispatch_sys_inv in E as [? _].
    + intros [= <-]. eapply (sys_inv_touch y ""); [done| |done].
      by apply touches_wakeup, sy_sched.
  - intros H. by apply run_execute_inv in H as [? _].
  - intros H. by apply run_callback_inv in H as [? _].
  - intros [= <-]. eapply (sys_inv_touch y ""); [done| |done]. by apply touches_wakeup, sy_sched.
  - intros [= <-]. destruct Hy as [Y1 Y2 Y3 Y4]. split; cbn; try done.
    + by apply (inv_same (sched y)); try apply Y1.
    + destruct h as [h|]; [|by rewrite RegisterHandler_refused by auto].
      by apply registry_ok_register.
Qed.

Lemma run_events_inv evs y y' :
  Forall event_ok evs → sys_inv y → run_events evs y = Some y' → sys_inv y'.
Proof.
  intros Hok. revert y. induction Hok as [|ev evs Hev Hok IH]; intros y Hy; cbn.
  { by intros [= <-]. }
  destruct (run_event ev y) as [y1|] eqn:E; [|done]. cbn.
  apply IH. by eapply run_event_inv.
Qed.

(** ** Write-through *)

(** The event meets no engine failure and brings no malformed payload. *)
Definition event_clean (ev : event) : Prop :=
  match ev with
  | EvSchedule e _ _ _ _ payload =>
      e_flt e = no_faults ∧ ∀ pj, payload_json payload = Ok pj → is_ok (Marshal_raw pj) = true
  | EvTurn envs _ _ _ _ => ∀ id, e_flt (envs id) = no_faults
  | EvCallback _ e _ => e_flt e = no_faults
  | _ => True
  end.

(** A job is stored as it is in memory, unless a handler has just run on it
    and its callback is still to come. *)
Definition busy (s : Scheduler S W) (l : list (JobTask * option error)) (id : string) : Prop :=
  ∃ t, t ∈ l.*1 ∧ t_job t = Jobs s !! id.

Record cached (s : Scheduler S W) (l : list (JobTask * option error)) : Prop := {
  ca_payload : ∀ id j, mem_job s id = Some j → is_ok (Marshal_raw (Payload j)) = true;
  ca_synced : ∀ id, synced s id ∨ busy s l id;
}.

Lemma cached_touch s s' l id :
  cached s l → touches id s s' → Jobs s' = Jobs s →
  (∀ j, mem_job s' id = Some j → is_ok (Marshal_raw (Payload j)) = true) → synced s' id →
  cached s' l.
Proof.
  intros [C1 C2] [T1 T2 T3 T4 T5] HJ Hp Hs. split.
  - intros i j. destruct (decide (i = id)) as [->|Hne]; [apply Hp|].
    rewrite T2 by done. apply C1.
  - intros i. destruct (decide (i = id)) as [->|Hne]; [by left|].
    unfold synced, busy. rewrite T2, T3, HJ by done. apply C2.
Qed.

(** [ScheduleJob] may add an ID. *)
Lemma cached_touch_new s s' l id :
  cached s l → sched_inv s → touches id s s' →
  (∀ j, mem_job s' id = Some j → is_ok (Marshal_raw (Payload j)) = true) → synced s' id →
  cached s' l.
Proof.
  intros [C1 C2] Hi [T1 T2 T3 T4 T5] Hp Hs. split.
  - intros i j. destruct (decide (i = id)) as [->|Hne]; [apply Hp|].
    rewrite T2 by done. apply C1.
  - intros i. destruct (decide (i = id)) as [->|Hne]; [by left|].
    destruct (C2 i) as [H|(t & Ht & E)].
    + left. unfold synced. by rewrite T2, T3.
    + destruct (Jobs s !! i) as [p|] eqn:Hp'.
      * right. exists t. split; [done|]. rewrite E. symmetry. by eapply lookup_weaken.
      * left. intros j Hj. rewrite T2 in Hj by done.
        apply mem_job_Some in Hj as (q & Hq & _). congruence.
Qed.

Lemma cached_same s s' l :
  cached s l → store s' = store s → heap s' = heap s → Jobs s' = Jobs s → cached s' l.
Proof.
  intros [C1 C2] E1 E2 E3.
  split; unfold synced, busy, mem_job in *; rewrite ?E1, ?E2, ?E3; done.
Qed.

Lemma run_event_cached ev y y' :
  event_ok ev → event_clean ev → sys_inv y → cached (sched y) (in_progress y) →
  run_event ev y = Some y' → cached (sched y') (in_progress y').
Proof.
  intros Hok Hcl Hy Hc. destruct ev as [e order u t sch payload|envs now o1 o2 w| |i e d| |jt h];
    cbn [run_event event_clean] in *.
  - destruct (ScheduleJob _ _ _ _ _ _ _ _) as [[s' r]|] eqn:E; [|done]. cbn. intros [= <-]. cbn.
    apply ScheduleJob_spec in E as (_ & id & Ht & _ & Hr); [|apply Hy].
    destruct r as [p|err].
    + destruct Hr as (pj & Hpj & [_ (j & next & Hm & _ & Ep & _) D3 _]).
      apply (cached_touch_new (sched y) s' _ id); [done|apply Hy|done| |done].
      intros k Hk. rewrite Hm in Hk. injection Hk as <-. rewrite Ep. by apply Hcl.
    + destruct Hr as [->|[?|(pj & Hpj & Hbad)]]; [done|tauto|].
      apply Hcl in Hpj. congruence.
  - unfold schedulingTurn. destruct w; [| |done].
    + destruct (dispatchDueJobs _ _ _ _) as [s' []] eqn:E; [|done]. intros [= <-]. cbn.
      apply (dispatch_ind (λ s, cached s (in_progress y))) in E; [tauto| |apply Hy|done].
      intros s id p j s1 Hi Hs D. pose proof (di_mem _ _ _ _ _ _ _ D) as Hm.
      assert (Hpj : is_ok (Marshal_raw (Payload j)) = true).
      { apply (ca_payload _ _ Hs id). apply mem_job_Some. exists p. split; apply D. }
      apply (cached_touch s s1 _ id); [done|apply D|apply D| |by apply (di_synced _ _ _ _ _ _ _ D)].
      intros k. rewrite Hm. by intros [= <-].
    + intros [= <-]. by apply (cached_same (sched y)).
  - intros H. destruct (run_execute_inv y y' Hy H)
      as (_ & t & rest & err & _ & _ & -> & HJ & HS & id & Hid & Hoth & Hm).
    destruct Hc as [C1 C2].
    assert (Hother : ∀ i, i ≠ id → synced (sched y') i ↔ synced (sched y) i).
    { intros i Hne. unfold synced. by rewrite Hoth, HS. }
    split.
    + intros i j. destruct (decide (i = id)) as [->|Hne]; [|rewrite Hoth by done; apply C1].
      destruct (mem_job (sched y) id) as [k|] eqn:Ek; [|done].
      destruct Hm as (k' & -> & (_ & _ & _ & Ep)). intros [= <-]. rewrite Ep. by apply (C1 id).
    + intros i. destruct (decide (i = id)) as [->|Hne].
      * right. exists t. rewrite HJ, fmap_app. split; [|done].
        apply elem_of_app. right. left.
      * destruct (C2 i) as [?|(t' & Ht' & E)]; [left; by apply Hother|].
        right. exists t'. rewrite HJ, fmap_app. split; [|done]. apply elem_of_app. by left.
  - intros H. destruct (run_callback_inv i e d y y' Hy H)
      as (_ & t & err & id & j & s1 & Hi & -> & Htj & Hmj & Hs1 & HS & HJ & Hm & _ & C).
    destruct Hc as [C1 C2].
    assert (Hpj : is_ok (Marshal_raw (Payload j)) = true) by (by apply (C1 id)).
    pose proof (cb_synced _ _ _ _ _ C Hcl) as Hsy. pose proof (cb_mem _ _ _ _ _ C) as Hmem.
    pose proof (cb_touches _ _ _ _ _ C) as T. pose proof (cb_Jobs _ _ _ _ _ C) as HJ'.
    split.
    + intros k jk. destruct (decide (k = id)) as [->|Hne].
      * rewrite Hmem. intros [= <-]. by destruct err.
      * rewrite (tc_mem _ _ _ T k Hne), Hm. apply C1.
    + intros k. destruct (decide (k = id)) as [->|Hne]; [left; apply Hsy; by destruct err|].
      destruct (C2 k) as [Hk|(t' & Ht' & E)].
      * left. unfold synced. rewrite (tc_mem _ _ _ T k Hne), (tc_abs _ _ _ T k Hne), Hm, HS.
        exact Hk.
      * destruct (Jobs (sched y) !! k) as [q|] eqn:Hq.
        2:{ left. intros jk Hjk. rewrite (tc_mem _ _ _ T k Hne), Hm in Hjk.
            apply mem_job_Some in Hjk as (q & Hq' & _). congruence. }
        right. exists t'. rewrite HJ', HJ, Hq. split; [|done].
        apply list_elem_of_fmap in Ht' as (x & -> & Hx). apply list_elem_of_fmap. exists x.
        split; [done|]. apply list_elem_of_lookup in Hx as [n Hn].
        assert (n ≠ i).
        { intros ->. rewrite Hi in Hn. injection Hn as <-. cbn in E.
          rewrite Htj in E. apply Hne. eapply inv_ptr_inj; [apply Hy|exact Hq|done]. }
        apply list_elem_of_lookup. destruct (decide (n < i)).
        -- exists n. by rewrite list_lookup_delete_lt.
        -- exists (n - 1). rewrite list_lookup_delete_ge by lia.
           by replace (Datatypes.S (n - 1)) with n by lia.
  - intros [= <-]. by apply (cached_same (sched y)).
  - intros [= <-]. by apply (cached_same (sched y)).
Qed.

Lemma run_events_cached evs y y' :
  Forall event_ok evs → Forall event_clean evs → sys_inv y → cached (sched y) (in_progress y) →
  run_events evs y = Some y' → cached (sched y') (in_progress y').
Proof.
  intros Hok Hcl. revert y. induction evs as [|ev evs IH]; intros y Hy Hc; cbn.
  { by intros [= <-]. }
  apply Forall_cons in Hok as [Ho1 Ho2]. apply Forall_cons in Hcl as [Hc1 Hc2].
  destruct (run_event ev y) as [y1|] eqn:E; [|done]. cbn.
  apply IH; [done|done|by eapply run_event_inv|by eapply run_event_cached].
Qed.

(** ** Jobs that nothing wakes *)

(** In memory, not pending, and no task of it anywhere. *)
Record dormant y (id : string) (j : Job) : Prop := {
  do_mem : mem_job (sched y) id = Some j;
  do_status : Status j ≠ JobStatusPending;
  do_tasks : ∀ t, t ∈ tasks (pool (sched y)) ∨ t ∈ (in_progress y).*1 →
               t_job t ≠ Jobs (sched y) !! id;
}.

(** The event is not a call of [ScheduleJob] for this job's triple. *)
Definition not_rescheduled (j : Job) (ev : event) : Prop :=
  match ev with EvSchedule _ _ u t sch _ => job_key j ≠ (u, t, sch) | _ => True end.

Lemma dormant_frame y s' id j :
  dormant y id j → mem_job s' id = mem_job (sched y) id →
  Jobs (sched y) ⊆ Jobs s' → tasks (pool s') = tasks (pool (sched y)) →
  dormant (mkSys s' (world y) (in_progress y)) id j.
Proof.
  intros [D1 D2 D3] Hm HJ Ht. split; cbn; [congruence|done|].
  rewrite Ht. intros t H. apply mem_job_Some in D1 as (p & Hp & _).
  rewrite (lookup_weaken _ _ _ _ Hp HJ), <- Hp. by apply D3.
Qed.

Lemma dormant_dispatch envs now order y s' o id j :
  sys_inv y → dormant y id j → dispatchDueJobs envs now order (sched y) = (s', o) →
  dormant (mkSys s' (world y) (in_progress y)) id j.
Proof.
  intros Hy Hd H.
  apply (dispatch_ind (λ s, dormant (mkSys s (world y) (in_progress y)) id j)) in H;
    [tauto| |apply Hy|by destruct y].
  intros s i p k s1 Hi [D1 D2 D3] D. cbn in *. pose proof (di_touches _ _ _ _ _ _ _ D) as T.
  assert (Hne : id ≠ i).
  { intros ->. apply mem_job_Some in D1 as (q & Hq & Hj).
    pose proof (di_Jobs _ _ _ _ _ _ _ D). pose proof (di_job _ _ _ _ _ _ _ D) as Hk.
    assert (k = j) as -> by congruence.
    pose proof (di_due _ _ _ _ _ _ _ D) as Hdue. unfold due in Hdue.
    rewrite bool_decide_false in Hdue by done. done. }
  split; cbn.
  - by rewrite (tc_mem _ _ _ T id Hne).
  - done.
  - rewrite (di_same _ _ _ _ _ _ _ D), (di_pool _ _ _ _ _ _ _ D). cbn.
    intros t [Ht|Ht]; [|apply D3; by right]. apply elem_of_app in Ht as [Ht|Ht]; [apply D3; by left|].
    apply list_elem_of_singleton in Ht as ->. cbn. intros E. apply Hne.
    eapply inv_ptr_inj; [exact Hi|by rewrite <- E|apply D].
Qed.

Lemma dormant_event ev y y' id j :
  sys_inv y → dormant y id j → not_rescheduled j ev → run_event ev y = Some y' →
  dormant y' id j.
Proof.
  intros Hy Hd Hnr. destruct ev as [e order u t sch payload|envs now o1 o2 w| |i e d| |jt h];
    cbn [run_event not_rescheduled] in *.
  - destruct (ScheduleJob _ _ _ _ _ _ _ _) as [[s' r]|] eqn:E; [|done]. cbn. intros [= <-].
    apply ScheduleJob_spec in E as (Hp & i & Ht & Hkey & _); [|apply Hy].
    apply dormant_frame; [done| |apply Ht|by rewrite Hp].
    apply Ht. intros <-. pose proof (do_mem _ _ _ Hd) as Hm.
    destruct Hkey as [?|(k & Hk & ?)]; congruence.
  - unfold schedulingTurn. destruct w; [| |done].
    + destruct (dispatchDueJobs _ _ _ _) as [s' []] eqn:E; [|done]. intros [= <-].
      by eapply dormant_dispatch.
    + intros [= <-]. by apply dormant_frame.
  - intros H. destruct (run_execute_inv y y' Hy H)
      as (_ & t & rest & err & Et & Et' & Ep & HJ & _ & k & Hk & Hoth & _).
    destruct Hd as [D1 D2 D3]. rewrite Et in D3. assert (Hne : id ≠ k).
    { intros ->. by apply (D3 t); [left; left|]. }
    split; [by rewrite Hoth|done|]. rewrite Et', Ep, HJ, fmap_app.
    intros t' [Ht'|Ht']; [apply D3; left; by right|].
    apply elem_of_app in Ht' as [Ht'|Ht']; [apply D3; by right|].
    apply list_elem_of_singleton in Ht' as ->. apply D3. left. left.
  - intros H. destruct (run_callback_inv i e d y y' Hy H)
      as (_ & t & err & k & jk & s1 & Hi & Ep & Htj & _ & _ & _ & HJ & Hm & Ht & C).
    destruct Hd as [D1 D2 D3]. assert (Hne : id ≠ k).
    { intros ->. apply (D3 t); [right|done]. apply list_elem_of_fmap. exists (t, err).
      split; [done|]. by eapply list_elem_of_lookup_2. }
    pose proof (cb_touches _ _ _ _ _ C) as T.
    split; [by rewrite (tc_mem _ _ _ T id Hne), Hm|done|].
    rewrite (cb_Jobs _ _ _ _ _ C), HJ, (cb_pool _ _ _ _ _ C), Ht, Ep.
    intros t' [Ht'|Ht']; [apply D3; by left|]. apply D3. right.
    apply list_elem_of_fmap in Ht' as (x & -> & Hx). apply list_elem_of_fmap. exists x.
    split; [done|]. apply list_elem_of_lookup in Hx as [n Hn].
    rewrite list_lookup_delete in Hn. destruct (decide _) in Hn; by eapply list_elem_of_lookup_2.
  - intros [= <-]. by apply dormant_frame.
  - intros [= <-]. by apply dormant_frame.
Qed.

Lemma dormant_events evs y y' id j :
  Forall event_ok evs → sys_inv y → dormant y id j → Forall (not_rescheduled j) evs →
  run_events evs y = Some y' → dormant y' id j.
Proof.
  intros Hok. revert y. induction evs as [|ev evs IH]; intros y Hy Hd Hn; cbn.
  { by intros [= <-]. }
  apply Forall_cons in Hok as [Ho1 Ho2]. apply Forall_cons in Hn as [Hn1 Hn2].
  destruct (run_event ev y) as [y1|] eqn:E; [|done]. cbn.
  apply IH; [done|by eapply run_event_inv|by eapply dormant_event|done].
Qed.

(** ** From the start *)

(** A scheduler opened on a database, with a new pool of [n] workers. *)
Definition boot (flt1 flt2 : db_faults) (db : option S) (n : Z) (w : W) : result sys :=
  match NewScheduler flt1 flt2 db (NewWorkerPool n) with
  | Ok s => Ok (mkSys s w [])
  | Err e => Err e
  end.

Lemma boot_inv flt1 flt2 db n w y :
  (∀ st, db = Some st → js_wf st) → boot flt1 flt2 db n w = Ok y →
  sys_inv y ∧ cached (sched y) (in_progress y) ∧ pool (sched y) = NewWorkerPool n ∧
  in_progress y = [] ∧
  js_abs (store (sched y)) = match db with Some st => js_abs st | None => ∅ end ∧
  ∀ id, mem_job (sched y) id = js_abs (store (sched y)) !! id.
Proof.
  intros Hdb H. unfold boot in H.
  destruct (NewScheduler flt1 flt2 db (NewWorkerPool n)) as [s|e] eqn:E; [|done].
  injection H as <-. apply NewScheduler_inv in E as (Hi & Hp & Hr & Habs & Hm); [|done|cbn; lia].
  cbn. split_and!; try done.
  - split; cbn; [done|rewrite Hr; apply registry_ok_new| |].
    + rewrite Hp. cbn. by intros t ?%elem_of_nil.
    + by intros t ?%elem_of_nil.
  - split.
    + intros id j Hj. destruct (Hm id) as [_ Hs]. destruct (Hs j Hj) as (p & Hpj & _).
      by rewrite Hpj.
    + intros id. left. apply Hm.
  - intros id. apply Hm.
Qed.
End system.
