(* ===== verification/SchedulerProps.v ===== *)
(** * What the scheduler guarantees, and what it does not

    The properties of the scheduler, against any [JobStore]; the witnesses
    run them on [SQLiteJobStore]. *)
From Stdlib Require Import ZArith Lia.
From stdpp Require Import base gmap list strings sorting.
From S2P Require Import Prelude GoTime Cron GoJson Job Worker JobHandler Scheduler.
From S2P Require Import SchedulerInv SchedulerSystem.

(** A concrete scheduler for the witnesses: UTC, an empty database, two
    workers, a handler that succeeds. *)
Definition demo_loc : Location := λ _, 0%Z.
Definition demo_env (uuid : string) (now : Z) : env := mkEnv now uuid now no_faults.
Definition demo_handler : JobHandler unit := λ w j, (w, j, None).
Definition demo_boot : result (sys (S:=JobTable) (W:=unit)) :=
  boot no_faults no_faults (None : option JobTable) 2 tt.

Lemma demo_handler_ok : handler_ok demo_handler.
Proof. intros w j w' j' e H. injection H as <- <- <-. by repeat split. Qed.

Definition demo_sys : sys (S:=JobTable) (W:=unit) :=
  match demo_boot with
  | Ok y => y
  | Err _ => mkSys (mkScheduler [] ∅ 0 ∅ false (NewWorkerPool 2) NewJobHandlerRegistry false) tt []
  end.

Lemma demo_boot_eq : demo_boot = Ok demo_sys.
Proof. vm_compute. reflexivity. Qed.

(** Schedule a job every hour, let the timer fire, run the handler, call back. *)
Definition demo_schedule : event (W:=unit) :=
  EvSchedule (demo_env "a" 1) [] "u" "mail" "0 * * * *" (RawMessage (Some "1")).
Definition demo_turn : event (W:=unit) :=
  EvTurn (λ _, demo_env "" 2) 5 ["a"] ["a"] TimerFired.
Definition demo_events : list (event (W:=unit)) :=
  [EvRegister "mail" (Some demo_handler); demo_schedule; demo_turn; EvExecute;
   EvCallback 0 (demo_env "" 3) 0].

Lemma demo_ok : Forall event_ok demo_events ∧ Forall event_clean demo_events.
Proof.
  unfold demo_events. rewrite !Forall_cons, !Forall_nil. cbn [event_ok event_clean demo_schedule
    demo_turn]. split; (split_and!; try done; try exact demo_handler_ok).
  intros pj [= <-]. reflexivity.
Qed.

Definition demo_end : sys (S:=JobTable) (W:=unit) :=
  default demo_sys (run_events demo_loc demo_events demo_sys).

Lemma demo_run : run_events demo_loc demo_events demo_sys = Some demo_end.
Proof. vm_compute. reflexivity. Qed.

Lemma demo_no_db (st : JobTable) : None = Some st → js_wf st.
Proof. done. Qed.

Section props.
Context {S W : Type} `{!JobStore S} (loc : Location).
Implicit Types (y : sys (S:=S) (W:=W)) (s : Scheduler S W).

(** C2: Whatever is scheduled, dispatched, executed and called back, in any
    interleaving and with any engine failures: memory never holds two jobs for
    the same user, type and schedule; memory and store hold the same IDs with
    the same identities; every queued or running task is the task of a job in
    memory; the channel never overflows. *)
Theorem scheduler_invariant flt1 flt2 (db : option S) n (w : W) evs y y' :
  (∀ st, db = Some st → js_wf st) → boot flt1 flt2 db n w = Ok y →
  Forall event_ok evs → run_events loc evs y = Some y' →
  (∀ i i' j j', mem_job (sched y') i = Some j → mem_job (sched y') i' = Some j' →
     job_key j = job_key j' → i = i') ∧
  (∀ i, match mem_job (sched y') i, js_abs (store (sched y')) !! i with
        | Some j, Some a => ID j = i ∧ job_key a = job_key j
        | None, None => True
        | _, _ => False
        end) ∧
  (∀ t, t ∈ tasks (pool (sched y')) ∨ t ∈ (in_progress y').*1 →
     ∃ i p j, t = task_for p ∧ Jobs (sched y') !! i = Some p ∧ heap (sched y') !! p = Some j) ∧
  length (tasks (pool (sched y'))) ≤ tasks_cap (pool (sched y')).
Proof.
  intros Hdb Hb Hok Hr. apply boot_inv in Hb as (Hy & _); [|done].
  pose proof (run_events_inv loc _ _ _ Hok Hy Hr) as Hy'. pose proof (sy_sched _ Hy') as Hi.
  split_and!.
  - intros i i' j j'. by apply inv_mem_key.
  - intros i. destruct (mem_job (sched y') i) as [j|] eqn:Ej.
    + apply mem_job_Some in Ej as (p & Hp & Hj).
      destruct (inv_mem _ _ _ Hi Hp) as (j' & a & Hj' & _ & E & -> & K & _). split; congruence.
    + destruct (js_abs (store (sched y')) !! i) as [a|] eqn:Ea; [|done].
      destruct (proj2 (si_rows _ Hi i) ltac:(by exists a)) as [p Hp].
      destruct (inv_mem _ _ _ Hi Hp) as (j' & _ & _ & Hm & _). congruence.
  - intros t Ht. assert (live_task (sched y') t) as (i & p & -> & Hp)
      by (destruct Ht; [by apply (sy_tasks _ Hy')|by apply (sy_progress _ Hy')]).
    destruct (inv_mem _ _ _ Hi Hp) as (j & _ & Hj & _). by exists i, p, j.
  - apply Hi.
Qed.

(** C11: Without engine failures, and when the payloads are well-formed JSON,
    the scheduler's map is a write-through cache of its store: at every moment
    each job in memory is stored exactly as it is, payload compacted, except
    the jobs whose handler has run and whose callback has not. *)
Theorem scheduler_write_through flt1 flt2 (db : option S) n (w : W) evs y y' :
  (∀ st, db = Some st → js_wf st) → boot flt1 flt2 db n w = Ok y →
  Forall event_ok evs → Forall event_clean evs → run_events loc evs y = Some y' →
  ∀ i j, mem_job (sched y') i = Some j →
    (∃ p, Marshal_raw (Payload j) = Ok p ∧
          js_abs (store (sched y')) !! i = Some (with_payload p j)) ∨
    (∃ t, t ∈ (in_progress y').*1 ∧ t_job t = Jobs (sched y') !! i).
Proof.
  intros Hdb Hb Hok Hcl Hr i j Hj. apply boot_inv in Hb as (Hy & Hc & _); [|done].
  pose proof (run_events_cached loc _ _ _ Hok Hcl Hy Hc Hr) as Hc'.
  destruct (ca_synced _ _ Hc' i) as [Hs|Hb]; [left; by apply Hs|right; exact Hb].
Qed.
End props.

Lemma scheduler_invariant_witness :
  run_events demo_loc demo_events demo_sys = Some demo_end ∧
  length (tasks (pool (sched demo_end))) ≤ tasks_cap (pool (sched demo_end)).
Proof.
  split; [vm_compute; reflexivity|].
  exact (proj2 (proj2 (proj2 (scheduler_invariant demo_loc no_faults no_faults None 2 tt
    demo_events demo_sys demo_end demo_no_db demo_boot_eq (proj1 demo_ok) demo_run)))).
Defined.

Lemma scheduler_write_through_witness :
  ∃ j, mem_job (sched demo_end) "a" = Some j ∧ Status j = JobStatusCompleted ∧
    ((∃ p, Marshal_raw (Payload j) = Ok p ∧
          js_abs (store (sched demo_end)) !! "a" = Some (with_payload p j)) ∨
     (∃ t, t ∈ (in_progress demo_end).*1 ∧ t_job t = Jobs (sched demo_end) !! "a")).
Proof.
  eexists. split; [vm_compute; reflexivity|]. split; [reflexivity|].
  apply (scheduler_write_through demo_loc no_faults no_faults None 2 tt
    demo_events demo_sys demo_end demo_no_db demo_boot_eq (proj1 demo_ok) (proj2 demo_ok) demo_run).
  vm_compute. reflexivity.
Defined.

(** A state of the system after some events from a start. *)
Definition sys_reachable {S W} `{!JobStore S} (loc : Location) (y : sys (S:=S) (W:=W)) : Prop :=
  ∃ flt1 flt2 db n w y0 evs, (∀ st, db = Some st → js_wf st) ∧
    boot flt1 flt2 db n w = Ok y0 ∧ Forall event_ok evs ∧ run_events loc evs y0 = Some y.

Lemma sys_reachable_inv {S W} `{!JobStore S} loc (y : sys (S:=S) (W:=W)) :
  sys_reachable loc y → sys_inv y.
Proof.
  intros (flt1 & flt2 & db & n & w & y0 & evs & Hdb & Hb & Hok & Hr).
  apply boot_inv in Hb as (Hy & _); [|done]. by eapply run_events_inv.
Qed.

(** No task of this job is queued or running. *)
Definition no_task_of {S W} (y : sys (S:=S) (W:=W)) (id : string) : Prop :=
  ∀ t, t ∈ tasks (pool (sched y)) ∨ t ∈ (in_progress y).*1 → t_job t ≠ Jobs (sched y) !! id.

Lemma after_callback_dormant {S W} `{!JobStore S} loc (y y1 : sys (S:=S) (W:=W)) i e d t
    (err : option error) id :
  sys_inv y → in_progress y !! i = Some (t, err) → t_job t = Jobs (sched y) !! id →
  (∀ t', t' ∈ tasks (pool (sched y)) ∨ t' ∈ (delete i (in_progress y)).*1 →
         t_job t' ≠ Jobs (sched y) !! id) →
  run_event loc (EvCallback i e d) y = Some y1 →
  sys_inv y1 ∧ ∃ j j1, mem_job (sched y) id = Some j ∧ dormant y1 id j1 ∧ job_key j1 = job_key j ∧
    Status j1 = (if err is Some _ then JobStatusFailed else JobStatusCompleted).
Proof.
  intros Hy Hi Ht Hno H. cbn [run_event] in H.
  destruct (run_callback_inv loc i e d y y1 Hy H)
    as (Hy1 & t' & err' & id' & j & s1 & Hi' & Ep & Htj & Hmj & _ & _ & HJ & Hm & Hq & C).
  rewrite Hi in Hi'. injection Hi' as <- <-.
  assert (id' = id) as ->.
  { destruct (sy_progress y Hy t) as (k & p & Etf & Hp).
    { apply list_elem_of_fmap. exists (t, err). split; [done|]. by eapply list_elem_of_lookup_2. }
    rewrite Etf in Ht, Htj. cbn in Ht, Htj.
    eapply inv_ptr_inj; [apply Hy|exact (eq_sym Htj)|exact (eq_sym Ht)]. }
  split; [done|]. pose proof (cb_mem _ _ _ _ _ C) as Cm.
  match type of Cm with _ = Some ?j' => exists j, j' end.
  split; [done|]. split; [|by destruct err]. split; [exact Cm|by destruct err|].
  rewrite (cb_Jobs _ _ _ _ _ C), HJ, (cb_pool _ _ _ _ _ C), Hq, Ep. exact Hno.
Qed.

Section life.
Context {S W : Type} `{!JobStore S} (loc : Location).
Implicit Types (y : sys (S:=S) (W:=W)).

(** C39: A job runs once.  When its last running task has called back, with
    success or with failure, its status is completed or failed, and no later
    event dispatches it, other than a new call of [ScheduleJob] for the same
    user, type and schedule: neither the next time of its cron schedule nor
    the retry delay that the callback computed ever makes it run. *)
Theorem finished_job_never_runs_again y y1 y2 i e d t (err : option error) id evs :
  sys_reachable loc y → in_progress y !! i = Some (t, err) → t_job t = Jobs (sched y) !! id →
  (∀ t', t' ∈ tasks (pool (sched y)) ∨ t' ∈ (delete i (in_progress y)).*1 →
         t_job t' ≠ Jobs (sched y) !! id) →
  run_event loc (EvCallback i e d) y = Some y1 →
  Forall event_ok evs →
  (∀ j, mem_job (sched y) id = Some j → Forall (not_rescheduled j) evs) →
  run_events loc evs y1 = Some y2 →
  ∃ j, mem_job (sched y1) id = Some j ∧ mem_job (sched y2) id = Some j ∧ no_task_of y2 id ∧
       Status j = (if err is Some _ then JobStatusFailed else JobStatusCompleted).
Proof.
  intros Hr Hi Ht Hno H1 Hok Hn H2. apply sys_reachable_inv in Hr.
  destruct (after_callback_dormant loc y y1 i e d t err id Hr Hi Ht Hno H1)
    as (Hy1 & j & j1 & Hj & Hd & Hk & Hst).
  assert (Hn' : Forall (not_rescheduled j1) evs).
  { eapply Forall_impl; [by apply Hn|]. intros []; cbn; [by rewrite Hk|done..]. }
  pose proof (dormant_events loc evs y1 y2 id j1 Hok Hy1 Hd Hn' H2) as [D1 D2 D3].
  exists j1. split_and!; [apply Hd|done|done|done].
Qed.

(** A job that was running, or was completed or failed, when the process
    ended is never run after a restart: [NewScheduler] loads it with its
    status, only pending jobs are dispatched, and nothing makes it pending but
    a new call of [ScheduleJob] for it. *)
Theorem interrupted_job_never_runs flt1 flt2 (st : S) n (w : W) y y' id j evs :
  js_wf st → js_abs st !! id = Some j → Status j ≠ JobStatusPending →
  boot flt1 flt2 (Some st) n w = Ok y →
  Forall event_ok evs → Forall (not_rescheduled j) evs → run_events loc evs y = Some y' →
  mem_job (sched y') id = Some j ∧ no_task_of y' id.
Proof.
  intros Hwf Hj Hst Hb Hok Hn Hr.
  apply boot_inv in Hb as (Hy & _ & Hp & Hip & Habs & Hmem); [|by intros ? [= <-]].
  assert (Hd : dormant y id j).
  { split; [by rewrite Hmem, Habs|done|]. rewrite Hp, Hip. cbn.
    by intros t [?%elem_of_nil|?%elem_of_nil]. }
  destruct (dormant_events loc evs y y' id j Hok Hy Hd Hn Hr) as [D1 D2 D3]. done.
Qed.
End life.

(** The demo up to the handler's end, and a later turn of the loop. *)
Definition demo_mid : sys (S:=JobTable) (W:=unit) :=
  default demo_sys (run_events demo_loc (take 4 demo_events) demo_sys).
Definition demo_later : list (event (W:=unit)) :=
  [EvTurn (λ _, demo_env "" 9) (100 * Hour) ["a"] ["a"] TimerFired; EvForceCheck].
Definition demo_last : sys (S:=JobTable) (W:=unit) :=
  default demo_sys (run_events demo_loc demo_later demo_end).

Lemma demo_mid_reachable : sys_reachable demo_loc demo_mid.
Proof.
  exists no_faults, no_faults, None, 2%Z, tt, demo_sys, (take 4 demo_events).
  split_and!; [done|exact demo_boot_eq|apply Forall_take, demo_ok|vm_compute; reflexivity].
Qed.

Lemma demo_mid_idle t :
  t ∈ tasks (pool (sched demo_mid)) ∨ t ∈ (delete 0 (in_progress demo_mid)).*1 → False.
Proof.
  assert (E1 : tasks (pool (sched demo_mid)) = []) by (vm_compute; reflexivity).
  assert (E2 : (delete 0 (in_progress demo_mid)).*1 = []) by (vm_compute; reflexivity).
  rewrite E1, E2. by intros [?%elem_of_nil|?%elem_of_nil].
Qed.

Lemma demo_later_ok : Forall event_ok demo_later.
Proof. unfold demo_later. by rewrite !Forall_cons, Forall_nil. Qed.

Lemma finished_job_never_runs_again_witness :
  ∃ j, mem_job (sched demo_end) "a" = Some j ∧ mem_job (sched demo_last) "a" = Some j ∧
       no_task_of demo_last "a" ∧ Status j = JobStatusCompleted.
Proof.
  apply (finished_job_never_runs_again demo_loc demo_mid demo_end demo_last 0 (demo_env "" 3) 0
           (task_for 0) None "a" demo_later demo_mid_reachable).
  - vm_compute. reflexivity.
  - vm_compute. reflexivity.
  - intros t Ht. destruct (demo_mid_idle t Ht).
  - vm_compute. reflexivity.
  - exact demo_later_ok.
  - intros j _. unfold demo_later. by rewrite !Forall_cons, Forall_nil.
  - vm_compute. reflexivity.
Defined.

(** A database left by a process that died while the job was running. *)
Definition demo_crash_db : JobTable :=
  match run_events demo_loc (take 3 demo_events) demo_sys with
  | Some y => store (sched y)
  | None => []
  end.
Definition demo_restart : sys (S:=JobTable) (W:=unit) :=
  match boot no_faults no_faults (Some demo_crash_db) 2 tt with Ok y => y | Err _ => demo_sys end.
Definition demo_restart_last : sys (S:=JobTable) (W:=unit) :=
  default demo_sys (run_events demo_loc demo_later demo_restart).

Lemma demo_crash_wf : table_wf demo_crash_db.
Proof.
  destruct (run_events demo_loc (take 3 demo_events) demo_sys) as [y|] eqn:E.
  - unfold demo_crash_db. rewrite E.
    assert (Hr : sys_reachable demo_loc y).
    { exists no_faults, no_faults, None, 2%Z, tt, demo_sys, (take 3 demo_events).
      split_and!; [done|exact demo_boot_eq|apply Forall_take, demo_ok|done]. }
    apply sys_reachable_inv in Hr. exact (si_store _ (sy_sched _ Hr)).
  - unfold demo_crash_db. rewrite E. exact empty_table_wf.
Qed.

Lemma interrupted_job_never_runs_witness :
  ∃ j, Status j = JobStatusRunning ∧ mem_job (sched demo_restart_last) "a" = Some j ∧
       no_task_of demo_restart_last "a".
Proof.
  eexists. split; [|apply (@interrupted_job_never_runs JobTable unit SQLiteJobStore demo_loc no_faults no_faults demo_crash_db 2 tt
    demo_restart demo_restart_last "a" _ demo_later demo_crash_wf)].
  2: vm_compute; reflexivity.
  - reflexivity.
  - intros E. discriminate E.
  - vm_compute. reflexivity.
  - exact demo_later_ok.
  - unfold demo_later. by rewrite !Forall_cons, Forall_nil.
  - vm_compute. reflexivity.
Defined.

Section functional.
Context {S W : Type} `{!JobStore S} (loc : Location).
Implicit Types (y : sys (S:=S) (W:=W)) (s : Scheduler S W).

(** The job [ScheduleJob] leaves behind, for its clients. *)
Lemma ScheduleJob_writes now uuid now' order u t sch payload pj next s :
  sched_inv s → complete_order s order →
  payload_json payload = Ok pj → is_ok (Marshal_raw pj) = true →
  nextRunTime loc sch now = Some next → uuid ≠ "" → js_abs (store s) !! uuid = None →
  ∃ s' p id j, ScheduleJob loc (mkEnv now uuid now' no_faults) order u t sch payload s
               = Some (s', Ok p) ∧
    sched_inv s' ∧ Jobs s' !! id = Some p ∧ mem_job s' id = Some j ∧
    job_key j = (u, t, sch) ∧ Payload j = pj ∧ Status j = JobStatusPending ∧
    RetryCount j = 0%Z ∧ NextRun j = next ∧ synced s' id ∧ cronWakeup s' = true ∧
    (∀ i, i ≠ id → mem_job s' i = mem_job s i ∧ js_abs (store s') !! i = js_abs (store s) !! i) ∧
    (∀ i k, mem_job s i = Some k → job_key k = (u, t, sch) → i = id).
Proof.
  intros Hi Ho Hpj Hm Hn Hu Hf.
  destruct (ScheduleJob_ok loc now uuid now' order u t sch payload pj next s Hi Ho Hpj Hm Hn Hu Hf)
    as (s' & p & E).
  destruct (ScheduleJob_spec loc _ _ _ _ _ _ _ _ _ Hi E) as (_ & id & T & _ & pj' & Hpj' & D).
  destruct D as [D1 (j & nx & Hj & K & Ep & Est & Erc & En & Enr) D3 D4].
  assert (pj' = pj) as -> by congruence. cbn [e_now] in En.
  exists s', p, id, j. split_and!; try done; try (by apply T); try congruence.
  - intros i Hne. split; by apply T.
  - intros i k Hk Ki. destruct (decide (i = id)) as [?|Hne]; [done|].
    apply (inv_mem_key s' i id k j); [apply T| |done|congruence].
    by rewrite (tc_mem _ _ _ T i Hne).
Qed.

(** C3: [ScheduleJob] is an upsert on (user, type, schedule).  Without engine
    failures and with a fresh UUID it succeeds and returns a pointer to the one
    job in memory with that triple: pending, no retries, the new payload, next
    run at the next match of the schedule (one hour later when the schedule
    does not parse); stored the same; the loop is signalled; every other job is
    as before, in memory and in the store. *)
Theorem ScheduleJob_upserts now uuid now' order u t sch payload pj next s :
  sched_inv s → complete_order s order →
  payload_json payload = Ok pj → is_ok (Marshal_raw pj) = true →
  nextRunTime loc sch now = Some next → uuid ≠ "" → js_abs (store s) !! uuid = None →
  ∃ s' p id j, ScheduleJob loc (mkEnv now uuid now' no_faults) order u t sch payload s
               = Some (s', Ok p) ∧
    sched_inv s' ∧ Jobs s' !! id = Some p ∧ mem_job s' id = Some j ∧
    job_key j = (u, t, sch) ∧ Payload j = pj ∧ Status j = JobStatusPending ∧
    RetryCount j = 0%Z ∧ NextRun j = next ∧ synced s' id ∧ cronWakeup s' = true ∧
    (∀ i, i ≠ id → mem_job s' i = mem_job s i ∧ js_abs (store s') !! i = js_abs (store s) !! i) ∧
    (∀ i k, mem_job s i = Some k → job_key k = (u, t, sch) → i = id).
Proof. intros. by eapply ScheduleJob_writes. Qed.

(** [ScheduleJob] returns unless the [Next] it calls does not. *)
Lemma ScheduleJob_None e order u t sch payload s :
  sched_inv s →
  (ScheduleJob loc e order u t sch payload s = None ↔
   is_ok (payload_json payload) = true ∧
   ∃ c, ParseCron sch = Ok c ∧ Next loc c (e_now e) = None).
Proof.
  intros Hi.
  assert (HN : nextRunTime loc sch (e_now e) = None ↔
               ∃ c, ParseCron sch = Ok c ∧ Next loc c (e_now e) = None).
  { unfold nextRunTime. destruct (ParseCron sch) as [c|er].
    - split; [by exists c|]. by intros (c' & [= <-] & H).
    - split; [done|]. by intros (c' & [=] & _). }
  rewrite <- HN. unfold ScheduleJob.
  destruct (payload_json payload) as [pj|err]; cbn [is_ok]; [|by split; [|intros []]].
  destruct (find_existing s u t sch order) as [p|] eqn:Ef.
  - apply find_existing_Some in Ef as (id & j & _ & _ & Hj & _). rewrite Hj.
    cbn [mbind option_bind].
    destruct (nextRunTime loc sch (e_now e)); cbn [mbind option_bind]; [|by split].
    destruct (store_update _ _ _ _ _) as [s1 [[]|er]]; by split; [|intros [_ ?]].
  - destruct (nextRunTime loc sch (e_now e)); cbn [mbind option_bind]; [|by split].
    destruct (js_CreateJob _ _ _ _ _) as [[j' st] [[]|er]]; by split; [|intros [_ ?]].
Qed.

(** C12: One pass of the loop over the due jobs.  While the pool runs, the
    first due pending jobs in the order of iteration are submitted, as many as
    the channel has room for, and exactly those become running, with the given
    time as last run; every other job is as it was. *)
Theorem dispatchDueJobs_submits_due envs now order s s' o :
  sched_inv s → NoDup order → isStopped (pool s) = false → tasks_closed (pool s) = false →
  dispatchDueJobs envs now order s = (s', o) →
  let room := tasks_cap (pool s) - length (tasks (pool s)) in
  let taken := take room (filter (λ id, mem_due now s id = true) order) in
  o = Returns tt ∧
  tasks (pool s') = tasks (pool s) ++ omap (λ id, task_for <$> Jobs s !! id) taken ∧
  (∀ id, id ∈ taken → ∃ j j', mem_job s id = Some j ∧ mem_job s' id = Some j' ∧
     Status j = JobStatusPending ∧ (NextRun j ≤ now)%Z ∧
     Status j' = JobStatusRunning ∧ LastRun j' = Some now ∧ same_identity j j') ∧
  (∀ id, id ∉ taken → mem_job s' id = mem_job s id).
Proof.
  intros Hi Hnd Hr Hc H room taken.
  destruct (dispatchDueJobs_spec _ _ _ _ _ _ Hi Hnd Hr Hc H) as (Ho & _ & _ & Ht & Hm).
  change (picked now s order) with taken in *.
  split_and!; [done|done| |].
  - intros id Hin. rewrite Hm, decide_True by done.
    apply elem_of_take in Hin as (n & Hn & _).
    apply list_elem_of_lookup_2, list_elem_of_filter in Hn as [Hd _].
    unfold mem_due in Hd. destruct (mem_job s id) as [j|]; [|done].
    unfold due, After in Hd. apply andb_true_iff in Hd as [Hs Ht'].
    apply bool_decide_eq_true in Hs. apply negb_true_iff, Z.ltb_ge in Ht'.
    exists j. eexists. split_and!; done.
  - intros id Hin. by rewrite Hm, decide_False.
Qed.

(** C38: The loop sleeps until the earliest next run of a pending job, at most
    24 hours; and when the timer fires, every pending job with that next run is
    submitted if the pool has room for all the jobs due then: no pending job is
    forgotten. *)
Theorem timer_turn_runs_earliest envs now order1 order2 s s' :
  sched_inv s → complete_order s order1 → complete_order s order2 → NoDup order2 →
  isStopped (pool s) = false → tasks_closed (pool s) = false →
  let next := findNextJobTime now order1 s in
  length (filter (λ id, mem_due next s id = true) order2)
    ≤ tasks_cap (pool s) - length (tasks (pool s)) →
  schedulingTurn envs now order1 order2 TimerFired s = Some (s', Returns tt) →
  (next ≤ Add now (24 * Hour))%Z ∧
  (∀ id j, mem_job s id = Some j → Status j = JobStatusPending → (next ≤ NextRun j)%Z) ∧
  (∀ id j, mem_job s id = Some j → Status j = JobStatusPending → (NextRun j ≤ next)%Z →
     ∃ j' p, mem_job s' id = Some j' ∧ Status j' = JobStatusRunning ∧
             Jobs s !! id = Some p ∧ task_for p ∈ tasks (pool s')) ∧
  (next = Add now (24 * Hour) ∨
   ∃ id j, mem_job s id = Some j ∧ Status j = JobStatusPending ∧ NextRun j = next).
Proof.
  intros Hi Ho1 Ho2 Hnd Hr Hc next Hroom H. injection H as H.
  destruct (dispatchDueJobs_spec _ _ _ _ _ _ Hi Hnd Hr Hc H) as (_ & _ & _ & Ht & Hm).
  destruct (sooner_spec s order1 (Add now (24 * Hour))) as (A & B & C).
  change (sooner s order1 (Add now (24 * Hour))) with next in *.
  assert (Hin1 : ∀ id j, mem_job s id = Some j → is_Some (Jobs s !! id)).
  { intros id j Hj. apply mem_job_Some in Hj as (p & Hp & _). by exists p. }
  split_and!.
  - done.
  - intros id j Hj Hs. apply (B id); [apply Ho1; by eapply Hin1|by exists j].
  - intros id j Hj Hs Hle.
    assert (Hd : mem_due next s id = true).
    { unfold mem_due, due, After. rewrite Hj, bool_decide_true by done. cbn [andb].
      apply negb_true_iff, Z.ltb_ge. done. }
    assert (Hpick : id ∈ picked next s order2).
    { unfold picked. rewrite take_ge by done. apply list_elem_of_filter. split; [done|].
      apply Ho2. by eapply Hin1. }
    destruct (Hin1 id j Hj) as [p Hp].
    eexists. exists p. split; [rewrite Hm, decide_True, Hj by done; reflexivity|].
    split_and!; [done|done|]. rewrite Ht. apply elem_of_app. right.
    apply list_elem_of_omap. exists id. split; [done|]. by rewrite Hp.
  - destruct C as [C|(id & _ & j & Hj & Hs & Hn)]; [by left|right]. by exists id, j.
Qed.
End functional.

Lemma demo_inv : sched_inv (sched demo_sys).
Proof. apply sy_sched, (boot_inv _ _ _ _ _ _ demo_no_db demo_boot_eq). Qed.

(** The demo with its job scheduled, before the timer. *)
Definition demo_waiting : sys (S:=JobTable) (W:=unit) :=
  default demo_sys (run_events demo_loc (take 2 demo_events) demo_sys).

Lemma demo_waiting_inv : sched_inv (sched demo_waiting).
Proof.
  apply sy_sched, (sys_reachable_inv demo_loc).
  exists no_faults, no_faults, None, 2%Z, tt, demo_sys, (take 2 demo_events).
  split_and!; [done|exact demo_boot_eq|apply Forall_take, demo_ok|vm_compute; reflexivity].
Qed.

Lemma demo_complete_nil : complete_order (sched demo_sys) [].
Proof.
  assert (E : Jobs (sched demo_sys) = ∅) by (vm_compute; reflexivity).
  intros id. rewrite E, lookup_empty. by intros [? [=]].
Qed.

Lemma demo_complete : complete_order (sched demo_waiting) ["a"].
Proof.
  assert (E : Jobs (sched demo_waiting) = {["a" := 0]}) by (vm_compute; reflexivity).
  intros id [p Hp]. rewrite E in Hp. apply lookup_singleton_Some in Hp as [<- _]. left.
Qed.

Lemma ScheduleJob_upserts_witness :
  ∃ s' p id j, ScheduleJob demo_loc (mkEnv 1 "a" 1 no_faults) [] "u" "mail" "0 * * * *"
                 (RawMessage (Some "1")) (sched demo_sys) = Some (s', Ok p) ∧
    mem_job s' id = Some j ∧ NextRun j = 3600000000000%Z.
Proof.
  destruct (ScheduleJob_upserts demo_loc 1 "a" 1 [] "u" "mail" "0 * * * *" (RawMessage (Some "1"))
    (Some "1") 3600000000000%Z (sched demo_sys) demo_inv demo_complete_nil)
    as (s' & p & id & j & E & _ & _ & Hm & _ & _ & _ & _ & Hn & _).
  - reflexivity.
  - reflexivity.
  - vm_compute. reflexivity.
  - discriminate.
  - vm_compute. reflexivity.
  - exists s', p, id, j. exact (conj E (conj Hm Hn)).
Defined.

Definition demo_dispatch : Scheduler JobTable unit * outcome unit :=
  dispatchDueJobs (λ _, demo_env "" 2) (2 * Hour) ["a"] (sched demo_waiting).

Lemma demo_NoDup : NoDup ["a"%string].
Proof. apply NoDup_singleton. Qed.

Lemma demo_dispatch_eq :
  dispatchDueJobs (λ _, demo_env "" 2) (2 * Hour) ["a"] (sched demo_waiting)
  = (demo_dispatch.1, demo_dispatch.2).
Proof. unfold demo_dispatch. by destruct (dispatchDueJobs _ _ _ _). Qed.

Lemma dispatchDueJobs_submits_due_witness :
  demo_dispatch.2 = Returns tt ∧ tasks (pool demo_dispatch.1) = [task_for 0].
Proof.
  destruct (dispatchDueJobs_submits_due (λ _, demo_env "" 2) (2 * Hour) ["a"] (sched demo_waiting)
    demo_dispatch.1 demo_dispatch.2 demo_waiting_inv demo_NoDup) as (H1 & H2 & _).
  - vm_compute. reflexivity.
  - vm_compute. reflexivity.
  - exact demo_dispatch_eq.
  - split; [exact H1|]. rewrite H2. vm_compute. reflexivity.
Defined.

Definition demo_fired : option (Scheduler JobTable unit * outcome unit) :=
  schedulingTurn (λ _, demo_env "" 2) 5 ["a"] ["a"] TimerFired (sched demo_waiting).
Definition demo_fired_sched : Scheduler JobTable unit :=
  match demo_fired with Some (s, _) => s | None => sched demo_waiting end.

Lemma timer_turn_runs_earliest_witness :
  (findNextJobTime 5 ["a"] (sched demo_waiting) ≤ Add 5 (24 * Hour))%Z.
Proof.
  destruct (timer_turn_runs_earliest (λ _, demo_env "" 2) 5 ["a"] ["a"] (sched demo_waiting)
    demo_fired_sched demo_waiting_inv demo_complete demo_complete demo_NoDup) as (H & _).
  - vm_compute. reflexivity.
  - vm_compute. reflexivity.
  - vm_compute. lia.
  - vm_compute. reflexivity.
  - exact H.
Defined.

(** The delay while retries remain. *)
Lemma retry_delay_small rc :
  (1 ≤ rc < 5)%Z → retry_delay rc = (rc * rc * Minute)%Z.
Proof.
  intros H. unfold retry_delay.
  assert (C : rc = 1%Z ∨ rc = 2%Z ∨ rc = 3%Z ∨ rc = 4%Z) by lia.
  destruct C as [->|[->|[->| ->]]]; vm_compute; reflexivity.
Qed.

Lemma StronglySorted_filter {A} (R : A → A → Prop) (P : A → Prop) `{!∀ x, Decision (P x)} l :
  StronglySorted R l → StronglySorted R (filter P l).
Proof.
  induction 1 as [|x l HS IH HF]; [constructor|]. rewrite filter_cons. case_decide; [|done].
  constructor; [done|]. rewrite Forall_forall in *. intros y Hy.
  apply list_elem_of_filter in Hy as [_ Hy]. by apply HF.
Qed.

Section functional2.
Context {S W : Type} `{!JobStore S} (loc : Location).
Implicit Types (y : sys (S:=S) (W:=W)) (s : Scheduler S W).

(** C4: The callbacks.  A success completes the job, clears its error and its
    retries and moves its next run to the next match of its schedule; a failure
    counts a retry, keeps the message, and sets the next run the square of the
    retries in minutes later, never more than 16 minutes, or to the zero time
    at the fifth.  Both leave every other job alone, signal the loop, and
    without engine failures are stored.  This is what the code does and not
    what is said of it: the comment in OnFailure promises exponential backoff
    (the delays are 1, 4, 9 and 16 minutes, and its limit of 24 hours is never
    reached), and the README ten retries and then the status dead (the fifth
    failure ends them, with status failed). *)
Theorem callbacks_spec e (er : error) t id p j s :
  sched_inv s → t_scheduler t = true → t_job t = Some p →
  Jobs s !! id = Some p → heap s !! p = Some j → (0 ≤ RetryCount j < int64_max)%Z →
  (∀ next, nextRunTime loc (Schedule j) (e_now e) = Some next →
   ∃ s', OnSuccess loc e t s = Some s' ∧
     mem_job s' id = Some (set_UpdatedAt (e_store_now e) (set_completed next j)) ∧
     (∀ i, i ≠ id → mem_job s' i = mem_job s i) ∧ cronWakeup s' = true ∧
     (e_flt e = no_faults → is_ok (Marshal_raw (Payload j)) = true → synced s' id)) ∧
  ∃ s' j', OnFailure e er t s = Some s' ∧ mem_job s' id = Some j' ∧
     Status j' = JobStatusFailed ∧ LastError j' = Error er ∧ RetryCount j' = (RetryCount j + 1)%Z ∧
     NextRun j' = (if RetryCount j <? 4 then Add (e_now e) ((RetryCount j + 1) * (RetryCount j + 1) * Minute)
                   else 0)%Z ∧
     (∀ i, i ≠ id → mem_job s' i = mem_job s i) ∧ cronWakeup s' = true ∧
     (e_flt e = no_faults → is_ok (Marshal_raw (Payload j)) = true → synced s' id).
Proof.
  intros Hi Hts Htj Hp Hj Hrc. split.
  - intros next Hn. pose proof (OnSuccess_spec loc e t id p j s Hi Hts Htj Hp Hj) as H.
    destruct (OnSuccess loc e t s) as [s'|]; [|congruence].
    destruct H as (next' & Hn' & C). assert (next' = next) as -> by congruence.
    exists s'. split; [done|]. split; [apply C|]. split; [apply C|]. split; [apply C|].
    apply (cb_synced _ _ _ _ _ C).
  - destruct (OnFailure_spec e er t id p j s Hi Hts Htj Hp Hj) as (s' & -> & C).
    assert (Hw : wrap64 (RetryCount j + 1) = (RetryCount j + 1)%Z).
    { apply wrap64_id. unfold in_int64, int64_min, int64_max in *. lia. }
    exists s'. eexists. split; [done|]. split; [apply C|].
    split; [done|]. split; [done|]. cbn [set_UpdatedAt failed_job set_failed RetryCount NextRun].
    rewrite Hw. split; [done|]. split.
    { destruct (Z.ltb_spec (RetryCount j) 4), (Z.leb_spec 5 (RetryCount j + 1)); try lia.
      by rewrite retry_delay_small by lia. }
    split; [apply C|]. split; [apply C|]. apply (cb_synced _ _ _ _ _ C).
Qed.

(** [ListJobs] with options.  Without engine failures it returns, in
    increasing order of next run and cut at the limit, the stored jobs of the
    given user, type and status whose next run is not before [After] and not
    before [Before]: [Before] is one more lower bound, not an upper one. *)
Theorem ListJobs_options opts s :
  js_wf (store s) →
  ∃ all, ListJobs no_faults (Some opts) s
         = Ok (if (0 <? o_Limit opts)%Z then take (Z.to_nat (o_Limit opts)) all else all) ∧
    NoDup (ID <$> all) ∧ StronglySorted (λ a b, (NextRun a ≤ NextRun b)%Z) all ∧
    ∀ j, j ∈ all ↔ js_abs (store s) !! ID j = Some j ∧
      (o_UserID opts = "" ∨ UserID j = o_UserID opts) ∧
      (o_Type opts = "" ∨ JType j = o_Type opts) ∧
      (o_Status opts = "" ∨ Status j = o_Status opts) ∧
      (o_After opts = 0%Z ∨ (o_After opts ≤ NextRun j)%Z) ∧
      (o_Before opts = 0%Z ∨ (o_Before opts ≤ NextRun j)%Z).
Proof.
  intros Hwf. set (f := mkFilter (o_UserID opts) (o_Type opts) (o_Status opts)
                    (if IsZero (o_Before opts) then 0%Z else o_Before opts) []).
  destruct (js_list_law f (store s) Hwf) as (js & E & Hnd & Hs & Hin).
  set (P := λ job : Job, IsZero (o_After opts) = true ∨ Before (NextRun job) (o_After opts) = false).
  exists (filter P js). split_and!.
  - unfold ListJobs, post_filter.
    change (default (mkOpts EmptyString EmptyString EmptyString 0 0 0) (Some opts)) with opts. fold f. rewrite E.
    cbn [mbind result_bind]. fold P. set (l := filter P js).
    destruct (Z.ltb_spec 0 (o_Limit opts)); [|done]. cbn [andb].
    destruct (Z.ltb_spec (o_Limit opts) (Z.of_nat (length l))); [done|].
    by rewrite take_ge by lia.
  - eapply sublist_NoDup; [exact Hnd|]. apply fmap_sublist, sublist_filter.
  - apply StronglySorted_filter, Sorted_StronglySorted; [|done]. intros a b c. lia.
  - intros j. rewrite list_elem_of_filter, Hin. unfold job_matches.
    assert (EP : P j ↔ o_After opts = 0%Z ∨ (o_After opts ≤ NextRun j)%Z).
    { unfold P, IsZero, Before. rewrite Z.eqb_eq, Z.ltb_ge. done. }
    assert (EB : f_NextRun f = 0%Z ∨ (f_NextRun f ≤ NextRun j)%Z ↔
                 o_Before opts = 0%Z ∨ (o_Before opts ≤ NextRun j)%Z).
    { unfold f, IsZero. cbn [f_NextRun]. destruct (Z.eqb_spec (o_Before opts) 0); lia. }
    rewrite EP, EB. change (f_Statuses f) with (@nil string). cbn [f f_UserID f_Type f_Status].
    split.
    + intros (HA & Hst & H1 & H2 & H3 & _ & HB). by split_and!.
    + intros (Hst & H1 & H2 & H3 & HA & HB). split_and!; try done. by left.
Qed.
End functional2.

Lemma callbacks_spec_witness :
  ∃ s' j', OnFailure (demo_env "" 7) (ErrorString "boom") (task_for 0) (sched demo_waiting) = Some s' ∧
    mem_job s' "a" = Some j' ∧ LastError j' = "boom" ∧ RetryCount j' = 1%Z ∧
    NextRun j' = (7 + Minute)%Z.
Proof.
  destruct (mem_job (sched demo_waiting) "a") as [j|] eqn:Ej; [|vm_compute in Ej; discriminate Ej].
  assert (Hrc : RetryCount j = 0%Z).
  { vm_compute in Ej. injection Ej as <-. reflexivity. }
  assert (HJ : Jobs (sched demo_waiting) !! "a" = Some 0) by (vm_compute; reflexivity).
  assert (Hj : heap (sched demo_waiting) !! 0 = Some j).
  { apply mem_job_Some in Ej as (p & Hp & Hh). rewrite HJ in Hp. injection Hp as <-. exact Hh. }
  destruct (callbacks_spec demo_loc (demo_env "" 7) (ErrorString "boom") (task_for 0) "a" 0 j
    (sched demo_waiting) demo_waiting_inv eq_refl eq_refl HJ Hj ltac:(rewrite Hrc; split; [lia|reflexivity]))
    as (_ & s' & j' & H1 & H2 & _ & H4 & H5 & H6 & _).
  rewrite Hrc in H5, H6. exists s', j'. exact (conj H1 (conj H2 (conj H4 (conj H5 H6)))).
Defined.

Lemma ListJobs_options_witness :
  ∃ all, ListJobs no_faults (Some (mkOpts "" "" "" 1 0 5)) (sched demo_waiting)
         = Ok (take 5 all) ∧ ∀ j, j ∈ all → (1 ≤ NextRun j)%Z.
Proof.
  destruct (ListJobs_options (mkOpts "" "" "" 1 0 5) (sched demo_waiting)
              (si_store _ demo_waiting_inv)) as (all & E & _ & _ & Hin).
  exists all. split; [exact E|]. intros j Hj. apply Hin in Hj as (_ & _ & _ & _ & _ & [H|H]).
  - discriminate H.
  - exact H.
Defined.

(** The job is rescheduled while its handler runs. *)
Definition lost_events : list (event (W:=unit)) :=
  [EvRegister "mail" (Some demo_handler); demo_schedule; demo_turn; EvExecute;
   EvSchedule (demo_env "b" 6) ["a"] "u" "mail" "0 * * * *" (RawMessage (Some "2"));
   EvCallback 0 (demo_env "" 7) 0].
Definition lost_sys : sys (S:=JobTable) (W:=unit) :=
  default demo_sys (run_events demo_loc lost_events demo_sys).

(** A request can be lost.  When [ScheduleJob] is called for a job whose
    handler is running, it succeeds and makes the job pending again; the
    callback of the run in progress then completes that same job, so the new
    payload is stored but never delivered to a handler: no pending job and no
    task is left. *)
Theorem reschedule_during_run_is_lost :
  run_events demo_loc lost_events demo_sys = Some lost_sys ∧
  tasks (pool (sched lost_sys)) = [] ∧ in_progress lost_sys = [] ∧
  ∃ j, mem_job (sched lost_sys) "a" = Some j ∧ Payload j = Some "2"%string ∧
       Status j = JobStatusCompleted.
Proof.
  split; [vm_compute; reflexivity|]. split; [vm_compute; reflexivity|].
  split; [vm_compute; reflexivity|].
  eexists. split; [vm_compute; reflexivity|]. split; reflexivity.
Qed.

(** The registry is a map from job types to handlers: what was registered
    last under a type is what [GetHandler] and [Execute] use, an empty type or
    a nil handler changes nothing, removal removes, and the listed types are
    exactly the registered ones, each once. *)
Theorem registry_is_a_map {W} (r : JobHandlerRegistry W) (t : string) (h : JobHandler W) :
  (∀ t', GetHandler t' (JobHandler.RegisterHandler t (Some h) r)
         = if decide (t ≠ "" ∧ t' = t) then Some h else GetHandler t' r) ∧
  JobHandler.RegisterHandler t None r = r ∧
  (∀ t', GetHandler t' (UnregisterHandler t r) = if decide (t' = t) then None else GetHandler t' r) ∧
  NoDup (ListHandlerTypes r) ∧ (∀ t', t' ∈ ListHandlerTypes r ↔ is_Some (GetHandler t' r)) ∧
  (∀ w p heap j, heap !! p = Some j → JType j = t → t ≠ "" →
     Execute (JobHandler.RegisterHandler t (Some h) r) (NewJobTask (Some p)) w heap
     = let '(w', j', err) := h w j in (w', <[p := j']> heap, err)).
Proof.
  split_and!.
  - intros t'. destruct (decide (t = "")) as [->|Ht].
    + rewrite RegisterHandler_refused by auto. by rewrite decide_False by tauto.
    + rewrite GetHandler_Register by done. by do 2 case_decide; try tauto.
  - apply RegisterHandler_refused. by right.
  - intros t'. apply GetHandler_Unregister.
  - apply ListHandlerTypes_NoDup.
  - intros t'. apply ListHandlerTypes_spec.
  - intros w p heap j Hj Ht Hne. unfold Execute. cbn [t_job NewJobTask]. rewrite Hj, Ht.
    rewrite GetHandler_Register by done. by rewrite decide_True by done.
Qed.
