(* ===== verification/SchedulerLock.v ===== *)
(** * [JobMu] while a schedule without a date is searched

    The operations of scheduler.go and the callbacks of job_handler.go that
    take [JobMu], as threads that call [Lock], run their section and release
    it by a deferred [Unlock].  The loop of [Next], which [nextRunTime] runs
    inside the section, is taken turn by turn, so that a search that does not
    end is a thread that never releases the lock.  What the sections do to
    the scheduler is in file Scheduler; the other locks are in WorkerConc. *)
From Stdlib Require Import ZArith Lia.
From stdpp Require Import base gmap list strings relations.
From S2P Require Import Prelude GoTime Cron GoJson Job Worker JobHandler Scheduler.
From S2P Require Import SchedulerInv SchedulerSystem SchedulerProps.

(** A section of [JobMu], with what decides whether it searches: for
    [ScheduleJob] the clock, the schedule and the payload, for [OnSuccess] the
    clock and the schedule of its job. *)
Inductive locked_op :=
| LScheduleJob (now : Z) (schedule : string) (payload : payload_arg)
| LDispatchDueJobs
| LFindNextJobTime
| LOnSuccess (now : Z) (schedule : string)
| LOnFailure.

(** The search of [nextRunTime]: the parsed schedule and the first instant. *)
(** @src internal/scheduler/scheduler.go 119-124 nextRunTime *)
Definition parsed_search (now : Z) (schedule : string) : option (CronSchedule * Z) :=
  match ParseCron schedule with
  | Ok cron => Some (cron, next_start now)
  | Err _ => None
  end.
Definition search_of (o : locked_op) : option (CronSchedule * Z) :=
  match o with
  | LScheduleJob now schedule payload =>
      if is_ok (payload_json payload) then parsed_search now schedule else None
  | LOnSuccess now schedule => parsed_search now schedule
  | _ => None
  end.

(** Where a thread is: at [Lock]; in its section, before its search; in the
    loop of [Next], at an instant; returned. *)
Inductive lock_pc :=
| LWaiting (o : locked_op)
| LHolding (o : locked_op)
| LSearching (o : locked_op) (c : CronSchedule) (t : Z)
| LReturned.

Record lock_sys := mkLock { holder : option nat; threads : gmap nat lock_pc }.
Definition lock_init : lock_sys := mkLock None ∅.

Section lock.
Context (loc : Location).
Implicit Types y : lock_sys.

(** @src internal/scheduler/scheduler.go 64-67 ScheduleJob *)
Inductive lock_step : lock_sys → lock_sys → Prop :=
| ls_call y i o :
    threads y !! i = None →
    lock_step y (mkLock (holder y) (<[i := LWaiting o]> (threads y)))
| ls_acquire y i o :
    holder y = None → threads y !! i = Some (LWaiting o) →
    lock_step y (mkLock (Some i) (<[i := LHolding o]> (threads y)))
| ls_search y i o c t :
    threads y !! i = Some (LHolding o) → search_of o = Some (c, t) →
    lock_step y (mkLock (holder y) (<[i := LSearching o c t]> (threads y)))
| ls_turn y i o c t t' :
    threads y !! i = Some (LSearching o c t) → next_step loc c t = inl t' →
    lock_step y (mkLock (holder y) (<[i := LSearching o c t']> (threads y)))
| ls_found y i o c t r :
    threads y !! i = Some (LSearching o c t) → next_step loc c t = inr r →
    lock_step y (mkLock None (<[i := LReturned]> (threads y)))
| ls_return y i o :
    threads y !! i = Some (LHolding o) → search_of o = None →
    lock_step y (mkLock None (<[i := LReturned]> (threads y))).

Definition in_section (p : lock_pc) : Prop :=
  match p with LHolding _ | LSearching _ _ _ => True | _ => False end.

(** A thread in its section holds the lock. *)
Definition lock_inv y : Prop := ∀ k p, threads y !! k = Some p → in_section p → holder y = Some k.

Lemma lock_inv_step y y' : lock_inv y → lock_step y y' → lock_inv y'.
Proof.
  intros Hi Hs. assert (Hone : ∀ i p k q, threads y !! i = Some p → in_section p → k ≠ i →
    threads y !! k = Some q → ¬ in_section q).
  { intros i p k q Hp Sp Hne Hq Sq. pose proof (Hi i p Hp Sp). pose proof (Hi k q Hq Sq). congruence. }
  inversion Hs as [? i o Hn|? i o Hh Ht|? i o c t Ht|? i o c t t' Ht|? i o c t r Ht|? i o Ht]; subst;
    intros k p Hk Sp; cbn in *; destruct (decide (k = i)) as [->|Hne];
    rewrite ?lookup_insert_eq, ?lookup_insert_ne in Hk by done; simplify_eq/=; try done;
    try (by eapply Hi); try (by exfalso; eapply (Hone i)).
  pose proof (Hi k p Hk Sp). congruence.
Qed.

Lemma lock_inv_reachable y : rtc lock_step lock_init y → lock_inv y.
Proof.
  intros H. assert (H0 : lock_inv lock_init) by (intros k p Hk; discriminate Hk).
  revert H0. induction H as [y|y y1 y2 Hs _ IH]; intros H0; [done|]. apply IH. by eapply lock_inv_step.
Qed.

(** ** A section whose search does not end *)

Definition hangs (o : locked_op) : Prop :=
  match search_of o with
  | Some (c, t) => ∀ n, ∃ u, iter_nat (next_step loc c) n t = inl u
  | None => False
  end.

(** Thread [i] is in such a section, with a search that is still to come or
    under way. *)
Definition stuck (i : nat) (o : locked_op) y : Prop :=
  threads y !! i = Some (LHolding o) ∨
  ∃ c t n u, search_of o = Some (c, t) ∧ iter_nat (next_step loc c) n t = inl u ∧
    threads y !! i = Some (LSearching o c u).

Lemma hangs_turn o c t n u :
  hangs o → search_of o = Some (c, t) → iter_nat (next_step loc c) n t = inl u →
  ∃ u', next_step loc c u = inl u' ∧ iter_nat (next_step loc c) (S n) t = inl u'.
Proof.
  unfold hangs. intros H E Hn. rewrite E in H. destruct (H (S n)) as [u' Hu'].
  rewrite <- Nat.add_1_r, iter_nat_add, Hn in Hu'. cbn in Hu'.
  destruct (next_step loc c u) as [u1|] eqn:En; [|done]. exists u1. split; [done|].
  rewrite <- Nat.add_1_r, iter_nat_add, Hn. cbn. by rewrite En.
Qed.

Lemma stuck_section i o y : stuck i o y → ∃ p, threads y !! i = Some p ∧ in_section p.
Proof. intros [H|(c & t & n & u & _ & _ & H)]; by eexists. Qed.

Lemma stuck_step i o y y' :
  hangs o → lock_inv y → stuck i o y → lock_step y y' →
  stuck i o y' ∧ ∀ k, threads y' !! k = Some LReturned → threads y !! k = Some LReturned.
Proof.
  intros Hh Hi Hst Hs. destruct (stuck_section i o y Hst) as (p & Hp & Sp).
  pose proof (Hi i p Hp Sp) as Ho.
  assert (Hoth : ∀ k q, threads y !! k = Some q → in_section q → k = i).
  { intros k q Hq Sq. pose proof (Hi k q Hq Sq). congruence. }
  assert (Hkeep : ∀ h k q, k ≠ i → stuck i o (mkLock h (<[k := q]> (threads y)))).
  { intros h k q Hne. unfold stuck. cbn. by rewrite lookup_insert_ne. }
  assert (Hret : ∀ h k q j, q ≠ LReturned →
    threads (mkLock h (<[k := q]> (threads y))) !! j = Some LReturned → threads y !! j = Some LReturned).
  { intros h k q j Hq. cbn. destruct (decide (j = k)) as [->|?];
      [rewrite lookup_insert_eq; congruence|by rewrite lookup_insert_ne]. }
  inversion Hs as [? k o' Hn|? k o' Hf Ht|? k o' c t Ht Hc|? k o' c t t' Ht Hc|? k o' c t r Ht Hc|? k o' Ht Hc];
    subst.
  - split; [apply Hkeep; congruence|by intros j; apply Hret].
  - congruence.
  - assert (k = i) as -> by by eapply Hoth. split; [|by intros j; apply Hret].
    destruct Hst as [E|(? & ? & ? & ? & _ & _ & E)]; rewrite E in Ht; simplify_eq.
    right. exists c, t, 0, t. split_and!; [done..|]. cbn. by rewrite lookup_insert_eq.
  - assert (k = i) as -> by by eapply Hoth. split; [|by intros j; apply Hret].
    destruct Hst as [E|(c0 & t0 & n & u & E1 & E2 & E)]; rewrite E in Ht; simplify_eq.
    destruct (hangs_turn _ c t0 n t Hh E1 E2) as (u' & Hu & Hu'). rewrite Hc in Hu. simplify_eq.
    right. exists c, t0, (S n), u'. split_and!; [done..|]. cbn. by rewrite lookup_insert_eq.
  - assert (k = i) as -> by by eapply Hoth.
    destruct Hst as [E|(c0 & t0 & n & u & E1 & E2 & E)]; rewrite E in Ht; simplify_eq.
    destruct (hangs_turn _ c t0 n t Hh E1 E2) as (u' & Hu & _). by rewrite Hc in Hu.
  - assert (k = i) as -> by by eapply Hoth.
    destruct Hst as [E|(c0 & t0 & n & u & E1 & E2 & E)]; rewrite E in Ht; simplify_eq.
    unfold hangs in Hh. by rewrite Hc in Hh.
Qed.

Lemma stuck_for_ever i o y y' :
  hangs o → lock_inv y → stuck i o y → rtc lock_step y y' →
  lock_inv y' ∧ stuck i o y' ∧ ∀ k, threads y' !! k = Some LReturned → threads y !! k = Some LReturned.
Proof.
  intros Hh Hi Hst H. induction H as [y|y y1 y2 Hs _ IH]; [done|].
  destruct (stuck_step i o y y1 Hh Hi Hst Hs) as [H1 H2].
  destruct IH as (H3 & H4 & H5); [by eapply lock_inv_step|done|]. split_and!; auto.
Qed.

(** The stuck thread can always go on: its loop never ends. *)
Lemma stuck_runs i o y :
  hangs o → stuck i o y → ∃ y' c u, lock_step y y' ∧ threads y' !! i = Some (LSearching o c u).
Proof.
  intros Hh [H|(c & t & n & u & E1 & E2 & H)].
  - pose proof Hh as Hh'. unfold hangs in Hh'. destruct (search_of o) as [[c t]|] eqn:E; [|done].
    eexists _, c, t. split; [by eapply ls_search|]. cbn. by rewrite lookup_insert_eq.
  - destruct (hangs_turn o c t n u Hh E1 E2) as (u' & Hu & _).
    eexists _, c, u'. split; [by eapply ls_turn|]. cbn. by rewrite lookup_insert_eq.
Qed.
End lock.

(** C37: [ScheduleJob] may never return, and then [JobMu] is never free again.  In
    a zone with a fixed offset it does not return exactly when the payload
    marshals and the schedule parses to one that no calendar day satisfies,
    such as February 30.  Then, from any reachable state in which a call with
    that schedule and payload is in its section, in every state that follows
    the caller holds the lock and can take another turn of its search, and
    no call of [ScheduleJob], of the loop or of a callback returns that had
    not returned before. *)
Theorem ScheduleJob_hangs_iff {S W} `{!JobStore S} loc off e order u t sch payload (s : Scheduler S W) :
  fixed_zone loc off → sched_inv s →
  (ScheduleJob loc e order u t sch payload s = None ↔
   is_ok (payload_json payload) = true ∧
   ∃ c, ParseCron sch = Ok c ∧ ∀ d, date_matches c d = false) ∧
  (ScheduleJob loc e order u t sch payload s = None →
   let o := LScheduleJob (e_now e) sch payload in
   ∀ y i y', rtc (lock_step loc) lock_init y → threads y !! i = Some (LHolding o) →
     rtc (lock_step loc) y y' →
     holder y' = Some i ∧
     (∃ y'' c v, lock_step loc y' y'' ∧ threads y'' !! i = Some (LSearching o c v)) ∧
     ∀ k, threads y' !! k = Some LReturned → threads y !! k = Some LReturned).
Proof.
  intros Hz Hi. pose proof (ScheduleJob_None loc e order u t sch payload s Hi) as HN. split.
  - rewrite HN. split; intros [Hp (c & Hc & H)]; (split; [done|]); exists c; (split; [done|]).
    + intros d. destruct (date_matches c d) eqn:Ed; [|done].
      destruct (date_matches_later loc off c (e_now e) d Hz (ParseCron_wf_lemma _ _ Hc) Ed) as (v & Hb & Hv & Hm).
      by rewrite (Next_None_never loc off c _ Hz H v Hb Hv) in Hm.
    + apply diverges_None, never_diverges. intros v _ _. destruct (matches loc c v) eqn:Ev; [|done].
      apply matches_date in Ev. by rewrite H in Ev.
  - intros [Hp (c & Hc & H)]%HN o y i y' Hy Ht Hyy.
    assert (Hh : hangs loc o).
    { unfold hangs, o, search_of, parsed_search. rewrite Hp, Hc. by apply (Next_None_diverges loc off). }
    destruct (stuck_for_ever loc i o y y' Hh (lock_inv_reachable loc y Hy) (or_introl Ht) Hyy)
      as (H1 & H2 & H3).
    destruct (stuck_section loc i o y' H2) as (p & Hp' & Sp).
    split_and!; [by eapply H1|by apply stuck_runs|done].
Qed.

(** February 30: the call does not return, and one of [findNextJobTime] waits
    for ever. *)
Lemma ScheduleJob_hangs_iff_witness :
  let o := LScheduleJob 1 "0 0 30 2 *" (RawMessage None) in
  let y := mkLock (Some 0) {[0 := LHolding o; 1 := LWaiting LFindNextJobTime]} in
  ScheduleJob demo_loc (demo_env "a" 1) [] "u" "mail" "0 0 30 2 *" (RawMessage None) (sched demo_sys) = None ∧
  ∀ y', rtc (lock_step demo_loc) y y' → holder y' = Some 0 ∧ (threads y' !! 1 ≠ Some LReturned).
Proof.
  intros o y.
  destruct (ScheduleJob_hangs_iff demo_loc 0 (demo_env "a" 1) [] "u" "mail" "0 0 30 2 *" (RawMessage None)
    (sched demo_sys)) as [H1 H2]; [by intros ?|exact demo_inv|].
  assert (Hn : ScheduleJob demo_loc (demo_env "a" 1) [] "u" "mail" "0 0 30 2 *" (RawMessage None)
                 (sched demo_sys) = None).
  { apply H1. split; [reflexivity|]. exists (cron_of "0 0 30 2 *"). split; [vm_compute; reflexivity|].
    intros d. apply no_such_date_matches, no_such_date_feb30. }
  split; [exact Hn|]. intros y' Hy'.
  assert (Hr : rtc (lock_step demo_loc) lock_init y).
  { eapply rtc_l; [apply (ls_call _ _ 0 o); reflexivity|].
    eapply rtc_l; [eapply (ls_acquire _ _ 0 o); vm_compute; reflexivity|].
    eapply rtc_l; [apply (ls_call _ _ 1 LFindNextJobTime); vm_compute; reflexivity|].
    replace (mkLock _ _) with y; [apply rtc_refl|]. vm_compute. reflexivity. }
  destruct (H2 Hn y 0 y' Hr) as (Ha & _ & Hb); [vm_compute; reflexivity|exact Hy'|].
  split; [exact Ha|]. intros Hc. apply Hb in Hc. vm_compute in Hc. discriminate Hc.
Defined.
