(* ===== verification/JobMetrics.v ===== *)
(** * The prometheus instruments: [internal/metrics/metrics.go] and their use
    in scheduler/

    The instruments are third-party counters; what the program does with them
    is the sequence of calls it makes, which this file adds to the events of
    the system of file SchedulerSystem.  The value of a counter is the number
    of its calls, that of the gauge the increments less the decrements. *)
From Stdlib Require Import ZArith Lia.
From stdpp Require Import base gmap list strings.
From S2P Require Import Prelude GoTime Job Worker JobHandler Scheduler SchedulerInv SchedulerSystem SchedulerProps.

(** One call of an instrument, with the label [job_type]. *)
(** @src internal/metrics/metrics.go 8-62 metrics *)
Inductive metric_call :=
| JobsScheduled_Inc (jobType : string)
| JobsCompleted_Inc (jobType : string)
| JobsFailed_Inc (jobType : string)
| JobRetries_Inc (jobType : string)
| JobDuration_Observe (jobType : string)
| JobsInFlight_Inc
| JobsInFlight_Dec.

#[export] Instance metric_call_eq_dec : EqDecision metric_call.
Proof. solve_decision. Defined.

Fixpoint count_calls (P : metric_call → bool) (l : list metric_call) : nat :=
  match l with [] => 0 | c :: l => (if P c then 1 else 0) + count_calls P l end.

Definition is_scheduled c := match c with JobsScheduled_Inc _ => true | _ => false end.
Definition is_completed c := match c with JobsCompleted_Inc _ => true | _ => false end.
Definition is_failed c := match c with JobsFailed_Inc _ => true | _ => false end.
Definition is_retry c := match c with JobRetries_Inc _ => true | _ => false end.
Definition is_inc c := match c with JobsInFlight_Inc => true | _ => false end.
Definition is_dec c := match c with JobsInFlight_Dec => true | _ => false end.

Definition in_flight (l : list metric_call) : Z :=
  (Z.of_nat (count_calls is_inc l) - Z.of_nat (count_calls is_dec l))%Z.

Section calls.
Context {S W : Type} `{!JobStore S} (loc : Location).
Implicit Types (y : sys (S:=S) (W:=W)) (s : Scheduler S W).

(** The type of a task's job. *)
Definition task_type s (t : JobTask) : string :=
  match p ← t_job t; heap s !! p with Some j => JType j | None => "" end.

(** Only a job that is created counts, not one that is rescheduled. *)
(** @src internal/scheduler/scheduler.go 81-115 ScheduleJob *)
Definition ScheduleJob_calls (e : env) (order : list string) (u t sch : string) (payload : payload_arg) s
  : list metric_call :=
  match find_existing s u t sch order, ScheduleJob loc e order u t sch payload s with
  | None, Some (_, Ok _) => [JobsScheduled_Inc t]
  | _, _ => []
  end.

(** @src internal/scheduler/scheduler.go 171-177 dispatchDueJobs *)
Definition dispatch_one_calls (now : Z) (id : string) s : list metric_call :=
  match p ← Jobs s !! id; job ← heap s !! p; Some (p, job) with
  | Some (p, job) =>
      if due now job then
        match Submit (Some (mkTask (t_job (NewJobTask (Some p))) true)) (pool s) with
        | (_, Returns true) => [JobsInFlight_Inc]
        | _ => []
        end
      else []
  | None => []
  end.

Fixpoint dispatch_calls (envs : string → env) (now : Z) (order : list string) s : list metric_call :=
  match order with
  | [] => []
  | id :: rest =>
      dispatch_one_calls now id s ++
      match dispatch_one envs now id s with
      | (_, Panics _) => []
      | (s', Returns _) => dispatch_calls envs now rest s'
      end
  end.

(** The duration is observed when there is a handler. *)
(** @src internal/scheduler/job_handler.go 83-96 Execute *)
Definition execute_calls y : list metric_call :=
  match tasks (pool (sched y)) with
  | [] => []
  | t :: _ =>
      match p ← t_job t; heap (sched y) !! p with
      | None => []
      | Some job => match GetHandler (JType job) (registry (sched y)) with
                    | Some _ => [JobDuration_Observe (JType job)]
                    | None => []
                    end
      end
  end.

(** The calls come before anything else in the callbacks. *)
(** @src internal/scheduler/job_handler.go 103-104 OnSuccess *)
Definition OnSuccess_calls (t : JobTask) s : list metric_call :=
  [JobsInFlight_Dec; JobsCompleted_Inc (task_type s t)].

(** @src internal/scheduler/job_handler.go 133-135 OnFailure *)
Definition OnFailure_calls (t : JobTask) s : list metric_call :=
  [JobsInFlight_Dec; JobsFailed_Inc (task_type s t); JobRetries_Inc (task_type s t)].

Definition event_calls (ev : event (W:=W)) y : list metric_call :=
  match ev with
  | EvSchedule e order u t sch payload => ScheduleJob_calls e order u t sch payload (sched y)
  | EvTurn envs now order1 order2 TimerFired =>
      dispatch_calls envs (findNextJobTime now order1 (sched y)) order2 (sched y)
  | EvExecute => execute_calls y
  | EvCallback i _ _ =>
      match in_progress y !! i with
      | Some (t, None) => OnSuccess_calls t (sched y)
      | Some (t, Some _) => OnFailure_calls t (sched y)
      | None => []
      end
  | _ => []
  end.

(** The calls of a run. *)
Fixpoint run_calls (evs : list (event (W:=W))) y : list metric_call :=
  match evs with
  | [] => []
  | ev :: rest => event_calls ev y ++
                  match run_event loc ev y with Some y' => run_calls rest y' | None => [] end
  end.

(** ** Lemmas *)

Lemma count_calls_app P l1 l2 : count_calls P (l1 ++ l2) = count_calls P l1 + count_calls P l2.
Proof. induction l1 as [|c l1 IH]; cbn; lia. Qed.

Lemma store_update_pool now flt p j s s' r :
  store_update now flt p j s = (s', r) → pool s' = pool s ∧ Jobs s' = Jobs s.
Proof.
  unfold store_update. destruct (js_UpdateJob _ _ _ _) as [[j' st] r']. by intros [= <- _].
Qed.

(** Nothing is submitted and nothing called. *)
Ltac no_call := intros [= <- _]; cbn; rewrite Nat.add_0_r.

(** Each increment of the gauge is one task more in the channel. *)
Lemma dispatch_one_counts envs now id s s' o :
  dispatch_one envs now id s = (s', o) →
  dispatch_one_calls now id s = replicate (length (dispatch_one_calls now id s)) JobsInFlight_Inc ∧
  length (tasks (pool s')) = length (tasks (pool s)) + length (dispatch_one_calls now id s).
Proof.
  unfold dispatch_one, dispatch_one_calls. destruct (Jobs s !! id) as [p|]; cbn; [|by no_call].
  destruct (heap s !! p) as [job|]; cbn; [|by no_call].
  destruct (due now job); [|by no_call].
  unfold Submit. destruct (isStopped (pool s)); [by no_call|].
  destruct (tasks_closed (pool s)); [by no_call|].
  destruct (_ <? _)%Z; [|by no_call].
  destruct (store_update _ _ _ _ _) as [s1 r] eqn:E. apply store_update_pool in E as [E _].
  intros H. assert (Hp : pool s' = pool s1) by (by destruct r; injection H as <- _).
  rewrite Hp, E. cbn. by rewrite length_app.
Qed.

Lemma dispatch_counts envs now order s s' o :
  dispatchDueJobs envs now order s = (s', o) →
  dispatch_calls envs now order s = replicate (length (dispatch_calls envs now order s)) JobsInFlight_Inc ∧
  length (tasks (pool s')) = length (tasks (pool s)) + length (dispatch_calls envs now order s).
Proof.
  revert s. induction order as [|id rest IH]; intros s; cbn; [by no_call|].
  destruct (dispatch_one envs now id s) as [s1 [[]|msg]] eqn:E;
    apply dispatch_one_counts in E as [E1 E2].
  - intros H. apply IH in H as [H1 H2]. rewrite length_app, replicate_add, <- E1, <- H1. split; [done|lia].
  - intros [= <- _]. rewrite app_nil_r. done.
Qed.

Lemma count_replicate P n c : count_calls P (replicate n c) = if P c then n else 0.
Proof. induction n as [|n IH]; cbn; [by destruct (P c)|]. rewrite IH. by destruct (P c). Qed.

(** *** The ledger of a run *)

Definition active y : nat := length (tasks (pool (sched y))) + length (in_progress y).

(** [a] tasks were active and [b] are, [n] jobs were known and [m] are, and
    [l] are the calls in between. *)
Record ledger (a b n m : nat) (l : list metric_call) : Prop := {
  le_active : b + count_calls is_dec l = a + count_calls is_inc l;
  le_ended : count_calls is_dec l = count_calls is_completed l + count_calls is_failed l;
  le_retries : count_calls is_retry l = count_calls is_failed l;
  le_scheduled : m = n + count_calls is_scheduled l;
}.

Lemma ledger_nil a n : ledger a a n n [].
Proof. split; cbn; lia. Qed.

Lemma ledger_app a b c n m k l1 l2 :
  ledger a b n m l1 → ledger b c m k l2 → ledger a c n k (l1 ++ l2).
Proof. intros [A1 A2 A3 A4] [B1 B2 B3 B4]. split; rewrite !count_calls_app; lia. Qed.

Lemma ledger_incs a n k : ledger a (a + k) n n (replicate k JobsInFlight_Inc).
Proof. split; rewrite !count_replicate; cbn; lia. Qed.

Lemma ledger_same a b n m l l' : ledger a b n m l → l' = l → ledger a b n m l'.
Proof. by intros H ->. Qed.

Lemma ScheduleJob_ledger e order u t sch payload s s' r a :
  sched_inv s → ScheduleJob loc e order u t sch payload s = Some (s', r) →
  ledger a a (size (Jobs s)) (size (Jobs s')) (ScheduleJob_calls e order u t sch payload s).
Proof.
  intros Hi H. unfold ScheduleJob_calls. rewrite H. unfold ScheduleJob in H.
  destruct (payload_json payload) as [pj|err].
  2:{ injection H as <- <-. destruct (find_existing _ _ _ _ _); apply ledger_nil. }
  destruct (find_existing s u t sch order) as [p|].
  - destruct (heap s !! p) as [j|]; [|done]. destruct (nextRunTime _ _ _) as [next|]; [|done]. cbn in H.
    destruct (store_update _ _ _ _ _) as [s1 r1] eqn:E. apply store_update_pool in E as [_ E].
    assert (Hj : Jobs s' = Jobs s) by (by destruct r1; injection H as <- _).
    rewrite Hj. apply ledger_nil.
  - destruct (nextRunTime _ _ _) as [next|]; [|done]. cbn in H.
    destruct (js_CreateJob _ _ _ _ _) as [[j' st] rr] eqn:Ec.
    destruct (js_create_law _ _ _ _ _ _ _ _ (si_store s Hi) Ec) as (_ & _ & Hr).
    destruct rr as [[]|err]; injection H as <- <-; [|apply ledger_nil].
    destruct Hr as (Hnone & _). cbn. rewrite map_size_insert_None.
    + split; cbn; lia.
    + destruct (Jobs s !! ID j') eqn:E; [|done].
      destruct (proj1 (si_rows s Hi (ID j')) ltac:(by eexists)). congruence.
Qed.

Lemma event_ledger ev y y' :
  sys_inv y → run_event loc ev y = Some y' →
  ledger (active y) (active y') (size (Jobs (sched y))) (size (Jobs (sched y'))) (event_calls ev y).
Proof.
  intros Hy. destruct ev as [e order u t sch payload|envs now order1 order2 w| |i e d| |jt h]; cbn [run_event event_calls].
  - destruct (ScheduleJob _ _ _ _ _ _ _ _) as [[s' r]|] eqn:E; [|done]. cbn. intros [= <-].
    apply ScheduleJob_ledger with (a := active y) in E as Hl; [|apply Hy].
    apply ScheduleJob_spec in E as (Ep & _); [|apply Hy].
    replace (active (mkSys s' (world y) (in_progress y))) with (active y); [done|].
    unfold active. cbn. by rewrite Ep.
  - unfold schedulingTurn. destruct w; [|intros [= <-]; apply ledger_nil|done].
    destruct (dispatchDueJobs _ _ _ _) as [s' []] eqn:E; [|done]. intros [= <-].
    apply dispatch_counts in E as Hc. destruct Hc as [H1 H2].
    apply (dispatch_sys_inv _ _ _ y) in E as [_ HJ]; [|done]. cbn. rewrite HJ, H1.
    set (k := length _) in *.
    assert (Ha : active (mkSys s' (world y) (in_progress y)) = active y + k).
    { unfold active. cbn [sched in_progress]. rewrite H2. lia. }
    rewrite Ha. apply ledger_incs.
  - intros H. unfold execute_calls. destruct (run_execute_inv y y' Hy H) as (_ & t & rest & err & Ht & Hr & Hp & HJ & _).
    rewrite Ht, HJ. replace (active y') with (active y)
      by (unfold active; rewrite Ht, Hr, Hp, length_app; cbn; lia).
    destruct (t_job t ≫= _) as [job|]; [|apply ledger_nil].
    destruct (GetHandler _ _); [|apply ledger_nil]. split; cbn; lia.
  - intros H. destruct (run_callback_inv loc i e d y y' Hy H)
      as (_ & t & err & id & j & s1 & Hi & Hd & _ & _ & _ & _ & HJ & _ & Ht & C).
    rewrite Hi, (cb_Jobs _ _ _ _ _ C), HJ.
    assert (Ha : active y = Datatypes.S (active y')).
    { unfold active. rewrite (cb_pool _ _ _ _ _ C), Ht, Hd.
      rewrite length_delete by (by eexists). apply lookup_lt_Some in Hi. lia. }
    rewrite Ha. destruct err; split; cbn; lia.
  - intros [= <-]. apply ledger_nil.
  - intros [= <-]. apply ledger_nil.
Qed.

Lemma run_ledger evs y y' :
  Forall event_ok evs → sys_inv y → run_events loc evs y = Some y' →
  ledger (active y) (active y') (size (Jobs (sched y))) (size (Jobs (sched y'))) (run_calls evs y).
Proof.
  intros Hok. revert y. induction Hok as [|ev evs Hev Hok IH]; intros y Hy; cbn.
  { intros [= <-]. apply ledger_nil. }
  destruct (run_event loc ev y) as [y1|] eqn:E; [|done]. cbn. intros H.
  eapply ledger_app; [by apply event_ledger|]. apply IH; [by eapply run_event_inv|done].
Qed.

(** C31: what the instruments show after any run from the start, whatever fails
    in between: the gauge of jobs in flight, described as the jobs being
    executed, counts those that still wait in the queue as well; completions
    and failures add up to the tasks that were submitted less those in flight;
    every failure counts as a retry, though none is ever retried; and the
    counter of scheduled jobs is the number of jobs that are new in memory. *)
Theorem job_metrics_account flt1 flt2 (db : option S) n (w : W) evs y y' :
  (∀ st, db = Some st → js_wf st) → boot flt1 flt2 db n w = Ok y →
  Forall event_ok evs → run_events loc evs y = Some y' →
  let l := run_calls evs y in
  in_flight l = Z.of_nat (length (tasks (pool (sched y'))) + length (in_progress y')) ∧
  count_calls is_inc l = count_calls is_completed l + count_calls is_failed l
                         + (length (tasks (pool (sched y'))) + length (in_progress y')) ∧
  count_calls is_retry l = count_calls is_failed l ∧
  size (Jobs (sched y')) = size (Jobs (sched y)) + count_calls is_scheduled l.
Proof.
  intros Hdb Hb Hok Hr l. apply boot_inv in Hb as (Hy & _ & Hp & Hq & _); [|done].
  destruct (run_ledger _ _ _ Hok Hy Hr) as [L1 L2 L3 L4]. fold l in L1, L2, L3, L4.
  unfold active in L1. rewrite Hp, Hq in L1. cbn in L1. unfold in_flight. split_and!; lia.
Qed.
End calls.

Lemma job_metrics_account_witness :
  run_events demo_loc demo_events demo_sys = Some demo_end ∧
  run_calls demo_loc demo_events demo_sys =
    [JobsScheduled_Inc "mail"; JobsInFlight_Inc; JobDuration_Observe "mail"; JobsInFlight_Dec;
     JobsCompleted_Inc "mail"]%string ∧
  in_flight (run_calls demo_loc demo_events demo_sys) = 0%Z.
Proof.
  split; [vm_compute; reflexivity|]. split; [vm_compute; reflexivity|].
  rewrite (proj1 (job_metrics_account demo_loc no_faults no_faults None 2 tt
    demo_events demo_sys demo_end demo_no_db demo_boot_eq (proj1 demo_ok) demo_run)).
  vm_compute. reflexivity.
Defined.
