(* ===== verification/GoBase64.v ===== *)
(** * Package [encoding/base64]: the URL-safe encoding

    [URLEncoding] (padded) and [RawURLEncoding] (not padded), as byte strings.
    Decoding skips carriage returns and line feeds, as Go's does, and does not
    check the unused bits of the last character. *)
From Stdlib Require Import ZArith NArith Lia Ascii.
From stdpp Require Import base list strings.
From S2P Require Import Prelude.
Local Open Scope N_scope.

(** The alphabet A-Z, a-z, 0-9, '-', '_'. *)
Definition enc_char (x : N) : ascii :=
  ascii_of_N (if x <? 26 then 65 + x
              else if x <? 52 then 71 + x
              else if x <? 62 then x - 4
              else if x =? 62 then 45 else 95).

Definition dec_char (c : ascii) : option N :=
  let n := N_of_ascii c in
  if (65 <=? n) && (n <=? 90) then Some (n - 65)
  else if (97 <=? n) && (n <=? 122) then Some (n - 71)
  else if (48 <=? n) && (n <=? 57) then Some (n + 4)
  else if n =? 45 then Some 62 else if n =? 95 then Some 63 else None.

Definition pad_char : ascii := "="%char.

(** [EncodeToString]; [pad] selects [URLEncoding]. *)
Fixpoint EncodeToString (pad : bool) (s : string) : string :=
  match s with
  | EmptyString => EmptyString
  | String a EmptyString =>
      let v := N_of_ascii a * 65536 in
      String (enc_char (v / 262144)) (String (enc_char (v / 4096 mod 64))
        (if pad then String pad_char (String pad_char EmptyString) else EmptyString))
  | String a (String b EmptyString) =>
      let v := N_of_ascii a * 65536 + N_of_ascii b * 256 in
      String (enc_char (v / 262144)) (String (enc_char (v / 4096 mod 64))
        (String (enc_char (v / 64 mod 64))
           (if pad then String pad_char EmptyString else EmptyString)))
  | String a (String b (String c rest)) =>
      let v := N_of_ascii a * 65536 + N_of_ascii b * 256 + N_of_ascii c in
      String (enc_char (v / 262144)) (String (enc_char (v / 4096 mod 64))
        (String (enc_char (v / 64 mod 64)) (String (enc_char (v mod 64))
           (EncodeToString pad rest))))
  end.

Fixpoint skip_newlines (s : string) : string :=
  match s with
  | EmptyString => EmptyString
  | String c rest =>
      if (N_of_ascii c =? 10) || (N_of_ascii c =? 13) then skip_newlines rest
      else String c (skip_newlines rest)
  end.

Definition byte_of (n : N) : ascii := ascii_of_N (n mod 256).

(** Two or three characters end the text: the bytes they carry. *)
Definition decode_two (a b : ascii) : option string :=
  x ← dec_char a; y ← dec_char b;
  Some (String (byte_of ((x * 262144 + y * 4096) / 65536)) EmptyString).
Definition decode_three (a b c : ascii) : option string :=
  x ← dec_char a; y ← dec_char b; z ← dec_char c;
  let v := x * 262144 + y * 4096 + z * 64 in
  Some (String (byte_of (v / 65536)) (String (byte_of (v / 256)) EmptyString)).

(** [None] is a [CorruptInputError]. *)
Fixpoint decode (pad : bool) (s : string) : option string :=
  match s with
  | EmptyString => Some EmptyString
  | String a (String b EmptyString) => if pad then None else decode_two a b
  | String a (String b (String c EmptyString)) => if pad then None else decode_three a b c
  | String a (String b (String c (String d rest))) =>
      if pad && Ascii.eqb d pad_char then
        match rest with
        | EmptyString => if Ascii.eqb c pad_char then decode_two a b else decode_three a b c
        | _ => None
        end
      else
        x ← dec_char a; y ← dec_char b; z ← dec_char c; w ← dec_char d;
        more ← decode pad rest;
        let v := x * 262144 + y * 4096 + z * 64 + w in
        Some (String (byte_of (v / 65536)) (String (byte_of (v / 256)) (String (byte_of v) more)))
  | _ => None
  end.
Definition DecodeString (pad : bool) (s : string) : option string := decode pad (skip_newlines s).

(** ** Round trip *)
Definition sextets : list N := N.of_nat <$> seq 0 64.

Lemma sextets_ok :
  forallb (λ x, match dec_char (enc_char x) with Some y => x =? y | None => false end
                && negb (Ascii.eqb (enc_char x) pad_char)
                && negb (N_of_ascii (enc_char x) =? 10) && negb (N_of_ascii (enc_char x) =? 13))
          sextets = true.
Proof. vm_compute. reflexivity. Qed.

Lemma sextet_facts x : x < 64 →
  dec_char (enc_char x) = Some x ∧ Ascii.eqb (enc_char x) pad_char = false ∧
  (N_of_ascii (enc_char x) =? 10) = false ∧ (N_of_ascii (enc_char x) =? 13) = false.
Proof.
  intros Hx. pose proof sextets_ok as H. rewrite forallb_forall in H.
  specialize (H x). unfold sextets in H.
  assert (Hin : In x (N.of_nat <$> seq 0 64)).
  { apply list_elem_of_In, list_elem_of_fmap. exists (N.to_nat x). split; [lia|].
    apply elem_of_seq. lia. }
  apply H in Hin. rewrite !andb_true_iff, !negb_true_iff in Hin.
  destruct Hin as [[[H1 H2] H3] H4]. destruct (dec_char (enc_char x)); [|done].
  apply N.eqb_eq in H1. subst. done.
Qed.

Lemma byte_bound c : N_of_ascii c < 256.
Proof. apply N_ascii_bounded. Qed.

Lemma byte_of_spec n c : n mod 256 = N_of_ascii c → byte_of n = c.
Proof. intros H. unfold byte_of. rewrite H. apply ascii_N_embedding. Qed.

(** The arithmetic of one group. *)
Lemma group_digits v : v < 16777216 →
  v / 262144 < 64 ∧ v / 4096 mod 64 < 64 ∧ v / 64 mod 64 < 64 ∧ v mod 64 < 64 ∧
  v / 262144 * 262144 + v / 4096 mod 64 * 4096 + v / 64 mod 64 * 64 + v mod 64 = v.
Proof.
  intros Hv.
  assert (E1 : v / 4096 = v / 64 / 64) by (rewrite N.Div0.div_div; reflexivity).
  assert (E2 : v / 262144 = v / 64 / 64 / 64) by (rewrite !N.Div0.div_div; reflexivity).
  rewrite E1, E2.
  pose proof (N.div_mod v 64 ltac:(done)). pose proof (N.div_mod (v / 64) 64 ltac:(done)).
  pose proof (N.div_mod (v / 64 / 64) 64 ltac:(done)).
  pose proof (N.mod_lt v 64 ltac:(done)). pose proof (N.mod_lt (v / 64) 64 ltac:(done)).
  pose proof (N.mod_lt (v / 64 / 64) 64 ltac:(done)).
  generalize dependent (v / 64 / 64 / 64). generalize dependent (v / 64 / 64 mod 64).
  generalize dependent (v / 64 / 64). generalize dependent (v / 64 mod 64).
  generalize dependent (v / 64). generalize dependent (v mod 64). intros. lia.
Qed.

Lemma three_bytes a b c : a < 256 → b < 256 → c < 256 →
  (a * 65536 + b * 256 + c) / 65536 mod 256 = a ∧ (a * 65536 + b * 256 + c) / 256 mod 256 = b ∧
  (a * 65536 + b * 256 + c) mod 256 = c.
Proof.
  intros Ha Hb Hc.
  assert (E1 : (a * 65536 + b * 256 + c) / 65536 = a).
  { replace (a * 65536 + b * 256 + c) with (a * 65536 + (b * 256 + c)) by lia.
    rewrite N.div_add_l, N.div_small by lia. lia. }
  assert (E2 : (a * 65536 + b * 256 + c) / 256 = a * 256 + b).
  { replace (a * 65536 + b * 256 + c) with ((a * 256 + b) * 256 + c) by lia.
    rewrite N.div_add_l, N.div_small by lia. lia. }
  rewrite E1, E2. split_and!.
  - by apply N.mod_small.
  - rewrite N.add_comm, N.Div0.mod_add. by apply N.mod_small.
  - replace (a * 65536 + b * 256 + c) with (c + (a * 256 + b) * 256) by lia.
    rewrite N.Div0.mod_add. by apply N.mod_small.
Qed.

(** Strings, three bytes at a time. *)
Lemma string_ind3 (P : string → Prop) :
  P EmptyString → (∀ a, P (String a EmptyString)) → (∀ a b, P (String a (String b EmptyString))) →
  (∀ a b c s, P s → P (String a (String b (String c s)))) → ∀ s, P s.
Proof.
  intros H0 H1 H2 H3.
  assert (H : ∀ s, P s ∧ (∀ a, P (String a s)) ∧ ∀ a b, P (String a (String b s))).
  { induction s as [|c s (IH1 & IH2 & IH3)]; [done|]. split_and!; auto. }
  intros s. apply H.
Qed.

Lemma skip_newlines_sextet x s : x < 64 →
  skip_newlines (String (enc_char x) s) = String (enc_char x) (skip_newlines s).
Proof. intros H. destruct (sextet_facts x H) as (_ & _ & H1 & H2). cbn [skip_newlines]. by rewrite H1, H2. Qed.

Ltac group a b c :=
  pose proof (byte_bound a); pose proof (byte_bound b); pose proof (byte_bound c).

Lemma skip_newlines_encode pad s : skip_newlines (EncodeToString pad s) = EncodeToString pad s.
Proof.
  induction s as [|a|a b|a b c s IH] using string_ind3; [done| | |]; cbn [EncodeToString].
  - pose proof (byte_bound a). destruct (group_digits (N_of_ascii a * 65536)) as (G1 & G2 & _); [lia|].
    rewrite !skip_newlines_sextet by done. by destruct pad.
  - pose proof (byte_bound a). pose proof (byte_bound b).
    destruct (group_digits (N_of_ascii a * 65536 + N_of_ascii b * 256)) as (G1 & G2 & G3 & _); [lia|].
    rewrite !skip_newlines_sextet by done. by destruct pad.
  - group a b c. set (v := N_of_ascii a * 65536 + N_of_ascii b * 256 + N_of_ascii c).
    destruct (group_digits v) as (G1 & G2 & G3 & G4 & _); [unfold v; lia|].
    rewrite !skip_newlines_sextet by done. by rewrite IH.
Qed.

Lemma decode_encode pad s : decode pad (EncodeToString pad s) = Some s.
Proof.
  induction s as [|a|a b|a b c s IH] using string_ind3; [done| | |]; cbn [EncodeToString].
  - pose proof (byte_bound a). destruct (group_digits (N_of_ascii a * 65536)) as (G1 & G2 & _ & _ & G5); [lia|].
    assert (E : decode_two (enc_char (N_of_ascii a * 65536 / 262144))
                  (enc_char (N_of_ascii a * 65536 / 4096 mod 64)) = Some (String a EmptyString)).
    { unfold decode_two. rewrite (proj1 (sextet_facts _ G1)), (proj1 (sextet_facts _ G2)). cbn.
      f_equal. f_equal. apply byte_of_spec.
      assert (V : N_of_ascii a * 65536 / 262144 * 262144 + N_of_ascii a * 65536 / 4096 mod 64 * 4096
                  = N_of_ascii a * 65536).
      { assert (N_of_ascii a * 65536 mod 64 = 0).
        { replace (N_of_ascii a * 65536) with (N_of_ascii a * 1024 * 64) by lia. apply N.Div0.mod_mul. }
        assert (N_of_ascii a * 65536 / 64 mod 64 = 0).
        { replace (N_of_ascii a * 65536) with (N_of_ascii a * 1024 * 64) by lia.
          rewrite N.div_mul by done. replace (N_of_ascii a * 1024) with (N_of_ascii a * 16 * 64) by lia.
          apply N.Div0.mod_mul. }
        lia. }
      rewrite V, N.div_mul by done. by apply N.mod_small. }
    destruct pad; exact E.
  - pose proof (byte_bound a). pose proof (byte_bound b).
    set (v := N_of_ascii a * 65536 + N_of_ascii b * 256).
    destruct (group_digits v) as (G1 & G2 & G3 & G4 & G5); [unfold v; lia|].
    assert (E : decode_three (enc_char (v / 262144)) (enc_char (v / 4096 mod 64))
                  (enc_char (v / 64 mod 64)) = Some (String a (String b EmptyString))).
    { unfold decode_three. rewrite (proj1 (sextet_facts _ G1)), (proj1 (sextet_facts _ G2)),
        (proj1 (sextet_facts _ G3)). cbn.
      assert (V : v / 262144 * 262144 + v / 4096 mod 64 * 4096 + v / 64 mod 64 * 64 = v).
      { assert (v mod 64 = 0).
        { replace v with ((N_of_ascii a * 1024 + N_of_ascii b * 4) * 64) by (unfold v; lia).
          apply N.Div0.mod_mul. }
        lia. }
      rewrite V. destruct (three_bytes (N_of_ascii a) (N_of_ascii b) 0) as (B1 & B2 & _); [done|done|lia|].
      rewrite N.add_0_r in B1, B2. fold v in B1, B2. by rewrite !(byte_of_spec _ _ B1), !(byte_of_spec _ _ B2). }
    destruct pad; [|exact E]. cbn [decode andb].
    change (Ascii.eqb pad_char pad_char) with true. cbn [andb].
    by rewrite (proj1 (proj2 (sextet_facts _ G3))).
  - group a b c. set (v := N_of_ascii a * 65536 + N_of_ascii b * 256 + N_of_ascii c).
    destruct (group_digits v) as (G1 & G2 & G3 & G4 & G5); [unfold v; lia|].
    cbn [decode]. rewrite (proj1 (proj2 (sextet_facts _ G4))), andb_false_r.
    rewrite (proj1 (sextet_facts _ G1)), (proj1 (sextet_facts _ G2)), (proj1 (sextet_facts _ G3)),
      (proj1 (sextet_facts _ G4)). cbn [mbind option_bind].
    rewrite IH. cbn [mbind option_bind]. rewrite G5.
    destruct (three_bytes (N_of_ascii a) (N_of_ascii b) (N_of_ascii c)) as (B1 & B2 & B3); [done..|].
    fold v in B1, B2, B3. by rewrite (byte_of_spec _ _ B1), (byte_of_spec _ _ B2), (byte_of_spec _ _ B3).
Qed.

Lemma Decode_Encode pad s : DecodeString pad (EncodeToString pad s) = Some s.
Proof. unfold DecodeString. rewrite skip_newlines_encode. apply decode_encode. Qed.

Lemma Encode_inj pad s t : EncodeToString pad s = EncodeToString pad t → s = t.
Proof.
  intros E. pose proof (Decode_Encode pad s) as H. rewrite E, Decode_Encode in H. congruence.
Qed.

(** The length of an encoding without padding: 4 characters for 3 bytes. *)
Lemma Encode_raw_length s :
  (String.length (EncodeToString false s) = (4 * String.length s + 2) / 3)%nat.
Proof.
  induction s as [|a|a b|a b c s IH] using string_ind3; [done..|].
  cbn [EncodeToString String.length]. rewrite IH.
  replace (4 * Datatypes.S (Datatypes.S (Datatypes.S (String.length s))) + 2)%nat
    with (4 * String.length s + 2 + 4 * 3)%nat by lia.
  rewrite Nat.div_add by lia. lia.
Qed.
