(* ===== verification/GoSha256.v ===== *)
(** * Package [crypto/sha256]

    FIPS 180-4 on byte strings, with 32-bit words as [N]. *)
From Stdlib Require Import NArith Lia Ascii.
From stdpp Require Import base list strings.
From S2P Require Import Prelude.
Local Open Scope N_scope.

Definition mask32 : N := 4294967295.
Definition add32 (x y : N) : N := N.land (x + y) mask32.
Definition rotr (n x : N) : N := N.lor (N.shiftr x n) (N.land (N.shiftl x (32 - n)) mask32).
Definition not32 (x : N) : N := N.lxor x mask32.

Definition Ch (x y z : N) : N := N.lxor (N.land x y) (N.land (not32 x) z).
Definition Maj (x y z : N) : N := N.lxor (N.lxor (N.land x y) (N.land x z)) (N.land y z).
Definition Sigma0 (x : N) : N := N.lxor (N.lxor (rotr 2 x) (rotr 13 x)) (rotr 22 x).
Definition Sigma1 (x : N) : N := N.lxor (N.lxor (rotr 6 x) (rotr 11 x)) (rotr 25 x).
Definition sigma0 (x : N) : N := N.lxor (N.lxor (rotr 7 x) (rotr 18 x)) (N.shiftr x 3).
Definition sigma1 (x : N) : N := N.lxor (N.lxor (rotr 17 x) (rotr 19 x)) (N.shiftr x 10).

(** The constants: the first 32 bits of the fractional parts of the cube roots
    of the first 64 primes, and of the square roots of the first eight. *)
Definition is_prime (n : N) : bool :=
  (2 <=? n) && forallb (λ d, negb (n mod (N.of_nat d + 2) =? 0)) (seq 0 (N.to_nat (N.sqrt n) - 1)).
Definition primes : list N := base.filter (λ n, is_prime n = true) (N.of_nat <$> seq 0 312).

(** The largest [r] below [2 ^ bits] whose cube is at most [n], bit by bit. *)
Fixpoint cube_root (bits : nat) (r n : N) : N :=
  match bits with
  | O => r
  | S b => let r' := r + 2 ^ N.of_nat b in cube_root b (if r' ^ 3 <=? n then r' else r) n
  end.

Definition K256 : list N :=
  Eval vm_compute in (λ p, N.land (cube_root 36 0 (p * 2 ^ 96)) mask32) <$> primes.
Definition H256 : list N :=
  Eval vm_compute in (λ p, N.land (N.sqrt (p * 2 ^ 64)) mask32) <$> take 8 primes.

(** The message schedule: a window of the last sixteen words. *)
Fixpoint schedule (n : nat) (w : list N) : list N :=
  match n with
  | O => []
  | S n' =>
      let next := add32 (add32 (sigma1 (nth 14 w 0)) (nth 9 w 0))
                        (add32 (sigma0 (nth 1 w 0)) (nth 0 w 0)) in
      match w with
      | [] => []
      | x :: rest => x :: schedule n' (rest ++ [next])
      end
  end.

Definition round (h : list N) (kw : N * N) : list N :=
  match h with
  | [a; b; c; d; e; f; g; hh] =>
      let t1 := add32 (add32 hh (Sigma1 e)) (add32 (Ch e f g) (add32 kw.1 kw.2)) in
      let t2 := add32 (Sigma0 a) (Maj a b c) in
      [add32 t1 t2; a; b; c; add32 d t1; e; f; g]
  | _ => h
  end.

Definition compress (h block : list N) : list N :=
  zip_with add32 h (foldl round h (zip K256 (schedule 64 block))).

(** Padding: 0x80, zeros, the length in bits on eight bytes. *)
Definition be_bytes (n : nat) (x : N) : list N :=
  (λ i, N.land (N.shiftr x (8 * N.of_nat (n - 1 - i))) 255) <$> seq 0 n.
Definition pad_message (m : list N) : list N :=
  let len := length m in
  let zeros := ((119 - len mod 64) mod 64)%nat in
  m ++ [128] ++ replicate zeros 0 ++ be_bytes 8 (8 * N.of_nat len).

Fixpoint words (n : nat) (m : list N) : list N :=
  match n with
  | O => []
  | S n' => match m with
            | a :: b :: c :: d :: rest =>
                (a * 16777216 + b * 65536 + c * 256 + d) :: words n' rest
            | _ => []
            end
  end.

Fixpoint hash_blocks (n : nat) (h : list N) (m : list N) : list N :=
  match n with
  | O => h
  | S n' => hash_blocks n' (compress h (words 16 (take 64 m))) (drop 64 m)
  end.

Definition bytes_of (s : string) : list N := N_of_ascii <$> String.list_ascii_of_string s.
Definition string_of_bytes (l : list N) : string :=
  String.string_of_list_ascii (ascii_of_N <$> l).

(** [h.Write(s); h.Sum(nil)]. *)
Definition Sum256 (s : string) : string :=
  let m := pad_message (bytes_of s) in
  string_of_bytes (concat (be_bytes 4 <$> hash_blocks (length m / 64) H256 m)).

(** ** The digest has 32 bytes *)
Lemma round_length h kw : length (round h kw) = length h.
Proof.
  destruct h as [|a [|b [|c [|d [|e [|f [|g [|hh [|x h]]]]]]]]]; reflexivity.
Qed.

Lemma rounds_length l h : length (foldl round h l) = length h.
Proof.
  revert h. induction l as [|kw l IH]; intros h; [done|]. cbn. by rewrite IH, round_length.
Qed.

Lemma compress_length h b : length (compress h b) = length h.
Proof. unfold compress. rewrite length_zip_with, rounds_length. apply Nat.min_id. Qed.

Lemma hash_blocks_length n h m : length (hash_blocks n h m) = length h.
Proof.
  revert h m. induction n as [|n IH]; intros h m; [done|]. cbn. by rewrite IH, compress_length.
Qed.

Lemma string_of_bytes_length l : String.length (string_of_bytes l) = length l.
Proof. unfold string_of_bytes. induction l as [|x l IH]; [done|]. cbn. by rewrite <- IH. Qed.

Lemma Sum256_length s : String.length (Sum256 s) = 32%nat.
Proof.
  unfold Sum256. rewrite string_of_bytes_length.
  set (h := hash_blocks _ _ _). assert (Hl : length h = 8%nat) by apply hash_blocks_length.
  clearbody h. destruct h as [|a [|b [|c [|d [|e [|f [|g [|hh [|x h]]]]]]]]];
    try discriminate Hl. reflexivity.
Qed.
