(* ===== verification/GoAesGcm.v ===== *)
(** * Packages [crypto/aes] and [crypto/cipher]: AES in Galois/Counter mode

    FIPS 197 encryption for keys of 16, 24 and 32 bytes, and GCM (NIST SP
    800-38D) with a 12-byte nonce, a 16-byte tag and no additional data, as
    [cipher.NewGCM] makes it.  Bytes inside AES are [N]; texts are strings. *)
From Stdlib Require Import NArith Lia Ascii.
From stdpp Require Import base list strings.
From S2P Require Import Prelude GoSha256.
Local Open Scope N_scope.

Definition sbox : list N :=
  [99; 124; 119; 123; 242; 107; 111; 197; 48; 1; 103; 43; 254; 215; 171; 118;
   202; 130; 201; 125; 250; 89; 71; 240; 173; 212; 162; 175; 156; 164; 114; 192;
   183; 253; 147; 38; 54; 63; 247; 204; 52; 165; 229; 241; 113; 216; 49; 21;
   4; 199; 35; 195; 24; 150; 5; 154; 7; 18; 128; 226; 235; 39; 178; 117;
   9; 131; 44; 26; 27; 110; 90; 160; 82; 59; 214; 179; 41; 227; 47; 132;
   83; 209; 0; 237; 32; 252; 177; 91; 106; 203; 190; 57; 74; 76; 88; 207;
   208; 239; 170; 251; 67; 77; 51; 133; 69; 249; 2; 127; 80; 60; 159; 168;
   81; 163; 64; 143; 146; 157; 56; 245; 188; 182; 218; 33; 16; 255; 243; 210;
   205; 12; 19; 236; 95; 151; 68; 23; 196; 167; 126; 61; 100; 93; 25; 115;
   96; 129; 79; 220; 34; 42; 144; 136; 70; 238; 184; 20; 222; 94; 11; 219;
   224; 50; 58; 10; 73; 6; 36; 92; 194; 211; 172; 98; 145; 149; 228; 121;
   231; 200; 55; 109; 141; 213; 78; 169; 108; 86; 244; 234; 101; 122; 174; 8;
   186; 120; 37; 46; 28; 166; 180; 198; 232; 221; 116; 31; 75; 189; 139; 138;
   112; 62; 181; 102; 72; 3; 246; 14; 97; 53; 87; 185; 134; 193; 29; 158;
   225; 248; 152; 17; 105; 217; 142; 148; 155; 30; 135; 233; 206; 85; 40; 223;
   140; 161; 137; 13; 191; 230; 66; 104; 65; 153; 45; 15; 176; 84; 187; 22].

Definition SubByte (x : N) : N := nth (N.to_nat x) sbox 0.
Definition xtime (x : N) : N := let y := 2 * x in if y <? 256 then y else N.lxor y 283.
Definition xor_list (l k : list N) : list N := zip_with N.lxor l k.

(** ** The key schedule

    [acc] holds the words so far, the last one first; [rc] is the next round
    constant and [i] the index of the next word. *)
Definition RotWord (w : list N) : list N := match w with a :: r => r ++ [a] | [] => [] end.

Fixpoint expand (Nk n i : nat) (rc : N) (acc : list (list N)) : list (list N) :=
  match n with
  | O => acc
  | S n' =>
      let temp := hd [] acc in
      let first := (i mod Nk =? 0)%nat in
      let temp := if first then xor_list (SubByte <$> RotWord temp) [rc; 0; 0; 0]
                  else if (6 <? Nk)%nat && (i mod Nk =? 4)%nat then SubByte <$> temp else temp in
      expand Nk n' (S i) (if first then xtime rc else rc)
        (xor_list (nth (Nk - 1) acc []) temp :: acc)
  end.

Fixpoint key_words (n : nat) (l : list N) : list (list N) :=
  match n with O => [] | S n' => take 4 l :: key_words n' (drop 4 l) end.

(** The round keys, 16 bytes each. *)
Fixpoint round_keys (n : nat) (ws : list (list N)) : list (list N) :=
  match n with O => [] | S n' => concat (take 4 ws) :: round_keys n' (drop 4 ws) end.

Definition key_expansion (key : list N) : list (list N) :=
  let Nk := (length key / 4)%nat in
  let rounds := (Nk + 6)%nat in
  round_keys (rounds + 1) (rev (expand Nk (4 * (rounds + 1) - Nk) Nk 1 (rev (key_words Nk key)))).

(** ** The cipher: the state is the 16 bytes of the block, column by column *)
Definition ShiftRows (s : list N) : list N :=
  (λ i, nth i s 0) <$> [0; 5; 10; 15; 4; 9; 14; 3; 8; 13; 2; 7; 12; 1; 6; 11]%nat.

Fixpoint MixColumns (s : list N) : list N :=
  match s with
  | a :: b :: c :: d :: rest =>
      let m x y z t := N.lxor (N.lxor (xtime x) (N.lxor (xtime y) y)) (N.lxor z t) in
      m a b c d :: m b c d a :: m c d a b :: m d a b c :: MixColumns rest
  | _ => []
  end.

Fixpoint aes_rounds (s : list N) (ks : list (list N)) : list N :=
  match ks with
  | [] => s
  | [k] => xor_list (ShiftRows (SubByte <$> s)) k
  | k :: rest => aes_rounds (xor_list (MixColumns (ShiftRows (SubByte <$> s))) k) rest
  end.

Definition aes_block (ks : list (list N)) (block : list N) : list N :=
  match ks with [] => block | k :: rest => aes_rounds (xor_list block k) rest end.

(** The vectors of FIPS 197, appendix C. *)
Example aes_fips197 :
  let key n := N.of_nat <$> seq 0 n in
  let block := (λ i, 17 * N.of_nat i) <$> seq 0 16 in
  aes_block (key_expansion (key 16%nat)) block
    = [105; 196; 224; 216; 106; 123; 4; 48; 216; 205; 183; 128; 112; 180; 197; 90] ∧
  aes_block (key_expansion (key 24%nat)) block
    = [221; 169; 124; 164; 134; 76; 223; 224; 110; 175; 112; 160; 236; 13; 113; 145] ∧
  aes_block (key_expansion (key 32%nat)) block
    = [142; 162; 183; 202; 81; 103; 69; 191; 234; 252; 73; 144; 75; 73; 96; 137].
Proof. vm_compute. by split_and!. Qed.

(** ** GCM *)

(** A 128-bit value, the first byte the most significant. *)
Definition be_value (l : list N) : N := foldl (λ v b, v * 256 + b) 0 l.

(** The product of [x] and [y] in GF(2^128), bits taken from the left. *)
Fixpoint gf_mul (n : nat) (x z v : N) : N :=
  match n with
  | O => z
  | S n' =>
      gf_mul n' x (if N.testbit x (N.of_nat n') then N.lxor z v else z)
        (if N.testbit v 0 then N.lxor (N.div2 v) (N.shiftl 225 120) else N.div2 v)
  end.

(** [GHASH] of the data's blocks, the last one padded with zeros. *)
Fixpoint ghash (fuel : nat) (h y : N) (l : list N) : N :=
  match fuel with
  | O => y
  | S fuel' =>
      match l with
      | [] => y
      | _ => let block := take 16 l ++ replicate (16 - length (take 16 l)) 0 in
             ghash fuel' h (gf_mul 128 (N.lxor y (be_value block)) 0 h) (drop 16 l)
      end
  end.

Definition byte_list (s : string) : list N := N_of_ascii <$> String.list_ascii_of_string s.

(** The counter block number [i] of a 12-byte nonce; the tag uses number 1. *)
Definition counter_block (nonce : list N) (i : N) : list N := nonce ++ be_bytes 4 i.

Definition key_stream (ks : list (list N)) (nonce : list N) (blocks : nat) : list N :=
  concat ((λ i, aes_block ks (counter_block nonce (N.of_nat i + 2))) <$> seq 0 blocks).

Definition xor_byte (a b : ascii) : ascii :=
  match a, b with
  | Ascii a0 a1 a2 a3 a4 a5 a6 a7, Ascii b0 b1 b2 b3 b4 b5 b6 b7 =>
      Ascii (xorb a0 b0) (xorb a1 b1) (xorb a2 b2) (xorb a3 b3)
            (xorb a4 b4) (xorb a5 b5) (xorb a6 b6) (xorb a7 b7)
  end.

(** The text xored with the key stream, which has as many bytes or more. *)
Fixpoint xor_stream (s : string) (stream : list N) : string :=
  match s with
  | EmptyString => EmptyString
  | String a s' => String (xor_byte a (ascii_of_N (hd 0 stream))) (xor_stream s' (tl stream))
  end.

Definition ctr_crypt (ks : list (list N)) (nonce : list N) (s : string) : string :=
  xor_stream s (key_stream ks nonce ((String.length s + 15) / 16)).

Definition gcm_tag (ks : list (list N)) (nonce : list N) (ciphertext : string) : string :=
  let h := be_value (aes_block ks (replicate 16 0)) in
  let c := byte_list ciphertext in
  let y := ghash (S (length c)) h 0 c in
  let y := gf_mul 128 (N.lxor y (8 * N.of_nat (length c))) 0 h in
  string_of_bytes (be_bytes 16 (N.lxor y (be_value (aes_block ks (counter_block nonce 1))))).

(** [aes.NewCipher] and [cipher.NewGCM]: the key's length is checked. *)
Definition valid_key (key : string) : bool := bool_decide (String.length key ∈ [16; 24; 32]%nat).
Definition KeySizeError : error := Sentinel "aes.KeySizeError" "crypto/aes: invalid key size".
Definition NewGCM (key : string) : result (list (list N)) :=
  if valid_key key then Ok (key_expansion (byte_list key)) else Err KeySizeError.

(** [aead.Seal(nil, nonce, plaintext, nil)] and [aead.Open], with the nonce's
    12 bytes, which both check first and panic about. *)
Definition Seal (ks : list (list N)) (nonce plaintext : string) : string :=
  let c := ctr_crypt ks (byte_list nonce) plaintext in c +:+ gcm_tag ks (byte_list nonce) c.

Definition errOpen : error := Sentinel "cipher.errOpen" "cipher: message authentication failed".
Definition Open (ks : list (list N)) (nonce sealed : string) : result string :=
  let n := String.length sealed in
  if (n <? 16)%nat then Err errOpen
  else let c := String.substring 0 (n - 16) sealed in
       let t := String.substring (n - 16) 16 sealed in
       if decide (t = gcm_tag ks (byte_list nonce) c)
       then Ok (ctr_crypt ks (byte_list nonce) c) else Err errOpen.

(** Test cases 13 and 14 of the GCM specification. *)
Fixpoint zeros (n : nat) : string := match n with O => EmptyString | S k => String Ascii.zero (zeros k) end.
Example gcm_vectors :
  let ks := key_expansion (byte_list (zeros 32)) in
  byte_list (Seal ks (zeros 12) "")
    = [83; 15; 138; 251; 199; 69; 54; 185; 169; 99; 180; 241; 196; 203; 115; 139] ∧
  byte_list (Seal ks (zeros 12) (zeros 16))
    = [206; 167; 64; 61; 77; 96; 107; 110; 7; 78; 197; 211; 186; 243; 157; 24;
       208; 209; 200; 167; 153; 153; 107; 240; 38; 91; 152; 181; 212; 138; 185; 25].
Proof. vm_compute. by split_and!. Qed.

(** ** Decryption undoes encryption *)

Lemma xor_byte_twice a b : xor_byte (xor_byte a b) b = a.
Proof. destruct a, b; cbn. by rewrite !xorb_assoc, !xorb_nilpotent, !xorb_false_r. Qed.

Lemma xor_stream_length s st : String.length (xor_stream s st) = String.length s.
Proof. revert st. induction s as [|a s IH]; intros st; cbn; [done|by rewrite IH]. Qed.

Lemma xor_stream_twice s st : xor_stream (xor_stream s st) st = s.
Proof. revert st. induction s as [|a s IH]; intros st; cbn; [done|by rewrite xor_byte_twice, IH]. Qed.

Lemma ctr_crypt_length ks n s : String.length (ctr_crypt ks n s) = String.length s.
Proof. apply xor_stream_length. Qed.

Lemma ctr_crypt_twice ks n s : ctr_crypt ks n (ctr_crypt ks n s) = s.
Proof. unfold ctr_crypt at 1. rewrite ctr_crypt_length. apply xor_stream_twice. Qed.

Lemma be_bytes_length n x : length (be_bytes n x) = n.
Proof. unfold be_bytes. by rewrite length_fmap, length_seq. Qed.

Lemma gcm_tag_length ks n c : String.length (gcm_tag ks n c) = 16%nat.
Proof. unfold gcm_tag. by rewrite string_of_bytes_length, be_bytes_length. Qed.

Lemma substring_app_l s t : String.substring 0 (String.length s) (s +:+ t) = s.
Proof. induction s as [|a s IH]; [by destruct t|]. rewrite append_cons. cbn. by rewrite IH. Qed.

Lemma substring_all t : String.substring 0 (String.length t) t = t.
Proof. induction t as [|a t IH]; cbn; [done|by f_equal]. Qed.

Lemma substring_app_r s t :
  String.substring (String.length s) (String.length t) (s +:+ t) = t.
Proof. induction s as [|a s IH]; [apply substring_all|]. rewrite append_cons. apply IH. Qed.

Lemma Seal_length ks n p : String.length (Seal ks n p) = (String.length p + 16)%nat.
Proof. unfold Seal. by rewrite append_length, gcm_tag_length, ctr_crypt_length. Qed.

Lemma Open_Seal ks n p : Open ks n (Seal ks n p) = Ok p.
Proof.
  unfold Open. rewrite Seal_length. destruct (Nat.ltb_spec (String.length p + 16) 16); [lia|].
  replace (String.length p + 16 - 16)%nat with (String.length p) by lia. unfold Seal.
  set (c := ctr_crypt ks (byte_list n) p).
  assert (E : String.length p = String.length c) by (symmetry; apply ctr_crypt_length).
  rewrite E, substring_app_l.
  pose proof (substring_app_r c (gcm_tag ks (byte_list n) c)) as Ht. rewrite gcm_tag_length in Ht.
  rewrite Ht. clear Ht.
  rewrite decide_True by done. unfold c. by rewrite ctr_crypt_twice.
Qed.
