(* ===== verification/Storage.v ===== *)
(** * The database of users, tokens and processed emails:
    [internal/storage/sqlite.go], [transaction.go], [cleanup.go]

    The tables of the schema in [migration.go] as maps from primary keys, and
    each method as the statements it executes.  SQLite enforces primary keys
    and UNIQUE.  Foreign keys, which the schema declares with ON DELETE CASCADE,
    are off unless a connection turns them on: no statement here does, but the
    configured path of the database may, so the deletion of users takes it as
    an argument; a reference that an insertion violates is then a failure of
    the engine, as any other.  CURRENT_TIMESTAMP
    has a resolution of one second.  A transaction works on a copy of the
    tables that [Commit] publishes (SQLite lets no other connection write in
    between).  Engine failures are arguments. *)
From Stdlib Require Import ZArith Lia Floats.SpecFloat.
From stdpp Require Import base gmap list strings pretty.
From S2P Require Import Prelude GoTime GoFloat Job.
Local Open Scope Z_scope.

(** ** [int64(d.Seconds())]

    [Seconds] adds the whole seconds and the fraction in binary64; the
    conversion to [int64] truncates. *)
Definition Seconds (d : Z) : spec_float :=
  SFadd 53 1024 (float64_of_Z (Z.quot d Second))
        (SFdiv 53 1024 (float64_of_Z (Z.rem d Second)) (float64_of_Z Second)).
Definition whole_seconds (d : Z) : Z := int64_of_float (Seconds d).

(** The interval a user gets back, [time.Duration(secs) * time.Second]. *)
Definition duration_of_seconds (secs : Z) : Z := wrap64 (secs * Second).

Definition CURRENT_TIMESTAMP (now : Z) : Z := Truncate now Second.

(** ** Errors *)
(** @src internal/storage/sqlite.go 14-14 ErrInvalidInput *)
Definition ErrInvalidInput : error := Sentinel "storage.ErrInvalidInput" "invalid input".
(** @src internal/storage/sqlite.go 15-15 ErrNotFound *)
Definition ErrNotFound : error := Sentinel "storage.ErrNotFound" "not found".
(** @src internal/storage/transaction.go 11-13 ErrTransactionClosed *)
Definition ErrTransactionClosed : error :=
  Sentinel "storage.ErrTransactionClosed" "transaction is already closed".
(** [sql.ErrTxDone], from a [sql.Tx] already committed or rolled back. *)
Definition ErrTxDone : error :=
  Sentinel "sql.ErrTxDone" "sql: transaction has already been committed or rolled back".

Definition invalid (msg : string) : error := wrap_post ErrInvalidInput msg.
Definition unique_failed (what : string) : error :=
  ExtError ("UNIQUE constraint failed: " +:+ what).

(** ** The tables *)
(** @src internal/storage/migration.go 42-50 migrations *)
Record UserRow := mkUserRow {
  gmail_user_id : string;
  google_token_valid : bool;
  digest_interval : Z;
  last_digest_sent : option Z;
  u_created_at : Z;
  u_updated_at : Z;
}.

(** @src internal/storage/migration.go 54-60 migrations *)
Record TokenRow := mkTokenRow {
  encrypted_token : string;
  t_nonce : string;
  t_created_at : Z;
  t_updated_at : Z;
}.

(** Users by [telegram_id], tokens by [user_id], the time of each processed
    (message, user). *)
(** @src internal/storage/migration.go 36-71 migrations *)
Record DB := mkDB {
  users : gmap Z UserRow;
  tokens : gmap string TokenRow;
  processed_emails : gmap (string * string) Z;
}.
Definition empty_DB : DB := mkDB ∅ ∅ ∅.

Definition set_users (m : gmap Z UserRow) (db : DB) : DB := mkDB m (tokens db) (processed_emails db).
Definition set_tokens (m : gmap string TokenRow) (db : DB) : DB :=
  mkDB (users db) m (processed_emails db).
Definition set_emails (m : gmap (string * string) Z) (db : DB) : DB := mkDB (users db) (tokens db) m.

(** UNIQUE(gmail_user_id). *)
Definition db_wf (db : DB) : Prop :=
  ∀ i j u v, users db !! i = Some u → users db !! j = Some v →
    gmail_user_id u = gmail_user_id v → i = j.

Definition gmail_taken (g : string) (m : gmap Z UserRow) : bool :=
  bool_decide (g ∈ gmail_user_id <$> (map_to_list m).*2).

(** ** Statements *)

(** INSERT INTO users (telegram_id, gmail_user_id, digest_interval). *)
(** @src internal/storage/sqlite.go 129-134 CreateUser *)
Definition insert_user (now id : Z) (g : string) (secs : Z) (db : DB) : result DB :=
  match users db !! id with
  | Some _ => Err (unique_failed "users.telegram_id")
  | None =>
      if gmail_taken g (users db) then Err (unique_failed "users.gmail_user_id")
      else Ok (set_users (<[id := mkUserRow g false secs None (CURRENT_TIMESTAMP now)
                                            (CURRENT_TIMESTAMP now)]> (users db)) db)
  end.

(** UPDATE users SET digest_interval = ?, updated_at = CURRENT_TIMESTAMP; the
    trigger of the second migration writes [updated_at] again. *)
(** @src internal/storage/sqlite.go 191-196 UpdateUser *)
Definition update_interval (now id secs : Z) (db : DB) : DB * nat :=
  match users db !! id with
  | None => (db, O)
  | Some u =>
      (set_users (<[id := mkUserRow (gmail_user_id u) (google_token_valid u) secs
                            (last_digest_sent u) (u_created_at u) (CURRENT_TIMESTAMP now)]>
                  (users db)) db, 1%nat)
  end.

(** INSERT OR REPLACE INTO tokens: the old row goes, with its times. *)
(** @src internal/storage/sqlite.go 92-93 StoreToken *)
Definition replace_token (now : Z) (userID token nonce : string) (db : DB) : DB :=
  set_tokens (<[userID := mkTokenRow token nonce (CURRENT_TIMESTAMP now) (CURRENT_TIMESTAMP now)]>
              (tokens db)) db.

(** INSERT INTO tokens ... ON CONFLICT(user_id) DO UPDATE: [created_at] stays. *)
(** @src internal/storage/transaction.go 124-131 StoreToken *)
Definition upsert_token (now : Z) (userID token nonce : string) (db : DB) : DB :=
  let created := match tokens db !! userID with
                 | Some r => t_created_at r
                 | None => CURRENT_TIMESTAMP now
                 end in
  set_tokens (<[userID := mkTokenRow token nonce created (CURRENT_TIMESTAMP now)]> (tokens db)) db.

(** INSERT OR REPLACE INTO processed_emails. *)
(** @src internal/storage/sqlite.go 218-223 MarkEmailProcessed *)
Definition replace_email (now : Z) (messageID userID : string) (db : DB) : DB :=
  set_emails (<[(messageID, userID) := CURRENT_TIMESTAMP now]> (processed_emails db)) db.

(** A statement that the engine may refuse. *)
Definition exec {A} (flt : db_faults) (r : result A) : result A :=
  match exec_fault flt with Some e => Err e | None => r end.

(** ** [SQLiteStorage] *)

(** @src internal/storage/sqlite.go 47-59 validateInput *)
Definition validateInput (telegramID : Z) (gmailUserID : string) (interval : Z) : result unit :=
  if telegramID <=? 0 then Err (invalid ": telegram ID must be positive")
  else if decide (gmailUserID = "") then Err (invalid ": gmail user ID cannot be empty")
  else if interval <=? 0 then Err (invalid ": digest interval must be positive")
  else Ok tt.

(** @src internal/storage/sqlite.go 61-73 validateTokenInput *)
Definition validateTokenInput (userID token nonce : string) : result unit :=
  if decide (userID = "") then Err (invalid ": user ID cannot be empty")
  else if decide (token = "") then Err (invalid ": token cannot be empty")
  else if decide (nonce = "") then Err (invalid ": nonce cannot be empty")
  else Ok tt.

(** @src internal/storage/sqlite.go 75-84 validateEmailInput *)
Definition validateEmailInput (messageID userID : string) : result unit :=
  if decide (messageID = "") then Err (invalid ": message ID cannot be empty")
  else if decide (userID = "") then Err (invalid ": user ID cannot be empty")
  else Ok tt.

(** A method that changes the tables: their new state and its answer. *)
Definition run (db : DB) (r : result DB) : DB * result unit :=
  match r with Ok db' => (db', Ok tt) | Err e => (db, Err e) end.

(** @src internal/storage/sqlite.go 86-95 StoreToken *)
Definition StoreToken (now : Z) (flt : db_faults) (userID token nonce : string) (db : DB)
  : DB * result unit :=
  run db (_ ← validateTokenInput userID token nonce;
          exec flt (Ok (replace_token now userID token nonce db))).

(** @src internal/storage/sqlite.go 97-102 DeleteToken *)
Definition DeleteToken (flt : db_faults) (userID : string) (db : DB) : DB * result unit :=
  run db (exec flt (Ok (set_tokens (delete userID (tokens db)) db))).

(** [QueryRow] over tokens: the row, [sql.ErrNoRows], or a failure. *)
(** @src internal/storage/sqlite.go 104-121 GetToken *)
Definition GetToken (flt : db_faults) (userID : string) (db : DB) : result (string * string) :=
  if decide (userID = "") then Err (invalid ": user ID cannot be empty")
  else match exec_fault flt with
       | Some e => Err (wrap_pre "failed to get token: " e)
       | None =>
           match tokens db !! userID with
           | None => Err (wrap_post ErrNotFound (": token not found for user " +:+ userID))
           | Some r => Ok (encrypted_token r, t_nonce r)
           end
       end.

(** @src internal/storage/sqlite.go 123-139 CreateUser *)
Definition CreateUser (now : Z) (flt : db_faults) (telegramID : Z) (gmailUserID : string)
    (interval : Z) (db : DB) : DB * result unit :=
  run db (_ ← validateInput telegramID gmailUserID interval;
          wrap_err "failed to create user: "
            (exec flt (insert_user now telegramID gmailUserID (whole_seconds interval) db))).

(** @src internal/storage/sqlite.go 18-27 User *)
Record User := mkUser {
  TelegramID : Z;
  GmailUserID : string;
  DigestInterval : Z;
  LastDigestSent : option Z;
  TokenValid : bool;
  CreatedAt : Z;
  UpdatedAt : Z;
}.

(** The row read into a [User], lines 147-179. *)
(** @src internal/storage/sqlite.go 147-179 GetUser *)
Definition scan_user (telegramID : Z) (u : UserRow) : User :=
  mkUser telegramID (gmail_user_id u) (duration_of_seconds (digest_interval u))
         (last_digest_sent u) (google_token_valid u) (u_created_at u) (u_updated_at u).

(** @src internal/storage/sqlite.go 141-180 GetUser *)
Definition GetUser (flt : db_faults) (telegramID : Z) (db : DB) : result User :=
  if telegramID <=? 0 then Err (invalid ": telegram ID must be positive")
  else match exec_fault flt with
       | Some e => Err (wrap_pre "failed to get user: " e)
       | None =>
           match users db !! telegramID with
           | None => Err (wrap_post ErrNotFound (": user not found with ID " +:+ pretty telegramID))
           | Some u => Ok (scan_user telegramID u)
           end
       end.

(** @src internal/storage/sqlite.go 182-210 UpdateUser *)
Definition UpdateUser (now : Z) (flt : db_faults) (telegramID interval : Z) (db : DB)
  : DB * result unit :=
  if telegramID <=? 0 then (db, Err (invalid ": telegram ID must be positive"))
  else if interval <=? 0 then (db, Err (invalid ": digest interval must be positive"))
  else match exec_fault flt with
       | Some e => (db, Err (wrap_pre "failed to update user: " e))
       | None =>
           let '(db', rows) := update_interval now telegramID (whole_seconds interval) db in
           match rows_fault flt with
           | Some e => (db', Err (wrap_pre "failed to get rows affected: " e))
           | None =>
               if (rows =? 0)%nat
               then (db', Err (wrap_post ErrNotFound (": user not found with ID "
                                                      +:+ pretty telegramID)))
               else (db', Ok tt)
           end
       end.

(** @src internal/storage/sqlite.go 212-228 MarkEmailProcessed *)
Definition MarkEmailProcessed (now : Z) (flt : db_faults) (messageID userID : string) (db : DB)
  : DB * result unit :=
  run db (_ ← validateEmailInput messageID userID;
          wrap_err "failed to mark email as processed: "
            (exec flt (Ok (replace_email now messageID userID db)))).

(** @src internal/storage/sqlite.go 230-247 IsEmailProcessed *)
Definition IsEmailProcessed (flt : db_faults) (messageID userID : string) (db : DB) : result bool :=
  _ ← validateEmailInput messageID userID;
  wrap_err "failed to check email status: "
    (exec flt (Ok (bool_decide (is_Some (processed_emails db !! (messageID, userID)))))).

(** ** Cleanup *)

(** [datetime('now', '-N seconds')]. *)
Definition cutoff (now period : Z) : Z := CURRENT_TIMESTAMP now - whole_seconds period * Second.

(** DELETE FROM processed_emails WHERE processed_at < ?. *)
(** @src internal/storage/cleanup.go 15-19 CleanupProcessedEmails *)
Definition delete_old_emails (limit : Z) (db : DB) : DB * nat :=
  (set_emails (filter (λ kv, ¬ kv.2 < limit) (processed_emails db)) db,
   size (filter (λ kv : string * string * Z, kv.2 < limit) (processed_emails db))).

(** The [gmail_user_id] of the users that satisfy a condition. *)
Definition gmails_of (P : UserRow → bool) (m : gmap Z UserRow) : list string :=
  gmail_user_id <$> (map_to_list (filter (λ kv : Z * UserRow, P kv.2 = true) m)).*2.

(** DELETE FROM tokens WHERE user_id IN (SELECT gmail_user_id FROM users WHERE ...). *)
(** @src internal/storage/cleanup.go 57-65 CleanupInactiveUsers *)
Definition delete_tokens_of (P : UserRow → bool) (db : DB) : DB * nat :=
  let gone (kv : string * TokenRow) := kv.1 ∈ gmails_of P (users db) in
  (set_tokens (filter (λ kv, ¬ gone kv) (tokens db)) db, size (filter gone (tokens db))).

(** ON DELETE CASCADE of both references to users(gmail_user_id). *)
(** @src internal/storage/migration.go 54-67 migrations *)
Definition cascade (gone : list string) (db : DB) : DB :=
  set_emails (filter (λ kv : string * string * Z, kv.1.2 ∉ gone) (processed_emails db))
    (set_tokens (filter (λ kv : string * TokenRow, kv.1 ∉ gone) (tokens db)) db).

(** DELETE FROM users WHERE ...; [fk] is whether the connection enforces
    foreign keys. *)
(** @src internal/storage/cleanup.go 70-74 CleanupInactiveUsers *)
Definition delete_users (fk : bool) (P : UserRow → bool) (db : DB) : DB * nat :=
  let db' := if fk then cascade (gmails_of P (users db)) db else db in
  (set_users (filter (λ kv : Z * UserRow, P kv.2 ≠ true) (users db)) db',
   size (filter (λ kv : Z * UserRow, P kv.2 = true) (users db))).

Definition token_invalid (u : UserRow) : bool := negb (google_token_valid u).
Definition inactive_since (limit : Z) (u : UserRow) : bool := u_updated_at u <? limit.

(** The statement's count, or the failure of [RowsAffected]. *)
Definition affected (flt : db_faults) (n : nat) : result Z :=
  match rows_fault flt with Some e => Err e | None => Ok (Z.of_nat n) end.

(** @src internal/storage/cleanup.go 9-25 CleanupProcessedEmails *)
Definition CleanupProcessedEmails (now : Z) (flt : db_faults) (period : Z) (db : DB) : DB * result Z :=
  if period <=? 0 then (db, Err (invalid ": retention period must be positive"))
  else match exec_fault flt with
       | Some e => (db, Err (wrap_pre "failed to cleanup processed emails: " e))
       | None => let '(db', n) := delete_old_emails (cutoff now period) db in (db', affected flt n)
       end.

(** @src internal/storage/cleanup.go 27-43 CleanupInvalidTokens *)
Definition CleanupInvalidTokens (flt : db_faults) (db : DB) : DB * result Z :=
  match exec_fault flt with
  | Some e => (db, Err (wrap_pre "failed to cleanup invalid tokens: " e))
  | None => let '(db', n) := delete_tokens_of token_invalid db in (db', affected flt n)
  end.

(** Failures of the four calls: BEGIN, the two deletions, COMMIT.  Every error
    leaves through the deferred rollback. *)
(** @src internal/storage/cleanup.go 45-89 CleanupInactiveUsers *)
Definition CleanupInactiveUsers (fk : bool) (now : Z) (begin_fault : option error) (flt1 flt2 : db_faults)
    (commit_fault : option error) (period : Z) (db : DB) : DB * result Z :=
  if period <=? 0 then (db, Err (invalid ": inactivity period must be positive"))
  else match begin_fault with
  | Some e => (db, Err (wrap_pre "failed to begin transaction: " e))
  | None =>
      let P := inactive_since (cutoff now period) in
      match exec_fault flt1 with
      | Some e => (db, Err (wrap_pre "failed to cleanup tokens for inactive users: " e))
      | None =>
          let '(db1, _) := delete_tokens_of P db in
          match exec_fault flt2 with
          | Some e => (db, Err (wrap_pre "failed to cleanup inactive users: " e))
          | None =>
              let '(db2, n) := delete_users fk P db1 in
              match affected flt2 n with
              | Err e => (db, Err (wrap_pre "failed to get rows affected: " e))
              | Ok deleted =>
                  match commit_fault with
                  | Some e => (db, Err (wrap_pre "failed to commit transaction: " e))
                  | None => (db2, Ok deleted)
                  end
              end
          end
      end
  end.

(** ** Transactions *)

(** [tx_db] is what the transaction sees; [tx_done] is the state of the
    [sql.Tx] it wraps. *)
(** @src internal/storage/transaction.go 15-19 Transaction *)
Record Transaction := mkTx { tx_db : DB; tx_done : bool; closed : bool }.

(** @src internal/storage/transaction.go 21-28 BeginTx *)
Definition BeginTx (flt : option error) (db : DB) : result Transaction :=
  match flt with
  | Some e => Err (wrap_pre "failed to begin transaction: " e)
  | None => Ok (mkTx db false false)
  end.

(** A commit that the engine refuses rolls back. *)
(** @src internal/storage/transaction.go 30-37 Commit *)
Definition Commit (flt : option error) (t : Transaction) (db : DB) : Transaction * DB * result unit :=
  if closed t then (t, db, Err ErrTransactionClosed)
  else let t' := mkTx (tx_db t) true true in
       if tx_done t then (t', db, Err ErrTxDone)
       else match flt with
            | Some e => (t', db, Err e)
            | None => (t', tx_db t, Ok tt)
            end.

(** What the transaction has done is dropped: the published tables [db] stay,
    also when the engine reports a failure, since the connection is given up. *)
(** @src internal/storage/transaction.go 39-46 Rollback *)
Definition Rollback (flt : option error) (t : Transaction) (db : DB) : Transaction * DB * result unit :=
  if closed t then (t, db, Err ErrTransactionClosed)
  else let t' := mkTx (tx_db t) true true in
       if tx_done t then (t', db, Err ErrTxDone)
       else match flt with Some e => (t', db, Err e) | None => (t', db, Ok tt) end.

(** A statement of the transaction. *)
Definition tx_exec {A} (flt : db_faults) (t : Transaction) (r : result A) : result A :=
  if tx_done t then Err ErrTxDone else exec flt r.
Definition tx_run (t : Transaction) (r : result DB) : Transaction * result unit :=
  match r with Ok db => (mkTx db (tx_done t) (closed t), Ok tt) | Err e => (t, Err e) end.

(** Unlike [SQLiteStorage.CreateUser] it does not validate its input. *)
(** @src internal/storage/transaction.go 48-60 CreateUser *)
Definition tx_CreateUser (now : Z) (flt : db_faults) (telegramID : Z) (gmailUserID : string)
    (interval : Z) (t : Transaction) : Transaction * result unit :=
  tx_run t (wrap_err "failed to create user: "
    (tx_exec flt t (insert_user now telegramID gmailUserID (whole_seconds interval) (tx_db t)))).

(** The missing row is a plain error here, not [ErrNotFound]. *)
(** @src internal/storage/transaction.go 62-97 GetUser *)
Definition tx_GetUser (flt : db_faults) (telegramID : Z) (t : Transaction) : result User :=
  row ← wrap_err "failed to get user: " (tx_exec flt t (Ok (users (tx_db t) !! telegramID)));
  match row with
  | None => Err (ErrorString ("user not found: " +:+ pretty telegramID))
  | Some u => Ok (scan_user telegramID u)
  end.

(** @src internal/storage/transaction.go 99-120 UpdateUser *)
Definition tx_UpdateUser (now : Z) (flt : db_faults) (telegramID interval : Z) (t : Transaction)
  : Transaction * result unit :=
  match tx_exec flt t (Ok (update_interval now telegramID (whole_seconds interval) (tx_db t))) with
  | Err e => (t, Err (wrap_pre "failed to update user: " e))
  | Ok (db', rows) =>
      let t' := mkTx db' (tx_done t) (closed t) in
      match rows_fault flt with
      | Some e => (t', Err (wrap_pre "failed to get rows affected: " e))
      | None => if (rows =? 0)%nat
                then (t', Err (ErrorString ("user not found: " +:+ pretty telegramID)))
                else (t', Ok tt)
      end
  end.

(** @src internal/storage/transaction.go 122-137 StoreToken *)
Definition tx_StoreToken (now : Z) (flt : db_faults) (userID token nonce : string) (t : Transaction)
  : Transaction * result unit :=
  tx_run t (wrap_err "failed to store token: "
    (tx_exec flt t (Ok (upsert_token now userID token nonce (tx_db t))))).

(** @src internal/storage/transaction.go 139-152 GetToken *)
Definition tx_GetToken (flt : db_faults) (userID : string) (t : Transaction)
  : result (string * string) :=
  row ← wrap_err "failed to get token: " (tx_exec flt t (Ok (tokens (tx_db t) !! userID)));
  match row with
  | None => Err (ErrorString ("token not found for user " +:+ userID))
  | Some r => Ok (encrypted_token r, t_nonce r)
  end.

(** @src internal/storage/transaction.go 154-166 MarkEmailProcessed *)
Definition tx_MarkEmailProcessed (now : Z) (flt : db_faults) (messageID userID : string)
    (t : Transaction) : Transaction * result unit :=
  tx_run t (wrap_err "failed to mark email as processed: "
    (tx_exec flt t (Ok (replace_email now messageID userID (tx_db t))))).

(** @src internal/storage/transaction.go 168-181 IsEmailProcessed *)
Definition tx_IsEmailProcessed (flt : db_faults) (messageID userID : string) (t : Transaction)
  : result bool :=
  wrap_err "failed to check email status: "
    (tx_exec flt t (Ok (bool_decide (is_Some (processed_emails (tx_db t) !! (messageID, userID)))))).

(** The deletion and its count within a transaction. *)
Definition tx_delete (flt : db_faults) (msg : string) (f : DB → DB * nat) (t : Transaction)
  : Transaction * result Z :=
  match tx_exec flt t (Ok (f (tx_db t))) with
  | Err e => (t, Err (wrap_pre msg e))
  | Ok (db', n) => (mkTx db' (tx_done t) (closed t), affected flt n)
  end.

(** @src internal/storage/cleanup.go 93-113 CleanupProcessedEmails *)
Definition tx_CleanupProcessedEmails (now : Z) (flt : db_faults) (period : Z) (t : Transaction)
  : Transaction * result Z :=
  if closed t then (t, Err ErrTransactionClosed)
  else if period <=? 0 then (t, Err (invalid ": retention period must be positive"))
  else tx_delete flt "failed to cleanup processed emails: " (delete_old_emails (cutoff now period)) t.

(** @src internal/storage/cleanup.go 115-135 CleanupInvalidTokens *)
Definition tx_CleanupInvalidTokens (flt : db_faults) (t : Transaction) : Transaction * result Z :=
  if closed t then (t, Err ErrTransactionClosed)
  else tx_delete flt "failed to cleanup invalid tokens: " (delete_tokens_of token_invalid) t.

(** @src internal/storage/cleanup.go 137-170 CleanupInactiveUsers *)
Definition tx_CleanupInactiveUsers (fk : bool) (now : Z) (flt1 flt2 : db_faults) (period : Z) (t : Transaction)
  : Transaction * result Z :=
  if closed t then (t, Err ErrTransactionClosed)
  else if period <=? 0 then (t, Err (invalid ": inactivity period must be positive"))
  else let P := inactive_since (cutoff now period) in
       match tx_exec flt1 t (Ok (delete_tokens_of P (tx_db t))) with
       | Err e => (t, Err (wrap_pre "failed to cleanup tokens for inactive users: " e))
       | Ok (db1, _) =>
           tx_delete flt2 "failed to cleanup inactive users: " (delete_users fk P)
                     (mkTx db1 (tx_done t) (closed t))
       end.

(** ** Requests *)

(** A method call of a [Transaction] that changes it. *)
Inductive tx_op :=
| TxCreateUser (now : Z) (flt : db_faults) (id : Z) (g : string) (interval : Z)
| TxUpdateUser (now : Z) (flt : db_faults) (id interval : Z)
| TxStoreToken (now : Z) (flt : db_faults) (u token nonce : string)
| TxMarkEmail (now : Z) (flt : db_faults) (m u : string)
| TxCleanEmails (now : Z) (flt : db_faults) (period : Z)
| TxCleanTokens (flt : db_faults)
| TxCleanUsers (fk : bool) (now : Z) (flt1 flt2 : db_faults) (period : Z).

Definition run_tx_op (op : tx_op) (t : Transaction) : Transaction * result unit :=
  match op with
  | TxCreateUser now flt id g i => tx_CreateUser now flt id g i t
  | TxUpdateUser now flt id i => tx_UpdateUser now flt id i t
  | TxStoreToken now flt u tok n => tx_StoreToken now flt u tok n t
  | TxMarkEmail now flt m u => tx_MarkEmailProcessed now flt m u t
  | TxCleanEmails now flt p =>
      let '(t', r) := tx_CleanupProcessedEmails now flt p t in (t', r ≫= λ _, Ok tt)
  | TxCleanTokens flt => let '(t', r) := tx_CleanupInvalidTokens flt t in (t', r ≫= λ _, Ok tt)
  | TxCleanUsers fk now f1 f2 p =>
      let '(t', r) := tx_CleanupInactiveUsers fk now f1 f2 p t in (t', r ≫= λ _, Ok tt)
  end.

Definition run_tx_ops (ops : list tx_op) (t : Transaction) : Transaction :=
  foldl (λ t op, (run_tx_op op t).1) t ops.

(** A method call of [SQLiteStorage]; [OpTx] is a whole transaction, committed
    or rolled back. *)
Inductive st_op :=
| OpCreateUser (now : Z) (flt : db_faults) (id : Z) (g : string) (interval : Z)
| OpUpdateUser (now : Z) (flt : db_faults) (id interval : Z)
| OpStoreToken (now : Z) (flt : db_faults) (u token nonce : string)
| OpDeleteToken (flt : db_faults) (u : string)
| OpMarkEmail (now : Z) (flt : db_faults) (m u : string)
| OpCleanEmails (now : Z) (flt : db_faults) (period : Z)
| OpCleanTokens (flt : db_faults)
| OpCleanUsers (fk : bool) (now : Z) (fb : option error) (flt1 flt2 : db_faults) (fc : option error) (period : Z)
| OpTx (fb : option error) (ops : list tx_op) (commit : bool) (flt : option error).

Definition run_st_op (op : st_op) (db : DB) : DB :=
  match op with
  | OpCreateUser now flt id g i => (CreateUser now flt id g i db).1
  | OpUpdateUser now flt id i => (UpdateUser now flt id i db).1
  | OpStoreToken now flt u tok n => (StoreToken now flt u tok n db).1
  | OpDeleteToken flt u => (DeleteToken flt u db).1
  | OpMarkEmail now flt m u => (MarkEmailProcessed now flt m u db).1
  | OpCleanEmails now flt p => (CleanupProcessedEmails now flt p db).1
  | OpCleanTokens flt => (CleanupInvalidTokens flt db).1
  | OpCleanUsers fk now fb f1 f2 fc p => (CleanupInactiveUsers fk now fb f1 f2 fc p db).1
  | OpTx fb ops commit flt =>
      match BeginTx fb db with
      | Err _ => db
      | Ok t => ((if commit then Commit else Rollback) flt (run_tx_ops ops t) db).1.2
      end
  end.

(** ** Invariants of the tables *)

(** Distinct Gmail IDs; and no statement of the program ever writes
    [google_token_valid] or [last_digest_sent]. *)
Record db_inv (db : DB) : Prop := {
  di_unique : db_wf db;
  di_invalid : ∀ i u, users db !! i = Some u → google_token_valid u = false ∧ last_digest_sent u = None;
}.

Lemma db_inv_empty : db_inv empty_DB.
Proof.
  split.
  - intros i j u v H. cbn in H. by rewrite lookup_empty in H.
  - intros i u H. cbn in H. by rewrite lookup_empty in H.
Qed.

Lemma db_inv_users db db' : db_inv db → users db' = users db → db_inv db'.
Proof. intros [H1 H2] E. split; unfold db_wf; rewrite E; done. Qed.

Lemma gmail_taken_false g m i u :
  gmail_taken g m = false → m !! i = Some u → gmail_user_id u ≠ g.
Proof.
  unfold gmail_taken. rewrite bool_decide_eq_false. intros H Hu E. apply H.
  apply list_elem_of_fmap. exists u. split; [done|]. apply list_elem_of_fmap.
  exists (i, u). split; [done|]. by apply elem_of_map_to_list.
Qed.

Lemma insert_user_inv now id g secs db db' :
  db_inv db → insert_user now id g secs db = Ok db' → db_inv db'.
Proof.
  intros [H1 H2] H. unfold insert_user in H.
  destruct (users db !! id) eqn:Eid; [done|]. destruct (gmail_taken g (users db)) eqn:Eg; [done|].
  injection H as <-. split; cbn.
  - intros i j u v. cbn. rewrite !lookup_insert_Some.
    intros [[<- <-]|[Hi Hu]] [[<- <-]|[Hj Hv]] E; cbn in E; [done| | |by eapply H1].
    + by destruct (gmail_taken_false _ _ _ _ Eg Hv).
    + by destruct (gmail_taken_false _ _ _ _ Eg Hu).
  - intros i u. rewrite lookup_insert_Some. intros [[<- <-]|[Hi Hu]]; [done|by eapply H2].
Qed.

Lemma update_interval_inv now id secs db :
  db_inv db → db_inv (update_interval now id secs db).1.
Proof.
  intros [H1 H2]. unfold update_interval. destruct (users db !! id) as [u0|] eqn:E; [|by split].
  split; cbn.
  - intros i j u v. cbn. rewrite !lookup_insert_Some.
    intros [[<- <-]|[Hi Hu]] [[<- <-]|[Hj Hv]] Eg; cbn in Eg; [done| | |];
      first [exact (H1 _ _ _ _ E Hv Eg)|exact (H1 _ _ _ _ Hu E Eg)|exact (H1 _ _ _ _ Hu Hv Eg)].
  - intros i u. rewrite lookup_insert_Some. intros [[<- <-]|[Hi Hu]]; [exact (H2 id u0 E)|by eapply H2].
Qed.

Lemma delete_users_inv fk P db : db_inv db → db_inv (delete_users fk P db).1.
Proof.
  intros [H1 H2]. split; cbn.
  - intros i j u v Hu Hv. cbn in Hu, Hv. apply map_lookup_filter_Some in Hu as [Hu _].
    apply map_lookup_filter_Some in Hv as [Hv _]. by eapply H1.
  - intros i u Hu. apply map_lookup_filter_Some in Hu as [Hu _]. by eapply H2.
Qed.

Create HintDb storage discriminated.

Lemma run_inv db r : db_inv db → (∀ db', r = Ok db' → db_inv db') → db_inv (run db r).1.
Proof. destruct r; cbn; auto. Qed.

Lemma tx_run_inv t r :
  db_inv (tx_db t) → (∀ db', r = Ok db' → db_inv db') → db_inv (tx_db (tx_run t r).1).
Proof. destruct r; cbn; auto. Qed.

Lemma exec_Ok {A} flt (r : result A) a : exec flt r = Ok a → r = Ok a.
Proof. unfold exec. by destruct (exec_fault flt). Qed.

Lemma tx_exec_Ok {A} flt t (r : result A) a :
  tx_exec flt t r = Ok a → tx_done t = false ∧ r = Ok a.
Proof. unfold tx_exec. destruct (tx_done t); [done|]. intros H. by apply exec_Ok in H. Qed.

Lemma delete_tokens_inv P db : db_inv db → db_inv (delete_tokens_of P db).1.
Proof. intros H. by apply (db_inv_users db). Qed.

Lemma tx_delete_inv flt msg f t :
  (∀ db, db_inv db → db_inv (f db).1) → db_inv (tx_db t) → db_inv (tx_db (tx_delete flt msg f t).1).
Proof.
  intros Hf Ht. unfold tx_delete. destruct (tx_exec flt t _) as [[db' n]|e] eqn:E; [|done]. cbn.
  apply tx_exec_Ok in E as [_ [= E]]. specialize (Hf _ Ht). by rewrite E in Hf.
Qed.

(** A statement that ran through [run] or [tx_run]: what its success means. *)
Ltac stmt H :=
  first [apply run_inv | apply tx_run_inv]; [done|]; intros ? H; ok_inv H;
  repeat first [apply exec_Ok in H | apply tx_exec_Ok in H as [_ H]]; simplify_eq.

#[export] Hint Resolve insert_user_inv delete_tokens_inv delete_users_inv : storage.
#[export] Hint Extern 1 (db_inv _) => (eapply db_inv_users; [eassumption|reflexivity]) : storage.

Lemma run_tx_op_inv op t : db_inv (tx_db t) → db_inv (tx_db (run_tx_op op t).1).
Proof.
  intros Ht. destruct op as [now flt id g i|now flt id i|now flt u tok n|now flt m u|now flt p|flt|fk now f1 f2 p];
    cbn [run_tx_op].
  - stmt H. by eauto with storage.
  - unfold tx_UpdateUser. destruct (tx_exec flt t _) as [[db' n]|e] eqn:E; [|done].
    apply tx_exec_Ok in E as [_ [= E]]. pose proof (update_interval_inv now id (whole_seconds i) _ Ht) as H.
    rewrite E in H. by destruct (rows_fault flt), (n =? 0)%nat.
  - stmt H. by eauto with storage.
  - stmt H. by eauto with storage.
  - unfold tx_CleanupProcessedEmails. destruct (closed t); [done|]. destruct (p <=? 0); [done|].
    destruct (tx_delete _ _ _ t) as [t' r] eqn:E. cbn.
    change t' with (t', r).1. rewrite <- E. apply tx_delete_inv; [|done].
    intros db Hdb. by apply (db_inv_users db).
  - unfold tx_CleanupInvalidTokens. destruct (closed t); [done|].
    destruct (tx_delete _ _ _ t) as [t' r] eqn:E. cbn.
    change t' with (t', r).1. rewrite <- E. apply tx_delete_inv; [apply delete_tokens_inv|done].
  - unfold tx_CleanupInactiveUsers. destruct (closed t); [done|]. destruct (p <=? 0); [done|].
    destruct (tx_exec f1 t _) as [[db1 n1]|e] eqn:E1; [|done].
    destruct (tx_delete _ _ _ _) as [t' r] eqn:E. cbn.
    change t' with (t', r).1. rewrite <- E. apply tx_delete_inv; [apply delete_users_inv|]. cbn.
    apply tx_exec_Ok in E1 as [_ [= <- _]].
    exact (delete_tokens_inv (inactive_since (cutoff now p)) _ Ht).
Qed.

Lemma run_tx_ops_inv ops t : db_inv (tx_db t) → db_inv (tx_db (run_tx_ops ops t)).
Proof.
  revert t. induction ops as [|op ops IH]; intros t Ht; [done|]. apply IH, run_tx_op_inv, Ht.
Qed.

Lemma run_st_op_inv op db : db_inv db → db_inv (run_st_op op db).
Proof.
  intros Hdb. destruct op as [now flt id g i|now flt id i|now flt u tok n|flt u|now flt m u|now flt p|flt
    |fk now fb f1 f2 fc p|fb ops commit flt]; cbn [run_st_op].
  - stmt H. by eauto with storage.
  - unfold UpdateUser. destruct (id <=? 0); [done|]. destruct (i <=? 0); [done|].
    destruct (exec_fault flt); [done|].
    pose proof (update_interval_inv now id (whole_seconds i) _ Hdb) as H.
    destruct (update_interval _ _ _ _) as [db' n]. by destruct (rows_fault flt), (n =? 0)%nat.
  - stmt H. by eauto with storage.
  - stmt H. by eauto with storage.
  - stmt H. by eauto with storage.
  - unfold CleanupProcessedEmails. destruct (p <=? 0); [done|]. destruct (exec_fault flt); [done|].
    by apply (db_inv_users db).
  - unfold CleanupInvalidTokens. destruct (exec_fault flt); [done|]. by apply delete_tokens_inv.
  - unfold CleanupInactiveUsers. destruct (p <=? 0); [done|]. destruct fb; [done|].
    destruct (exec_fault f1); [done|].
    destruct (delete_tokens_of _ db) as [db1 n1] eqn:E1. destruct (exec_fault f2); [done|].
    destruct (delete_users _ _ db1) as [db2 n] eqn:E2. destruct (affected f2 n); [|done].
    destruct fc; [done|]. change db2 with (db2, n).1. rewrite <- E2. apply delete_users_inv.
    change db1 with (db1, n1).1. rewrite <- E1. by apply delete_tokens_inv.
  - unfold BeginTx. destruct fb; [done|].
    unfold Commit, Rollback. pose proof (run_tx_ops_inv ops (mkTx db false false) Hdb) as H.
    set (t := run_tx_ops ops (mkTx db false false)) in *.
    destruct commit, (closed t), (tx_done t), flt; done.
Qed.

Definition run_st_ops (ops : list st_op) (db : DB) : DB := foldl (λ db op, run_st_op op db) db ops.

Lemma run_st_ops_inv ops db : db_inv db → db_inv (run_st_ops ops db).
Proof.
  revert db. induction ops as [|op ops IH]; intros db H; [done|]. by apply IH, run_st_op_inv.
Qed.
