(* ===== verification/StorageProps.v ===== *)
(** * What the storage layer guarantees

    Properties of [internal/storage]: token and user round trips, validation,
    cleanup, transactions against the direct methods. *)
From Stdlib Require Import ZArith Lia.
From stdpp Require Import base gmap list strings pretty.
From S2P Require Import Prelude GoTime Job Storage.
Local Open Scope Z_scope.

Lemma elem_of_gmails P m g :
  g ∈ gmails_of P m ↔ ∃ i u, m !! i = Some u ∧ P u = true ∧ gmail_user_id u = g.
Proof.
  unfold gmails_of. rewrite list_elem_of_fmap. split.
  - intros (u & -> & Hu). apply list_elem_of_fmap in Hu as ([i u'] & -> & H).
    apply elem_of_map_to_list, map_lookup_filter_Some in H as [? ?]. by exists i, u'.
  - intros (i & u & Hu & Ho & <-). exists u. split; [done|]. apply list_elem_of_fmap.
    exists (i, u). split; [done|]. by apply elem_of_map_to_list, map_lookup_filter_Some.
Qed.

(** ** Closed transactions *)
Lemma tx_exec_done {A} flt t (r : result A) : tx_done t = true → tx_exec flt t r = Err ErrTxDone.
Proof. unfold tx_exec. by intros ->. Qed.

Definition finished_tx (t : Transaction) : Prop := tx_done t = true ∧ closed t = true.

Lemma finished_tx_op op t :
  finished_tx t → (run_tx_op op t).1 = t ∧ is_ok (run_tx_op op t).2 = false.
Proof.
  intros [Hd Hc]. destruct op; cbn [run_tx_op];
    unfold tx_CreateUser, tx_UpdateUser, tx_StoreToken, tx_MarkEmailProcessed,
      tx_CleanupProcessedEmails, tx_CleanupInvalidTokens, tx_CleanupInactiveUsers;
    rewrite ?Hc, ?tx_exec_done by done; done.
Qed.

(** [closed] follows the [sql.Tx]: operations leave both alone. *)
Lemma tx_op_flags op t :
  tx_done (run_tx_op op t).1 = tx_done t ∧ closed (run_tx_op op t).1 = closed t.
Proof.
  destruct op; cbn [run_tx_op];
    unfold tx_CreateUser, tx_UpdateUser, tx_StoreToken, tx_MarkEmailProcessed,
      tx_CleanupProcessedEmails, tx_CleanupInvalidTokens, tx_CleanupInactiveUsers, tx_run, tx_delete;
    repeat (case_match; simplify_eq/=); done.
Qed.

Lemma tx_ops_flags ops t :
  tx_done (run_tx_ops ops t) = tx_done t ∧ closed (run_tx_ops ops t) = closed t.
Proof.
  revert t. induction ops as [|op ops IH]; intros t; [done|].
  cbn [run_tx_ops foldl]. destruct (IH (run_tx_op op t).1) as [H1 H2].
  destruct (tx_op_flags op t) as [H3 H4]. unfold run_tx_ops in *. split; congruence.
Qed.

(** ** The same request, direct and in a transaction *)

(** The direct form of a request of a transaction; tokens differ, see below. *)
Definition direct_op (op : tx_op) : option st_op :=
  match op with
  | TxCreateUser now flt id g i => Some (OpCreateUser now flt id g i)
  | TxUpdateUser now flt id i => Some (OpUpdateUser now flt id i)
  | TxStoreToken _ _ _ _ _ => None
  | TxMarkEmail now flt m u => Some (OpMarkEmail now flt m u)
  | TxCleanEmails now flt p => Some (OpCleanEmails now flt p)
  | TxCleanTokens flt => Some (OpCleanTokens flt)
  | TxCleanUsers fk now f1 f2 p => Some (OpCleanUsers fk now None f1 f2 None p)
  end.

(** The direct methods validate first; a transaction does not. *)
Definition valid_op (op : tx_op) : Prop :=
  match op with
  | TxCreateUser _ _ id g i => 0 < id ∧ g ≠ "" ∧ 0 < i
  | TxUpdateUser _ _ id i => 0 < id ∧ 0 < i
  | TxStoreToken _ _ _ _ _ => False
  | TxMarkEmail _ _ m u => m ≠ "" ∧ u ≠ ""
  | TxCleanUsers _ _ f1 f2 _ => f1 = no_faults ∧ f2 = no_faults
  | _ => True
  end.

Lemma direct_op_same op sop db t :
  direct_op op = Some sop → valid_op op → tx_db t = db → tx_done t = false → closed t = false →
  tx_db (run_tx_op op t).1 = run_st_op sop db.
Proof.
  intros Hop Hv <- Hd Hc.
  destruct op as [now flt id g i|now flt id i|now flt u tok n|now flt m u|now flt p|flt|fk now f1 f2 p];
    cbn in Hop; try discriminate Hop; injection Hop as <-; cbn [run_tx_op run_st_op]; cbn in Hv.
  - destruct Hv as (H1 & H2 & H3). unfold CreateUser, tx_CreateUser, validateInput.
    destruct (Z.leb_spec id 0); [lia|]. rewrite decide_False by done.
    destruct (Z.leb_spec i 0); [lia|]. cbn [mbind result_bind]. unfold tx_exec. rewrite Hd.
    by destruct (exec flt _).
  - destruct Hv as (H1 & H2). unfold UpdateUser, tx_UpdateUser.
    destruct (Z.leb_spec id 0); [lia|]. destruct (Z.leb_spec i 0); [lia|].
    unfold tx_exec, exec. rewrite Hd. destruct (exec_fault flt); [done|].
    destruct (update_interval _ _ _ _) as [db' n]. by destruct (rows_fault flt), (n =? 0)%nat.
  - destruct Hv as (H1 & H2). unfold MarkEmailProcessed, tx_MarkEmailProcessed, validateEmailInput.
    rewrite !decide_False by done. cbn [mbind result_bind]. unfold tx_exec. rewrite Hd.
    by destruct (exec flt _).
  - unfold tx_CleanupProcessedEmails, CleanupProcessedEmails, tx_delete, tx_exec, exec.
    rewrite Hc, Hd. destruct (p <=? 0); [done|]. by destruct (exec_fault flt).
  - unfold tx_CleanupInvalidTokens, CleanupInvalidTokens, tx_delete, tx_exec, exec.
    rewrite Hc, Hd. by destruct (exec_fault flt).
  - destruct Hv as [-> ->].
    unfold tx_CleanupInactiveUsers, CleanupInactiveUsers, tx_delete, tx_exec, exec.
    rewrite Hc. cbn [exec_fault rows_fault no_faults affected]. rewrite Hd.
    destruct (p <=? 0); [done|]. cbn [exec_fault no_faults tx_done]. by rewrite ?Hd.
Qed.

Lemma direct_ops_same ops sops t :
  Forall2 (λ op sop, direct_op op = Some sop ∧ valid_op op) ops sops →
  tx_done t = false → closed t = false →
  tx_db (run_tx_ops ops t) = run_st_ops sops (tx_db t).
Proof.
  intros H. revert t. induction H as [|op sop ops sops [H1 H2] H IH]; intros t Hd Hc; [done|].
  cbn [run_tx_ops foldl run_st_ops]. destruct (tx_op_flags op t) as [F1 F2].
  unfold run_tx_ops, run_st_ops in *. rewrite IH by congruence. f_equal.
  by apply direct_op_same.
Qed.

(** ** Properties *)

(** [CleanupInvalidTokens] deletes the stored token of every user there
    is: since no user is ever marked as having a valid token, all of them are
    taken for invalid.  Tokens of unknown users stay. *)
Theorem CleanupInvalidTokens_deletes_all (ops : list st_op) flt :
  exec_fault flt = None →
  let db := run_st_ops ops empty_DB in
  let db' := (CleanupInvalidTokens flt db).1 in
  (∀ i u, users db !! i = Some u → tokens db' !! gmail_user_id u = None) ∧
  (∀ g, (∀ i u, users db !! i = Some u → gmail_user_id u ≠ g) → tokens db' !! g = tokens db !! g) ∧
  users db' = users db ∧ processed_emails db' = processed_emails db.
Proof.
  intros Hf db db'. pose proof (run_st_ops_inv ops _ db_inv_empty) as Hi. fold db in Hi.
  assert (E : db' = (delete_tokens_of token_invalid db).1).
  { unfold db', CleanupInvalidTokens. by rewrite Hf. }
  rewrite E. cbn.
  assert (G : ∀ g, g ∈ gmails_of token_invalid (users db) ↔
                   ∃ i u, users db !! i = Some u ∧ gmail_user_id u = g).
  { intros g. rewrite elem_of_gmails. split.
    - intros (i & u & ? & _ & ?). by exists i, u.
    - intros (i & u & Hu & <-). exists i, u. unfold token_invalid.
      by rewrite (proj1 (di_invalid db Hi i u Hu)). }
  split_and!; [| |done|done].
  - intros i u Hu. apply map_lookup_filter_None. right. intros r _ Hn. apply Hn. cbn.
    apply G. by exists i, u.
  - intros g Hg. destruct (tokens db !! g) as [r|] eqn:Er.
    + apply map_lookup_filter_Some. split; [done|]. cbn. rewrite G. intros (i & u & Hu & Eu).
      by apply (Hg i u).
    + apply map_lookup_filter_None. by left.
Qed.

Lemma CleanupInvalidTokens_deletes_all_witness :
  let ops := [OpCreateUser 5 no_faults 7 "a@b" (30 * Minute);
              OpStoreToken 6 no_faults "a@b" "secret" "nonce"] in
  tokens (run_st_ops ops empty_DB) !! "a@b" = Some (mkTokenRow "secret" "nonce" 0 0) ∧
  tokens (CleanupInvalidTokens no_faults (run_st_ops ops empty_DB)).1 !! "a@b" = None.
Proof.
  intros ops. split; [vm_compute; reflexivity|].
  apply (proj1 (CleanupInvalidTokens_deletes_all ops no_faults eq_refl) 7
           (mkUserRow "a@b" false 1800 None 0 0)).
  vm_compute. reflexivity.
Defined.

(** C35: Tokens, users and marks are read back.  After a successful
    [StoreToken] the same token and nonce are returned for that user and every
    other user's answer is unchanged; after [DeleteToken] the answer is an error
    that [errors.Is] recognises as [ErrNotFound]; a created user is read back
    with the interval in whole seconds; an email marked is reported, others are
    as before. *)
Theorem storage_roundtrip now userID token nonce db :
  userID ≠ "" → token ≠ "" → nonce ≠ "" →
  (let db' := (StoreToken now no_faults userID token nonce db).1 in
   GetToken no_faults userID db' = Ok (token, nonce) ∧
   (∀ u, u ≠ userID → GetToken no_faults u db' = GetToken no_faults u db) ∧
   (let db'' := (DeleteToken no_faults userID db').1 in
    ∃ e, GetToken no_faults userID db'' = Err e ∧ errors_Is e ErrNotFound = true)) ∧
  (∀ id i db', CreateUser now no_faults id userID i db = (db', Ok tt) →
     GetUser no_faults id db' =
       Ok (mkUser id userID (duration_of_seconds (whole_seconds i)) None false
                  (CURRENT_TIMESTAMP now) (CURRENT_TIMESTAMP now)) ∧
     ∀ id', id' ≠ id → GetUser no_faults id' db' = GetUser no_faults id' db) ∧
  (∀ m db', MarkEmailProcessed now no_faults m userID db = (db', Ok tt) →
     IsEmailProcessed no_faults m userID db' = Ok true ∧
     ∀ m' u', (m', u') ≠ (m, userID) →
       IsEmailProcessed no_faults m' u' db' = IsEmailProcessed no_faults m' u' db).
Proof.
  intros Hu Ht Hn. split_and!.
  - intros db'. assert (E : db' = replace_token now userID token nonce db).
    { unfold db', StoreToken, validateTokenInput. by rewrite !decide_False by done. }
    rewrite E. unfold GetToken. cbn [exec_fault no_faults]. rewrite decide_False by done.
    cbn. rewrite lookup_insert_eq. split_and!; [done| |].
    + intros u Hne. by rewrite lookup_insert_ne by done.
    + rewrite decide_False by done. cbn. rewrite lookup_delete_eq. by eexists.
  - intros id i db' H. unfold CreateUser, validateInput in H.
    destruct (Z.leb_spec id 0); [done|]. destruct (decide (userID = "")); [done|].
    destruct (Z.leb_spec i 0); [done|]. cbn in H. unfold insert_user in H.
    destruct (users db !! id) eqn:Eid; [done|]. destruct (gmail_taken userID (users db)); [done|].
    cbn in H. injection H as <-. unfold GetUser. cbn [exec_fault no_faults].
    destruct (Z.leb_spec id 0); [lia|]. cbn. rewrite lookup_insert_eq. split; [done|].
    intros id' Hne. destruct (id' <=? 0); [done|]. by rewrite lookup_insert_ne by done.
  - intros m db' H. unfold MarkEmailProcessed in H.
    destruct (validateEmailInput m userID) eqn:Ev; [|done]. cbn in H. injection H as <-.
    unfold IsEmailProcessed. rewrite Ev. cbn. rewrite lookup_insert_eq. split; [done|].
    intros m' u' Hne. destruct (validateEmailInput m' u'); [|done]. cbn.
    by rewrite lookup_insert_ne by done.
Qed.

Lemma storage_roundtrip_witness :
  GetToken no_faults "u" (StoreToken 3 no_faults "u" "tok" "n" empty_DB).1 = Ok ("tok", "n")%string.
Proof.
  apply (storage_roundtrip 3 "u" "tok" "n" empty_DB); discriminate.
Defined.

(** Wrong input is refused before the database is touched, with an error
    that [errors.Is] recognises as [ErrInvalidInput]; a well-formed new user is
    accepted. *)
Theorem storage_validation fk now flt db id g i u token nonce m period fb f1 f2 fc :
  (id ≤ 0 ∨ g = "" ∨ i ≤ 0 → ∃ e, CreateUser now flt id g i db = (db, Err e) ∧
     errors_Is e ErrInvalidInput = true) ∧
  (id ≤ 0 ∨ i ≤ 0 → ∃ e, UpdateUser now flt id i db = (db, Err e) ∧
     errors_Is e ErrInvalidInput = true) ∧
  (u = "" ∨ token = "" ∨ nonce = "" → ∃ e, StoreToken now flt u token nonce db = (db, Err e) ∧
     errors_Is e ErrInvalidInput = true) ∧
  (m = "" ∨ u = "" → ∃ e, MarkEmailProcessed now flt m u db = (db, Err e) ∧
     IsEmailProcessed flt m u db = Err e ∧ errors_Is e ErrInvalidInput = true) ∧
  (period ≤ 0 → ∃ e e', CleanupProcessedEmails now flt period db = (db, Err e) ∧
     CleanupInactiveUsers fk now fb f1 f2 fc period db = (db, Err e') ∧
     errors_Is e ErrInvalidInput = true ∧ errors_Is e' ErrInvalidInput = true) ∧
  (0 < id → g ≠ "" → 0 < i → users db !! id = None → gmail_taken g (users db) = false →
     (CreateUser now no_faults id g i db).2 = Ok tt).
Proof.
  split_and!.
  - intros H. unfold CreateUser, validateInput. destruct (Z.leb_spec id 0); [by eexists|].
    destruct (decide (g = "")); [by eexists|]. destruct (Z.leb_spec i 0); [by eexists|].
    destruct H as [?|[?|?]]; [lia|done|lia].
  - intros H. unfold UpdateUser. destruct (Z.leb_spec id 0); [by eexists|].
    destruct (Z.leb_spec i 0); [by eexists|]. lia.
  - intros H. unfold StoreToken, validateTokenInput. repeat (case_decide; [by eexists|]). tauto.
  - intros H. unfold MarkEmailProcessed, IsEmailProcessed, validateEmailInput.
    repeat (case_decide; [by eexists|]). tauto.
  - intros H. unfold CleanupProcessedEmails, CleanupInactiveUsers.
    destruct (Z.leb_spec period 0); [|lia]. by eexists _, _.
  - intros H1 H2 H3 H4 H5. unfold CreateUser, validateInput, insert_user.
    destruct (Z.leb_spec id 0); [lia|]. rewrite decide_False by done.
    destruct (Z.leb_spec i 0); [lia|]. cbn. by rewrite H4, H5.
Qed.

(** C9: [CleanupInactiveUsers] is all or nothing, with foreign keys enforced or
    not ([fk]).  Without failures it removes exactly the users last updated
    before the cutoff and the tokens of those users, and returns how many users
    went; with any failure, of BEGIN, of either deletion or of COMMIT, nothing
    has changed.  The marks of processed emails of removed users go with them
    where foreign keys are enforced, as the schema (ON DELETE CASCADE) and the
    tests expect; SQLite enforces them only for a connection that asks, none of
    the program's connections does, and then all marks stay.  Marks of other
    users always stay. *)
Theorem CleanupInactiveUsers_atomic fk now fb f1 f2 fc period db :
  0 < period →
  let old u := u_updated_at u <? cutoff now period in
  let gone g := ∃ i u, users db !! i = Some u ∧ old u = true ∧ gmail_user_id u = g in
  let r := CleanupInactiveUsers fk now fb f1 f2 fc period db in
  (is_ok r.2 = false → r.1 = db) ∧
  (∀ n, r.2 = Ok n →
     n = Z.of_nat (size (filter (λ kv : Z * UserRow, old kv.2 = true) (users db))) ∧
     (∀ i u, users r.1 !! i = Some u ↔ users db !! i = Some u ∧ old u = false) ∧
     (∀ g t, tokens r.1 !! g = Some t ↔ tokens db !! g = Some t ∧ ¬ gone g) ∧
     (∀ m g t, processed_emails r.1 !! (m, g) = Some t ↔
        processed_emails db !! (m, g) = Some t ∧ (fk = true → ¬ gone g))) ∧
  (fb = None → f1 = no_faults → f2 = no_faults → fc = None → is_ok r.2 = true).
Proof.
  intros Hp old gone r. unfold r, CleanupInactiveUsers. clear r.
  destruct (Z.leb_spec period 0); [lia|].
  destruct fb as [e|]; [by split_and!|]. destruct (exec_fault f1) as [e|] eqn:E1.
  { split_and!; try done. intros _ ->. done. }
  destruct (exec_fault f2) as [e|] eqn:E2.
  { split_and!; try done. intros _ _ ->. done. }
  cbn [delete_tokens_of delete_users]. unfold affected.
  destruct (rows_fault f2) as [e|] eqn:E3.
  { split_and!; try done. intros _ _ ->. done. }
  destruct fc as [e|]; [by split_and!|].
  change (inactive_since (cutoff now period)) with old.
  assert (Hg : ∀ g, g ∈ gmails_of old (users db) ↔ gone g) by (intros g; apply elem_of_gmails).
  split_and!; [done| |done]. intros n [= <-]. cbn. split_and!; [done| | |].
  - intros i u. rewrite map_lookup_filter_Some. cbn. by rewrite not_true_iff_false.
  - intros g t. destruct fk; cbn; rewrite !map_lookup_filter_Some; cbn; rewrite Hg; tauto.
  - intros m g t. destruct fk; cbn; rewrite ?map_lookup_filter_Some; cbn; rewrite ?Hg.
    + split; [by intros [? ?]|]. intros [He Hn]. split; [done|by apply Hn].
    + by split; [|intros [? _]].
Qed.

Lemma CleanupInactiveUsers_atomic_witness :
  let db := run_st_ops [OpCreateUser 5 no_faults 7 "a@b" (30 * Minute);
                        OpStoreToken 6 no_faults "a@b" "secret" "nonce";
                        OpMarkEmail 7 no_faults "m" "a@b"] empty_DB in
  (CleanupInactiveUsers false (100 * Hour) None no_faults no_faults None (24 * Hour) db).2 = Ok 1 ∧
  processed_emails (CleanupInactiveUsers false (100 * Hour) None no_faults no_faults None (24 * Hour) db).1
    !! ("m", "a@b") = Some 0 ∧
  processed_emails (CleanupInactiveUsers true (100 * Hour) None no_faults no_faults None (24 * Hour) db).1
    !! ("m", "a@b") = None.
Proof.
  intros db.
  destruct (CleanupInactiveUsers_atomic false (100 * Hour) None no_faults no_faults None (24 * Hour) db
              eq_refl) as (_ & H & Hok).
  specialize (Hok eq_refl eq_refl eq_refl eq_refl).
  destruct (CleanupInactiveUsers false _ _ _ _ _ _ db) as [db' [n|e]] eqn:E; [|discriminate Hok].
  destruct (H n eq_refl) as (-> & _ & _ & He). split; [cbn [snd]; f_equal|]. split; [|vm_compute; reflexivity].
  apply He. split; [vm_compute; reflexivity|discriminate].
Defined.

(** The two ways to store a token differ.  On a token that is already
    there, [Transaction.StoreToken] keeps the time it was created, while
    [SQLiteStorage.StoreToken] replaces the row and resets it. *)
Theorem StoreToken_created_at now u token nonce db r :
  u ≠ "" → token ≠ "" → nonce ≠ "" → tokens db !! u = Some r →
  tokens (StoreToken now no_faults u token nonce db).1 !! u
    = Some (mkTokenRow token nonce (CURRENT_TIMESTAMP now) (CURRENT_TIMESTAMP now)) ∧
  tokens (tx_db (tx_StoreToken now no_faults u token nonce (mkTx db false false)).1) !! u
    = Some (mkTokenRow token nonce (t_created_at r) (CURRENT_TIMESTAMP now)).
Proof.
  intros Hu Ht Hn Hr. split.
  - unfold StoreToken, validateTokenInput. rewrite !decide_False by done. cbn. apply lookup_insert_eq.
  - cbn. rewrite Hr. apply lookup_insert_eq.
Qed.

Lemma StoreToken_created_at_witness :
  let db := (StoreToken 0 no_faults "u" "t" "n" empty_DB).1 in
  tokens (tx_db (tx_StoreToken (5 * Second) no_faults "u" "t2" "n" (mkTx db false false)).1) !! "u"
    = Some (mkTokenRow "t2" "n" 0 (5 * Second)).
Proof.
  intros db. apply (StoreToken_created_at (5 * Second) "u" "t2" "n" db (mkTokenRow "t" "n" 0 0));
    try discriminate. vm_compute. reflexivity.
Defined.
