(* ===== verification/StorageMetrics.v ===== *)
(** * System and user metrics: [internal/storage/metrics.go]

    The counting queries over the tables of file Storage, for the whole
    database, a time range and one user, outside and inside a transaction. *)
From Stdlib Require Import ZArith Lia String.
From stdpp Require Import base gmap list strings pretty.
From S2P Require Import Prelude GoTime SqliteTime Job Storage.
Local Open Scope Z_scope.

(** @src internal/storage/metrics.go 9-16 Metrics *)
Record Metrics := mkMetrics {
  TotalUsers : Z;
  ActiveUsers : Z;
  ProcessedEmails : Z;
  ValidTokens : Z;
  CollectedAt : Z;
}.

(** @src internal/storage/metrics.go 18-26 UserMetrics *)
Record UserMetrics := mkUserMetrics {
  um_TelegramID : Z;
  um_GmailUserID : string;
  um_ProcessedEmails : Z;
  um_HasValidToken : bool;
  um_LastActive : Z;
  um_DigestInterval : Z;
}.

Definition count_map {K A} `{Countable K} (P : K * A → bool) (m : gmap K A) : Z :=
  Z.of_nat (size (filter (λ kv, P kv = true) m)).

(** SELECT COUNT( * ), COUNT(CASE WHEN google_token_valid = TRUE THEN 1 END) FROM users. *)
(** @src internal/storage/metrics.go 35-40 GetMetrics *)
Definition count_users (db : DB) : Z * Z :=
  (Z.of_nat (size (users db)), count_map (λ kv, google_token_valid kv.2) (users db)).

(** SELECT COUNT( * ) FROM tokens t JOIN users u ON t.user_id = u.gmail_user_id
    WHERE u.google_token_valid = TRUE: the pairs of a token and a user. *)
(** @src internal/storage/metrics.go 54-60 GetMetrics *)
Definition count_valid_tokens (db : DB) : Z :=
  Z.of_nat (length (filter (λ tu : (string * TokenRow) * (Z * UserRow),
      tu.1.1 = gmail_user_id tu.2.2 ∧ google_token_valid tu.2.2 = true)
    (t ← map_to_list (tokens db); u ← map_to_list (users db); [(t, u)]))).

(** SELECT COUNT( * ) FROM processed_emails WHERE user_id = ?. *)
(** @src internal/storage/metrics.go 148-153 GetUserMetrics *)
Definition count_emails_of (g : string) (db : DB) : Z :=
  count_map (λ kv, bool_decide (kv.1.2 = g)) (processed_emails db).

(** One failure per query. *)
(** @src internal/storage/metrics.go 28-66 GetMetrics *)
Definition GetMetrics (now : Z) (f1 f2 f3 : db_faults) (db : DB) : result Metrics :=
  '(total, act) ← wrap_err "failed to get user metrics: " (exec f1 (Ok (count_users db)));
  emails ← wrap_err "failed to get processed emails count: "
             (exec f2 (Ok (Z.of_nat (size (processed_emails db)))));
  valid ← wrap_err "failed to get valid tokens count: " (exec f3 (Ok (count_valid_tokens db)));
  Ok (mkMetrics total act emails valid now).

(** *** A range of time *)

(** A [time.Time] given as a bound: its instant, and the offset of its
    location there, in seconds east of UTC. *)
Record Bound := mkBound { instant : Z; zone_offset : Z }.

(** The second its wall clock shows. *)
Definition wall_sec (p : Bound) : Z := instant p / Second + zone_offset p.

(** The driver's text for a bound.  go-sqlite3 formats a [time.Time] in its
    own location, with layout "2006-01-02 15:04:05.999999999-07:00": the
    wall-clock time up to the seconds, and then a fraction or an offset. *)
Class TimeBinding := {
  bind_time : Bound → string;
  bind_time_text p : four_digits (wall_sec p) →
    ∃ rest, rest ≠ ""%string ∧ bind_time p = datetime_text (wall_sec p) +:+ rest;
}.

Section range.
Context {TB : TimeBinding}.

(** What SQLite answers to [column <= ?] and [column >= ?] on an instant that
    [CURRENT_TIMESTAMP] has stored, which is UTC text. *)
Definition stored_le (t : Z) (p : Bound) : bool := String.leb (datetime_text (t / Second)) (bind_time p).
Definition stored_ge (t : Z) (p : Bound) : bool := String.leb (bind_time p) (datetime_text (t / Second)).

(** WHERE created_at <= end AND (updated_at >= start OR updated_at >= end). *)
(** @src internal/storage/metrics.go 79-85 GetMetricsWithinTimeRange *)
Definition user_in_range (start fin : Bound) (u : UserRow) : bool :=
  stored_le (u_created_at u) fin && (stored_ge (u_updated_at u) start || stored_ge (u_updated_at u) fin).

(** @src internal/storage/metrics.go 91-95 GetMetricsWithinTimeRange *)
Definition email_in_range (start fin : Bound) (t : Z) : bool := stored_ge t start && stored_le t fin.

(** @src internal/storage/metrics.go 101-108 GetMetricsWithinTimeRange *)
Definition token_in_range (start fin : Bound) (t : TokenRow) : bool :=
  stored_le (t_created_at t) fin && (stored_ge (t_updated_at t) start || stored_ge (t_updated_at t) fin).

(** The rows a range selects, as a database. *)
Definition rows_in_range (start fin : Bound) (db : DB) : DB :=
  mkDB (filter (λ kv, user_in_range start fin kv.2 = true) (users db))
       (filter (λ kv, token_in_range start fin kv.2 = true) (tokens db))
       (filter (λ kv, email_in_range start fin kv.2 = true) (processed_emails db)).

(** The users of the third query are all of them. *)
(** @src internal/storage/metrics.go 69-114 GetMetricsWithinTimeRange *)
Definition GetMetricsWithinTimeRange (now : Z) (f1 f2 f3 : db_faults) (start fin : Bound) (db : DB)
  : result Metrics :=
  if instant fin <? instant start then Err (invalid ": end time cannot be before start time")
  else
    let sel := rows_in_range start fin db in
    '(total, act) ← wrap_err "failed to get user metrics: " (exec f1 (Ok (count_users sel)));
    emails ← wrap_err "failed to get processed emails count: "
               (exec f2 (Ok (Z.of_nat (size (processed_emails sel)))));
    valid ← wrap_err "failed to get valid tokens count: "
              (exec f3 (Ok (count_valid_tokens (set_users (users db) sel))));
    Ok (mkMetrics total act emails valid now).
End range.

(** [sql.ErrNoRows], for a user that is not there. *)
Definition ErrNoRows : error := Sentinel "sql.ErrNoRows" "sql: no rows in result set".

(** @src internal/storage/metrics.go 116-159 GetUserMetrics *)
Definition GetUserMetrics (f1 f2 : db_faults) (telegramID : Z) (db : DB) : result UserMetrics :=
  if telegramID <=? 0 then Err (invalid ": telegram ID must be positive")
  else
    u ← wrap_err "failed to get user information: "
          (exec f1 (match users db !! telegramID with Some u => Ok u | None => Err ErrNoRows end));
    n ← wrap_err "failed to get processed emails count: "
          (exec f2 (Ok (count_emails_of (gmail_user_id u) db)));
    Ok (mkUserMetrics telegramID (gmail_user_id u) n (google_token_valid u) (u_updated_at u)
                      (duration_of_seconds (digest_interval u))).

(** Within a transaction every query fails once it is done. *)
(** @src internal/storage/metrics.go 163-205 GetMetrics *)
Definition tx_GetMetrics (now : Z) (f1 f2 f3 : db_faults) (t : Transaction) : result Metrics :=
  if closed t then Err ErrTransactionClosed
  else
    '(total, act) ← wrap_err "failed to get user metrics: " (tx_exec f1 t (Ok (count_users (tx_db t))));
    emails ← wrap_err "failed to get processed emails count: "
               (tx_exec f2 t (Ok (Z.of_nat (size (processed_emails (tx_db t))))));
    valid ← wrap_err "failed to get valid tokens count: "
              (tx_exec f3 t (Ok (count_valid_tokens (tx_db t))));
    Ok (mkMetrics total act emails valid now).

(** @src internal/storage/metrics.go 207-253 GetUserMetrics *)
Definition tx_GetUserMetrics (f1 f2 : db_faults) (telegramID : Z) (t : Transaction)
  : result UserMetrics :=
  if closed t then Err ErrTransactionClosed
  else if telegramID <=? 0 then Err (invalid ": telegram ID must be positive")
  else
    u ← wrap_err "failed to get user information: "
          (tx_exec f1 t (match users (tx_db t) !! telegramID with
                         | Some u => Ok u | None => Err ErrNoRows end));
    n ← wrap_err "failed to get processed emails count: "
          (tx_exec f2 t (Ok (count_emails_of (gmail_user_id u) (tx_db t))));
    Ok (mkUserMetrics telegramID (gmail_user_id u) n (google_token_valid u) (u_updated_at u)
                      (duration_of_seconds (digest_interval u))).

Lemma filter_none_map {K A} `{Countable K} (P : K * A → bool) (m : gmap K A) :
  (∀ k a, m !! k = Some a → P (k, a) = false) → count_map P m = 0.
Proof.
  intros H1. unfold count_map. replace (filter _ m) with (∅ : gmap K A); [done|].
  symmetry. apply map_empty. intros k. apply map_lookup_filter_None. right.
  intros a Ha Hp. rewrite (H1 k a Ha) in Hp. done.
Qed.

(** On any database the program has built, the metrics are the sizes of its
    tables, but no user is ever active and no token ever valid. *)
Lemma GetMetrics_counts (ops : list st_op) now :
  let db := run_st_ops ops empty_DB in
  GetMetrics now no_faults no_faults no_faults db
  = Ok (mkMetrics (Z.of_nat (size (users db))) 0 (Z.of_nat (size (processed_emails db))) 0 now).
Proof.
  intros db. pose proof (run_st_ops_inv ops _ db_inv_empty) as Hi. fold db in Hi.
  assert (E1 : count_map (λ kv : Z * UserRow, google_token_valid kv.2) (users db) = 0).
  { apply filter_none_map. intros i u Hu. apply (di_invalid db Hi i u Hu). }
  assert (E2 : count_valid_tokens db = 0).
  { unfold count_valid_tokens. rewrite (filter_none _ _); [done|].
    apply Forall_forall. intros [t [i u]] Hin [_ Hv].
    apply list_elem_of_bind in Hin as (t' & Hin & _).
    apply list_elem_of_bind in Hin as ([i' u'] & Hu & Hin).
    apply list_elem_of_singleton in Hu. injection Hu as <- <- <-.
    apply elem_of_map_to_list in Hin. cbn in Hv.
    by rewrite (proj1 (di_invalid db Hi i u Hin)) in Hv. }
  unfold GetMetrics, count_users. cbn. by rewrite E1, E2.
Qed.

(** C19: Whatever methods of the storage are called, directly or in
    transactions, with any engine failures, no two users share a Gmail ID, and
    no user's token is ever marked valid nor any digest recorded: no statement
    writes these columns.  So the metrics count the users and the emails
    there are, but never an active user or a valid token, however many users
    have stored tokens, and no user's metrics say that they have one.  The
    repository's tests of the metrics and of updating a user expect the
    opposite of all four. *)
Theorem storage_invariant (ops : list st_op) now :
  let db := run_st_ops ops empty_DB in
  (∀ i j u v, users db !! i = Some u → users db !! j = Some v →
     gmail_user_id u = gmail_user_id v → i = j) ∧
  (∀ i u, users db !! i = Some u → google_token_valid u = false ∧ last_digest_sent u = None) ∧
  GetMetrics now no_faults no_faults no_faults db
    = Ok (mkMetrics (Z.of_nat (size (users db))) 0 (Z.of_nat (size (processed_emails db))) 0 now) ∧
  (∀ f1 f2 id m, GetUserMetrics f1 f2 id db = Ok m → um_HasValidToken m = false).
Proof.
  intros db. destruct (run_st_ops_inv ops _ db_inv_empty) as [H1 H2]. fold db in H1, H2.
  split_and!; [exact H1|exact H2|apply GetMetrics_counts|].
  intros f1 f2 id m H. unfold GetUserMetrics in H. destruct (id <=? 0); [done|].
  apply bind_Ok in H as (u & Hu & H). apply bind_Ok in H as (n & _ & [= <-]). cbn.
  destruct (users db !! id) as [u'|] eqn:E; [|by destruct f1 as [[]]].
  apply wrap_err_Ok, exec_Ok in Hu. simplify_eq. by apply (H2 id).
Qed.

(** *** The range of time *)

Lemma leb_text s t a b :
  four_digits s → four_digits t →
  String.leb (datetime_text s +:+ a) (datetime_text t +:+ b) = true ↔
    s < t ∨ (s = t ∧ String.leb a b = true).
Proof.
  intros Hs Ht. unfold String.leb. rewrite datetime_text_compare by done.
  destruct (Z.compare_spec s t) as [->|H|H]; cbn; split; try done; try lia; try tauto.
  intros [?|[_ ?]]; [lia|done].
Qed.

Section within.
Context {TB : TimeBinding}.

Lemma stored_le_true t p :
  four_digits (t / Second) → four_digits (wall_sec p) →
  stored_le t p = true ↔ t / Second ≤ wall_sec p.
Proof.
  intros Ht Hp. unfold stored_le. destruct (bind_time_text p Hp) as (rest & Hr & ->).
  rewrite <- (append_nil_r (datetime_text (t / Second))), leb_text by done.
  destruct rest; [done|]. cbn. lia.
Qed.

Lemma stored_ge_true t p :
  four_digits (t / Second) → four_digits (wall_sec p) →
  stored_ge t p = true ↔ wall_sec p < t / Second.
Proof.
  intros Ht Hp. unfold stored_ge. destruct (bind_time_text p Hp) as (rest & Hr & ->).
  rewrite <- (append_nil_r (datetime_text (t / Second))), leb_text by done.
  destruct rest; [done|]. cbn. split; [intros [?|[_ [=]]]; lia|lia].
Qed.

(** The bounds' wall clocks and the stored instants show years of four digits. *)
Definition years_ok (start fin : Bound) (db : DB) : Prop :=
  let ok t := four_digits (t / Second) in
  four_digits (wall_sec start) ∧ four_digits (wall_sec fin) ∧
  (∀ i u, users db !! i = Some u → ok (u_created_at u) ∧ ok (u_updated_at u)) ∧
  (∀ g t, tokens db !! g = Some t → ok (t_created_at t) ∧ ok (t_updated_at t)) ∧
  (∀ k t, processed_emails db !! k = Some t → ok t).

(** A second, in UTC, that the range takes for one within it. *)
Definition in_window (start fin : Bound) (t : Z) : Prop :=
  wall_sec start < t / Second ≤ wall_sec fin.

(** A row created by the end and updated after the start, or after the end. *)
Definition alive_in_window (start fin : Bound) (created updated : Z) : Prop :=
  created / Second ≤ wall_sec fin ∧
  (wall_sec start < updated / Second ∨ wall_sec fin < updated / Second).

(** Every row of the tables is in the range. *)
Definition within (start fin : Bound) (db : DB) : Prop :=
  (∀ i u, users db !! i = Some u → alive_in_window start fin (u_created_at u) (u_updated_at u)) ∧
  (∀ g t, tokens db !! g = Some t → alive_in_window start fin (t_created_at t) (t_updated_at t)) ∧
  (∀ k t, processed_emails db !! k = Some t → in_window start fin t).

Lemma alive_true start fin c u :
  four_digits (wall_sec start) → four_digits (wall_sec fin) →
  four_digits (c / Second) ∧ four_digits (u / Second) →
  stored_le c fin && (stored_ge u start || stored_ge u fin) = true ↔ alive_in_window start fin c u.
Proof.
  intros Hs Hf [Hc Hu].
  by rewrite andb_true_iff, orb_true_iff, stored_le_true, !stored_ge_true by done.
Qed.

Lemma in_window_true start fin t :
  four_digits (wall_sec start) → four_digits (wall_sec fin) → four_digits (t / Second) →
  email_in_range start fin t = true ↔ in_window start fin t.
Proof.
  intros Hs Hf Ht. unfold email_in_range. by rewrite andb_true_iff, stored_le_true, stored_ge_true.
Qed.

Lemma filter_values_lookup {K A} `{Countable K} (P : A → bool) (m : gmap K A) k a :
  filter (λ kv, P kv.2 = true) m !! k = Some a ↔ m !! k = Some a ∧ P a = true.
Proof. by rewrite map_lookup_filter_Some. Qed.

Lemma filter_values_all {K A} `{Countable K} (P : A → bool) (m : gmap K A) :
  (∀ k a, m !! k = Some a → P a = true) → filter (λ kv, P kv.2 = true) m = m.
Proof. intros Hm. apply map_filter_id. intros k a Ha. by eapply Hm. Qed.

(** The rows a range selects, one by one. *)
Lemma rows_in_range_spec start fin db :
  years_ok start fin db →
  (∀ i u, users (rows_in_range start fin db) !! i = Some u ↔
     users db !! i = Some u ∧ alive_in_window start fin (u_created_at u) (u_updated_at u)) ∧
  (∀ g t, tokens (rows_in_range start fin db) !! g = Some t ↔
     tokens db !! g = Some t ∧ alive_in_window start fin (t_created_at t) (t_updated_at t)) ∧
  (∀ k t, processed_emails (rows_in_range start fin db) !! k = Some t ↔
     processed_emails db !! k = Some t ∧ in_window start fin t).
Proof.
  intros (Hs & Hf & Hu & Ht & He). unfold rows_in_range. cbn [users tokens processed_emails].
  split_and!; intros k a; rewrite filter_values_lookup; split; intros [Ha Hp]; (split; [done|]);
    revert Hp; first [apply alive_true | apply in_window_true]; eauto.
Qed.

Lemma rows_within start fin db :
  years_ok start fin db → within start fin db → rows_in_range start fin db = db.
Proof.
  intros Hy (Wu & Wt & We). destruct (rows_in_range_spec start fin db Hy) as (Hu & Ht & He).
  destruct (rows_in_range start fin db) as [us ts es], db as [us0 ts0 es0].
  cbn [users tokens processed_emails] in *.
  f_equal; apply map_eq; intros k; apply option_eq; intros a; rewrite ?Hu, ?Ht, ?He; split;
    intros Ha; (by destruct Ha) || (split; [done|]); eauto.
Qed.
End within.

(** C29: Metrics of a range of time.  When every row is in the range the metrics
    are those of the whole database, failures of the queries included; and in
    general the rows that count are these, by the seconds that the wall clocks
    of the two bounds show, each in its own zone: the emails processed after
    the start and not after the end, and the users and tokens created not
    after the end and updated after the start or after the end (tokens are
    joined with all users).  So the range
    is open below, a row written in the very second in which it starts is not
    in it although the query says BETWEEN and >=, and a bound that is not in
    UTC moves its edge of the range by its offset.  For years of four digits. *)
Theorem metrics_of_full_range {TB : TimeBinding} now f1 f2 f3 start fin db :
  instant start ≤ instant fin →
  years_ok start fin db →
  (within start fin db →
   GetMetricsWithinTimeRange now f1 f2 f3 start fin db = GetMetrics now f1 f2 f3 db) ∧
  (∀ m, GetMetricsWithinTimeRange now f1 f2 f3 start fin db = Ok m →
   TotalUsers m = Z.of_nat (size (users (rows_in_range start fin db))) ∧
   ProcessedEmails m = Z.of_nat (size (processed_emails (rows_in_range start fin db))) ∧
   ValidTokens m = count_valid_tokens (set_users (users db) (rows_in_range start fin db))) ∧
  (∀ i u, users (rows_in_range start fin db) !! i = Some u ↔
     users db !! i = Some u ∧ alive_in_window start fin (u_created_at u) (u_updated_at u)) ∧
  (∀ g t, tokens (rows_in_range start fin db) !! g = Some t ↔
     tokens db !! g = Some t ∧ alive_in_window start fin (t_created_at t) (t_updated_at t)) ∧
  (∀ k t, processed_emails (rows_in_range start fin db) !! k = Some t ↔
     processed_emails db !! k = Some t ∧ in_window start fin t).
Proof.
  intros Hle Hy. unfold GetMetricsWithinTimeRange, GetMetrics.
  destruct (Z.ltb_spec (instant fin) (instant start)) as [?|_]; [lia|].
  split; [|split; [|by apply rows_in_range_spec]].
  - intros Hw. rewrite (rows_within _ _ _ Hy Hw). by destruct db.
  - intros m H. apply bind_Ok in H as ([total act] & Hu & H). apply wrap_err_Ok, exec_Ok in Hu.
    apply bind_Ok in H as (emails & He & H). apply wrap_err_Ok, exec_Ok in He.
    apply bind_Ok in H as (valid & Hv & H). apply wrap_err_Ok, exec_Ok in Hv.
    injection Hu as <- <-. injection He as <-. injection Hv as <-. by injection H as <-.
Qed.

(** The driver's layout, with all nine digits of a fraction. *)
Definition offset_text (off : Z) : string :=
  (if off <? 0 then "-" else "+") +:+ pad 2 (Z.abs off / 3600) +:+ ":" +:+ pad 2 (Z.abs off / 60 mod 60).
Definition demo_bind (p : Bound) : string :=
  datetime_text (wall_sec p) +:+
  (if instant p mod Second =? 0 then "" else "." +:+ pad 9 (instant p mod Second)) +:+
  offset_text (zone_offset p).

Definition demo_binding : TimeBinding.
Proof.
  refine {| bind_time := demo_bind |}. intros p _. eexists. split; [|reflexivity].
  unfold offset_text. by repeat case_match.
Defined.

(** An email processed at 12:00:06 UTC is in a range that ends at 12:00:08 UTC,
    not in one that starts at 12:00:06 UTC, and not in one that starts at
    11:59:00 UTC given as 12:59:00 one hour east. *)
Lemma metrics_of_full_range_witness :
  let T := Date_UTC 2024 5 1 12 0 0 in
  let email := ("m"%string, "g"%string) in
  let db := mkDB {[1 := mkUserRow "g" false 3600 None (T + 5 * Second) (T + 7 * Second)]} ∅
                 {[email := T + 6 * Second]} in
  let rows := rows_in_range (TB := demo_binding) in
  let fin := mkBound (T + 8 * Second) 0 in
  GetMetricsWithinTimeRange (TB := demo_binding) 9 no_faults no_faults no_faults
    (mkBound (T + 4 * Second + 1) 0) fin db = Ok (mkMetrics 1 0 1 0 9) ∧
  (processed_emails (rows (mkBound (T + 6 * Second) 0) fin db) !! email ≠ Some (T + 6 * Second)) ∧
  processed_emails (rows (mkBound (T - Minute) 3600) fin db) !! email ≠ Some (T + 6 * Second).
Proof.
  intros T email db rows fin.
  assert (Hy : ∀ t o, four_digits (wall_sec (mkBound t o)) → years_ok (mkBound t o) fin db).
  { intros t o H. split; [exact H|]. split; [by vm_compute|]. split_and!; cbn.
    - intros i u Hu. apply lookup_singleton_Some in Hu as [<- <-]. by vm_compute.
    - intros g x Hx. by rewrite lookup_empty in Hx.
    - intros k x Hk. apply lookup_singleton_Some in Hk as [<- <-]. by vm_compute. }
  assert (Hw : within (mkBound (T + 4 * Second + 1) 0) fin db).
  { split_and!; cbn.
    - intros i u Hu. apply lookup_singleton_Some in Hu as [<- <-]. split; [by vm_compute|left; by vm_compute].
    - intros g x Hx. by rewrite lookup_empty in Hx.
    - intros k x Hk. apply lookup_singleton_Some in Hk as [<- <-]. split; by vm_compute. }
  assert (Hn : ∀ t o, t ≤ instant fin → four_digits (wall_sec (mkBound t o)) →
    (T + 6 * Second) / Second ≤ wall_sec (mkBound t o) →
    processed_emails (rows (mkBound t o) fin db) !! email ≠ Some (T + 6 * Second)).
  { intros t o Ht Ho Hle H. destruct (metrics_of_full_range (TB := demo_binding) 9 no_faults no_faults
      no_faults (mkBound t o) fin db Ht (Hy t o Ho)) as (_ & _ & _ & _ & E).
    apply E in H as [_ [H _]]. exact (Zlt_not_le _ _ H Hle). }
  split; [|split; apply Hn; vm_compute; first [discriminate|split; discriminate]].
  destruct (metrics_of_full_range (TB := demo_binding) 9 no_faults no_faults no_faults
    (mkBound (T + 4 * Second + 1) 0) fin db) as [E _];
    [vm_compute; discriminate|apply Hy; vm_compute; split; discriminate|].
  rewrite (E Hw). vm_compute. reflexivity.
Defined.
