(* ===== verification/Database.v ===== *)
(** * Opening the database: [internal/storage/pool.go] and [migration.go]

    The configuration and its checks, the connection pool of [database/sql]
    as far as its limits go, [OpenDatabase], [Migrate] and the two
    [GetMigrationStatus].  The SQLite driver and golang-migrate are outside:
    their failures and answers are arguments. *)
From Stdlib Require Import ZArith Lia Ascii.
From stdpp Require Import base list strings pretty.
From S2P Require Import Prelude GoTime GoStrings Job Storage.
Local Open Scope Z_scope.

(** ** The configuration *)

(** @src internal/storage/pool.go 11-18 Config *)
Record Config := mkConfig {
  Path : string;
  MaxOpenConns : Z;
  MaxIdleConns : Z;
  ConnMaxLifetime : Z;
  ConnMaxIdleTime : Z;
  BusyTimeout : Z;
}.

(** @src internal/storage/pool.go 21-30 DefaultConfig *)
Definition DefaultConfig : Config :=
  mkConfig "gmail_digest.db" 10 5 Hour (30 * Minute) (5 * Second).

(** @src internal/storage/pool.go 33-67 Validate *)
Definition Validate (c : Config) : option error :=
  if decide (Path c = ""%string) then Some (invalid ": database path cannot be empty")
  else if MaxOpenConns c <=? 0 then Some (invalid ": max open connections must be positive")
  else if MaxIdleConns c <? 0 then Some (invalid ": max idle connections cannot be negative")
  else if MaxOpenConns c <? MaxIdleConns c
  then Some (invalid ": max idle connections cannot be greater than max open connections")
  else if ConnMaxLifetime c <=? 0 then Some (invalid ": connection max lifetime must be positive")
  else if ConnMaxIdleTime c <=? 0 then Some (invalid ": connection max idle time must be positive")
  else if ConnMaxLifetime c <? ConnMaxIdleTime c
  then Some (invalid ": connection max idle time cannot be greater than max lifetime")
  else if BusyTimeout c <=? 0 then Some (invalid ": busy timeout must be positive")
  else None.

(** ** The pool's limits in [database/sql] *)

Record Handle := mkHandle {
  h_dsn : string;
  maxOpen : Z;
  maxIdleCount : Z;     (* 0 is the default of 2, negative is none *)
  maxLifetime : Z;
  maxIdleTime : Z;
  h_closed : bool;
}.

Definition sql_Open (dsn : string) : Handle := mkHandle dsn 0 0 0 0 false.

Definition maxIdleConns (h : Handle) : Z :=
  if maxIdleCount h =? 0 then 2 else Z.max 0 (maxIdleCount h).

Definition with_idle (n : Z) (h : Handle) : Handle :=
  mkHandle (h_dsn h) (maxOpen h) n (maxLifetime h) (maxIdleTime h) (h_closed h).
Definition too_many_idle (h : Handle) : bool := (0 <? maxOpen h) && (maxOpen h <? maxIdleConns h).

Definition SetMaxIdleConns (n : Z) (h : Handle) : Handle :=
  let h := with_idle (if 0 <? n then n else -1) h in
  if too_many_idle h then with_idle (maxOpen h) h else h.

Definition SetMaxOpenConns (n : Z) (h : Handle) : Handle :=
  let h := mkHandle (h_dsn h) (Z.max 0 n) (maxIdleCount h) (maxLifetime h) (maxIdleTime h) (h_closed h) in
  if too_many_idle h then SetMaxIdleConns n h else h.

Definition SetConnMaxLifetime (d : Z) (h : Handle) : Handle :=
  mkHandle (h_dsn h) (maxOpen h) (maxIdleCount h) (Z.max 0 d) (maxIdleTime h) (h_closed h).
Definition SetConnMaxIdleTime (d : Z) (h : Handle) : Handle :=
  mkHandle (h_dsn h) (maxOpen h) (maxIdleCount h) (maxLifetime h) (Z.max 0 d) (h_closed h).
Definition close_handle (h : Handle) : Handle :=
  mkHandle (h_dsn h) (maxOpen h) (maxIdleCount h) (maxLifetime h) (maxIdleTime h) true.

(** ** [OpenDatabase] *)

(** [int(cfg.BusyTimeout.Milliseconds())] *)
Definition Millisecond : Z := 1000000.
Definition Milliseconds (d : Z) : Z := Z.quot d Millisecond.

(** @src internal/storage/pool.go 76-79 OpenDatabase *)
Definition dsn_of (cfg : Config) : string :=
  Path cfg +:+ "?_busy_timeout=" +:+ pretty (Milliseconds (BusyTimeout cfg))
  +:+ "&_journal_mode=WAL&_synchronous=NORMAL".

(** What [sql.Open], the ping and the migrations come to. *)
Record OpenEnv := mkOpenEnv {
  oe_open : option error;
  oe_ping : option error;
  oe_migrate : option error;
}.

(** The handle that was opened, if any, and what the caller gets.  The call of
    [NewSQLiteStorage] with a handle and of [Migrate] with a context, which
    sqlite.go and migration.go declare otherwise, are taken as meant here. *)
(** @src internal/storage/pool.go 70-110 OpenDatabase *)
Definition OpenDatabase (e : OpenEnv) (cfg : Config) : option Handle * result Handle :=
  match Validate cfg with
  | Some err => (None, Err (wrap_pre "invalid configuration: " err))
  | None =>
      match oe_open e with
      | Some err => (None, Err (wrap_pre "failed to open database: " err))
      | None =>
          let db := SetConnMaxIdleTime (ConnMaxIdleTime cfg) (SetConnMaxLifetime (ConnMaxLifetime cfg)
                      (SetMaxIdleConns (MaxIdleConns cfg) (SetMaxOpenConns (MaxOpenConns cfg)
                        (sql_Open (dsn_of cfg))))) in
          match oe_ping e with
          | Some err => (Some (close_handle db), Err (wrap_pre "failed to ping database: " err))
          | None =>
              match oe_migrate e with
              | Some err => (Some (close_handle db), Err (wrap_pre "failed to run migrations: " err))
              | None => (Some db, Ok db)
              end
          end
      end
  end.

Definition valid_config (c : Config) : Prop :=
  Path c ≠ ""%string ∧ 0 < MaxOpenConns c ∧ 0 ≤ MaxIdleConns c ≤ MaxOpenConns c ∧
  0 < ConnMaxIdleTime c ≤ ConnMaxLifetime c ∧ 0 < BusyTimeout c.

Example DefaultConfig_valid : Validate DefaultConfig = None ∧
  dsn_of DefaultConfig = "gmail_digest.db?_busy_timeout=5000&_journal_mode=WAL&_synchronous=NORMAL"%string.
Proof. by vm_compute. Qed.

Lemma Validate_spec c :
  match Validate c with
  | None => valid_config c
  | Some e => ¬ valid_config c ∧ errors_Is e ErrInvalidInput = true
  end.
Proof.
  unfold Validate, valid_config. case_decide; [split; [tauto|reflexivity]|].
  repeat match goal with
  | |- context [if ?b then Some _ else _] => destruct b eqn:?; [split; [lia|reflexivity]|]
  end. split_and!; done || lia.
Qed.

(** The limits are taken over as they are. *)
Lemma limits_as_given dsn cfg :
  valid_config cfg →
  let h := SetConnMaxIdleTime (ConnMaxIdleTime cfg) (SetConnMaxLifetime (ConnMaxLifetime cfg)
             (SetMaxIdleConns (MaxIdleConns cfg) (SetMaxOpenConns (MaxOpenConns cfg) (sql_Open dsn)))) in
  h_dsn h = dsn ∧ maxOpen h = MaxOpenConns cfg ∧ maxIdleConns h = MaxIdleConns cfg ∧
  maxLifetime h = ConnMaxLifetime cfg ∧ maxIdleTime h = ConnMaxIdleTime cfg ∧ h_closed h = false.
Proof.
  intros (_ & Ho & Hi & Ht & _).
  assert (E : ∃ k, SetMaxOpenConns (MaxOpenConns cfg) (sql_Open dsn) = mkHandle dsn (MaxOpenConns cfg) k 0 0 false).
  { unfold SetMaxOpenConns, SetMaxIdleConns, too_many_idle, with_idle. cbn.
    rewrite Z.max_r by lia. repeat case_match; by eexists. }
  destruct E as [k ->]. unfold SetMaxIdleConns.
  assert (F : too_many_idle (with_idle (if 0 <? MaxIdleConns cfg then MaxIdleConns cfg else -1)
                (mkHandle dsn (MaxOpenConns cfg) k 0 0 false)) = false).
  { unfold too_many_idle, maxIdleConns. cbn.
    destruct (Z.ltb_spec 0 (MaxIdleConns cfg)); repeat case_match; lia. }
  rewrite F. unfold maxIdleConns. cbn. split_and!; try done; try lia.
  destruct (Z.ltb_spec 0 (MaxIdleConns cfg)); repeat case_match; lia.
Qed.

Lemma Milliseconds_floor d :
  0 ≤ d → 0 ≤ Milliseconds d ∧
    Milliseconds d * Millisecond ≤ d < (Milliseconds d + 1) * Millisecond.
Proof.
  intros Hd. unfold Milliseconds, Millisecond. rewrite Z.quot_div_nonneg by lia.
  pose proof (Z.div_pos d 1000000 Hd). pose proof (Z.mul_div_le d 1000000).
  pose proof (Z.mul_succ_div_gt d 1000000). lia.
Qed.

(** C28: [OpenDatabase] on every branch.  A configuration that breaks one of its
    conditions is refused as invalid input before anything is opened.  With
    any other, what goes wrong first decides: the error of opening leaves no
    handle, those of the ping and of the migrations leave the handle closed,
    each wrapped in its own message, and when all three succeed the caller
    gets the open handle.  Its pool has the configured limits, none of them
    adjusted, and its DSN asks for the busy timeout in whole milliseconds,
    rounded down: a positive timeout below one millisecond passes the checks
    and is 0, which is no waiting at all. *)
Theorem OpenDatabase_spec e cfg :
  (¬ valid_config cfg ∧
   ∃ er, OpenDatabase e cfg = (None, Err er) ∧ errors_Is er ErrInvalidInput = true) ∨
  (valid_config cfg ∧ ∃ db ms,
   0 ≤ ms ∧ ms * Millisecond ≤ BusyTimeout cfg < (ms + 1) * Millisecond ∧
   h_dsn db = Path cfg +:+ "?_busy_timeout=" +:+ pretty ms +:+ "&_journal_mode=WAL&_synchronous=NORMAL" ∧
   maxOpen db = MaxOpenConns cfg ∧ maxIdleConns db = MaxIdleConns cfg ∧
   maxLifetime db = ConnMaxLifetime cfg ∧ maxIdleTime db = ConnMaxIdleTime cfg ∧
   h_closed db = false ∧ h_closed (close_handle db) = true ∧
   OpenDatabase e cfg =
     match oe_open e, oe_ping e, oe_migrate e with
     | Some er, _, _ => (None, Err (wrap_pre "failed to open database: " er))
     | None, Some er, _ => (Some (close_handle db), Err (wrap_pre "failed to ping database: " er))
     | None, None, Some er => (Some (close_handle db), Err (wrap_pre "failed to run migrations: " er))
     | None, None, None => (Some db, Ok db)
     end).
Proof.
  unfold OpenDatabase. pose proof (Validate_spec cfg) as Hv. destruct (Validate cfg) as [err|].
  { left. destruct Hv. split; [done|]. by eexists. }
  right. destruct (limits_as_given (dsn_of cfg) cfg Hv) as (?&?&?&?&?&?).
  pose proof Hv as (_ & _ & _ & _ & Hb). destruct (Milliseconds_floor (BusyTimeout cfg)) as [? ?]; [lia|].
  split; [done|]. eexists _, (Milliseconds (BusyTimeout cfg)).
  do 9 (split; [eassumption || reflexivity|]). by repeat case_match.
Qed.

(** ** [Migrate] *)

(** The files that [go:embed] takes in. *)
(** @src internal/storage/migration.go 18-19 migrationsFS *)
Definition migration_files : list string :=
  ["0001_initial.sql"; "0002_add_telegram_to_users.sql"]%string.

(** golang-migrate's names of migration files:
    [{version}_{title}.up.{extension}] and [.down.]. *)
Fixpoint has_direction (s : string) : bool :=
  String.prefix ".up." s || String.prefix ".down." s
  || match s with EmptyString => false | String _ r => has_direction r end.
Fixpoint migration_name_go (digits : bool) (s : string) : bool :=
  match s with
  | String c r =>
      match digit_value c with
      | Some _ => migration_name_go true r
      | None => digits && bool_decide (c = "_"%char) && has_direction r
      end
  | EmptyString => false
  end.
Definition migration_name (s : string) : bool := migration_name_go false s.

Example migration_names :
  migration_name "0001_initial.up.sql" = true ∧ migration_name "0001_initial.down.sql" = true ∧
  migration_name "_initial.up.sql" = false ∧ Forall (λ f, migration_name f = false) migration_files.
Proof. vm_compute. split_and!; repeat constructor. Qed.

Definition ErrNoChange : error := Sentinel "migrate.ErrNoChange" "no change".
Definition ErrNotExist : error := Sentinel "os.ErrNotExist" "file does not exist".

Section migrate.
(** The contents of the database, and golang-migrate's [Up] from a source
    with the given files. *)
Context {W : Type} (Up : list string → W → W * option error).

Record MigrateEnv := mkMigrateEnv {
  me_source : option error;
  me_open : option error;
  me_driver : option error;
  me_instance : option error;
}.

(** @src internal/storage/migration.go 95-129 Migrate *)
Definition Migrate (e : MigrateEnv) (db : W) : W * option error :=
  match me_source e with
  | Some err => (db, Some (wrap_pre "failed to create migration source: " err))
  | None => match me_open e with
  | Some err => (db, Some (wrap_pre "failed to open db for migration: " err))
  | None => match me_driver e with
  | Some err => (db, Some (wrap_pre "failed to create migration driver: " err))
  | None => match me_instance e with
  | Some err => (db, Some (wrap_pre "failed to create migrate instance: " err))
  | None =>
      let '(db, err) := Up migration_files db in
      match err with
      | Some err => if decide (err = ErrNoChange) then (db, None)
                    else (db, Some (wrap_pre "failed to apply migrations: " err))
      | None => (db, None)
      end
  end end end end.

(** A source without a file of that form has no first version, which a source
    driver reports as [os.ErrNotExist]. *)
Hypothesis Up_no_migrations : ∀ files db,
  Forall (λ f, migration_name f = false) files →
  ∃ err, Up files db = (db, Some err) ∧ errors_Is err ErrNotExist = true.

(** The migration files of the repository do not have the names that
    golang-migrate looks for, so [Migrate], and with it the start of the
    application, fails on every database and changes nothing. *)
Theorem Migrate_finds_no_migrations e db :
  ∃ err, Migrate e db = (db, Some err).
Proof.
  unfold Migrate. destruct (me_source e); [by eexists|]. destruct (me_open e); [by eexists|].
  destruct (me_driver e); [by eexists|]. destruct (me_instance e); [by eexists|].
  destruct (Up_no_migrations migration_files db) as (err & -> & Hn); [apply migration_names|].
  rewrite decide_False; [by eexists|]. by intros ->.
Qed.
End migrate.

(** ** [GetMigrationStatus] *)

(** @src internal/storage/migration.go 161-164 MigrationStatus *)
Record MigrationStatus := mkMigrationStatus { Version : Z; AppliedAt : Z }.

(** What a query gives row by row: each row's scan, then the error the
    iteration ended with. *)
Record Rows := mkRows { rows_scans : list (result MigrationStatus); rows_Err : option error }.

Fixpoint scan_rows (status : list MigrationStatus) (l : list (result MigrationStatus))
  : result (list MigrationStatus) :=
  match l with
  | [] => Ok status
  | r :: l => s ← wrap_err "failed to scan migration: " r; scan_rows (status ++ [s]) l
  end.

Definition collect_status (query : result Rows) : result (list MigrationStatus) :=
  rows ← wrap_err "failed to query migrations: " query;
  status ← scan_rows [] (rows_scans rows);
  match rows_Err rows with
  | Some err => Err (wrap_pre "failed to iterate migrations: " err)
  | None => Ok status
  end.

(** @src internal/storage/migration.go 132-158 GetMigrationStatus *)
Definition GetMigrationStatus (query : result Rows) : result (list MigrationStatus) := collect_status query.

(** @src internal/storage/migration.go 169-199 GetMigrationStatus *)
Definition tx_GetMigrationStatus (query : result Rows) (t : Transaction) : result (list MigrationStatus) :=
  if closed t then Err ErrTransactionClosed
  else collect_status (if tx_done t then Err ErrTxDone else query).

Lemma scan_rows_Ok acc l r :
  scan_rows acc l = Ok r ↔ ∃ s, l = Ok <$> s ∧ r = acc ++ s.
Proof.
  revert acc. induction l as [|[s|e] l IH]; intros acc; cbn.
  - split; [intros [= <-]; exists []; by rewrite app_nil_r|].
    intros ([|s t] & E & ->); [by rewrite app_nil_r|discriminate E].
  - rewrite IH. split.
    + intros (t & -> & ->). exists (s :: t). by rewrite <- app_assoc.
    + intros ([|s' t] & E & ->); [discriminate E|]. injection E as <- ->. exists t. by rewrite <- app_assoc.
  - split; [done|]. by intros ([|s' t] & E & _).
Qed.

(** The status is the whole table or an error, never a part of it. *)
Theorem GetMigrationStatus_all query st :
  GetMigrationStatus query = Ok st ↔ query = Ok (mkRows (Ok <$> st) None).
Proof.
  unfold GetMigrationStatus, collect_status. destruct query as [[l err]|e]; cbn; [|done].
  rewrite bind_Ok. setoid_rewrite scan_rows_Ok. split.
  - intros (st' & (s & -> & ->) & H). cbn in H. destruct err; [done|]. by injection H as <-.
  - intros [= -> ->]. exists st. split; [by exists st|done].
Qed.

(** ** Witness: an [Up] that applies every file of the right name *)
Definition demo_Up (files : list string) (db : nat) : nat * option error :=
  match filter (λ f, migration_name f = true) files with
  | [] => (db, Some (wrap_pre "first .: " ErrNotExist))
  | l => (length l + db, None)%nat
  end.

Lemma demo_Up_no_migrations files db :
  Forall (λ f, migration_name f = false) files →
  ∃ err, demo_Up files db = (db, Some err) ∧ errors_Is err ErrNotExist = true.
Proof.
  intros H. exists (wrap_pre "first .: " ErrNotExist). split; [|reflexivity]. unfold demo_Up.
  rewrite (filter_none _ files); [done|]. eapply Forall_impl; [exact H|]. intros f ->. done.
Qed.

Lemma Migrate_finds_no_migrations_witness :
  demo_Up ["1_a.up.sql"]%string 0%nat = (1%nat, None) ∧
  ∃ err, Migrate demo_Up (mkMigrateEnv None None None None) 7%nat = (7%nat, Some err).
Proof.
  split; [reflexivity|].
  apply (Migrate_finds_no_migrations demo_Up demo_Up_no_migrations (mkMigrateEnv None None None None) 7%nat).
Defined.
