(* ===== verification/Backup.v ===== *)
(** * Backup and restore: [internal/storage/backup.go]

    The calls the code makes around SQLite: the texts of the scripts, the
    transaction they run in, the verification of the copy and every error
    path.  SQLite itself is a parameter: what a statement or a text of several
    does to the contents of the database files, and what a count returns.  The
    path of the backup is spliced into the scripts as it is; [split_sql] is how
    these texts fall into statements, which with a quote in the path depends
    on the path. *)
From Stdlib Require Import ZArith Lia Ascii.
From stdpp Require Import base list strings pretty.
From S2P Require Import Prelude GoStrings Storage.
Local Open Scope Z_scope.

(** ** The scripts *)

(** @src internal/storage/backup.go 85-90 verifyBackup *)
Definition tables : list string := ["schema_migrations"; "users"; "tokens"; "processed_emails"]%string.

(** The texts, with the path spliced in as it is. *)
(** @src internal/storage/backup.go 40-55 Backup *)
Definition backup_text (path : string) : string :=
  "
		ATTACH DATABASE '" +:+ path +:+ "' AS backup;
		
		-- Create tables in backup database
		CREATE TABLE backup.schema_migrations AS SELECT * FROM schema_migrations;
		CREATE TABLE backup.users AS SELECT * FROM users;
		CREATE TABLE backup.tokens AS SELECT * FROM tokens;
		CREATE TABLE backup.processed_emails AS SELECT * FROM processed_emails;
		
		-- Create indexes in backup database
		CREATE INDEX backup.idx_users_gmail_user_id ON users(gmail_user_id);
		CREATE INDEX backup.idx_processed_emails_user_id ON processed_emails(user_id);
		CREATE INDEX backup.idx_processed_emails_processed_at ON processed_emails(processed_at);
		
		DETACH DATABASE backup;
	".

(** @src internal/storage/backup.go 141-146 Restore *)
Definition drop_text : string := "
		DROP TABLE IF EXISTS schema_migrations;
		DROP TABLE IF EXISTS users;
		DROP TABLE IF EXISTS tokens;
		DROP TABLE IF EXISTS processed_emails;
	".

(** @src internal/storage/backup.go 152-167 Restore *)
Definition restore_text (path : string) : string :=
  "
		ATTACH DATABASE '" +:+ path +:+ "' AS backup;
		
		-- Restore tables
		CREATE TABLE schema_migrations AS SELECT * FROM backup.schema_migrations;
		CREATE TABLE users AS SELECT * FROM backup.users;
		CREATE TABLE tokens AS SELECT * FROM backup.tokens;
		CREATE TABLE processed_emails AS SELECT * FROM backup.processed_emails;
		
		-- Restore indexes
		CREATE INDEX idx_users_gmail_user_id ON users(gmail_user_id);
		CREATE INDEX idx_processed_emails_user_id ON processed_emails(user_id);
		CREATE INDEX idx_processed_emails_processed_at ON processed_emails(processed_at);
		
		DETACH DATABASE backup;
	".

(** How such a text falls into statements: they end with a semicolon outside a
    literal; white space and comments before them do not count. *)
Inductive sql_mode := Between | InStatement | InLiteral | InComment.

Definition cons_head (c : ascii) (l : list string) : list string :=
  match l with s :: l => String c s :: l | [] => [String c ""] end.

Definition starts_dash (s : string) : bool :=
  match s with String c _ => bool_decide (c = "-"%char) | EmptyString => false end.
Definition sql_blank (c : ascii) : bool := bool_decide (c = " " ∨ c = "009" ∨ c = "010")%char.

(** Within a statement the first element is the rest of it. *)
Fixpoint split_go (mode : sql_mode) (s : string) : list string :=
  match s with
  | EmptyString => match mode with InStatement | InLiteral => [""%string] | _ => [] end
  | String c r =>
      match mode with
      | InComment => split_go (if decide (c = "010"%char) then Between else InComment) r
      | InLiteral => cons_head c (split_go (if decide (c = "'"%char) then InStatement else InLiteral) r)
      | InStatement =>
          if decide (c = ";"%char) then ""%string :: split_go Between r
          else cons_head c (split_go (if decide (c = "'"%char) then InLiteral else InStatement) r)
      | Between =>
          if bool_decide (c = ";"%char) || sql_blank c then split_go Between r
          else if bool_decide (c = "-"%char) && starts_dash r then split_go InComment r
          else cons_head c (split_go (if decide (c = "'"%char) then InLiteral else InStatement) r)
      end
  end.
Definition split_sql (text : string) : list string := split_go Between text.

Definition detach : string := "DETACH DATABASE backup".

Section backup.
(** The contents of the database files. *)
Context {W : Type}.
(** A statement of the storage's transaction, and a text of several; [PRAGMA journal_mode=WAL] on the
    file of a path; a row count of a table of the storage's database and of
    the file of a path; removing a file. *)
Context (exec_stmt : string → W → W * option error).
Context (exec_text : string → W → W * option error).
Context (journal_wal : string → W → W * option error).
Context (count_source : string → W → result Z) (count_backup : string → string → W → result Z).
Context (Remove : string → W → W).

(** Where the calls outside SQL may fail. *)
Record BackupEnv := mkBackupEnv {
  be_mkdir : option error;
  be_begin : option error;
  be_open : option error;
  be_commit : option error;
  be_verify_open : option error;
  be_stat : option error;
}.

(** [Exec] of several statements stops at the first that fails. *)
Fixpoint run_script (l : list string) (w : W) : W * option error :=
  match l with
  | [] => (w, None)
  | s :: l => let '(w, err) := exec_stmt s w in
              match err with Some err => (w, Some err) | None => run_script l w end
  end.

(** *** [verifyBackup] *)

Definition query_count (table : string) : string := "SELECT COUNT(*) FROM " +:+ table.

(** The first error of a loop. *)
Fixpoint first_failure {A} (f : A → option error) (l : list A) : option error :=
  match l with [] => None | x :: l => match f x with Some err => Some err | None => first_failure f l end end.

Definition as_error {A} (r : result A) : option error := match r with Ok _ => None | Err e => Some e end.

Definition check_table (path : string) (w : W) (table : string) : option error :=
  as_error (wrap_err ("failed to verify table " +:+ table +:+ ": ") (count_backup path (query_count table) w)).

Definition compare_table (path : string) (w : W) (table : string) : option error :=
  match wrap_err ("failed to get source count for table " +:+ table +:+ ": ") (count_source (query_count table) w) with
  | Err err => Some err
  | Ok sourceCount =>
      match wrap_err ("failed to get backup count for table " +:+ table +:+ ": ")
              (count_backup path (query_count table) w) with
      | Err err => Some err
      | Ok backupCount =>
          if sourceCount =? backupCount then None
          else Some (ErrorString ("row count mismatch for table " +:+ table +:+ ": source=" +:+ pretty sourceCount
                                  +:+ ", backup=" +:+ pretty backupCount))
      end
  end.

(** @src internal/storage/backup.go 77-124 verifyBackup *)
Definition verifyBackup (e : BackupEnv) (path : string) (w : W) : option error :=
  match be_verify_open e with
  | Some err => Some (wrap_pre "failed to open backup database: " err)
  | None =>
      match first_failure (check_table path w) tables with
      | Some err => Some err
      | None => first_failure (compare_table path w) tables
      end
  end.

(** *** [Backup] and [Restore]

    A transaction works on a copy of the contents that [Commit] publishes; the
    deferred [Rollback] drops it. *)
(** @src internal/storage/backup.go 12-74 Backup *)
Definition Backup (e : BackupEnv) (path : string) (w : W) : W * option error :=
  match be_mkdir e with
  | Some err => (w, Some (wrap_pre "failed to create backup directory: " err))
  | None => match be_begin e with
  | Some err => (w, Some (wrap_pre "failed to begin transaction: " err))
  | None => match be_open e with
  | Some err => (w, Some (wrap_pre "failed to create backup database: " err))
  | None =>
      let '(w, err) := journal_wal path w in
      match err with
      | Some err => (w, Some (wrap_pre "failed to enable WAL mode: " err))
      | None =>
          let '(tx, err) := exec_text (backup_text path) w in
          match err with
          | Some err => (w, Some (wrap_pre "failed to backup database: " err))
          | None => match be_commit e with
          | Some err => (w, Some (wrap_pre "failed to commit transaction: " err))
          | None => match verifyBackup e path tx with
          | Some err => (Remove path tx, Some (wrap_pre "backup verification failed: " err))
          | None => (tx, None)
          end end end
      end
  end end end.

(** @src internal/storage/backup.go 127-178 Restore *)
Definition Restore (e : BackupEnv) (path : string) (w : W) : W * option error :=
  match be_stat e with
  | Some err => (w, Some (wrap_pre "backup file not found: " err))
  | None => match be_begin e with
  | Some err => (w, Some (wrap_pre "failed to begin transaction: " err))
  | None =>
      let '(tx, err) := exec_text drop_text w in
      match err with
      | Some err => (w, Some (wrap_pre "failed to drop existing tables: " err))
      | None =>
          let '(tx, err) := exec_text (restore_text path) tx in
          match err with
          | Some err => (w, Some (wrap_pre "failed to restore from backup: " err))
          | None => match be_commit e with
          | Some err => (w, Some (wrap_pre "failed to commit transaction: " err))
          | None => (tx, None)
          end end
      end
  end end.

(** Here [w] is the contents as the open transaction sees them. *)
(** @src internal/storage/backup.go 183-229 Backup *)
Definition tx_Backup (e : BackupEnv) (closed : bool) (path : string) (w : W) : W * option error :=
  if closed then (w, Some ErrTransactionClosed)
  else match be_mkdir e with
  | Some err => (w, Some (wrap_pre "failed to create backup directory: " err))
  | None => match be_open e with
  | Some err => (w, Some (wrap_pre "failed to create backup database: " err))
  | None =>
      let '(w, err) := journal_wal path w in
      match err with
      | Some err => (w, Some (wrap_pre "failed to enable WAL mode: " err))
      | None =>
          let '(w, err) := exec_text (backup_text path) w in
          (w, match err with
              | Some err => Some (wrap_pre "failed to backup database: " err)
              | None => None
              end)
      end
  end end.
End backup.

(** The statements of a script. *)
Example backup_statements : split_sql (backup_text "/b;.db") =
  ["ATTACH DATABASE '/b;.db' AS backup";
   "CREATE TABLE backup.schema_migrations AS SELECT * FROM schema_migrations";
   "CREATE TABLE backup.users AS SELECT * FROM users";
   "CREATE TABLE backup.tokens AS SELECT * FROM tokens";
   "CREATE TABLE backup.processed_emails AS SELECT * FROM processed_emails";
   "CREATE INDEX backup.idx_users_gmail_user_id ON users(gmail_user_id)";
   "CREATE INDEX backup.idx_processed_emails_user_id ON processed_emails(user_id)";
   "CREATE INDEX backup.idx_processed_emails_processed_at ON processed_emails(processed_at)";
   "DETACH DATABASE backup"]%string.
Proof. vm_compute. reflexivity. Qed.

(** A quote in the path ends the literal: the rest of the path is SQL. *)
Example backup_injection : head (tail (split_sql (backup_text "b'; DROP TABLE users; --"))) = Some "DROP TABLE users"%string.
Proof. vm_compute. reflexivity. Qed.

(** ** Properties *)

Lemma first_failure_None {A} (f : A → option error) l :
  first_failure f l = None ↔ ∀ x, x ∈ l → f x = None.
Proof.
  rewrite <- Forall_forall. induction l as [|x l IH]; cbn; [by split|].
  destruct (f x) eqn:E; [split; [done|]|].
  - intros H. apply Forall_inv in H. congruence.
  - rewrite IH, Forall_cons. tauto.
Qed.

Section props.
Context {W : Type}.
Context (exec_stmt exec_text journal_wal : string → W → W * option error).
Context (count_source : string → W → result Z) (count_backup : string → string → W → result Z).
Context (Remove : string → W → W).
Local Abbreviation verify := (verifyBackup count_source count_backup).
Local Abbreviation Backup := (Backup exec_text journal_wal count_source count_backup Remove).
Local Abbreviation Restore := (Restore exec_text).
Local Abbreviation tx_Backup := (tx_Backup exec_text journal_wal).
Local Abbreviation run := (run_script exec_stmt).

(** A backup is verified exactly when both databases answer a count of each
    of the four tables and the counts agree; the contents are never compared. *)
Theorem verifyBackup_spec e path w :
  verify e path w = None ↔
  be_verify_open e = None ∧
  ∀ t, t ∈ tables → ∃ n, count_source (query_count t) w = Ok n ∧ count_backup path (query_count t) w = Ok n.
Proof.
  unfold verifyBackup. destruct (be_verify_open e) as [err|]; [split; [done|by intros []]|].
  assert (Hc : ∀ t, compare_table count_source count_backup path w t = None ↔
    ∃ n, count_source (query_count t) w = Ok n ∧ count_backup path (query_count t) w = Ok n).
  { intros t. unfold compare_table. destruct (count_source _ w) as [n|]; cbn; [|split; [done|by intros (? & [=] & _)]].
    destruct (count_backup _ _ w) as [m|]; cbn; [|split; [done|by intros (? & _ & [=])]].
    destruct (Z.eqb_spec n m) as [->|Hne]; [split; [by eexists|done]|].
    split; [done|]. intros (k & [= ->] & [= ->]). done. }
  setoid_rewrite <- Hc. rewrite <- first_failure_None.
  destruct (first_failure (check_table _ _ _) tables) as [err|] eqn:E; [|tauto].
  split; [done|]. intros [_ H]. rewrite <- E. apply first_failure_None. intros t Ht.
  apply (proj1 (first_failure_None _ _)) with (x := t) in H; [|done].
  apply Hc in H as (n & _ & H). unfold check_table. by rewrite H.
Qed.

(** A text is executed statement by statement up to the first that fails. *)
Hypothesis exec_statements : ∀ path w, Contains path "'" = false →
  exec_text (backup_text path) w = run (split_sql (backup_text path)) w ∧
  exec_text (restore_text path) w = run (split_sql (restore_text path)) w.

(** [DETACH] fails in the middle of a transaction. *)
Hypothesis detach_in_transaction : ∀ w, ∃ w' err, exec_stmt detach w = (w', Some err).

Lemma run_detach l w : detach ∈ l → ∃ w' err, run l w = (w', Some err).
Proof.
  intros Hl. revert w. induction l as [|s l IH]; intros w; [by apply elem_of_nil in Hl|]. cbn.
  apply elem_of_cons in Hl as [<-|Hl].
  - destruct (detach_in_transaction w) as (w' & err & ->). by eexists _, _.
  - destruct (exec_stmt s w) as [w' [err|]]; [by eexists _, _|by apply IH].
Qed.

(** Within a literal a text without a quote is passed over. *)
Lemma split_literal path r :
  Contains path "'" = false →
  ∀ s l, split_go InLiteral r = s :: l → split_go InLiteral (path +:+ r) = (path +:+ s) :: l.
Proof.
  intros Hq s l Hr. induction path as [|c path IH]; [exact Hr|].
  cbn in Hq. destruct (decide (c = "'"%char)) as [|Hc]; [done|].
  change (String c path +:+ r) with (String c (path +:+ r)). cbn [split_go].
  rewrite decide_False by done. by rewrite (IH Hq).
Qed.

Lemma split_attach x s l :
  split_go InLiteral x = s :: l →
  split_sql ("
		ATTACH DATABASE '" +:+ x) = ("ATTACH DATABASE '" +:+ s) :: l.
Proof. intros H. unfold split_sql. cbv [String.app]. simpl. rewrite H. reflexivity. Qed.

(** The statements of both scripts, the last of which detaches the backup. *)
Lemma scripts_detach path :
  Contains path "'" = false →
  detach ∈ split_sql (backup_text path) ∧ detach ∈ split_sql (restore_text path).
Proof.
  intros Hq. unfold backup_text, restore_text. split.
  all: erewrite split_attach; [|eapply (split_literal _ _ Hq); vm_compute; reflexivity].
  all: repeat (apply elem_of_cons; first [left; reflexivity|right]).
Qed.

(** C23: No backup and no restore ever succeeds, for a path without a quote: each
    script detaches the attached database before the transaction it runs in
    has ended, which SQLite refuses.  What the storage's database held is
    kept: a restore leaves the contents as they were, a backup leaves at most
    the new file behind.  (A path with a quote is SQL of its own, since it is
    spliced into the scripts as it is.) *)
Theorem backup_and_restore_fail e path w closed :
  Contains path "'" = false →
  (∃ err, Backup e path w = (w, Some err) ∨ Backup e path w = ((journal_wal path w).1, Some err)) ∧
  (∃ err, Restore e path w = (w, Some err)) ∧
  (∃ w' err, tx_Backup e closed path w = (w', Some err)).
Proof.
  intros Hq. destruct (scripts_detach path Hq) as [Hb Hr]. split_and!.
  - unfold Backup.Backup. destruct (be_mkdir e); [by eexists; left|]. destruct (be_begin e); [by eexists; left|].
    destruct (be_open e); [by eexists; left|].
    destruct (journal_wal path w) as [w1 [err|]]; [by eexists; right|].
    rewrite (proj1 (exec_statements path w1 Hq)). destruct (run_detach _ w1 Hb) as (w' & err & ->). by eexists; right.
  - unfold Backup.Restore. destruct (be_stat e); [by eexists|]. destruct (be_begin e); [by eexists|].
    destruct (exec_text drop_text w) as [w1 [err|]]; [by eexists|].
    rewrite (proj2 (exec_statements path w1 Hq)). destruct (run_detach _ w1 Hr) as (w' & err & ->). by eexists.
  - unfold Backup.tx_Backup. destruct closed; [by eexists _, _|]. destruct (be_mkdir e); [by eexists _, _|].
    destruct (be_open e); [by eexists _, _|]. destruct (journal_wal path w) as [w1 [err|]]; [by eexists _, _|].
    rewrite (proj1 (exec_statements path w1 Hq)). destruct (run_detach _ w1 Hb) as (w' & err & ->). by eexists _, _.
Qed.
End props.

(** ** Witness: a database that is the log of its statements *)
Definition demo_exec (s : string) (w : list string) : list string * option error :=
  if decide (s = detach) then (w, Some (ExtError "database backup is locked")) else (w ++ [s], None).
Definition demo_wal (path : string) (w : list string) : list string * option error := (w ++ [path], None).
Definition demo_env : BackupEnv := mkBackupEnv None None None None None None.

Lemma demo_detach w : ∃ w' err, demo_exec detach w = (w', Some err).
Proof. by eexists _, _. Qed.

Lemma backup_and_restore_fail_witness :
  ∃ err, Restore (λ text, run_script demo_exec (split_sql text)) demo_env "/b;.db" ["users"]%string
         = (["users"]%string, Some err).
Proof.
  apply (backup_and_restore_fail demo_exec (λ text, run_script demo_exec (split_sql text)) demo_wal
    (λ _ _, Ok 0) (λ _ _ _, Ok 0) (λ _ w, w) (λ _ _ _, conj eq_refl eq_refl)
    demo_detach demo_env "/b;.db" ["users"]%string false).
  vm_compute. reflexivity.
Defined.
