(* ===== verification/TransactionProps.v ===== *)
(** * Transactions as a whole: [internal/storage/transaction.go]

    A transaction against the direct methods, what commit and rollback do to
    the published tables, and every method of a transaction that is over,
    those of cleanup.go, metrics.go, migration.go and backup.go included. *)
From Stdlib Require Import ZArith Lia.
From stdpp Require Import base gmap list strings pretty.
From S2P Require Import Prelude GoTime Job Storage StorageProps StorageMetrics Database Backup.
Local Open Scope Z_scope.

(** Every method fails and changes neither the transaction nor, where it takes
    them, the tables. *)
Record tx_over (t : Transaction) : Prop := {
  ov_writes : ∀ op, (run_tx_op op t).1 = t ∧ is_ok (run_tx_op op t).2 = false;
  ov_GetUser : ∀ flt id, is_ok (tx_GetUser flt id t) = false;
  ov_GetToken : ∀ flt u, is_ok (tx_GetToken flt u t) = false;
  ov_IsEmailProcessed : ∀ flt m u, is_ok (tx_IsEmailProcessed flt m u t) = false;
  ov_GetMetrics : ∀ now f1 f2 f3, tx_GetMetrics now f1 f2 f3 t = Err ErrTransactionClosed;
  ov_GetUserMetrics : ∀ f1 f2 id, tx_GetUserMetrics f1 f2 id t = Err ErrTransactionClosed;
  ov_GetMigrationStatus : ∀ q, tx_GetMigrationStatus q t = Err ErrTransactionClosed;
  ov_Backup : ∀ (W : Type) (exec_stmt wal : string → W → W * option error) e path w,
    tx_Backup exec_stmt wal e (closed t) path w = (w, Some ErrTransactionClosed);
  ov_Commit : ∀ flt db, Commit flt t db = (t, db, Err ErrTransactionClosed);
  ov_Rollback : ∀ flt db, Rollback flt t db = (t, db, Err ErrTransactionClosed);
}.

Lemma finished_over t : finished_tx t → tx_over t.
Proof.
  intros Hf. pose proof Hf as [Hd Hc]. split.
  - intros op. by apply finished_tx_op.
  - intros flt id. unfold tx_GetUser. by rewrite tx_exec_done.
  - intros flt u. unfold tx_GetToken. by rewrite tx_exec_done.
  - intros flt m u. unfold tx_IsEmailProcessed. by rewrite tx_exec_done.
  - intros. unfold tx_GetMetrics. by rewrite Hc.
  - intros. unfold tx_GetUserMetrics. by rewrite Hc.
  - intros. unfold tx_GetMigrationStatus. by rewrite Hc.
  - intros. unfold tx_Backup. by rewrite Hc.
  - intros. unfold Commit. by rewrite Hc.
  - intros. unfold Rollback. by rewrite Hc.
Qed.

Lemma ended_finished flt t db :
  closed t = false → finished_tx (Commit flt t db).1.1 ∧ finished_tx (Rollback flt t db).1.1.
Proof. intros Hc. unfold Commit, Rollback. rewrite Hc. destruct (tx_done t), flt; by repeat split. Qed.

(** C16: A transaction gives what the direct methods give, at once or not at
    all.  On valid requests other than [StoreToken], the tables a transaction
    commits are those the same methods called directly would have left.  A
    rollback after any requests, and a commit the engine refuses, leaves the
    published tables as they were.  However it ended, committed, refused or
    rolled back with or without an error, every method of the transaction
    fails afterwards, reads included, and changes nothing, and another
    [Commit] or [Rollback] answers [ErrTransactionClosed]. *)
Theorem transaction_all_or_nothing ops sops db :
  Forall2 (λ op sop, direct_op op = Some sop ∧ valid_op op) ops sops →
  let begun := mkTx db false false in
  BeginTx None db = Ok begun ∧
  (Commit None (run_tx_ops ops begun) db).1.2 = run_st_ops sops db ∧
  (Commit None (run_tx_ops ops begun) db).2 = Ok tt ∧
  ∀ any : list tx_op, let t := run_tx_ops any begun in
    (∀ e, (Commit (Some e) t db).1.2 = db ∧ (Commit (Some e) t db).2 = Err e) ∧
    (∀ flt, (Rollback flt t db).1.2 = db) ∧ (Rollback None t db).2 = Ok tt ∧
    (∀ flt, tx_over (Commit flt t db).1.1 ∧ tx_over (Rollback flt t db).1.1).
Proof.
  intros H begun. pose proof (direct_ops_same ops sops begun H eq_refl eq_refl) as E.
  assert (F : ∀ any, tx_done (run_tx_ops any begun) = false ∧ closed (run_tx_ops any begun) = false)
    by (intros any; apply tx_ops_flags).
  assert (C : ∀ t, tx_done t = false → closed t = false →
            Commit None t db = (mkTx (tx_db t) true true, tx_db t, Ok tt))
    by (intros t G1 G2; unfold Commit; by rewrite G1, G2).
  destruct (F ops) as [F1 F2]. rewrite (C _ F1 F2).
  split; [done|]. split; [exact E|]. split; [done|]. intros any t. destruct (F any) as [G1 G2]. fold t in G1, G2.
  split_and!.
  - intros e. unfold Commit. by rewrite G1, G2.
  - intros flt. unfold Rollback. rewrite G1, G2. by destruct flt.
  - unfold Rollback. by rewrite G1, G2.
  - intros flt. destruct (ended_finished flt t db G2) as [? ?]. by split; apply finished_over.
Qed.

Lemma transaction_all_or_nothing_witness :
  let ops := [TxCreateUser 5 no_faults 7 "a@b" (30 * Minute); TxMarkEmail 6 no_faults "m" "a@b"] in
  let t := run_tx_ops ops (mkTx empty_DB false false) in
  (Commit None t empty_DB).1.2
    = run_st_ops [OpCreateUser 5 no_faults 7 "a@b" (30 * Minute); OpMarkEmail 6 no_faults "m" "a@b"] empty_DB ∧
  (Rollback None t empty_DB).1.2 = empty_DB.
Proof.
  intros ops t.
  destruct (transaction_all_or_nothing ops
    [OpCreateUser 5 no_faults 7 "a@b" (30 * Minute); OpMarkEmail 6 no_faults "m" "a@b"] empty_DB)
    as (_ & H1 & _ & H2).
  { constructor; [|constructor; [|constructor]]; (split; [reflexivity|]); cbn.
    - split; [lia|split; [discriminate|reflexivity]].
    - split; discriminate. }
  split; [exact H1|]. apply (H2 ops).
Defined.
