(* ===== verification/Auth.v ===== *)
(** * OAuth: [internal/auth]

    The in-memory state and PKCE stores, [OAuthManager], and the refresh
    service.  Tokens and the calls of golang.org/x/oauth2 (the authorization
    URL, the exchange of a code, a token source) are parameters; token storage
    is the interface [Storage] of oauth.go, a class here.  A run of a method
    returns or panics ([outcome]). *)
From Stdlib Require Import ZArith Lia.
From stdpp Require Import base gmap list strings.
From S2P Require Import Prelude GoTime GoBase64 GoSha256 Worker.

(** ** In-memory stores *)

(** @src internal/auth/in_memory_stores.go 11-15 InMemoryStateStore *)
Record InMemoryStateStore := mkStates { states : gmap string string }.

(** @src internal/auth/in_memory_stores.go 17-22 NewInMemoryStateStore *)
Definition NewInMemoryStateStore : InMemoryStateStore := mkStates ∅.

(** @src internal/auth/in_memory_stores.go 24-30 StoreState *)
Definition StoreState (userID state : string) (s : InMemoryStateStore)
  : InMemoryStateStore * result unit := (mkStates (<[userID := state]> (states s)), Ok tt).

(** @src internal/auth/in_memory_stores.go 32-41 ValidateState *)
Definition ValidateState (userID state : string) (s : InMemoryStateStore)
  : InMemoryStateStore * bool :=
  match states s !! userID with
  | Some stored => if decide (stored = state) then (mkStates (delete userID (states s)), true)
                   else (s, false)
  | None => (s, false)
  end.

(** @src internal/auth/in_memory_stores.go 43-48 DeleteState *)
Definition DeleteState (userID : string) (s : InMemoryStateStore) : InMemoryStateStore :=
  mkStates (delete userID (states s)).

(** @src internal/auth/in_memory_stores.go 50-54 InMemoryPKCEStore *)
Record InMemoryPKCEStore := mkPKCE { verifiers : gmap string string }.

(** @src internal/auth/in_memory_stores.go 56-61 NewInMemoryPKCEStore *)
Definition NewInMemoryPKCEStore : InMemoryPKCEStore := mkPKCE ∅.

(** @src internal/auth/in_memory_stores.go 63-69 StoreVerifier *)
Definition StoreVerifier (state verifier : string) (s : InMemoryPKCEStore)
  : InMemoryPKCEStore * result unit := (mkPKCE (<[state := verifier]> (verifiers s)), Ok tt).

(** @src internal/auth/in_memory_stores.go 71-81 GetVerifier *)
Definition GetVerifier (state : string) (s : InMemoryPKCEStore) : InMemoryPKCEStore * result string :=
  match verifiers s !! state with
  | None => (s, Err (ErrorString ("no verifier found for state: " +:+ state)))
  | Some verifier => (mkPKCE (delete state (verifiers s)), Ok verifier)
  end.

(** [random n] is what [rand.Read] puts into [n] bytes. *)
(** @src internal/auth/in_memory_stores.go 83-93 GenerateCodeVerifier *)
Definition GenerateCodeVerifier (random : nat → result string) (length : Z) : result string :=
  if (length <? 43)%Z || (128 <? length)%Z
  then Err (ErrorString "code verifier length must be between 43 and 128 characters")
  else p ← random (Z.to_nat length); Ok (EncodeToString false p).

(** @src internal/auth/in_memory_stores.go 95-100 GenerateCodeChallenge *)
Definition GenerateCodeChallenge (verifier : string) : result string :=
  Ok (EncodeToString false (Sum256 verifier)).

(** The example of RFC 7636, appendix B. *)
Example challenge_rfc7636 :
  GenerateCodeChallenge "dBjftJeZ4CVP-mB92K27uhbUJU1p1r_wW1gFWFOEjXk"
  = Ok "E9Melhoa2OwvFrEMTJguCHaoeK1t8URWbuGJSstw-cM"%string.
Proof. vm_compute. reflexivity. Qed.

(** @src internal/auth/in_memory_stores.go 102-106 ValidateChallenge *)
Definition ValidateChallenge (challenge verifier : string) : bool :=
  match GenerateCodeChallenge verifier with
  | Ok calculated => bool_decide (challenge = calculated)
  | Err _ => bool_decide (challenge = "")
  end.

(** ** Tokens and their storage *)

(** [oauth2.Token]: the fields and the method the program uses. *)
Class OAuthToken (T : Type) := {
  tok_RefreshToken : T → string;
  tok_set_RefreshToken : string → T → T;
  tok_Expiry : T → Z;
  tok_Valid : Z → T → bool;
  tok_refresh_set r t : tok_RefreshToken (tok_set_RefreshToken r t) = r;
}.

(** The interface [Storage] of [oauth.go]; [E] is what a call sees of the
    outside.  A nil token is [None]. *)
Class TokenStorage (E ST T : Type) := {
  ts_StoreToken : E → string → option T → ST → ST * result unit;
  ts_GetToken : E → string → ST → result (option T);
  ts_DeleteToken : E → string → ST → ST * result unit;
  ts_healthy : E → Prop;

  ts_store_law e u t s s' : ts_StoreToken e u t s = (s', Ok tt) →
    (∀ e', ts_healthy e' → ts_GetToken e' u s' = Ok t) ∧
    ∀ e' u', u' ≠ u → ts_GetToken e' u' s' = ts_GetToken e' u' s;
  ts_store_err e u t s s' er : ts_StoreToken e u t s = (s', Err er) → s' = s;
  ts_delete_law e u s s' : ts_DeleteToken e u s = (s', Ok tt) →
    (∀ e', is_ok (ts_GetToken e' u s') = false) ∧
    ∀ e' u', u' ≠ u → ts_GetToken e' u' s' = ts_GetToken e' u' s;
}.

(** [oauth2.Config] as the program fills it in. *)
(** @src internal/auth/oauth.go 68-77 LoadCredentials *)
Record OAuthConfig := mkConfig {
  ClientID : string;
  ClientSecret : string;
  RedirectURL : string;
  Scopes : list string;
}.

(** The part of the credentials file that is read. *)
(** @src internal/auth/oauth.go 56-62 LoadCredentials *)
Record credConfig := mkCred {
  web_ClientID : string;
  web_ClientSecret : string;
  web_RedirectURIs : list string;
}.

(** @src internal/auth/oauth.go 171-175 generateRandomState *)
Definition generateRandomState : string := "temporary-state".

Section manager.
Context {E ST T : Type} `{!OAuthToken T} `{!TokenStorage E ST T}.

(** What golang.org/x/oauth2 answers: the URL for a configuration, a state and
    a challenge; a code exchanged with a verifier; a token refreshed. *)
Context (AuthCodeURL : OAuthConfig → string → string → string).
Context (Exchange : OAuthConfig → string → string → result (option T)).
Context (source_Token : OAuthConfig → T → result T).

(** [tokenSource], set in tests only, is what its [Token] method answers. *)
(** @src internal/auth/oauth.go 13-20 OAuthManager *)
Record OAuthManager := mkManager {
  config : option OAuthConfig;
  storage : ST;
  pkceStore : InMemoryPKCEStore;
  stateStore : InMemoryStateStore;
  tokenSource : option (result T);
}.
Implicit Types m : OAuthManager.

(** @src internal/auth/oauth.go 36-43 NewOAuthManager *)
Definition NewOAuthManager (st : ST) (p : InMemoryPKCEStore) (s : InMemoryStateStore) : OAuthManager :=
  mkManager None st p s None.

Definition with_storage (st : ST) m := mkManager (config m) st (pkceStore m) (stateStore m) (tokenSource m).
Definition with_pkce (p : InMemoryPKCEStore) m :=
  mkManager (config m) (storage m) p (stateStore m) (tokenSource m).
Definition with_states (s : InMemoryStateStore) m :=
  mkManager (config m) (storage m) (pkceStore m) s (tokenSource m).
Definition with_config (c : option OAuthConfig) m :=
  mkManager c (storage m) (pkceStore m) (stateStore m) (tokenSource m).

Definition nil_dereference : string :=
  "runtime error: invalid memory address or nil pointer dereference".

(** [read] is the file, [parse] what [json.Unmarshal] makes of it. *)
(** @src internal/auth/oauth.go 45-80 LoadCredentials *)
Definition LoadCredentials (read : string → result string) (parse : string → result credConfig)
    (credPath : string) m : OAuthManager * outcome (result unit) :=
  if decide (credPath = "") then (m, Returns (Err (ErrorString "credentials path cannot be empty")))
  else match read credPath with
  | Err e => (m, Returns (Err (wrap_pre "failed to read credentials file: " e)))
  | Ok data =>
      match parse data with
      | Err e => (m, Returns (Err (wrap_pre "failed to parse credentials: " e)))
      | Ok cred =>
          match web_RedirectURIs cred with
          | [] => (m, Panics "runtime error: index out of range [0] with length 0")
          | uri :: _ =>
              (with_config (Some (mkConfig (web_ClientID cred) (web_ClientSecret cred) uri
                 ["https://www.googleapis.com/auth/gmail.readonly";
                  "https://www.googleapis.com/auth/gmail.modify"])) m, Returns (Ok tt))
          end
      end
  end.

(** The URL and the state. *)
(** @src internal/auth/oauth.go 82-113 GetAuthURL *)
Definition GetAuthURL (random : nat → result string) (userID : string) m
  : OAuthManager * outcome (result (string * string)) :=
  if decide (userID = "") then (m, Returns (Err (ErrorString "user ID cannot be empty")))
  else match GenerateCodeVerifier random 128 with
  | Err e => (m, Returns (Err (wrap_pre "failed to generate code verifier: " e)))
  | Ok verifier =>
      match GenerateCodeChallenge verifier with
      | Err e => (m, Returns (Err (wrap_pre "failed to generate code challenge: " e)))
      | Ok challenge =>
          let state := generateRandomState in
          match StoreState userID state (stateStore m) with
          | (s', Err e) => (with_states s' m, Returns (Err (wrap_pre "failed to store state: " e)))
          | (s', Ok _) =>
              let m := with_states s' m in
              match config m with
              | None => (m, Panics nil_dereference)
              | Some c => (m, Returns (Ok (AuthCodeURL c state challenge, state)))
              end
          end
      end
  end.

(** @src internal/auth/oauth.go 115-121 ValidateToken *)
Definition ValidateToken (now : Z) (token : option T) : bool :=
  match token with None => false | Some t => tok_Valid now t end.

(** @src internal/auth/oauth.go 166-169 getToken *)
Definition getToken (e : E) (userID : string) m : result (option T) := ts_GetToken e userID (storage m).

(** The new token, with the old refresh token when it has none. *)
(** @src internal/auth/oauth.go 154-157 RefreshToken *)
Definition preserve_refresh (token newToken : T) : T :=
  if decide (tok_RefreshToken newToken = "") then tok_set_RefreshToken (tok_RefreshToken token) newToken
  else newToken.

(** @src internal/auth/oauth.go 123-164 RefreshToken *)
Definition RefreshToken (e1 e2 : E) (userID : string) m : OAuthManager * outcome (result unit) :=
  if decide (userID = "") then (m, Returns (Err (ErrorString "user ID cannot be empty")))
  else match getToken e1 userID m with
  | Err er => (m, Returns (Err (wrap_pre "failed to get token: " er)))
  | Ok None => (m, Returns (Err (ErrorString "no token found for user")))
  | Ok (Some token) =>
      if decide (tok_RefreshToken token = "")
      then (m, Returns (Err (ErrorString "no refresh token available")))
      else
        let answer := match tokenSource m, config m with
                      | Some r, _ => Returns r
                      | None, Some c => Returns (source_Token c token)
                      | None, None => Panics nil_dereference
                      end in
        match answer with
        | Panics p => (m, Panics p)
        | Returns (Err er) => (m, Returns (Err (wrap_pre "failed to refresh token: " er)))
        | Returns (Ok newToken) =>
            match ts_StoreToken e2 userID (Some (preserve_refresh token newToken)) (storage m) with
            | (st, Err er) => (with_storage st m,
                               Returns (Err (wrap_pre "failed to store refreshed token: " er)))
            | (st, Ok _) => (with_storage st m, Returns (Ok tt))
            end
        end
  end.

(** The deferred [DeleteState] runs on every path after [ValidateState]. *)
(** @src internal/auth/oauth.go 182-224 HandleCallback *)
Definition HandleCallback (e : E) (code state userID : string) m
  : OAuthManager * outcome (result unit) :=
  if decide (code = "") then (m, Returns (Err (ErrorString "authorization code cannot be empty")))
  else if decide (state = "") then (m, Returns (Err (ErrorString "state parameter cannot be empty")))
  else if decide (userID = "") then (m, Returns (Err (ErrorString "user ID cannot be empty")))
  else match ValidateState userID state (stateStore m) with
  | (s', false) => (with_states s' m, Returns (Err (ErrorString "invalid state parameter")))
  | (s', true) =>
      let m := with_states (DeleteState userID s') m in
      match GetVerifier state (pkceStore m) with
      | (p', Err er) => (with_pkce p' m, Returns (Err (wrap_pre "failed to get pkce verifier: " er)))
      | (p', Ok verifier) =>
          let m := with_pkce p' m in
          let answer := match tokenSource m, config m with
                        | Some (Ok t), _ => Returns (Ok (Some t))
                        | Some (Err er), _ => Returns (Err er)
                        | None, Some c => Returns (Exchange c code verifier)
                        | None, None => Panics nil_dereference
                        end in
          match answer with
          | Panics p => (m, Panics p)
          | Returns (Err er) => (m, Returns (Err (wrap_pre "failed to exchange code for token: " er)))
          | Returns (Ok token) =>
              match ts_StoreToken e userID token (storage m) with
              | (st, Err er) => (with_storage st m, Returns (Err (wrap_pre "failed to store token: " er)))
              | (st, Ok _) => (with_storage st m, Returns (Ok tt))
              end
          end
      end
  end.

(** @src internal/auth/oauth.go 226-229 RevokeToken *)
Definition RevokeToken (e : E) (userID : string) m : OAuthManager * result unit :=
  let '(st, r) := ts_DeleteToken e userID (storage m) in (with_storage st m, r).

(** @src internal/auth/oauth.go 177-180 SetTokenSource *)
Definition SetTokenSource (ts : option (result T)) m : OAuthManager :=
  mkManager (config m) (storage m) (pkceStore m) (stateStore m) ts.

(** @src internal/auth/oauth.go 231-236 SetRedirectURL *)
Definition SetRedirectURL (url : string) m : OAuthManager :=
  match config m with
  | None => m
  | Some c => with_config (Some (mkConfig (ClientID c) (ClientSecret c) url (Scopes c))) m
  end.

(** ** The refresh service *)

(** Five minutes before expiry; a nil token panics. *)
(** @src internal/auth/refresh_service.go 39-56 refreshUserToken *)
Definition refreshUserToken (now : Z) (e0 e1 e2 : E) (userID : string) m
  : OAuthManager * outcome (result unit) :=
  match getToken e0 userID m with
  | Err er => (m, Returns (Err (wrap_pre "failed to get token: " er)))
  | Ok None => (m, Panics nil_dereference)
  | Ok (Some token) =>
      if After (tok_Expiry token) (Add now (5 * Minute)) then (m, Returns (Ok tt))
      else match RefreshToken e1 e2 userID m with
           | (m', Panics p) => (m', Panics p)
           | (m', Returns (Err er)) => (m', Returns (Err (wrap_pre "failed to refresh token: " er)))
           | (m', Returns (Ok _)) => (m', Returns (Ok tt))
           end
  end.

(** Errors are printed, the loop goes on. *)
(** @src internal/auth/refresh_service.go 28-37 RefreshTokens *)
Fixpoint RefreshTokens (now : Z) (e0 e1 e2 : E) (userIDs : list string) m
  : OAuthManager * outcome (result unit) :=
  match userIDs with
  | [] => (m, Returns (Ok tt))
  | u :: rest =>
      match refreshUserToken now e0 e1 e2 u m with
      | (m', Panics p) => (m', Panics p)
      | (m', Returns _) => RefreshTokens now e0 e1 e2 rest m'
      end
  end.
End manager.
Arguments OAuthManager : clear implicits.

(** @src internal/auth/refresh_service.go 76-80 GetRefreshSchedule *)
Definition GetRefreshSchedule : string := "0 * * * *".
