(* ===== verification/AuthProps.v ===== *)
(** * What the OAuth manager does

    Properties of file Auth against any token storage; the witnesses use a map
    of plain tokens. *)
From Stdlib Require Import ZArith Lia Ascii.
From stdpp Require Import base gmap list strings.
From S2P Require Import Prelude GoTime GoBase64 GoSha256 Worker Auth.

Section props.
Context {E ST T : Type} `{!OAuthToken T} `{!TokenStorage E ST T}.
Context (AuthCodeURL : OAuthConfig → string → string → string).
Context (Exchange : OAuthConfig → string → string → result (option T)).
Context (source_Token : OAuthConfig → T → result T).
Implicit Types m : OAuthManager ST T.

(** A call of an exported method of the manager. *)
Inductive auth_call :=
| CLoad (read : string → result string) (parse : string → result credConfig) (path : string)
| CGetAuthURL (random : nat → result string) (userID : string)
| CHandleCallback (e : E) (code state userID : string)
| CRefreshToken (e1 e2 : E) (userID : string)
| CRevokeToken (e : E) (userID : string)
| CSetTokenSource (ts : option (result T))
| CSetRedirectURL (url : string).

Definition run_call (c : auth_call) m : OAuthManager ST T :=
  match c with
  | CLoad read parse path => (LoadCredentials read parse path m).1
  | CGetAuthURL random u => (GetAuthURL AuthCodeURL random u m).1
  | CHandleCallback e code state u => (HandleCallback Exchange e code state u m).1
  | CRefreshToken e1 e2 u => (RefreshToken source_Token e1 e2 u m).1
  | CRevokeToken e u => (RevokeToken e u m).1
  | CSetTokenSource ts => SetTokenSource ts m
  | CSetRedirectURL url => SetRedirectURL url m
  end.

Definition run_calls (cs : list auth_call) m : OAuthManager ST T := foldl (λ m c, run_call c m) m cs.

Lemma GetVerifier_empty state p :
  verifiers p = ∅ → GetVerifier state p = (p, Err (ErrorString ("no verifier found for state: " +:+ state))).
Proof. unfold GetVerifier. intros ->. by rewrite lookup_empty. Qed.

(** No method of the manager stores a verifier. *)
Lemma run_call_verifiers c m : verifiers (pkceStore m) = ∅ → verifiers (pkceStore (run_call c m)) = ∅.
Proof.
  intros H. destruct c; cbn [run_call].
  - unfold LoadCredentials. by repeat case_match.
  - unfold GetAuthURL. repeat case_match; simplify_eq/=; done.
  - unfold HandleCallback. repeat case_decide; try done.
    destruct (ValidateState _ _ _) as [s' []]; [|done]. rewrite GetVerifier_empty by done. done.
  - unfold RefreshToken. repeat case_match; simplify_eq/=; done.
  - unfold RevokeToken. by destruct (ts_DeleteToken _ _ _).
  - done.
  - unfold SetRedirectURL. by destruct (config m).
Qed.

Lemma run_calls_verifiers cs m :
  verifiers (pkceStore m) = ∅ → verifiers (pkceStore (run_calls cs m)) = ∅.
Proof.
  revert m. induction cs as [|c cs IH]; intros m H; [done|]. by apply IH, run_call_verifiers.
Qed.

(** The login flow never completes.  [GetAuthURL] generates a code verifier
    and does not store it, so after any calls of the manager's methods on a new
    manager, whatever the code and the state, [HandleCallback] answers an error
    and stores no token; when the state is the right one the attempt uses it
    up and the error is that no verifier is found for it. *)
Theorem login_never_completes (cs : list auth_call) (st : ST) :
  let m := run_calls cs (NewOAuthManager st NewInMemoryPKCEStore NewInMemoryStateStore) in
  ∀ e code state userID,
    (∃ er m', HandleCallback Exchange e code state userID m = (m', Returns (Err er)) ∧
              storage m' = storage m) ∧
    (code ≠ "" → state ≠ "" → userID ≠ "" → states (stateStore m) !! userID = Some state →
     ∃ m', HandleCallback Exchange e code state userID m
       = (m', Returns (Err (wrap_pre "failed to get pkce verifier: "
                             (ErrorString ("no verifier found for state: " +:+ state))))) ∧
       states (stateStore m') !! userID = None).
Proof.
  intros m e code state userID.
  assert (Hv : verifiers (pkceStore m) = ∅) by (by apply run_calls_verifiers).
  unfold HandleCallback. split.
  - repeat (case_decide; [eexists _, _; split; reflexivity|]).
    destruct (ValidateState _ _ _) as [s' []]; [|eexists _, _; split; reflexivity].
    rewrite GetVerifier_empty by done. eexists _, _; split; reflexivity.
  - intros H1 H2 H3 Hs. rewrite !decide_False by done. unfold ValidateState. rewrite Hs.
    rewrite decide_True by done. rewrite GetVerifier_empty by done. eexists. split; [done|].
    cbn. rewrite delete_delete_eq. apply lookup_delete_eq.
Qed.

(** C7: With the verifier stored by someone else, a callback works once.  When
    the code is exchanged and the token stored, the token is what the storage
    returns for that user from then on, other users' tokens are untouched, and
    a second callback with the same state is refused. *)
Theorem HandleCallback_once e code state userID verifier c tok st' m :
  code ≠ "" → state ≠ "" → userID ≠ "" → states (stateStore m) !! userID = Some state →
  verifiers (pkceStore m) !! state = Some verifier → tokenSource m = None → config m = Some c →
  Exchange c code verifier = Ok tok → ts_StoreToken e userID tok (storage m) = (st', Ok tt) →
  ∃ m', HandleCallback Exchange e code state userID m = (m', Returns (Ok tt)) ∧
    (∀ e', ts_healthy e' → getToken e' userID m' = Ok tok) ∧
    (∀ e' u, u ≠ userID → getToken e' u m' = getToken e' u m) ∧
    ∀ e' code', code' ≠ "" → HandleCallback Exchange e' code' state userID m'
                = (m', Returns (Err (ErrorString "invalid state parameter"))).
Proof.
  intros H1 H2 H3 Hs Hv Hts Hc Hx Hst.
  destruct (ts_store_law _ _ _ _ _ Hst) as [L1 L2].
  unfold HandleCallback. rewrite !decide_False by done. unfold ValidateState. rewrite Hs.
  rewrite decide_True by done. unfold GetVerifier. cbn [pkceStore with_states]. rewrite Hv.
  cbn [tokenSource config with_pkce with_states storage]. rewrite Hts, Hc, Hx, Hst.
  eexists. split; [done|]. split_and!.
  - exact L1.
  - exact L2.
  - intros e' code' Hne. rewrite decide_False by done. cbn.
    rewrite delete_delete_eq, lookup_delete_eq. by rewrite !decide_False by done.
Qed.

(** The token source asked for [tok], the one set or the configuration's,
    answers [new]. *)
Definition source_answers m (tok new : T) : Prop :=
  tokenSource m = Some (Ok new) ∨
  (tokenSource m = None ∧ ∃ c, config m = Some c ∧ source_Token c tok = Ok new).

(** [new], except that a missing refresh token is the one of [tok]. *)
Definition keeps_refresh (tok new tok' : T) : Prop :=
  (tok_RefreshToken new ≠ "" ∧ tok' = new) ∨
  (tok_RefreshToken new = "" ∧ tok' = tok_set_RefreshToken (tok_RefreshToken tok) new).

Lemma preserve_refresh_keeps tok new tok' :
  keeps_refresh tok new tok' ↔ tok' = preserve_refresh tok new.
Proof. unfold keeps_refresh, preserve_refresh. case_decide; split; tauto. Qed.

(** C34: [RefreshToken] stores what the token source answered, and never loses
    the refresh token.  It succeeds when the user has a token with a refresh
    token, the source asked for it answers a new token and that is stored, and
    only then.  What it stores, and what is read back for that user, is the
    source's token, with the old refresh token exactly when the new one has
    none; other users' tokens stay.  When it fails or panics, the stored
    tokens are as before. *)
Theorem RefreshToken_preserves e1 e2 userID m :
  let '(m', o) := RefreshToken source_Token e1 e2 userID m in
  (o ≠ Returns (Ok tt) → storage m' = storage m) ∧
  (o = Returns (Ok tt) → ∃ tok new tok',
     getToken e1 userID m = Ok (Some tok) ∧ tok_RefreshToken tok ≠ "" ∧
     source_answers m tok new ∧ keeps_refresh tok new tok' ∧ tok_RefreshToken tok' ≠ "" ∧
     ts_StoreToken e2 userID (Some tok') (storage m) = (storage m', Ok tt) ∧
     (∀ e', ts_healthy e' → getToken e' userID m' = Ok (Some tok')) ∧
     (∀ e' u, u ≠ userID → getToken e' u m' = getToken e' u m)) ∧
  (∀ tok new tok' st, userID ≠ "" → getToken e1 userID m = Ok (Some tok) → tok_RefreshToken tok ≠ "" →
     source_answers m tok new → keeps_refresh tok new tok' →
     ts_StoreToken e2 userID (Some tok') (storage m) = (st, Ok tt) →
     o = Returns (Ok tt) ∧ storage m' = st).
Proof.
  unfold RefreshToken. destruct (decide (userID = "")); [by split_and!|].
  destruct (getToken e1 userID m) as [[tok|]|er] eqn:Eg; [|by split_and!..].
  destruct (decide (tok_RefreshToken tok = "")) as [|Hr].
  { split_and!; try done. by intros tok2 ? ? ? _ [= <-]. }
  assert (Ha : ∀ new, source_answers m tok new →
    (match tokenSource m, config m with
     | Some r, _ => Returns r
     | None, Some c => Returns (source_Token c tok)
     | None, None => Panics nil_dereference
     end) = Returns (Ok new)).
  { intros new [->|[-> (c & -> & ->)]]; done. }
  assert (Hb : ∀ new, (match tokenSource m, config m with
     | Some r, _ => Returns r
     | None, Some c => Returns (source_Token c tok)
     | None, None => Panics nil_dereference
     end) = Returns (Ok new) → source_answers m tok new).
  { unfold source_answers. intros new. destruct (tokenSource m) as [r|]; [intros [= ->]; by left|].
    destruct (config m) as [c|]; [|done]. intros [= H]. right. split; [done|]. by exists c. }
  set (answer := match tokenSource m with Some r => _ | None => _ end) in *.
  destruct answer as [[new|er]|p]; [specialize (Hb new eq_refl)|split_and!; try done;
    intros tok2 new2 ? ? _ [= <-] _ H%Ha; discriminate H..].
  destruct (ts_StoreToken _ _ _ _) as [st [[]|er]] eqn:Es; (split; [|split]); try done.
  - intros _. destruct (ts_store_law _ _ _ _ _ Es) as [L1 L2].
    exists tok, new, (preserve_refresh tok new). split_and!; try done.
    + by apply preserve_refresh_keeps.
    + unfold preserve_refresh. case_decide; [by rewrite tok_refresh_set|done].
  - intros tok2 new2 tok' st2 _ [= <-] _ [= <-]%Ha ->%preserve_refresh_keeps Ex.
    rewrite Es in Ex. by injection Ex as ->.
  - intros _. by apply ts_store_err in Es.
  - intros tok2 new2 tok' st2 _ [= <-] _ [= <-]%Ha ->%preserve_refresh_keeps Ex. by rewrite Es in Ex.
Qed.

(** The service refreshes late tokens only.  A token that expires more than
    five minutes from now is left alone; any other is given to [RefreshToken],
    whose error is wrapped. *)
Theorem refreshUserToken_late now e0 e1 e2 userID m tok :
  getToken e0 userID m = Ok (Some tok) →
  refreshUserToken source_Token now e0 e1 e2 userID m =
  if decide (now + 5 * Minute < tok_Expiry tok)%Z then (m, Returns (Ok tt))
  else let '(m', o) := RefreshToken source_Token e1 e2 userID m in
       (m', match o with
            | Returns (Err er) => Returns (Err (wrap_pre "failed to refresh token: " er))
            | _ => o
            end).
Proof.
  intros Hg. unfold refreshUserToken, After, Add. rewrite Hg.
  destruct (Z.ltb_spec (now + 5 * Minute) (tok_Expiry tok)); case_decide; try lia; [done|].
  by destruct (RefreshToken _ _ _ _ _) as [m' [[[]|er]|p]].
Qed.
End props.

(** PKCE.  A challenge made from a verifier validates against it and has the
    43 characters of an unpadded SHA-256; the length asked of
    [GenerateCodeVerifier] is checked but is a number of random bytes: the
    verifier itself has between 58 and 171 characters, and is longer than the
    128 that the standard allows whenever more than 96 bytes are asked for, as
    [GetAuthURL] does. *)
Theorem pkce_codes (random : nat → result string) (n : Z) (verifier challenge : string) :
  (∀ k s, random k = Ok s → String.length s = k) →
  (GenerateCodeChallenge verifier = Ok challenge →
     ValidateChallenge challenge verifier = true ∧ String.length challenge = 43) ∧
  (is_ok (GenerateCodeVerifier random n) = true → (43 ≤ n ≤ 128)%Z) ∧
  (∀ v, GenerateCodeVerifier random n = Ok v →
     Z.of_nat (String.length v) = ((4 * n + 2) / 3)%Z ∧ 58 ≤ String.length v ≤ 171 ∧
     (128 < String.length v ↔ (96 < n)%Z) ∧
     (∀ v', EncodeToString false v' = v → random (Z.to_nat n) = Ok v')).
Proof.
  intros Hr. split_and!.
  - intros [= <-]. split.
    + unfold ValidateChallenge, GenerateCodeChallenge. by rewrite bool_decide_true.
    + rewrite Encode_raw_length, Sum256_length. done.
  - unfold GenerateCodeVerifier. destruct (Z.ltb_spec n 43), (Z.ltb_spec 128 n); done || lia.
  - intros v H. unfold GenerateCodeVerifier in H.
    destruct (Z.ltb_spec n 43); [done|]. destruct (Z.ltb_spec 128 n); [done|]. cbn [orb] in H.
    apply bind_Ok in H as (p & Hp & [= <-]). pose proof (Hr _ _ Hp) as Hl.
    rewrite Encode_raw_length, Hl.
    assert (El : Z.of_nat ((4 * Z.to_nat n + 2) / 3) = ((4 * n + 2) / 3)%Z).
    { rewrite Nat2Z.inj_div. f_equal. lia. }
    split_and!.
    + exact El.
    + apply Nat2Z.inj_le. rewrite El. apply Z.div_le_lower_bound; lia.
    + apply Nat2Z.inj_le. rewrite El. apply Z.lt_succ_r, Z.div_lt_upper_bound; lia.
    + rewrite Nat2Z.inj_lt, El. pose proof (Z.div_mod (4 * n + 2) 3 ltac:(done)).
      pose proof (Z.mod_pos_bound (4 * n + 2) 3 ltac:(lia)). lia.
    + intros v' Ev. apply Encode_inj in Ev. by subst.
Qed.

(** ** A concrete storage for the witnesses *)
Record DemoToken := mkDemo { demo_refresh : string; demo_expiry : Z }.
#[export] Instance demo_token : OAuthToken DemoToken := {
  tok_RefreshToken := demo_refresh;
  tok_set_RefreshToken r t := mkDemo r (demo_expiry t);
  tok_Expiry := demo_expiry;
  tok_Valid now t := (now <? demo_expiry t)%Z;
  tok_refresh_set _ _ := eq_refl;
}.

Abbreviation demo_store := (gmap string (option DemoToken)).
#[export] Program Instance demo_storage : TokenStorage unit demo_store DemoToken := {
  ts_StoreToken _ u t s := (<[u := t]> s, Ok tt);
  ts_GetToken _ u s := match s !! u with Some t => Ok t | None => Err (ErrorString "no token") end;
  ts_DeleteToken _ u s := (delete u s, Ok tt);
  ts_healthy _ := True;
}.
Next Obligation.
  intros e u t s s' H. injection H as <-. split.
  - intros e' _. by rewrite lookup_insert_eq.
  - intros e' u' Hne. by rewrite lookup_insert_ne.
Qed.
Next Obligation. done. Qed.
Next Obligation.
  intros e u s s' H. injection H as <-. split.
  - intros e'. by rewrite lookup_delete_eq.
  - intros e' u' Hne. by rewrite lookup_delete_ne.
Qed.

Definition demo_config : OAuthConfig := mkConfig "id" "secret" "http://localhost/cb" [].
Definition demo_exchange (_ : OAuthConfig) (_ _ : string) : result (option DemoToken) :=
  Ok (Some (mkDemo "r" 9)).
Definition demo_manager : OAuthManager demo_store DemoToken :=
  mkManager (Some demo_config) ∅ (mkPKCE {["st" := "ver"%string]}) (mkStates {["u" := "st"%string]}) None.

Lemma HandleCallback_once_witness :
  ∃ m', HandleCallback demo_exchange tt "code" "st" "u" demo_manager = (m', Returns (Ok tt)) ∧
    getToken tt "u" m' = Ok (Some (mkDemo "r" 9)).
Proof.
  destruct (HandleCallback_once demo_exchange tt "code" "st" "u" "ver" demo_config
    (Some (mkDemo "r" 9)) {["u" := Some (mkDemo "r" 9)]} demo_manager) as (m' & H1 & H2 & _);
    try discriminate; try (vm_compute; reflexivity).
  exists m'. split; [exact H1|]. exact (H2 tt I).
Defined.

Lemma refreshUserToken_late_witness :
  let m := mkManager (Some demo_config) {["u" := Some (mkDemo "r" (10 * Minute))]}
             NewInMemoryPKCEStore NewInMemoryStateStore None : OAuthManager demo_store DemoToken in
  refreshUserToken (λ _ t, Ok t) 0 tt tt tt "u" m = (m, Returns (Ok tt)).
Proof.
  intros m.
  assert (Hg : getToken (E:=unit) tt "u" m = Ok (Some (mkDemo "r" (10 * Minute))))
    by (vm_compute; reflexivity).
  rewrite (refreshUserToken_late (λ _ t, Ok t) 0 tt tt tt "u" m (mkDemo "r" (10 * Minute)) Hg).
  rewrite decide_True by (vm_compute; reflexivity). reflexivity.
Defined.

(** The source's token has no refresh token: its expiry is taken, the old
    refresh token kept. *)
Lemma RefreshToken_preserves_witness :
  let m := mkManager (Some demo_config) {["u" := Some (mkDemo "r" 9)]}
             NewInMemoryPKCEStore NewInMemoryStateStore None : OAuthManager demo_store DemoToken in
  let '(m', o) := RefreshToken (λ _ _, Ok (mkDemo "" 99)) tt tt "u" m in
  o = Returns (Ok tt) ∧ getToken (E:=unit) tt "u" m' = Ok (Some (mkDemo "r" 99)).
Proof.
  intros m. pose proof (RefreshToken_preserves (λ _ _, Ok (mkDemo "" 99)) tt tt "u" m) as H.
  destruct (RefreshToken (λ _ _, Ok (mkDemo "" 99)) tt tt "u" m) as [m' o].
  destruct H as (_ & _ & H).
  destruct (H (mkDemo "r" 9) (mkDemo "" 99) (mkDemo "r" 99) {["u" := Some (mkDemo "r" 99)]}) as [-> E];
    [discriminate|vm_compute; reflexivity|discriminate|right; split; [reflexivity|by eexists]
    |right; split; reflexivity|vm_compute; reflexivity|].
  split; [reflexivity|]. unfold getToken. rewrite E. vm_compute. reflexivity.
Defined.

Fixpoint demo_random (n : nat) : string :=
  match n with O => EmptyString | S k => String Ascii.zero (demo_random k) end.

Lemma pkce_codes_witness :
  GenerateCodeVerifier (λ n, Ok (demo_random n)) 128 = Ok (EncodeToString false (demo_random 128)) ∧
  128 < String.length (EncodeToString false (demo_random 128)).
Proof.
  split; [vm_compute; reflexivity|].
  apply (pkce_codes (λ n, Ok (demo_random n)) 128 "" "") with (v := EncodeToString false (demo_random 128));
    [|vm_compute; reflexivity|lia].
  intros k s H. injection H as <-. induction k as [|k IH]; [reflexivity|]. cbn. by rewrite IH.
Defined.
