(* ===== verification/TokenStore.v ===== *)
(** * Tokens at rest: [internal/storage/encryption.go] and [token_store.go]

    [TokenStore] keeps every user's [oauth2.Token], as JSON under AES-GCM, in
    the table [tokens] of file Storage.  It is the token storage of the OAuth
    manager and of the digest job: the instance [TokenStore_storage].  The JSON
    of golang.org/x/oauth2's type is a parameter with its round trip. *)
From Stdlib Require Import ZArith Lia Ascii.
From stdpp Require Import base gmap list strings.
From S2P Require Import Prelude GoTime GoAesGcm Worker Job Storage Auth.

(** What a call sees of the outside: the clock, the database, [rand.Reader]. *)
Record TokenEnv := mkTokenEnv {
  te_now : Z;
  te_db : db_faults;
  te_random : result (nat → ascii);
}.

Definition read_nonce (random : nat → ascii) : string :=
  String.string_of_list_ascii (random <$> seq 0 12).

(** ** [encryption.go] *)

(** @src internal/storage/encryption.go 12-17 KeySize *)
Definition KeySize : nat := 32.

(** @src internal/storage/encryption.go 12-17 NonceSize *)
Definition NonceSize : nat := 12.

(** @src internal/storage/encryption.go 19-22 ErrInvalidKeySize *)
Definition ErrInvalidKeySize : error :=
  Sentinel "ErrInvalidKeySize" "invalid key size: must be 32 bytes for AES-256".

(** @src internal/storage/encryption.go 19-22 ErrInvalidNonce *)
Definition ErrInvalidNonce : error := Sentinel "ErrInvalidNonce" "invalid nonce size".

(** The ciphertext and the nonce. *)
(** @src internal/storage/encryption.go 24-47 EncryptToken *)
Definition EncryptToken (random : result (nat → ascii)) (key plaintext : string) : result (string * string) :=
  if (String.length key =? KeySize)%nat then
    ks ← wrap_err "failed to create cipher: " (NewGCM key);
    rd ← wrap_err "failed to generate nonce: " random;
    let nonce := read_nonce rd in
    Ok (Seal ks nonce plaintext, nonce)
  else Err ErrInvalidKeySize.

(** @src internal/storage/encryption.go 49-75 DecryptToken *)
Definition DecryptToken (key ciphertext nonce : string) : result string :=
  if (String.length key =? KeySize)%nat then
    ks ← wrap_err "failed to create cipher: " (NewGCM key);
    if (String.length nonce =? NonceSize)%nat
    then wrap_err "failed to decrypt: " (Open ks nonce ciphertext)
    else Err ErrInvalidNonce
  else Err ErrInvalidKeySize.

(** ** [token_store.go] *)

(** @src internal/storage/token_store.go 15-25 TokenStore *)
Record TokenStore := mkTokenStore { db : DB; encryptionKey : string }.

(** [json.Marshal] and [json.Unmarshal] of an [oauth2.Token]. *)
Class TokenJSON (T : Type) := {
  tok_Marshal : T → result string;
  tok_Unmarshal : string → result T;
  tok_json_law t s : tok_Marshal t = Ok s → tok_Unmarshal s = Ok t;
}.

Section store.
Context {T : Type} `{!TokenJSON T}.
Implicit Types ts : TokenStore.

Definition with_db (d : DB) ts : TokenStore := mkTokenStore d (encryptionKey ts).

(** A nonce that is not 12 bytes panics in [Open]. *)
(** @src internal/storage/token_store.go 27-55 GetToken *)
Definition GetToken (e : TokenEnv) (userID : string) ts : outcome (result T) :=
  match Storage.GetToken (te_db e) userID (db ts) with
  | Err er => Returns (Err (wrap_pre "failed to get encrypted token from db: " er))
  | Ok (encryptedToken, nonce) =>
      match NewGCM (encryptionKey ts) with
      | Err er => Returns (Err (wrap_pre "failed to create cipher: " er))
      | Ok ks =>
          if (String.length nonce =? 12)%nat then
            match Open ks nonce encryptedToken with
            | Err er => Returns (Err (wrap_pre "failed to decrypt token: " er))
            | Ok decryptedData =>
                Returns (wrap_err "failed to unmarshal token: " (tok_Unmarshal decryptedData))
            end
          else Panics "crypto/cipher: incorrect nonce length given to GCM"
      end
  end.

(** @src internal/storage/token_store.go 57-86 StoreToken *)
Definition StoreToken (e : TokenEnv) (userID : string) (token : option T) ts : TokenStore * result unit :=
  match token with
  | None => (ts, Err (ErrorString "token cannot be nil"))
  | Some t =>
      match wrap_err "failed to marshal token: " (tok_Marshal t) with
      | Err er => (ts, Err er)
      | Ok tokenBytes =>
          match wrap_err "failed to create cipher: " (NewGCM (encryptionKey ts)) with
          | Err er => (ts, Err er)
          | Ok ks =>
              match wrap_err "failed to generate nonce: " (te_random e) with
              | Err er => (ts, Err er)
              | Ok rd =>
                  let nonce := read_nonce rd in
                  let '(d, r) := Storage.StoreToken (te_now e) (te_db e) userID
                                   (Seal ks nonce tokenBytes) nonce (db ts) in
                  (with_db d ts, r)
              end
          end
      end
  end.

(** @src internal/storage/token_store.go 88-91 DeleteToken *)
Definition DeleteToken (e : TokenEnv) (userID : string) ts : TokenStore * result unit :=
  let '(d, r) := Storage.DeleteToken (te_db e) userID (db ts) in (with_db d ts, r).

Lemma read_nonce_length rd : String.length (read_nonce rd) = 12%nat.
Proof. reflexivity. Qed.

(** What a successful [StoreToken] leaves behind. *)
Lemma StoreToken_Ok e u token ts ts' :
  StoreToken e u token ts = (ts', Ok tt) →
  ∃ t s ks rd, token = Some t ∧ tok_Marshal t = Ok s ∧ NewGCM (encryptionKey ts) = Ok ks ∧
    te_random e = Ok rd ∧ u ≠ "" ∧ encryptionKey ts' = encryptionKey ts ∧
    db ts' = replace_token (te_now e) u (Seal ks (read_nonce rd) s) (read_nonce rd) (db ts).
Proof.
  unfold StoreToken. destruct token as [t|]; [|done].
  destruct (tok_Marshal t) as [s|] eqn:Em; [|done]. destruct (NewGCM _) as [ks|] eqn:Ek; [|done].
  destruct (te_random e) as [rd|] eqn:Er; [|done]. cbn [wrap_err]. unfold Storage.StoreToken, validateTokenInput.
  destruct (decide (u = "")) as [|Hu]; [done|].
  destruct (decide (Seal _ _ _ = "")); [done|]. destruct (decide (read_nonce _ = "")); [done|].
  unfold exec.
  destruct (exec_fault (te_db e)); [done|]. intros [= <-].
  exists t, s, ks, rd. by split_and!.
Qed.

Lemma StoreToken_Err e u token ts ts' er :
  StoreToken e u token ts = (ts', Err er) → ts' = ts.
Proof.
  unfold StoreToken, Storage.StoreToken, run.
  repeat case_match; intros ?; simplify_eq; try done; by destruct ts.
Qed.

Lemma GetToken_other e u' ts ts' :
  tokens (db ts') !! u' = tokens (db ts) !! u' → encryptionKey ts' = encryptionKey ts →
  GetToken e u' ts' = GetToken e u' ts.
Proof. intros H1 H2. unfold GetToken, Storage.GetToken. by rewrite H1, H2. Qed.

Lemma GetToken_stored e u t s ks rd now ts :
  exec_fault (te_db e) = None → u ≠ "" → tok_Marshal t = Ok s → NewGCM (encryptionKey ts) = Ok ks →
  GetToken e u (with_db (replace_token now u (Seal ks (read_nonce rd) s) (read_nonce rd) (db ts)) ts)
    = Returns (Ok t).
Proof.
  intros Hf Hu Hm Hk. unfold GetToken, Storage.GetToken. rewrite decide_False, Hf by done. cbn.
  rewrite lookup_insert_eq. cbn [encrypted_token t_nonce]. rewrite Hk, Open_Seal.
  by rewrite (tok_json_law t s).
Qed.
End store.

(** The interface of the OAuth manager; a panic of [GetToken] counts as its
    failure. *)
Definition get_token {T} `{!TokenJSON T} (e : TokenEnv) (u : string) (ts : TokenStore) : result (option T) :=
  match GetToken e u ts with
  | Returns r => t ← r; Ok (Some t)
  | Panics p => Err (ExtError p)
  end.

Section instance.
Context {T : Type} `{!OAuthToken T} `{!TokenJSON T}.

#[export] Program Instance TokenStore_storage : TokenStorage TokenEnv TokenStore T := {
  ts_StoreToken := StoreToken;
  ts_GetToken := get_token;
  ts_DeleteToken := DeleteToken;
  ts_healthy e := exec_fault (te_db e) = None;
}.
Next Obligation.
  intros e u t s s' H. apply StoreToken_Ok in H as (t0 & by0 & ks & rd & -> & Hm & Hk & _ & Hu & Hkey & Hdb).
  split.
  - intros e' He. unfold get_token. pose proof (GetToken_stored e' u t0 by0 ks rd (te_now e) s He Hu Hm Hk) as G.
    rewrite <- Hdb in G. destruct s' as [d k]. cbn in *. subst k. unfold with_db in G. by rewrite G.
  - intros e' u' Hne. unfold get_token. erewrite (GetToken_other e' u' s s'); [done| |done].
    rewrite Hdb. cbn. by rewrite lookup_insert_ne.
Qed.
Next Obligation. intros e u t s s' er H. by eapply StoreToken_Err. Qed.
Next Obligation.
  intros e u s s' H. unfold DeleteToken, Storage.DeleteToken, run, exec in H.
  destruct (exec_fault (te_db e)); [done|]. injection H as <-. split.
  - intros e'. unfold get_token, GetToken, Storage.GetToken. cbn.
    destruct (decide (u = "")); [done|]. destruct (exec_fault (te_db e')); [done|].
    by rewrite lookup_delete_eq.
  - intros e' u' Hne. unfold get_token. erewrite (GetToken_other e' u' s); [done| |done].
    cbn. by rewrite lookup_delete_ne.
Qed.
End instance.

(** ** Properties *)

(** C33: Encrypted tokens decrypt.  With a key of exactly 32 bytes and a random
    source that answers, [EncryptToken] gives a ciphertext 16 bytes longer
    than the text and a 12-byte nonce, and [DecryptToken] with them gives the
    text back; with any other key length both refuse, and a nonce of another
    length or a ciphertext without room for its tag is refused. *)
Theorem Encrypt_Decrypt rd key plaintext :
  if decide (String.length key = 32)%nat then
    (∃ c n, EncryptToken (Ok rd) key plaintext = Ok (c, n) ∧ DecryptToken key c n = Ok plaintext ∧
       String.length c = (String.length plaintext + 16)%nat ∧ String.length n = 12%nat) ∧
    (∀ c n, String.length n ≠ 12%nat → DecryptToken key c n = Err ErrInvalidNonce) ∧
    (∀ c n, String.length n = 12%nat → (String.length c < 16)%nat →
       DecryptToken key c n = Err (wrap_pre "failed to decrypt: " errOpen))
  else EncryptToken (Ok rd) key plaintext = Err ErrInvalidKeySize ∧
       ∀ c n, DecryptToken key c n = Err ErrInvalidKeySize.
Proof.
  unfold EncryptToken, DecryptToken, KeySize, NonceSize. case_decide as Hk.
  - assert (Hg : NewGCM key = Ok (key_expansion (byte_list key))).
    { unfold NewGCM, valid_key. by rewrite Hk. }
    rewrite Hk, Hg. cbn [wrap_err Nat.eqb mbind result_bind]. split_and!.
    + eexists _, _. split; [reflexivity|]. rewrite read_nonce_length, Open_Seal, Seal_length. by split_and!.
    + intros c n Hn. by destruct (Nat.eqb_spec (String.length n) 12).
    + intros c n -> Hc. cbn [Nat.eqb]. unfold Open.
      by destruct (Nat.ltb_spec (String.length c) 16); [|lia].
  - by destruct (Nat.eqb_spec (String.length key) 32).
Qed.

Section refinement.
Context {T : Type} `{!TokenJSON T}.

Inductive ts_op :=
| TStore (e : TokenEnv) (userID : string) (token : option T)
| TDelete (e : TokenEnv) (userID : string).

(** The store and the map it stands for: a call that succeeds changes both. *)
Definition run_ts_op (op : ts_op) (st : TokenStore * gmap string T) : TokenStore * gmap string T :=
  let '(ts, m) := st in
  match op with
  | TStore e u token =>
      match StoreToken e u token ts with
      | (ts', Ok _) => (ts', match token with Some t => <[u := t]> m | None => m end)
      | (ts', Err _) => (ts', m)
      end
  | TDelete e u =>
      match DeleteToken e u ts with
      | (ts', Ok _) => (ts', delete u m)
      | (ts', Err _) => (ts', m)
      end
  end.

Definition run_ts_ops (ops : list ts_op) (st : TokenStore * gmap string T) : TokenStore * gmap string T :=
  foldl (λ st op, run_ts_op op st) st ops.

(** What [GetToken] answers for a map of tokens. *)
Definition lookup_token (u : string) (m : gmap string T) : result T :=
  match m !! u with
  | Some t => Ok t
  | None => Err (wrap_pre "failed to get encrypted token from db: "
                   (wrap_post ErrNotFound (": token not found for user " +:+ u)))
  end.

Definition stands_for (st : TokenStore * gmap string T) : Prop :=
  ∀ e u, exec_fault (te_db e) = None → u ≠ "" → GetToken e u st.1 = Returns (lookup_token u st.2).

Lemma run_ts_op_stands_for op st : stands_for st → stands_for (run_ts_op op st).
Proof.
  destruct st as [ts m]. intros H. destruct op as [e u token|e u]; cbn [run_ts_op].
  - destruct (StoreToken e u token ts) as [ts' [[]|er]] eqn:E.
    + apply StoreToken_Ok in E as (t & s & ks & rd & -> & Hm & Hk & _ & Hu & Hkey & Hdb).
      intros e' u' Hf Hu'. cbn. destruct (decide (u' = u)) as [->|Hne].
      * unfold lookup_token. rewrite lookup_insert_eq.
        rewrite <- (GetToken_stored e' u t s ks rd (te_now e) ts Hf Hu Hm Hk), <- Hdb.
        f_equal. destruct ts', ts. cbn in *. by subst.
      * unfold lookup_token. rewrite lookup_insert_ne by done.
        rewrite (GetToken_other e' u' ts ts') by (done || (rewrite Hdb; cbn; by rewrite lookup_insert_ne)).
        by apply H.
    + apply StoreToken_Err in E as ->. exact H.
  - unfold DeleteToken, Storage.DeleteToken, run, exec. destruct (exec_fault (te_db e)).
    + by destruct ts.
    + intros e' u' Hf Hu'. unfold lookup_token. cbn [fst snd]. destruct (decide (u' = u)) as [->|Hne].
      * rewrite lookup_delete_eq. unfold GetToken, Storage.GetToken. rewrite decide_False, Hf by done.
        cbn. by rewrite lookup_delete_eq.
      * rewrite lookup_delete_ne by done.
        rewrite (GetToken_other e' u' ts) by (done || (cbn; by rewrite lookup_delete_ne)).
        by apply H.
Qed.

(** C6: The token store is a map from users to tokens.  From an empty table and
    whatever the key, after any stores and deletes, failed ones included,
    [GetToken] of a user answers the last token stored for that user and not
    deleted since, and otherwise that there is none; it never panics, never
    fails to decrypt and never sees another user's token. *)
Theorem TokenStore_refines_map (ops : list ts_op) d key e u :
  tokens d = ∅ → exec_fault (te_db e) = None → u ≠ "" →
  let '(ts, m) := run_ts_ops ops (mkTokenStore d key, ∅) in
  GetToken e u ts = Returns (lookup_token u m).
Proof.
  intros Hd He Hu. assert (H0 : stands_for (mkTokenStore d key, ∅)).
  { intros e' u' Hf Hu'. unfold lookup_token, GetToken, Storage.GetToken.
    rewrite decide_False, Hf by done. cbn. by rewrite Hd, lookup_empty. }
  assert (H : stands_for (run_ts_ops ops (mkTokenStore d key, ∅))).
  { clear Hd. revert H0. generalize (mkTokenStore d key, (∅ : gmap string T)) as st.
    induction ops as [|op ops IH]; intros st Hst; [exact Hst|]. apply IH, run_ts_op_stands_for, Hst. }
  destruct (run_ts_ops _ _) as [ts m]. by apply H.
Qed.
End refinement.

(** ** Witness: tokens that are their own JSON *)
#[local] Program Instance demo_json : TokenJSON string := { tok_Marshal s := Ok s; tok_Unmarshal s := Ok s }.
Next Obligation. done. Qed.

Definition demo_token_env (b : ascii) : TokenEnv := mkTokenEnv 0 (mkFaults None None) (Ok (λ _, b)).

Lemma TokenStore_refines_map_witness :
  let key := "0123456789abcdef0123456789abcdef"%string in
  let e := demo_token_env "x" in
  let ops := [TStore e "u" (Some "one"); TStore (demo_token_env "y") "v" (Some "two"); TDelete e "v";
              TStore e "u" (Some "three")]%string in
  let '(ts, m) := run_ts_ops ops (mkTokenStore empty_DB key, ∅) in
  GetToken e "u" ts = Returns (Ok "three"%string) ∧ m = {["u" := "three"%string]}.
Proof.
  intros key e ops.
  pose proof (TokenStore_refines_map ops empty_DB key e "u" eq_refl eq_refl) as H.
  assert (Hm : (run_ts_ops ops (mkTokenStore empty_DB key, ∅)).2 = {["u" := "three"%string]})
    by (vm_compute; reflexivity).
  destruct (run_ts_ops _ _) as [ts m]. cbn in Hm. subst m. split; [|reflexivity].
  rewrite H by discriminate. reflexivity.
Defined.
