(* ===== verification/TokenRefresh.v ===== *)
(** * Token refresh jobs: [internal/scheduler/token_refresh.go] and the job half
    of [internal/auth/refresh_service.go]

    A refresh job is scheduled with the JSON of a user ID as its payload; the
    handler reads it back, looks at the user's token and refreshes it.  The
    handler is a client of the class [TokenStorage] and a [JobHandler] of the
    scheduler, whose condition on handlers ([handler_ok]) it meets. *)
From Stdlib Require Import ZArith Lia.
From stdpp Require Import base gmap list strings.
From S2P Require Import Prelude GoTime GoJson GoJsonValue Job Worker JobHandler Scheduler SchedulerInv.
From S2P Require Import SchedulerSystem SchedulerProps Auth AuthProps.

(** ** The payload *)

(** [json.Marshal] and [json.Unmarshal] of the struct with the one field
    [user_id]; auth and scheduler declare it each. *)
(** @src internal/scheduler/token_refresh.go 12-15 TokenRefreshPayload *)
Definition marshal_payload (userID : string) : string := object1 "user_id" userID.

(** @src internal/auth/refresh_service.go 11-14 TokenRefreshJob *)
Definition decode_payload : decoder string :=
  decode_struct ["user_id"%string] (λ _, decode_string).

Lemma decode_marshal u :
  valid_utf8 u = true → Unmarshal decode_payload "" (marshal_payload u) = Ok u.
Proof. intros Hu. unfold Unmarshal, marshal_payload. by rewrite parse_user_id. Qed.

(** Fields are found in any case, unknown ones skipped, the last one wins. *)
Example decode_payload_examples :
  Unmarshal decode_payload "" ("{" +:+ q "USER_ID" +:+ ":" +:+ q "a" +:+ ", " +:+ q "x" +:+ ":[1]}")
    = Ok "a"%string ∧
  Unmarshal decode_payload "" "null" = Ok ""%string ∧
  Unmarshal decode_payload "" ("{" +:+ q "user_id" +:+ ":7}") = Err UnmarshalTypeError ∧
  Unmarshal decode_payload "" "" = Err SyntaxError.
Proof. vm_compute. by split_and!. Qed.

(** ** The handler *)

Section handler.
Context {E ST T : Type} `{!OAuthToken T} `{!TokenStorage E ST T}.

(** [Config.TokenSource(ctx, token).Token()]. *)
Context (source_Token : OAuthConfig → option T → result T).
(** The service's [Config]. *)
Context (cfg : OAuthConfig).

(** The world of the handlers: what this one reads and writes of it. *)
Record Outside := mkOutside {
  ro_now : Z;      (* when [Valid] asks *)
  ro_later : Z;    (* when the next run is computed *)
  ro_get : E;
  ro_put : E;
}.
Context {W : Type} (outside : W → Outside) (tokens : W → ST) (with_tokens : ST → W → W).

(** @src internal/scheduler/token_refresh.go 128-132 HandleTokenRefresh *)
Definition refreshed_job (now : Z) (j : Job) : Job :=
  mkJob (ID j) (UserID j) (JType j) (Schedule j) (Payload j) JobStatusCompleted 0
        "" (Add now Hour) (LastRun j) (CreatedAt j) (UpdatedAt j).

(** A nil job is [None]. *)
(** @src internal/scheduler/token_refresh.go 80-135 HandleTokenRefresh *)
Definition HandleTokenRefresh (w : W) (job : option Job) : W * option Job * option error :=
  match job with
  | None => (w, None, Some (ErrorString "job cannot be nil"))
  | Some j =>
      match Unmarshal decode_payload "" (default "" (Payload j)) with
      | Err e => (w, job, Some (wrap_pre "failed to unmarshal token refresh payload: " e))
      | Ok userID =>
          if decide (userID = "") then (w, job, Some (ErrorString "userID cannot be empty in payload"))
          else match ts_GetToken (ro_get (outside w)) userID (tokens w) with
          | Err e => (w, job, Some (wrap_pre "failed to get token: " e))
          | Ok token =>
              if ValidateToken (ro_now (outside w)) token
              then (w, Some (refreshed_job (ro_later (outside w)) j), None)
              else match source_Token cfg token with
              | Err e => (w, job, Some (wrap_pre "failed to refresh token: " e))
              | Ok newToken =>
                  match ts_StoreToken (ro_put (outside w)) userID (Some newToken) (tokens w) with
                  | (st, Err e) => (with_tokens st w, job,
                                    Some (wrap_pre "failed to store refreshed token: " e))
                  | (st, Ok _) => (with_tokens st w, Some (refreshed_job (ro_later (outside w)) j), None)
                  end
              end
          end
      end
  end.

(** As the scheduler calls it, on the job of a task. *)
Definition token_refresh_handler : JobHandler W := λ w j,
  let '(w', j', e) := HandleTokenRefresh w (Some j) in (w', default j j', e).

Lemma token_refresh_handler_ok : handler_ok token_refresh_handler.
Proof.
  intros w j w' j' e. unfold token_refresh_handler, HandleTokenRefresh.
  repeat case_match; intros [= <- <- <-]; simplify_eq; by repeat split.
Qed.

(** ** The service *)

(** A nil argument panics; otherwise the handler is registered. *)
(** @src internal/scheduler/token_refresh.go 25-48 NewTokenRefreshService *)
Definition NewTokenRefreshService {S} (scheduler : option (Scheduler S W)) (storage_nil config_nil : bool)
  : outcome (Scheduler S W) :=
  match scheduler with
  | None => Panics "scheduler cannot be nil"
  | Some s =>
      if storage_nil then Panics "storage cannot be nil"
      else if config_nil then Panics "config cannot be nil"
      else Returns (RegisterTokenRefreshHandler (Some token_refresh_handler) s)
  end.

Context {S : Type} `{!JobStore S} (loc : Location).

(** [None] when [ScheduleJob] does not return; otherwise the error, if any. *)
(** @src internal/scheduler/token_refresh.go 58-78 ScheduleTokenRefresh *)
Definition ScheduleTokenRefresh (e : env) (order : list string) (userID schedule : string)
    (s : Scheduler S W) : option (Scheduler S W * option error) :=
  if decide (userID = "") then Some (s, Some (ErrorString "userID cannot be empty"))
  else if decide (schedule = "") then Some (s, Some (ErrorString "schedule cannot be empty"))
  else
    '(s', r) ← ScheduleJob loc e order userID "token_refresh" schedule
                 (RawMessage (Some (marshal_payload userID))) s;
    Some (s', match r with Ok _ => None | Err er => Some er end).
End handler.
Arguments Outside : clear implicits.

(** ** The refresh service of auth *)

Section auth_service.
Context {E ST T : Type} `{!OAuthToken T} `{!TokenStorage E ST T}.
Context (source_Token : OAuthConfig → T → result T).

(** @src internal/auth/refresh_service.go 58-64 CreateRefreshJob *)
Definition CreateRefreshJob (userID : string) : result string := Ok (marshal_payload userID).

(** A nil job panics. *)
(** @src internal/auth/refresh_service.go 66-74 HandleTokenRefreshJob *)
Definition HandleTokenRefreshJob (now : Z) (e0 e1 e2 : E) (job : option Job) (m : OAuthManager ST T)
  : OAuthManager ST T * outcome (result unit) :=
  match job with
  | None => (m, Panics nil_dereference)
  | Some j =>
      match Unmarshal decode_payload "" (default "" (Payload j)) with
      | Err e => (m, Returns (Err (wrap_pre "failed to unmarshal job payload: " e)))
      | Ok userID => refreshUserToken source_Token now e0 e1 e2 userID m
      end
  end.
End auth_service.

(** ** Properties *)

Section props.
Context {E ST T : Type} `{!OAuthToken T} `{!TokenStorage E ST T}.
Context (source_Token : OAuthConfig → option T → result T) (cfg : OAuthConfig).
Context {W : Type} (outside : W → Outside E) (tokens : W → ST) (with_tokens : ST → W → W).
Context (tokens_with_tokens : ∀ st w, tokens (with_tokens st w) = st).
Context (with_tokens_same : ∀ w, with_tokens (tokens w) w = w).
Abbreviation token_refresh_handler := (token_refresh_handler source_Token cfg outside tokens with_tokens).

(** C25: A refresh that fails changes nothing, and one that succeeds refreshes
    the user it names only.  On an error the job and the stored tokens are as
    before.  Otherwise the payload named a user, the job is completed with no
    error and no retries and its next run an hour later, and either the
    user's token was still valid and the tokens are untouched, or the token
    the provider gave for it is now the user's, and no other user's token has
    changed. *)
Theorem HandleTokenRefresh_effect (w : W) (j : Job) :
  let '(w', j', err) := token_refresh_handler w j in
  match err with
  | Some _ => w' = w ∧ j' = j
  | None => ∃ u token,
      Unmarshal decode_payload "" (default "" (Payload j)) = Ok u ∧ u ≠ "" ∧
      j' = refreshed_job (ro_later (outside w)) j ∧
      ts_GetToken (ro_get (outside w)) u (tokens w) = Ok token ∧
      (ValidateToken (ro_now (outside w)) token = true ∧ w' = w ∨
       ∃ t', ValidateToken (ro_now (outside w)) token = false ∧ source_Token cfg token = Ok t' ∧
         w' = with_tokens (tokens w') w ∧
         (∀ e, ts_healthy e → ts_GetToken e u (tokens w') = Ok (Some t')) ∧
         (∀ e u', u' ≠ u → ts_GetToken e u' (tokens w') = ts_GetToken e u' (tokens w)))
  end.
Proof.
  unfold TokenRefresh.token_refresh_handler, TokenRefresh.HandleTokenRefresh.
  destruct (Unmarshal decode_payload _ _) as [u|e]; [|by split].
  destruct (decide (u = "")) as [|Hu]; [by split|].
  destruct (ts_GetToken _ u (tokens w)) as [token|e] eqn:Eg; [|by split].
  destruct (ValidateToken _ token) eqn:Ev; [exists u, token; split_and!; by auto|].
  destruct (source_Token cfg token) as [t'|e] eqn:Es; [|by split].
  destruct (ts_StoreToken _ u _ _) as [st [[]|e]] eqn:Et; cbn [default].
  - apply ts_store_law in Et as [H1 H2]. exists u, token. split_and!; try done.
    right. exists t'. rewrite tokens_with_tokens. by split_and!.
  - apply ts_store_err in Et as ->. by rewrite with_tokens_same.
Qed.

Context {S : Type} `{!JobStore S} (loc : Location).

(** The parts of a refresh run, for the theorem below. *)
Lemma run_stale w j u tok tok' st' :
  Payload j = Some (marshal_payload u) → valid_utf8 u = true → u ≠ "" →
  ts_GetToken (ro_get (outside w)) u (tokens w) = Ok (Some tok) →
  tok_Valid (ro_now (outside w)) tok = false → source_Token cfg (Some tok) = Ok tok' →
  ts_StoreToken (ro_put (outside w)) u (Some tok') (tokens w) = (st', Ok tt) →
  token_refresh_handler w j = (with_tokens st' w, refreshed_job (ro_later (outside w)) j, None).
Proof.
  intros Hp Hv Hu Hg Hva Hs Hst. unfold TokenRefresh.token_refresh_handler, TokenRefresh.HandleTokenRefresh.
  rewrite Hp. cbn [default from_option id]. rewrite decode_marshal, decide_False, Hg by done.
  cbn [ValidateToken]. by rewrite Hva, Hs, Hst.
Qed.

(** C24: From schedule to token: a refresh job runs for the user it was scheduled
    for.  [ScheduleTokenRefresh] for a user ID of well-formed UTF-8 creates or
    resets the user's job, in memory and in the store with the same payload;
    running that job's task while the user's token is stale stores the token
    the provider gives for it, and no other user's changes; and the callback
    of the run puts the next run where the cron schedule says, over the hour
    the handler had set. *)
Theorem scheduled_refresh now uuid now' order u sch next s w tok tok' st' :
  sched_inv s → complete_order s order → u ≠ "" → valid_utf8 u = true → sch ≠ "" →
  GetHandler "token_refresh" (registry s) = Some token_refresh_handler →
  nextRunTime loc sch now = Some next → uuid ≠ "" → js_abs (store s) !! uuid = None →
  ts_GetToken (ro_get (outside w)) u (tokens w) = Ok (Some tok) →
  tok_Valid (ro_now (outside w)) tok = false → source_Token cfg (Some tok) = Ok tok' →
  ts_StoreToken (ro_put (outside w)) u (Some tok') (tokens w) = (st', Ok tt) →
  ∃ s' p id j h,
    ScheduleTokenRefresh loc (mkEnv now uuid now' no_faults) order u sch s = Some (s', None) ∧
    Jobs s' !! id = Some p ∧ mem_job s' id = Some j ∧ job_key j = (u, "token_refresh"%string, sch) ∧
    Status j = JobStatusPending ∧ NextRun j = next ∧
    (∃ a, js_abs (store s') !! id = Some a ∧ Payload a = Some (marshal_payload u)) ∧
    Execute (registry s) (task_for p) w (heap s') = (with_tokens st' w, h, None) ∧
    (∀ e, ts_healthy e → ts_GetToken e u st' = Ok (Some tok')) ∧
    (∀ e u', u' ≠ u → ts_GetToken e u' st' = ts_GetToken e u' (tokens w)) ∧
    ∀ e next', nextRunTime loc sch (e_now e) = Some next' →
      ∃ s2 j2, OnSuccess loc e (task_for p) (set_heap h s') = Some s2 ∧
        mem_job s2 id = Some j2 ∧ Status j2 = JobStatusCompleted ∧ NextRun j2 = next'.
Proof.
  intros Hi Ho Hu Hv Hsch Hh Hn Huu Hf Hg Hva Hs Hst.
  assert (Hm : Marshal_raw (Some (marshal_payload u)) = Ok (marshal_payload u)).
  { cbn. unfold marshal_payload. by rewrite compact_user_id. }
  destruct (ScheduleJob_writes loc now uuid now' order u "token_refresh" sch
    (RawMessage (Some (marshal_payload u))) (Some (marshal_payload u)) next s)
    as (s' & p & id & j & E1 & Hi' & Hp & Hj & Hk & Epl & Est & _ & En & Hsy & _); try done;
    [by rewrite Hm|].
  assert (Hhp : heap s' !! p = Some j).
  { apply mem_job_Some in Hj as (p0 & Hp0 & Hj). congruence. }
  pose proof (ts_store_law _ _ _ _ _ Hst) as [L1 L2].
  pose proof (run_stale w j u tok tok' st' Epl Hv Hu Hg Hva Hs Hst) as Hrun.
  exists s', p, id, j, (<[p := refreshed_job (ro_later (outside w)) j]> (heap s')).
  split_and!; try done.
  - unfold ScheduleTokenRefresh. rewrite !decide_False by done. by rewrite E1.
  - destruct (Hsy j Hj) as (pl & Hpl & Ha). rewrite Epl, Hm in Hpl. injection Hpl as <-.
    rewrite Ha. by eexists.
  - unfold Execute, task_for. cbn [t_job]. rewrite Hhp.
    assert (JType j = "token_refresh"%string) as -> by (injection Hk; done).
    by rewrite Hh, Hrun.
  - intros e next' Hn'. set (rj := refreshed_job (ro_later (outside w)) j).
    assert (Hir : sched_inv (put_job p rj s')) by (by apply (put_job_inv s' id p j)).
    assert (Hsch' : Schedule rj = sch) by (injection Hk; done).
    pose proof (OnSuccess_spec loc e (task_for p) id p rj (put_job p rj s') Hir eq_refl eq_refl Hp
      (lookup_insert_eq _ _ _)) as Hsp.
    rewrite Hsch' in Hsp. change (set_heap (<[p := rj]> (heap s')) s') with (put_job p rj s').
    destruct (OnSuccess loc e (task_for p) (put_job p rj s')) as [s2|]; [|congruence].
    destruct Hsp as (nx & Hnx & Hcb). rewrite Hn' in Hnx. injection Hnx as <-.
    exists s2, (set_UpdatedAt (e_store_now e) (set_completed next' rj)). split_and!; try done.
    apply Hcb.
Qed.
End props.

(** ** Witness: an empty database, a stale token *)

Definition demo_outside (_ : demo_store) : Outside unit := mkOutside 10 20 tt tt.
Definition demo_tokens : demo_store := {["u" := Some (mkDemo "r" 9); "v" := Some (mkDemo "q" 9)]}.
Definition demo_refresh_source (_ : OAuthConfig) (_ : option DemoToken) : result DemoToken :=
  Ok (mkDemo "r2" 100).
Definition demo_refresh_handler : JobHandler demo_store :=
  token_refresh_handler demo_refresh_source demo_config demo_outside id (λ st _, st).

Definition demo_fresh : result (Scheduler JobTable demo_store) :=
  NewScheduler no_faults no_faults None (NewWorkerPool 2).
Definition demo_refresh_sched : Scheduler JobTable demo_store :=
  match demo_fresh with
  | Ok s => RegisterTokenRefreshHandler (Some demo_refresh_handler) s
  | Err _ => mkScheduler [] ∅ 0 ∅ false (NewWorkerPool 2) NewJobHandlerRegistry false
  end.

Lemma demo_refresh_inv : sched_inv demo_refresh_sched.
Proof.
  unfold demo_refresh_sched. destruct demo_fresh as [s0|e] eqn:E; [|discriminate].
  unfold demo_fresh in E. apply NewScheduler_inv in E as (Hi & Hpl & _); [|done|cbn; lia].
  apply (inv_same s0); try done. cbn. rewrite Hpl. cbn. lia.
Qed.

Lemma scheduled_refresh_witness :
  ∃ s' p h, ScheduleTokenRefresh demo_loc (demo_env "a" 1) [] "u" "0 * * * *" demo_refresh_sched
            = Some (s', None) ∧
    Execute (registry demo_refresh_sched) (task_for p) demo_tokens (heap s')
      = (<["u" := Some (mkDemo "r2" 100)]> demo_tokens, h, None).
Proof.
  destruct (scheduled_refresh demo_refresh_source demo_config demo_outside id (λ st _, st) demo_loc
    1 "a" 1 [] "u" "0 * * * *" Hour demo_refresh_sched demo_tokens (mkDemo "r" 9) (mkDemo "r2" 100)
    (<["u" := Some (mkDemo "r2" 100)]> demo_tokens))
    as (s' & p & id & j & h & H1 & _ & _ & _ & _ & _ & _ & H2 & _).
  - exact demo_refresh_inv.
  - intros i [p Hp]. discriminate Hp.
  - discriminate.
  - reflexivity.
  - discriminate.
  - reflexivity.
  - vm_compute. reflexivity.
  - discriminate.
  - reflexivity.
  - vm_compute. reflexivity.
  - vm_compute. reflexivity.
  - reflexivity.
  - vm_compute. reflexivity.
  - exists s', p, h. split; [exact H1|exact H2].
Defined.

Lemma HandleTokenRefresh_effect_witness :
  let j := mkJob "a" "u" "token_refresh" "0 * * * *" (Some (marshal_payload "u")) JobStatusRunning 0 "" 0
             None 0 0 in
  let '(w', j', err) := demo_refresh_handler demo_tokens j in
  err = None ∧ Status j' = JobStatusCompleted ∧
  ts_GetToken (T:=DemoToken) tt "v" w' = ts_GetToken tt "v" demo_tokens.
Proof.
  intros j. pose proof (HandleTokenRefresh_effect demo_refresh_source demo_config demo_outside id (λ st _, st)
    (λ _ _, eq_refl) (λ _, eq_refl) demo_tokens j) as H.
  assert (He : (demo_refresh_handler demo_tokens j).2 = None) by (vm_compute; reflexivity).
  unfold demo_refresh_handler in *.
  destruct (token_refresh_handler _ _ _ _ _ demo_tokens j) as [[w' j'] err]. cbn in He. subst err.
  destruct H as (u & token & H1 & _ & -> & _ & H2). split; [reflexivity|]. split; [reflexivity|].
  assert (Hu : u = "u"%string) by (vm_compute in H1; injection H1 as <-; reflexivity). subst u.
  destruct H2 as [[_ ->]|(t' & _ & _ & _ & _ & H2)]; [reflexivity|]. apply (H2 tt). discriminate.
Defined.
