(* ===== verification/Session.v ===== *)
(** * Sessions: [internal/session]

    The interface [Store] as a class and its in-memory implementation.  A
    session ID is the base64 of 32 random bytes; two sessions share an ID only
    if the random source repeats itself. *)
From Stdlib Require Import ZArith Lia.
From stdpp Require Import base gmap list strings.
From S2P Require Import Prelude GoTime GoBase64.

(** [rand.Read] into 32 bytes: the bytes or its failure. *)
(** @src internal/session/in_memory.go 75-83 generateSessionID *)
Definition generateSessionID (random : result string) : result string :=
  b ← random; Ok (EncodeToString true b).

(** The interface [Store], lines 9-15 of [store.go]. *)
(** @src internal/session/store.go 8-16 Store *)
Class SessionStore (S : Type) := {
  ss_Create : result string → Z → string → Z → S → S * result string;
  ss_Get : Z → string → S → result string;
  ss_Delete : string → S → S * result unit;

  ss_create_law random now u d s s' id : ss_Create random now u d s = (s', Ok id) →
    (∀ now', if decide (now + d < now')%Z then is_ok (ss_Get now' id s') = false
             else ss_Get now' id s' = Ok u) ∧
    ∀ now' id', id' ≠ id → ss_Get now' id' s' = ss_Get now' id' s;
  ss_create_err random now u d s s' e : ss_Create random now u d s = (s', Err e) → s' = s;
  ss_delete_law id s s' r : ss_Delete id s = (s', r) →
    r = Ok tt ∧ (∀ now, is_ok (ss_Get now id s') = false) ∧
    ∀ now id', id' ≠ id → ss_Get now id' s' = ss_Get now id' s;
}.

(** @src internal/session/in_memory.go 18-21 sessionData *)
Record sessionData := mkSession { s_userID : string; s_expires : Z }.

(** @src internal/session/in_memory.go 12-16 InMemoryStore *)
Record InMemoryStore := mkStore { sessions : gmap string sessionData }.

(** @src internal/session/in_memory.go 23-28 NewInMemoryStore *)
Definition NewInMemoryStore : InMemoryStore := mkStore ∅.

(** @src internal/session/in_memory.go 30-46 Create *)
Definition Create (random : result string) (now : Z) (userID : string) (duration : Z)
    (s : InMemoryStore) : InMemoryStore * result string :=
  match generateSessionID random with
  | Err e => (s, Err e)
  | Ok sessionID =>
      (mkStore (<[sessionID := mkSession userID (Add now duration)]> (sessions s)), Ok sessionID)
  end.

(** An expired session stays in the map. *)
(** @src internal/session/in_memory.go 48-65 Get *)
Definition Get (now : Z) (sessionID : string) (s : InMemoryStore) : result string :=
  match sessions s !! sessionID with
  | None => Err (ErrorString "session not found")
  | Some data => if After now (s_expires data) then Err (ErrorString "session expired")
                 else Ok (s_userID data)
  end.

(** @src internal/session/in_memory.go 67-73 Delete *)
Definition Delete (sessionID : string) (s : InMemoryStore) : InMemoryStore * result unit :=
  (mkStore (delete sessionID (sessions s)), Ok tt).

Lemma Create_spec random now u d s s' r :
  Create random now u d s = (s', r) →
  match r with
  | Err _ => s' = s
  | Ok id => generateSessionID random = Ok id ∧
             sessions s' = <[id := mkSession u (now + d)]> (sessions s)
  end.
Proof.
  unfold Create. destruct (generateSessionID random); by intros [= <- <-].
Qed.

#[export] Program Instance InMemorySessions : SessionStore InMemoryStore := {
  ss_Create := Create;
  ss_Get := Get;
  ss_Delete := Delete;
}.
Next Obligation.
  intros random now u d s s' id H. apply Create_spec in H as [_ E]. unfold Get. rewrite E. split.
  - intros now'. rewrite lookup_insert_eq. cbn. unfold After.
    case_decide; destruct (Z.ltb_spec (now + d) now'); done || lia.
  - intros now' id' Hne. by rewrite lookup_insert_ne.
Qed.
Next Obligation. intros random now u d s s' e H. by apply Create_spec in H. Qed.
Next Obligation.
  intros id s s' r H. injection H as <- <-. unfold Get. cbn. split_and!; [done| |].
  - intros now. by rewrite lookup_delete_eq.
  - intros now id' Hne. by rewrite lookup_delete_ne.
Qed.

(** ** Properties *)

(** C15: A session lives from its creation until it expires or is deleted, and
    belongs to the user it was created for.  After [Create], [Get] returns that
    user up to and including the instant of expiry and fails after; after
    [Delete] it fails; no other session is affected by either; sessions created
    from different random bytes have different IDs. *)
Theorem session_lifetime b now u d s :
  ∃ id s', Create (Ok b) now u d s = (s', Ok id) ∧
    (∀ now', (now' ≤ now + d)%Z → Get now' id s' = Ok u) ∧
    (∀ now', (now + d < now')%Z → Get now' id s' = Err (ErrorString "session expired")) ∧
    (∀ now' id', id' ≠ id → Get now' id' s' = Get now' id' s) ∧
    (∀ now', Get now' id (Delete id s').1 = Err (ErrorString "session not found")) ∧
    (∀ now' id', id' ≠ id → Get now' id' (Delete id s').1 = Get now' id' s) ∧
    (∀ b' now' u' d' s2 id2 s2', b' ≠ b → Create (Ok b') now' u' d' s2 = (s2', Ok id2) → id2 ≠ id).
Proof.
  eexists _, _. split; [reflexivity|]. unfold Get, After, Add. cbn. split_and!.
  - intros now' H. rewrite lookup_insert_eq. cbn. by destruct (Z.ltb_spec (now + d) now'); [lia|].
  - intros now' H. rewrite lookup_insert_eq. cbn. by destruct (Z.ltb_spec (now + d) now'); [|lia].
  - intros now' id' Hne. by rewrite lookup_insert_ne.
  - intros now'. by rewrite lookup_delete_eq.
  - intros now' id' Hne. by rewrite lookup_delete_ne, lookup_insert_ne.
  - intros b' now' u' d' s2 id2 s2' Hb [= _ <-] E. by apply Encode_inj in E.
Qed.
