(* ===== verification/UserDetails.v ===== *)
(** * Users with Telegram details: [internal/storage/user.go] and the last two
    methods of [internal/storage/sqlite.go]

    These methods address the table [users] of the files under
    [internal/storage/migrations]: a text primary key, a unique email and a
    unique [telegram_user_id]. *)
From Stdlib Require Import ZArith Lia.
From stdpp Require Import base gmap list strings.
From S2P Require Import Prelude GoTime Job Storage.

(** A NULL integer is [None]. *)
(** @src internal/storage/user.go 8-16 User *)
Record AppUser := mkAppUser {
  ID : string;
  Email : string;
  TelegramUserID : option Z;
  TelegramChatID : option Z;
  CreatedAt : Z;
  UpdatedAt : Z;
}.
Abbreviation UserTable := (gmap string AppUser).

(** Another user has this Telegram ID. *)
Definition telegram_taken (id : string) (tu : Z) (m : UserTable) : bool :=
  bool_decide (Exists (λ kv, kv.1 ≠ id ∧ TelegramUserID kv.2 = Some tu) (map_to_list m)).

Definition telegram_unique (m : UserTable) : Prop :=
  ∀ i j u v t, m !! i = Some u → m !! j = Some v →
    TelegramUserID u = Some t → TelegramUserID v = Some t → i = j.

(** @src internal/storage/sqlite.go 249-265 UpdateUserTelegramDetails *)
Definition UpdateUserTelegramDetails (now : Z) (flt : db_faults) (userID : string)
    (telegramUserID telegramChatID : Z) (m : UserTable) : UserTable * result unit :=
  match exec_fault flt with
  | Some e => (m, Err (wrap_pre "failed to update user telegram details: " e))
  | None =>
      match m !! userID with
      | None =>
          match rows_fault flt with
          | Some e => (m, Err (wrap_pre "failed to get rows affected: " e))
          | None => (m, Err ErrNotFound)
          end
      | Some u =>
          if telegram_taken userID telegramUserID m
          then (m, Err (wrap_pre "failed to update user telegram details: "
                          (unique_failed "users.telegram_user_id")))
          else
            let m' := <[userID := mkAppUser (ID u) (Email u) (Some telegramUserID)
                                   (Some telegramChatID) (CreatedAt u) (CURRENT_TIMESTAMP now)]> m in
            match rows_fault flt with
            | Some e => (m', Err (wrap_pre "failed to get rows affected: " e))
            | None => (m', Ok tt)
            end
      end
  end.

(** @src internal/storage/sqlite.go 267-288 GetUserByID *)
Definition GetUserByID (flt : db_faults) (id : string) (m : UserTable) : result AppUser :=
  match exec_fault flt with
  | Some e => Err (wrap_pre "failed to scan user: " e)
  | None => match m !! id with Some u => Ok u | None => Err ErrNotFound end
  end.

Lemma telegram_taken_false id tu m j v :
  telegram_taken id tu m = false → m !! j = Some v → TelegramUserID v = Some tu → j = id.
Proof.
  unfold telegram_taken. rewrite bool_decide_eq_false. intros H Hv Ht.
  destruct (decide (j = id)) as [?|Hne]; [done|]. exfalso. apply H. apply Exists_exists.
  exists (j, v). split; [by apply elem_of_map_to_list|done].
Qed.

(** A Telegram account stays with one user. *)
Lemma UpdateUserTelegramDetails_unique now flt id tu tc m :
  telegram_unique m → telegram_unique (UpdateUserTelegramDetails now flt id tu tc m).1.
Proof.
  intros Hm. unfold UpdateUserTelegramDetails. destruct (exec_fault flt); [done|].
  destruct (m !! id) as [u0|] eqn:E; [|by destruct (rows_fault flt)].
  destruct (telegram_taken id tu m) eqn:Et; [done|].
  assert (G : telegram_unique (<[id := mkAppUser (ID u0) (Email u0) (Some tu) (Some tc)
                                 (CreatedAt u0) (CURRENT_TIMESTAMP now)]> m)).
  { intros i j u v t. rewrite !lookup_insert_Some.
    intros [[<- <-]|[Hi Hu]] [[<- <-]|[Hj Hv]] H1 H2; cbn in *; simplify_eq; [done| | |].
    - symmetry. by eapply telegram_taken_false.
    - by eapply telegram_taken_false.
    - by eapply Hm. }
  by destruct (rows_fault flt).
Qed.
