(* ===== verification/GoTimeParse.v ===== *)
(** * [time.Parse] with the layout [time.RFC1123Z]

    The layout is [Mon, 02 Jan 2006 15:04:05 -0700].  As in Go, a name matches
    in any case, a space of the layout matches any run of spaces, the hour may
    have one digit, a fraction after the seconds is accepted, the weekday is
    not compared with the date, and the day is checked against its month. *)
From Stdlib Require Import ZArith Lia Ascii.
From stdpp Require Import base list strings.
From S2P Require Import Prelude GoTime GoStrings.
Local Open Scope Z_scope.

(** [getnum]: two digits, or one when [fixed] is false. *)
Definition getnum (fixed : bool) (s : string) : option (Z * string) :=
  match s with
  | EmptyString => None
  | String a rest =>
      match digit_value a with
      | None => None
      | Some x =>
          match rest with
          | String b rest' =>
              match digit_value b with
              | Some y => Some (x * 10 + y, rest')
              | None => if fixed then None else Some (x, rest)
              end
          | EmptyString => if fixed then None else Some (x, rest)
          end
      end
  end.

Fixpoint cutspace (s : string) : string :=
  match s with String c s' => if decide (c = " "%char) then cutspace s' else s | _ => s end.

(** [skip] for the one-character prefixes of the layout. *)
Definition skip_space (s : string) : option string :=
  match s with
  | String c _ => if decide (c = " "%char) then Some (cutspace s) else None
  | EmptyString => Some s
  end.
Definition skip_char (c : ascii) (s : string) : option string :=
  match s with String d s' => if decide (d = c) then Some s' else None | EmptyString => None end.

(** [lookup]: the index of the first name [s] starts with, in any case. *)
Definition match_letter (c1 c2 : ascii) : bool :=
  bool_decide (c1 = c2) ||
  (let l1 := N.lor (N_of_ascii c1) 32 in
   let l2 := N.lor (N_of_ascii c2) 32 in
   (l1 =? l2)%N && (97 <=? l1)%N && (l1 <=? 122)%N).
Fixpoint strip_name (name s : string) : option string :=
  match name, s with
  | EmptyString, _ => Some s
  | String a name', String b s' => if match_letter a b then strip_name name' s' else None
  | _, EmptyString => None
  end.
Fixpoint lookup_name (tab : list string) (i : Z) (s : string) : option (Z * string) :=
  match tab with
  | [] => None
  | name :: rest =>
      match strip_name name s with Some s' => Some (i, s') | None => lookup_name rest (i + 1) s end
  end.

Definition shortDayNames : list string := ["Sun"; "Mon"; "Tue"; "Wed"; "Thu"; "Fri"; "Sat"]%string.
Definition shortMonthNames : list string :=
  ["Jan"; "Feb"; "Mar"; "Apr"; "May"; "Jun"; "Jul"; "Aug"; "Sep"; "Oct"; "Nov"; "Dec"]%string.

(** Four digits. *)
Definition get_year (s : string) : option (Z * string) :=
  '(hi, s) ← getnum true s; '(lo, s) ← getnum true s; Some (hi * 100 + lo, s).

(** The digits of a fraction: nanoseconds from the first nine, the rest dropped. *)
Fixpoint fraction (scale acc : Z) (s : string) : Z * string :=
  match s with
  | String c s' =>
      match digit_value c with
      | Some d => fraction (scale / 10) (acc + d * scale) s'
      | None => (acc, s)
      end
  | EmptyString => (acc, s)
  end.
Definition get_fraction (s : string) : Z * string :=
  match s with
  | String c (String d _ as s') =>
      if decide (c = "."%char ∨ c = ","%char)
      then match digit_value d with Some _ => fraction 100000000 0 s' | None => (0, s) end
      else (0, s)
  | _ => (0, s)
  end.

Definition get_offset (s : string) : option (Z * string) :=
  match s with
  | String sign s =>
      '(hr, s) ← getnum true s; '(mm, s) ← getnum true s;
      if (24 <? hr) || (60 <? mm) then None
      else let off := (hr * 60 + mm) * 60 in
           if decide (sign = "+"%char) then Some (off, s)
           else if decide (sign = "-"%char) then Some (- off, s) else None
  | EmptyString => None
  end.

Definition parse_RFC1123Z (s : string) : option Z :=
  '(_, s) ← lookup_name shortDayNames 0 s;
  s ← skip_char "," s; s ← skip_space s;
  '(day, s) ← getnum true s; s ← skip_space s;
  '(month, s) ← lookup_name shortMonthNames 1 s; s ← skip_space s;
  '(year, s) ← get_year s; s ← skip_space s;
  '(hour, s) ← getnum false s; s ← skip_char ":" s;
  '(min, s) ← getnum true s; s ← skip_char ":" s;
  '(sec, s) ← getnum true s;
  let '(nsec, s) := get_fraction s in
  s ← skip_space s;
  '(off, s) ← get_offset s;
  if (24 <=? hour) || (60 <=? min) || (60 <=? sec) || (day <? 1) || (days_in_month year month <? day)
     || bool_decide (s ≠ ""%string)
  then None
  else Some (Date_UTC year month day hour min sec + nsec - off * Second).

Example parse_mail_date :
  parse_RFC1123Z "Mon, 02 Jan 2006 15:04:05 -0700" = Some (Date_UTC 2006 1 2 22 4 5) ∧
  parse_RFC1123Z "tue,  29 FEB 2000 9:04:05.25 +0130" = Some (Date_UTC 2000 2 29 7 34 5 + 250000000) ∧
  parse_RFC1123Z "Mon, 29 Feb 2001 15:04:05 -0700" = None ∧
  parse_RFC1123Z "Mon, 02 Jan 2006 15:04:05 -0700 (MST)" = None.
Proof. vm_compute. by split_and!. Qed.
