(* ===== verification/Gmail.v ===== *)
(** * Reading mail: [internal/gmail/service.go]

    The Gmail client is a parameter, [GmailClient], acting on the user's
    mailbox, whose state [FetchUnreadEmails] threads; [GmailLaws] is what the
    API documents of listing unread messages, of fetching one and of removing
    the label [UNREAD].  [FetchUnreadEmails] returns the calls it made, in
    order, and the mailbox it leaves with its result.  A pointer that may be nil and is read is
    an option; the parts inside a part, which the code never reads, are left
    out, so a text one level down gives an empty body; elements of the client's lists are not nil, save the parts,
    which the code checks.  The package [gmaildigest-go/pkg/models] is not in
    the repository: [Email] has the fields the code sets and reads. *)
From Stdlib Require Import ZArith Lia Ascii.
From stdpp Require Import base gmap list strings.
From S2P Require Import Prelude GoBase64 GoTimeParse Worker.

Record Email := mkEmail {
  ID : string;
  Subject : string;
  From : string;
  Date : Z;
  Body : string;
}.

(** The part of the Gmail API's types that the code reads; a body is its data. *)
Record MessagePart := mkPart { MimeType : string; p_Data : option string }.
Record Payload := mkPayload {
  Headers : list (string * string);
  pl_Data : option string;
  Parts : list (option MessagePart);
}.
Record Message := mkMessage { Id : string; m_Payload : option Payload }.

Inductive gmail_call := GList | GGet (id : string) | GMarkRead (id : string).

(** The switch of [parseEmail] on one header. *)
(** @src internal/gmail/service.go 84-96 parseEmail *)
Definition set_header (e : Email) (h : string * string) : Email :=
  let '(name, value) := h in
  if decide (name = "Subject")%string then mkEmail (ID e) value (From e) (Date e) (Body e)
  else if decide (name = "From")%string then mkEmail (ID e) (Subject e) value (Date e) (Body e)
  else if decide (name = "Date")%string then
    match parse_RFC1123Z value with
    | Some t => mkEmail (ID e) (Subject e) (From e) t (Body e)
    | None => e
    end
  else e.

Definition set_body (b : string) (e : Email) : Email := mkEmail (ID e) (Subject e) (From e) (Date e) b.

(** The first plain-text part that decodes. *)
(** @src internal/gmail/service.go 104-115 parseEmail *)
Fixpoint plain_text (parts : list (option MessagePart)) : option string :=
  match parts with
  | [] => None
  | None :: rest => plain_text rest
  | Some part :: rest =>
      match p_Data part with
      | None => plain_text rest
      | Some data =>
          if decide (MimeType part = "text/plain" ∧ data ≠ "")%string
          then match DecodeString true data with
               | Some body => Some body
               | None => plain_text rest
               end
          else plain_text rest
      end
  end.

(** @src internal/gmail/service.go 78-119 parseEmail *)
Definition parseEmail (msg : Message) : outcome (result Email) :=
  let email := mkEmail (Id msg) "" "" 0 "" in
  match m_Payload msg with
  | None => Returns (Err (ErrorString ("message " +:+ GoStrings.dquote +:+ Id msg +:+ GoStrings.dquote
                                       +:+ " has no payload")))
  | Some pl =>
      let email := foldl set_header email (Headers pl) in
      match pl_Data pl with
      | None => Panics "runtime error: invalid memory address or nil pointer dereference"
      | Some data =>
          Returns (Ok (if decide (data = "")
            then match plain_text (Parts pl) with Some b => set_body b email | None => email end
            else match DecodeString true data with Some b => set_body b email | None => email end))
      end
  end.

(** The calls of the client on a mailbox, with the faults of this run in them. *)
Record GmailClient (MB : Type) := mkClient {
  gm_List : MB → result (list string);
  gm_Get : string → result Message;
  gm_Modify : string → MB → MB * result unit;
}.
Arguments mkClient {MB}. Arguments gm_List {MB}. Arguments gm_Get {MB}. Arguments gm_Modify {MB}.

(** What the API documents: the query [is:unread] lists unread messages only;
    a message is the one asked for; removing [UNREAD] from a message leaves it
    read and, also when the answer is an error, makes no message unread. *)
Class GmailLaws {MB} (unread : MB → gset string) (g : GmailClient MB) : Prop := {
  gm_List_unread mb refs ref : gm_List g mb = Ok refs → ref ∈ refs → ref ∈ unread mb;
  gm_Get_Id ref msg : gm_Get g ref = Ok msg → Id msg = ref;
  gm_Modify_unread id mb : unread (gm_Modify g id mb).1 ⊆ unread mb;
  gm_Modify_ok id mb : is_ok (gm_Modify g id mb).2 = true → id ∉ unread (gm_Modify g id mb).1;
}.

Section fetch.
Context {MB : Type} (g : GmailClient MB).

(** A message that cannot be fetched or parsed is logged and skipped; what
    marking it read answers is only logged. *)
(** @src internal/gmail/service.go 51-75 FetchUnreadEmails *)
Fixpoint fetch_loop (refs : list string) (emails : list Email) (mb : MB)
  : list gmail_call * MB * outcome (result (list Email)) :=
  match refs with
  | [] => ([], mb, Returns (Ok emails))
  | ref :: rest =>
      match gm_Get g ref with
      | Err _ => let '(cs, mb', r) := fetch_loop rest emails mb in (GGet ref :: cs, mb', r)
      | Ok msg =>
          match parseEmail msg with
          | Panics p => ([GGet ref], mb, Panics p)
          | Returns (Err _) =>
              let '(cs, mb', r) := fetch_loop rest emails mb in (GGet ref :: cs, mb', r)
          | Returns (Ok email) =>
              let '(marked, _) := gm_Modify g (Id msg) mb in
              let '(cs, mb', r) := fetch_loop rest (emails ++ [email]) marked in
              (GGet ref :: GMarkRead (Id msg) :: cs, mb', r)
          end
      end
  end.

(** @src internal/gmail/service.go 42-76 FetchUnreadEmails *)
Definition FetchUnreadEmails (mb : MB) : list gmail_call * MB * outcome (result (list Email)) :=
  match gm_List g mb with
  | Err e => ([GList], mb, Returns (Err (wrap_pre "failed to list emails: " e)))
  | Ok refs => let '(cs, mb', r) := fetch_loop refs [] mb in (GList :: cs, mb', r)
  end.

(** The placeholder of the first version. *)
(** @src internal/gmail/service.go 35-40 FetchUnreadEmailSubjects *)
Definition FetchUnreadEmailSubjects : result (list string) :=
  Ok ["Subject 1: Test"; "Subject 2: Another Test"]%string.

(** ** What a message becomes *)

Definition readable (ref : string) : option Email :=
  match gm_Get g ref with
  | Ok msg => match parseEmail msg with Returns (Ok e) => Some e | _ => None end
  | Err _ => None
  end.

(** No message that is fetched makes [parseEmail] panic. *)
Definition no_nil_body (refs : list string) : Prop :=
  ∀ ref msg pl, ref ∈ refs → gm_Get g ref = Ok msg → m_Payload msg = Some pl → is_Some (pl_Data pl).

Lemma set_headers_ID hs e : ID (foldl set_header e hs) = ID e ∧ Body (foldl set_header e hs) = Body e.
Proof.
  revert e. induction hs as [|[n v] hs IH]; intros e; [done|]. cbn [foldl].
  destruct (IH (set_header e (n, v))) as [-> ->]. unfold set_header. by repeat case_match.
Qed.

Lemma parseEmail_ID msg e : parseEmail msg = Returns (Ok e) → ID e = Id msg.
Proof.
  unfold parseEmail. destruct (m_Payload msg) as [pl|]; [|done].
  pose proof (set_headers_ID (Headers pl) (mkEmail (Id msg) "" "" 0 "")) as [H _]. cbn in H.
  destruct (pl_Data pl) as [data|]; [|done]. intros [= <-]. by repeat case_match.
Qed.

Lemma parseEmail_returns msg :
  (∀ pl, m_Payload msg = Some pl → is_Some (pl_Data pl)) →
  ∃ r, parseEmail msg = Returns r.
Proof.
  intros H. unfold parseEmail. destruct (m_Payload msg) as [pl|]; [|by eexists].
  destruct (H pl eq_refl) as [d ->]. by eexists.
Qed.

(** The calls of the loop, from what the messages become. *)
Definition ref_calls (ref : string) : list gmail_call :=
  GGet ref :: match readable ref with Some e => [GMarkRead (ID e)] | None => [] end.

(** What marking the emails read, in order, makes of the mailbox. *)
Definition mark_all (emails : list Email) (mb : MB) : MB :=
  foldl (λ b e, (gm_Modify g (ID e) b).1) mb emails.

Lemma fetch_loop_spec refs emails mb :
  no_nil_body refs →
  fetch_loop refs emails mb =
    (mbind ref_calls refs, mark_all (omap readable refs) mb, Returns (Ok (emails ++ omap readable refs))).
Proof.
  revert emails mb. induction refs as [|ref refs IH]; intros emails mb H; cbn [fetch_loop].
  - cbn. by rewrite app_nil_r.
  - assert (H' : no_nil_body refs) by (intros r m pl Hr; apply H; by constructor).
    destruct (gm_Get g ref) as [msg|er] eqn:Eg.
    + destruct (parseEmail_returns msg) as [[e|er] Ep].
      { intros pl Hpl. by apply (H ref msg pl); [constructor|..]. }
      * assert (Er : readable ref = Some e) by (unfold readable; by rewrite Eg, Ep).
        rewrite Ep. destruct (gm_Modify g (Id msg) mb) as [mb1 r1] eqn:Em. rewrite IH by done.
        cbn. unfold ref_calls at 2. rewrite Er. cbn. rewrite (parseEmail_ID _ _ Ep), Em, <- app_assoc. done.
      * assert (Er : readable ref = None) by (unfold readable; by rewrite Eg, Ep).
        rewrite Ep, IH by done. cbn. unfold ref_calls at 2. by rewrite Er.
    + assert (Er : readable ref = None) by (unfold readable; by rewrite Eg).
      rewrite IH by done. cbn. unfold ref_calls at 2. by rewrite Er.
Qed.

(** The unread messages are fetched in order, and each one that is fetched
    and has a payload is returned and marked read, whatever marking answers;
    the others are left unread and skipped; a failed listing makes no other
    call and is the error. *)
Theorem FetchUnreadEmails_spec mb :
  (∀ refs, gm_List g mb = Ok refs → no_nil_body refs) →
  FetchUnreadEmails mb =
  match gm_List g mb with
  | Err e => ([GList], mb, Returns (Err (wrap_pre "failed to list emails: " e)))
  | Ok refs => (GList :: mbind ref_calls refs, mark_all (omap readable refs) mb,
                Returns (Ok (omap readable refs)))
  end.
Proof.
  intros H. unfold FetchUnreadEmails. destruct (gm_List g mb) as [refs|e]; [|done].
  by rewrite fetch_loop_spec by auto.
Qed.

(** ** The mailbox afterwards *)

Context {unread : MB → gset string} `{!GmailLaws unread g}.

Lemma mark_all_unread emails mb : unread (mark_all emails mb) ⊆ unread mb.
Proof.
  revert mb. induction emails as [|e es IH]; intros mb; [done|]. cbn.
  etrans; [apply IH|]. apply gm_Modify_unread.
Qed.

Lemma mark_all_read emails mb e :
  e ∈ emails → (∀ b, is_ok (gm_Modify g (ID e) b).2 = true) → ID e ∉ unread (mark_all emails mb).
Proof.
  intros He Hok. revert mb. induction He as [x es|x y es He IH]; intros mb; cbn; [|by apply IH].
  intros Hin. apply mark_all_unread in Hin. revert Hin. by apply gm_Modify_ok.
Qed.

Lemma readable_ID ref e : readable ref = Some e → ID e = ref.
Proof.
  unfold readable. destruct (gm_Get g ref) as [msg|] eqn:Eg; [|done].
  destruct (parseEmail msg) as [[e'|]|] eqn:Ep; [|done..]. intros [= ->].
  rewrite (parseEmail_ID _ _ Ep). by apply gm_Get_Id.
Qed.

Lemma fetch_loop_gets refs emails mb ref :
  GGet ref ∈ (fetch_loop refs emails mb).1.1 → ref ∈ refs.
Proof.
  revert emails mb. induction refs as [|r refs IH]; intros emails mb; cbn [fetch_loop].
  { intros H. by apply elem_of_nil in H. }
  specialize (IH). intros H. rewrite elem_of_cons.
  destruct (gm_Get g r) as [msg|]; [destruct (parseEmail msg) as [[e|]|]|].
  - destruct (gm_Modify g (Id msg) mb) as [mb1 r1]. specialize (IH (emails ++ [e]) mb1).
    destruct (fetch_loop refs (emails ++ [e]) mb1) as [[cs mb'] o]. cbn in *.
    rewrite !elem_of_cons in H. destruct H as [[= ->]|[[=]|H]]; auto.
  - specialize (IH emails mb). destruct (fetch_loop refs emails mb) as [[cs mb'] o]. cbn in *.
    rewrite !elem_of_cons in H. destruct H as [[= ->]|H]; auto.
  - cbn in H. apply list_elem_of_singleton in H as [= ->]. by left.
  - specialize (IH emails mb). destruct (fetch_loop refs emails mb) as [[cs mb'] o]. cbn in *.
    rewrite !elem_of_cons in H. destruct H as [[= ->]|H]; auto.
Qed.

(** A message that is not unread is not fetched. *)
Lemma FetchUnreadEmails_gets mb ref :
  ref ∉ unread mb → GGet ref ∉ (FetchUnreadEmails mb).1.1.
Proof.
  intros Hu. unfold FetchUnreadEmails. destruct (gm_List g mb) as [refs|e] eqn:El.
  - pose proof (fetch_loop_gets refs [] mb ref) as H.
    destruct (fetch_loop refs [] mb) as [[cs mb'] o]. cbn in *. rewrite elem_of_cons.
    intros [[=]|Hin]. apply Hu. by apply (gm_List_unread mb refs); auto.
  - cbn. by intros [= ?]%list_elem_of_singleton.
Qed.
End fetch.

(** The text a sender puts in a message's only body, or in a plain-text part
    after parts that are not plain text, is the email's body. *)
Lemma parseEmail_body msg pl text pre rest :
  m_Payload msg = Some pl → text ≠ "" →
  pl_Data pl = Some (EncodeToString true text) ∨
  (pl_Data pl = Some "" ∧
   Parts pl = pre ++ Some (mkPart "text/plain" (Some (EncodeToString true text))) :: rest ∧
   Forall (λ p, match p with Some q => MimeType q ≠ "text/plain"%string | None => True end) pre) →
  ∃ e, parseEmail msg = Returns (Ok e) ∧ Body e = text ∧ ID e = Id msg.
Proof.
  intros Hm Ht H. assert (Hne : EncodeToString true text ≠ "").
  { intros E. apply Ht. apply (Encode_inj true). by rewrite E. }
  destruct H as [H|(H & Hp & Hpre)].
  - eexists. unfold parseEmail. rewrite Hm, H, decide_False by done. rewrite Decode_Encode.
    split; [reflexivity|]. cbn. by rewrite (proj1 (set_headers_ID _ _)).
  - assert (Hpt : plain_text (Parts pl) = Some text).
    { rewrite Hp. clear Hp. induction Hpre as [|p ps Hq _ IH]; cbn.
      - rewrite decide_True by done. by rewrite Decode_Encode.
      - destruct p as [[mt [d|]]|]; cbn in *; [|done..]. rewrite decide_False by (by intros [? _]). done. }
    eexists. unfold parseEmail. rewrite Hm, H, decide_True by done. rewrite Hpt.
    split; [reflexivity|]. cbn. by rewrite (proj1 (set_headers_ID _ _)).
Qed.

(** ** Witness: one message to read, one that cannot be fetched *)

Definition demo_message : Message :=
  mkMessage "m1" (Some (mkPayload [("Subject", "Hi"); ("From", "a@example.com");
    ("Date", "Mon, 02 Jan 2006 15:04:05 -0700")]%string (Some "")
    [None; Some (mkPart "text/html" (Some "x"%string));
     Some (mkPart "text/plain" (Some (EncodeToString true "Hello")))])).

(** Its mailbox is the set of the unread messages. *)
Definition demo_client : GmailClient (gset string) :=
  mkClient (λ mb, Ok (elements mb))
    (λ ref, if decide (ref = "m1")%string then Ok demo_message else Err (ExtError "404"))
    (λ id mb, (mb ∖ {[id]}, Ok tt)).

#[export] Instance demo_client_laws : GmailLaws id demo_client.
Proof.
  split; cbn.
  - intros mb refs ref [= <-] H. by apply elem_of_elements.
  - intros ref msg. case_decide as E; [|done]. intros [= <-]. by rewrite E.
  - intros i mb. apply subseteq_difference_l. done.
  - intros i mb _ H. apply elem_of_difference in H as [_ H]. apply H. by apply elem_of_singleton.
Qed.

Lemma demo_no_nil_body refs : no_nil_body demo_client refs.
Proof.
  intros ref msg pl _ Hg Hp. cbn in Hg. case_decide; [|done]. injection Hg as <-.
  injection Hp as <-. by eexists.
Qed.

Lemma FetchUnreadEmails_spec_witness :
  (FetchUnreadEmails demo_client {["m1"; "m2"]}).1.1
  = [GList; GGet "m1"; GMarkRead "m1"; GGet "m2"] ∧
  (FetchUnreadEmails demo_client {["m1"; "m2"]}).1.2 = {["m2"]}.
Proof.
  rewrite FetchUnreadEmails_spec.
  - split; vm_compute; reflexivity.
  - intros refs _. apply demo_no_nil_body.
Defined.
