(* ===== verification/Config.v ===== *)
(** * Configuration: [internal/config/config.go]

    The JSON file is decoded into the struct, the environment overrides some
    of its fields, and the struct tags are checked.  The validator package is
    a parameter whose documented behaviour ([Struct] accepts exactly what the
    tags admit) is a hypothesis; the tags themselves are [tags_hold].  The
    file, the environment and [os.Stat] are parameters as well. *)
From Stdlib Require Import ZArith Lia Ascii Floats.SpecFloat.
From stdpp Require Import base gmap list strings pretty.
From S2P Require Import Prelude GoTime GoStrings GoFloat GoJson GoJsonValue GoAesGcm.
From S2P Require Import Worker Job Storage TokenStore Auth.
Local Open Scope Z_scope.

(** ** The struct *)

Record AuthSection := mkAuthSection {
  ClientID : string;
  ClientSecret : string;
  CredentialsPath : string;
}.

(** The sections with one field are that field. *)
(** @src internal/config/config.go 14-40 Config *)
Record Config := mkConfig {
  HTTPPort : Z;
  MetricsPort : Z;
  LogLevel : string;
  NumWorkers : Z;
  DBPath : string;
  EncryptionKey : string;
  AuthOf : AuthSection;
  BotToken : string;          (* Telegram *)
  APIKey : string;            (* OpenAI *)
  DefaultInterval : Z;        (* Scheduler *)
}.

(** [var cfg Config] *)
Definition zero_Config : Config := mkConfig 0 0 "" 0 "" "" (mkAuthSection "" "" "") "" "" 0.

Definition set_HTTPPort x c := mkConfig x (MetricsPort c) (LogLevel c) (NumWorkers c) (DBPath c)
  (EncryptionKey c) (AuthOf c) (BotToken c) (APIKey c) (DefaultInterval c).
Definition set_MetricsPort x c := mkConfig (HTTPPort c) x (LogLevel c) (NumWorkers c) (DBPath c)
  (EncryptionKey c) (AuthOf c) (BotToken c) (APIKey c) (DefaultInterval c).
Definition set_LogLevel x c := mkConfig (HTTPPort c) (MetricsPort c) x (NumWorkers c) (DBPath c)
  (EncryptionKey c) (AuthOf c) (BotToken c) (APIKey c) (DefaultInterval c).
Definition set_NumWorkers x c := mkConfig (HTTPPort c) (MetricsPort c) (LogLevel c) x (DBPath c)
  (EncryptionKey c) (AuthOf c) (BotToken c) (APIKey c) (DefaultInterval c).
Definition set_DBPath x c := mkConfig (HTTPPort c) (MetricsPort c) (LogLevel c) (NumWorkers c) x
  (EncryptionKey c) (AuthOf c) (BotToken c) (APIKey c) (DefaultInterval c).
Definition set_EncryptionKey x c := mkConfig (HTTPPort c) (MetricsPort c) (LogLevel c) (NumWorkers c)
  (DBPath c) x (AuthOf c) (BotToken c) (APIKey c) (DefaultInterval c).
Definition set_Auth x c := mkConfig (HTTPPort c) (MetricsPort c) (LogLevel c) (NumWorkers c) (DBPath c)
  (EncryptionKey c) x (BotToken c) (APIKey c) (DefaultInterval c).
Definition set_BotToken x c := mkConfig (HTTPPort c) (MetricsPort c) (LogLevel c) (NumWorkers c) (DBPath c)
  (EncryptionKey c) (AuthOf c) x (APIKey c) (DefaultInterval c).
Definition set_APIKey x c := mkConfig (HTTPPort c) (MetricsPort c) (LogLevel c) (NumWorkers c) (DBPath c)
  (EncryptionKey c) (AuthOf c) (BotToken c) x (DefaultInterval c).
Definition set_DefaultInterval x c := mkConfig (HTTPPort c) (MetricsPort c) (LogLevel c) (NumWorkers c)
  (DBPath c) (EncryptionKey c) (AuthOf c) (BotToken c) (APIKey c) x.

Definition set_ClientID x a := mkAuthSection x (ClientSecret a) (CredentialsPath a).
Definition set_ClientSecret x a := mkAuthSection (ClientID a) x (CredentialsPath a).
Definition set_CredentialsPath x a := mkAuthSection (ClientID a) (ClientSecret a) x.

(** ** The struct tags *)

(** [utf8.RuneCountInString]: a byte that is not part of a well-formed rune
    counts as one. *)
Fixpoint rune_count (k : nat) (s : string) : Z :=
  match s with
  | EmptyString => 0
  | String _ r => match k with
                  | S k' => rune_count k' r
                  | O => 1 + rune_count (Nat.pred (utf8_len s)) r
                  end
  end.

Definition required (s : string) : bool := negb (bool_decide (s = ""%string)).

(** @src internal/config/config.go 15-39 Config *)
Definition tags_hold (is_file : string → bool) (c : Config) : bool :=
  (0 <=? HTTPPort c) && (0 <=? MetricsPort c)
  && bool_decide (LogLevel c ∈ ["debug"; "info"; "warn"; "error"]%string)
  && (1 <=? NumWorkers c) && required (DBPath c)
  && required (EncryptionKey c) && (32 <=? rune_count 0 (EncryptionKey c))
  && required (ClientID (AuthOf c)) && required (ClientSecret (AuthOf c))
  && required (CredentialsPath (AuthOf c)) && is_file (CredentialsPath (AuthOf c))
  && required (BotToken c) && required (APIKey c)
  && (Minute <=? DefaultInterval c).

(** ** Decoding *)

(** The numbers in an [interface{}] value are parsed as [float64]. *)
Fixpoint floats_ok (v : json) : bool :=
  match v with
  | JNumber lit => is_ok (ParseFloat lit)
  | JArray l => forallb floats_ok l
  | JObject l => forallb (λ p, floats_ok p.2) l
  | _ => true
  end.

Section load.
(** What the machine gives for a [float64] outside [int64]. *)
Context (float_overflow : spec_float → Z).

(** [time.Duration(value)] *)
Definition duration_of_float (f : spec_float) : Z :=
  let v := int64_of_float f in
  if decide (in_int64 v) then v else float_overflow f.

(** @src internal/config/config.go 48-67 UnmarshalJSON *)
Definition decode_Duration : decoder Z := λ v _,
  if negb (floats_ok v) then Err UnmarshalTypeError
  else match v with
  | JNumber lit => f ← ParseFloat lit; Ok (duration_of_float f, None)
  | JString s => d ← ParseDuration s; Ok (d, None)
  | _ => Err (ErrorString "invalid duration")
  end.

(** @src internal/config/config.go 69-72 MarshalJSON *)
Definition Duration_MarshalJSON (d : Z) : string := quote (Duration_String d).

Definition decode_auth : decoder AuthSection :=
  decode_struct ["client_id"; "client_secret"; "credentials_path"]%string
    (λ f, if decide (f = "client_id")%string then field ClientID set_ClientID decode_string
          else if decide (f = "client_secret")%string then field ClientSecret set_ClientSecret decode_string
          else field CredentialsPath set_CredentialsPath decode_string).

(** A section with one field. *)
Definition decode_one {A} (name : string) (dec : decoder A) : decoder A :=
  decode_struct [name] (λ _, dec).

(** @src internal/config/config.go 15-39 Config *)
Definition decode_Config : decoder Config :=
  decode_struct ["http_port"; "metrics_port"; "log_level"; "num_workers"; "db_path"; "encryption_key";
                 "auth"; "telegram"; "openai"; "scheduler"]%string
    (λ f, if decide (f = "http_port")%string then field HTTPPort set_HTTPPort decode_int
          else if decide (f = "metrics_port")%string then field MetricsPort set_MetricsPort decode_int
          else if decide (f = "log_level")%string then field LogLevel set_LogLevel decode_string
          else if decide (f = "num_workers")%string then field NumWorkers set_NumWorkers decode_int
          else if decide (f = "db_path")%string then field DBPath set_DBPath decode_string
          else if decide (f = "encryption_key")%string then field EncryptionKey set_EncryptionKey decode_string
          else if decide (f = "auth")%string then field AuthOf set_Auth decode_auth
          else if decide (f = "telegram")%string
          then field BotToken set_BotToken (decode_one "bot_token" decode_string)
          else if decide (f = "openai")%string then field APIKey set_APIKey (decode_one "api_key" decode_string)
          else field DefaultInterval set_DefaultInterval (decode_one "default_interval" decode_Duration)).

(** ** The environment *)
Context (Getenv : string → string).

Definition override (name : string) (put : string → Config → Config) (c : Config) : Config :=
  let v := Getenv name in if decide (v = ""%string) then c else put v c.

Definition override_parsed {A} (name : string) (parse : string → result A) (put : A → Config → Config)
    (c : Config) : result Config :=
  let v := Getenv name in
  if decide (v = ""%string) then Ok c
  else x ← wrap_err ("parsing " +:+ name +:+ ": ") (parse v); Ok (put x c).

(** @src internal/config/config.go 185-187 parseInt *)
Definition parseInt (s : string) : result Z := Atoi s.

(** @src internal/config/config.go 97-158 applyEnvOverrides *)
Definition applyEnvOverrides (c : Config) : result Config :=
  let c := override "TELEGRAM_BOT_TOKEN" set_BotToken c in
  let c := override "AUTH_CLIENT_ID" (λ v c, set_Auth (set_ClientID v (AuthOf c)) c) c in
  let c := override "AUTH_CLIENT_SECRET" (λ v c, set_Auth (set_ClientSecret v (AuthOf c)) c) c in
  c ← override_parsed "HTTP_PORT" parseInt set_HTTPPort c;
  c ← override_parsed "METRICS_PORT" parseInt set_MetricsPort c;
  let c := override "LOG_LEVEL" set_LogLevel c in
  let c := override "DB_PATH" set_DBPath c in
  let c := override "ENCRYPTION_KEY" set_EncryptionKey c in
  c ← override_parsed "SCHEDULER_DEFAULT_INTERVAL" ParseDuration set_DefaultInterval c;
  Ok (override "OPENAI_API_KEY" set_APIKey c).

(** ** [validate] and [Load] *)
Context (ReadFile : string → result string).
(** [validator.Struct] with the custom type of [Duration] registered. *)
Context (Struct : Config → option error).
(** The error of [os.Stat]. *)
Context (Stat : string → option error).

(** @src internal/config/config.go 161-183 validate *)
Definition validate (c : Config) : option error :=
  match Struct c with
  | Some err => Some (wrap_pre "validation failed: " err)
  | None =>
      match Stat (CredentialsPath (AuthOf c)) with
      | Some _ => Some (ErrorString ("credentials file not found at " +:+ CredentialsPath (AuthOf c)))
      | None => None
      end
  end.

(** @src internal/config/config.go 75-95 Load *)
Definition Load (path : string) : result Config :=
  data ← wrap_err "reading config file: " (ReadFile path);
  cfg ← wrap_err "parsing config file: " (Unmarshal decode_Config zero_Config data);
  cfg ← wrap_err "applying environment overrides: " (applyEnvOverrides cfg);
  match validate cfg with
  | Some err => Err (wrap_pre "validating config: " err)
  | None => Ok cfg
  end.
End load.

(** An object, its members on lines indented by [n] + 4. *)
Definition spaces (n : nat) : string := String.string_of_list_ascii (replicate n " "%char).
Definition block (n : nat) (members : list (string * string)) : string :=
  "{" +:+ Join ((λ p, newline +:+ spaces (n + 4) +:+ q p.1 +:+ ": " +:+ p.2) <$> members) ","
  +:+ newline +:+ spaces n +:+ "}".

(** The configuration file of the repository. *)
(** @src configs/config.example.json 1-22 config.example.json *)
Definition example_config : string :=
  block 0
    [("http_port", "8080"); ("metrics_port", "9090"); ("log_level", q "info"); ("num_workers", "4");
     ("db_path", q "gmaildigest.db"); ("encryption_key", q "a_very_secret_key_of_32_bytes!!");
     ("auth", block 4 [("client_id", q "your-google-client-id");
                       ("client_secret", q "your-google-client-secret");
                       ("credentials_path", q "test/fixtures/dummy_credentials.json")]);
     ("telegram", block 4 [("bot_token", q "your-telegram-bot-token")]);
     ("openai", block 4 [("api_key", q "your-openai-api-key")]);
     ("scheduler", block 4 [("default_interval", q "1h")])]%string +:+ " ".

Definition decoded_example : Config :=
  mkConfig 8080 9090 "info" 4 "gmaildigest.db" "a_very_secret_key_of_32_bytes!!"
    (mkAuthSection "your-google-client-id" "your-google-client-secret"
                   "test/fixtures/dummy_credentials.json")
    "your-telegram-bot-token" "your-openai-api-key" Hour.

Lemma decode_example ov : Unmarshal (decode_Config ov) zero_Config example_config = Ok decoded_example.
Proof. vm_compute. reflexivity. Qed.

Definition cfg_of (ov : spec_float → Z) (s : string) : result Config := Unmarshal (decode_Config ov) zero_Config s.
Definition sched_json (d : string) : string := "{" +:+ q "Scheduler" +:+ ":{" +:+ q "default_interval" +:+ ":" +:+ d +:+ "}}".

(** Durations are numbers of nanoseconds or strings; [null] is refused, a
    field of the wrong type is an error after the whole text is read. *)
Example decode_examples ov :
  DefaultInterval <$> cfg_of ov (sched_json "6e10") = Ok Minute ∧
  DefaultInterval <$> cfg_of ov (sched_json "-1.9") = Ok (-1) ∧
  DefaultInterval <$> cfg_of ov (sched_json (q "90m")) = Ok (90 * Minute) ∧
  DefaultInterval <$> cfg_of ov (sched_json (q "90")) = Err (invalid_duration "90") ∧
  DefaultInterval <$> cfg_of ov (sched_json "null") = Err (ErrorString "invalid duration") ∧
  DefaultInterval <$> cfg_of ov (sched_json "[1e999]") = Err UnmarshalTypeError ∧
  cfg_of ov ("{" +:+ q "http_port" +:+ ":80.0}") = Err UnmarshalTypeError ∧
  cfg_of ov "{}" = Ok zero_Config.
Proof. vm_compute. by split_and!. Qed.

(** ** Lemmas *)

Lemma rune_count_le k s : rune_count k s ≤ Z.of_nat (String.length s).
Proof.
  revert k. induction s as [|c s IH]; intros k; [done|]. cbn [rune_count String.length].
  destruct k as [|k]; [pose proof (IH (Nat.pred (utf8_len (String c s))))|pose proof (IH k)]; lia.
Qed.

Lemma decode_struct_inv {A} (P : A → Prop) names (set : string → decoder A) v cur x e :
  (∀ f v cur x e, set f v cur = Ok (x, e) → P cur → P x) →
  decode_struct names set v cur = Ok (x, e) → P cur → P x.
Proof.
  intros Hset. destruct v; cbn [decode_struct]; try (by intros [= <- _]).
  generalize (None : option error) as saved. revert cur.
  induction l as [|[key v] l IH]; intros cur saved; cbn [decode_fields]; [by intros [= <- _]|].
  destruct (field_of names key) as [f|]; [|apply IH].
  destruct (set f v cur) as [[x1 e1]|er] eqn:E; [|done]. cbn. intros H Hc. eauto.
Qed.

Lemma field_Ok {A B} (get : A → B) put (dec : decoder B) v cur x e :
  field get put dec v cur = Ok (x, e) → ∃ y, dec v (get cur) = Ok (y, e) ∧ x = put y cur.
Proof.
  unfold field. destruct (dec v (get cur)) as [[y e']|er]; [|done]. cbn. intros [= <- <-]. eauto.
Qed.

Lemma decode_int_in_int64 v cur x e : decode_int v cur = Ok (x, e) → in_int64 cur → in_int64 x.
Proof.
  destruct v as [| |lit| | |]; cbn [decode_int]; try (by intros [= <- _]).
  destruct (ParseInt lit) as [n|er] eqn:E; intros [= <- _]; [|done].
  intros _. by eapply parse_int_in_int64.
Qed.

(** The numbers of a configuration are machine integers. *)
Definition cfg_int64 (c : Config) : Prop :=
  in_int64 (HTTPPort c) ∧ in_int64 (MetricsPort c) ∧ in_int64 (NumWorkers c) ∧ in_int64 (DefaultInterval c).

(** The text of whole seconds is ASCII. *)
Lemma pretty_ascii n rest : 0 ≤ n → all_ascii rest = true → all_ascii (pretty n +:+ rest) = true.
Proof.
  intros Hn Hr. rewrite all_ascii_app, Hr, andb_true_r, pretty_Z_nonneg by done.
  apply digits_ascii, pretty_N_digits.
Qed.

Lemma whole_text_ascii secs : 0 ≤ secs → all_ascii (whole_text secs) = true.
Proof.
  intros H. unfold whole_text. pose proof (Z.mod_pos_bound secs 60 ltac:(done)).
  pose proof (Z.mod_pos_bound (secs / 60) 60 ltac:(done)).
  assert (Hs : all_ascii (pretty (secs `mod` 60) +:+ "s") = true) by (apply pretty_ascii; [lia|done]).
  assert (Hm : all_ascii (pretty ((secs / 60) `mod` 60) +:+ String "m" (pretty (secs `mod` 60) +:+ "s")) = true)
    by (apply pretty_ascii; [lia|exact Hs]).
  destruct (Z.ltb_spec 0 (secs / 60)); [|done].
  destruct (Z.ltb_spec 0 (secs / 60 / 60)); [|done]. apply pretty_ascii; [lia|exact Hm].
Qed.

(** C32: an interval of whole seconds is written as JSON by [MarshalJSON]
    and read back by [UnmarshalJSON] as the same interval, negative and extreme
    ones included. *)
Theorem Duration_roundtrip ov d cur :
  in_int64 d → d `mod` Second = 0 →
  ∃ v, parse_json (Duration_MarshalJSON d) = Ok v ∧ decode_Duration ov v cur = Ok (d, None).
Proof.
  intros Hd Hm. exists (JString (Duration_String d)). split.
  - apply parse_quoted, all_ascii_utf8. destruct (decide (d = 0)) as [->|Hne]; [by vm_compute|].
    rewrite (Duration_String_whole (Z.abs (d / Second))).
    + rewrite all_ascii_app, whole_text_ascii by lia. by destruct (d <? 0).
    + unfold Second in *. pose proof (Z.div_mod d 1000000000 ltac:(done)). lia.
    + unfold Second in *. pose proof (Z.div_mod d 1000000000 ltac:(done)). lia.
  - unfold decode_Duration. cbn. by rewrite ParseDuration_String.
Qed.

Section load_props.
Context (float_overflow : spec_float → Z) (Getenv : string → string).
Context (ReadFile : string → result string) (Struct : Config → option error) (Stat : string → option error).
Context (is_file : string → bool).
Hypothesis float_overflow_int64 : ∀ f, in_int64 (float_overflow f).
Hypothesis Struct_tags : ∀ c, Struct c = None ↔ tags_hold is_file c = true.
Local Abbreviation Load := (Load float_overflow Getenv ReadFile Struct Stat).

Lemma decode_Duration_int64 v cur x e :
  decode_Duration float_overflow v cur = Ok (x, e) → in_int64 cur → in_int64 x.
Proof.
  unfold decode_Duration. destruct (negb (floats_ok v)); [done|].
  destruct v as [| |lit|s| |]; try done; intros H _.
  - destruct (ParseFloat lit) as [f|]; [|done]. injection H as <- _.
    unfold duration_of_float. by case_decide.
  - destruct (ParseDuration s) as [d|] eqn:E; [|done]. injection H as <- _. by eapply ParseDuration_range.
Qed.

Lemma decode_Config_int64 v cur x e :
  decode_Config float_overflow v cur = Ok (x, e) → cfg_int64 cur → cfg_int64 x.
Proof.
  apply decode_struct_inv. intros f v' c x' e' H (H1 & H2 & H3 & H4).
  repeat case_decide; apply field_Ok in H as (y & Hd & ->); split_and!; cbn; try done;
    try (by eapply decode_int_in_int64).
  revert Hd H4. unfold decode_one. apply decode_struct_inv. intros _. apply decode_Duration_int64.
Qed.

Lemma Unmarshal_int64 data c :
  Unmarshal (decode_Config float_overflow) zero_Config data = Ok c → cfg_int64 c.
Proof.
  unfold Unmarshal. rewrite bind_Ok. intros (v & _ & H). apply bind_Ok in H as ([x [er|]] & Hd & H); [done|].
  injection H as <-. eapply decode_Config_int64; [done|]. by vm_compute.
Qed.

(** *** The environment *)

Lemma put_HTTPPort c : set_HTTPPort (HTTPPort c) c = c.
Proof. by destruct c. Qed.
Lemma put_MetricsPort c : set_MetricsPort (MetricsPort c) c = c.
Proof. by destruct c. Qed.
Lemma put_LogLevel c : set_LogLevel (LogLevel c) c = c.
Proof. by destruct c. Qed.
Lemma put_DBPath c : set_DBPath (DBPath c) c = c.
Proof. by destruct c. Qed.
Lemma put_EncryptionKey c : set_EncryptionKey (EncryptionKey c) c = c.
Proof. by destruct c. Qed.
Lemma put_BotToken c : set_BotToken (BotToken c) c = c.
Proof. by destruct c. Qed.
Lemma put_APIKey c : set_APIKey (APIKey c) c = c.
Proof. by destruct c. Qed.
Lemma put_DefaultInterval c : set_DefaultInterval (DefaultInterval c) c = c.
Proof. by destruct c. Qed.
Lemma put_ClientID c : set_Auth (set_ClientID (ClientID (AuthOf c)) (AuthOf c)) c = c.
Proof. by destruct c as [? ? ? ? ? ? []]. Qed.
Lemma put_ClientSecret c : set_Auth (set_ClientSecret (ClientSecret (AuthOf c)) (AuthOf c)) c = c.
Proof. by destruct c as [? ? ? ? ? ? []]. Qed.

Definition env_or (name old : string) : string :=
  if decide (Getenv name = ""%string) then old else Getenv name.
Definition parsed_env_or {A} (name : string) (parse : string → result A) (old new : A) : Prop :=
  if decide (Getenv name = ""%string) then new = old else parse (Getenv name) = Ok new.

(** What the environment makes of a configuration, field by field. *)
Record overridden (c0 c : Config) : Prop := {
  ov_http : parsed_env_or "HTTP_PORT" Atoi (HTTPPort c0) (HTTPPort c);
  ov_metrics : parsed_env_or "METRICS_PORT" Atoi (MetricsPort c0) (MetricsPort c);
  ov_interval : parsed_env_or "SCHEDULER_DEFAULT_INTERVAL" ParseDuration (DefaultInterval c0) (DefaultInterval c);
  ov_log : LogLevel c = env_or "LOG_LEVEL" (LogLevel c0);
  ov_db : DBPath c = env_or "DB_PATH" (DBPath c0);
  ov_key : EncryptionKey c = env_or "ENCRYPTION_KEY" (EncryptionKey c0);
  ov_id : ClientID (AuthOf c) = env_or "AUTH_CLIENT_ID" (ClientID (AuthOf c0));
  ov_secret : ClientSecret (AuthOf c) = env_or "AUTH_CLIENT_SECRET" (ClientSecret (AuthOf c0));
  ov_bot : BotToken c = env_or "TELEGRAM_BOT_TOKEN" (BotToken c0);
  ov_api : APIKey c = env_or "OPENAI_API_KEY" (APIKey c0);
  ov_workers : NumWorkers c = NumWorkers c0;
  ov_credentials : CredentialsPath (AuthOf c) = CredentialsPath (AuthOf c0);
}.

Lemma override_eq name put (x : string) c :
  put x c = c → override Getenv name put c = put (env_or name x) c.
Proof. intros H. unfold override, env_or. by case_decide. Qed.

Lemma override_parsed_iff {A} name parse put (y : A) c c' :
  put y c = c →
  override_parsed Getenv name parse put c = Ok c' ↔
  ∃ x, parsed_env_or name parse y x ∧ c' = put x c.
Proof.
  intros H. unfold override_parsed, parsed_env_or. case_decide.
  - split; [intros [= <-]; by exists y|intros (x & -> & ->); by rewrite H].
  - destruct (parse (Getenv name)) as [x|er]; cbn; split.
    + intros [= <-]. by exists x.
    + by intros (z & [= ->] & ->).
    + done.
    + by intros (z & [=] & _).
Qed.

Lemma applyEnvOverrides_iff c0 c : applyEnvOverrides Getenv c0 = Ok c ↔ overridden c0 c.
Proof.
  unfold applyEnvOverrides, parseInt. destruct c0 as [hp mp ll nw dp ek [ci cs cp] bt ak di].
  rewrite (override_eq "TELEGRAM_BOT_TOKEN" _ _ _ (put_BotToken _)).
  rewrite (override_eq "AUTH_CLIENT_ID" _ _ _ (put_ClientID _)).
  rewrite (override_eq "AUTH_CLIENT_SECRET" _ _ _ (put_ClientSecret _)).
  cbn -[override override_parsed env_or]. rewrite bind_Ok.
  setoid_rewrite (override_parsed_iff "HTTP_PORT" _ _ _ _ _ (put_HTTPPort _)).
  split.
  - intros (c1 & (x & H1 & ->) & H). cbn -[override override_parsed env_or] in *.
    apply bind_Ok in H as (c2 & H2 & H).
    apply (override_parsed_iff "METRICS_PORT" _ _ _ _ _ (put_MetricsPort _)) in H2 as (y & H2 & ->).
    rewrite (override_eq "LOG_LEVEL" _ _ _ (put_LogLevel _)), (override_eq "DB_PATH" _ _ _ (put_DBPath _)),
      (override_eq "ENCRYPTION_KEY" _ _ _ (put_EncryptionKey _)) in H.
    apply bind_Ok in H as (c3 & H3 & H).
    apply (override_parsed_iff "SCHEDULER_DEFAULT_INTERVAL" _ _ _ _ _ (put_DefaultInterval _))
      in H3 as (z & H3 & ->).
    rewrite (override_eq "OPENAI_API_KEY" _ _ _ (put_APIKey _)) in H. injection H as <-. by split.
  - destruct c as [hp' mp' ll' nw' dp' ek' [ci' cs' cp'] bt' ak' di'].
    intros [H1 H2 H3 E1 E2 E3 E4 E5 E6 E7 E8 E9]. cbn -[env_or] in *. subst.
    eexists. split; [by eexists|]. cbn -[override override_parsed env_or]. apply bind_Ok.
    eexists. split; [apply (override_parsed_iff "METRICS_PORT" _ _ _ _ _ (put_MetricsPort _)); by eexists|].
    rewrite (override_eq "LOG_LEVEL" _ _ _ (put_LogLevel _)), (override_eq "DB_PATH" _ _ _ (put_DBPath _)),
      (override_eq "ENCRYPTION_KEY" _ _ _ (put_EncryptionKey _)). apply bind_Ok.
    eexists. split; [apply (override_parsed_iff "SCHEDULER_DEFAULT_INTERVAL" _ _ _ _ _
                              (put_DefaultInterval _)); by eexists|].
    by rewrite (override_eq "OPENAI_API_KEY" _ _ _ (put_APIKey _)).
Qed.

(** *** [Load] *)

Lemma validate_None c :
  validate Struct Stat c = None ↔ tags_hold is_file c = true ∧ Stat (CredentialsPath (AuthOf c)) = None.
Proof.
  rewrite <- Struct_tags. unfold validate. destruct (Struct c); [by split; [|intros [? ?]]|].
  destruct (Stat _); [by split; [|intros [? ?]]|]. done.
Qed.

Lemma Load_iff path c :
  Load path = Ok c ↔
  ∃ data c0, ReadFile path = Ok data ∧
    Unmarshal (decode_Config float_overflow) zero_Config data = Ok c0 ∧
    overridden c0 c ∧ tags_hold is_file c = true ∧ Stat (CredentialsPath (AuthOf c)) = None.
Proof.
  unfold Config.Load. rewrite bind_Ok. split.
  - intros (data & H1 & H). apply wrap_err_Ok in H1. apply bind_Ok in H as (c0 & H2 & H).
    apply wrap_err_Ok in H2. apply bind_Ok in H as (c1 & H3 & H). apply wrap_err_Ok in H3.
    apply applyEnvOverrides_iff in H3. destruct (validate Struct Stat c1) eqn:E; [done|].
    injection H as <-. apply validate_None in E as [??]. by exists data, c0.
  - intros (data & c0 & H1 & H2 & H3 & H4). exists data. rewrite wrap_err_Ok. split; [done|].
    apply bind_Ok. exists c0. rewrite wrap_err_Ok. split; [done|].
    apply bind_Ok. exists c. rewrite wrap_err_Ok, applyEnvOverrides_iff. split; [done|].
    by rewrite (proj2 (validate_None c) H4).
Qed.

Lemma overridden_int64 c0 c : overridden c0 c → cfg_int64 c0 → cfg_int64 c.
Proof.
  unfold cfg_int64. intros [H1 H2 H3 _ _ _ _ _ _ _ H4 _] (?&?&?&?). unfold parsed_env_or in *.
  split_and!; repeat case_decide;
    (by eapply Atoi_in_int64) || (by eapply ParseDuration_range) || congruence.
Qed.

Lemma tags_hold_true c :
  tags_hold is_file c = true →
  0 ≤ HTTPPort c ∧ 0 ≤ MetricsPort c ∧ LogLevel c ∈ ["debug"; "info"; "warn"; "error"]%string ∧
  1 ≤ NumWorkers c ∧ 32 ≤ rune_count 0 (EncryptionKey c) ∧ Minute ≤ DefaultInterval c.
Proof.
  unfold tags_hold. rewrite !andb_true_iff, !Z.leb_le, !bool_decide_eq_true. tauto.
Qed.

Lemma valid_key_long key : (32 ≤ String.length key)%nat → valid_key key = bool_decide (String.length key = 32%nat).
Proof.
  intros H. unfold valid_key. apply bool_decide_ext. rewrite !elem_of_cons, elem_of_nil. lia.
Qed.

(** C22: [Load] accepts exactly the files that read as JSON of the struct and
    that, with every override of the environment applied, satisfy the struct
    tags and name an existing credentials file; the result is the file's value
    where the environment has no setting and the environment's otherwise
    ([num_workers] and [credentials_path] come from the file alone).  Every
    failure is that of one of the four stages, wrapped in its name. *)
Theorem Load_spec path :
  (∀ c, Load path = Ok c ↔
     ∃ data c0, ReadFile path = Ok data ∧
       Unmarshal (decode_Config float_overflow) zero_Config data = Ok c0 ∧
       overridden c0 c ∧ tags_hold is_file c = true ∧ Stat (CredentialsPath (AuthOf c)) = None) ∧
  (∀ e, Load path = Err e →
     (∃ er, ReadFile path = Err er ∧ e = wrap_pre "reading config file: " er) ∨
     ∃ data, ReadFile path = Ok data ∧
       ((∃ er, Unmarshal (decode_Config float_overflow) zero_Config data = Err er ∧
               e = wrap_pre "parsing config file: " er) ∨
        ∃ c0, Unmarshal (decode_Config float_overflow) zero_Config data = Ok c0 ∧
          ((∃ er, (¬ ∃ c, overridden c0 c) ∧ e = wrap_pre "applying environment overrides: " er) ∨
           ∃ c er, overridden c0 c ∧ e = wrap_pre "validating config: " er ∧
             (tags_hold is_file c = false ∨ Stat (CredentialsPath (AuthOf c)) ≠ None)))).
Proof.
  split; [intros c; apply Load_iff|]. intros e. unfold Config.Load.
  destruct (ReadFile path) as [data|er]; cbn; [|intros [= <-]; left; by exists er].
  intros H. right. exists data. split; [done|].
  destruct (Unmarshal _ _ data) as [c0|er]; cbn in H; [|injection H as <-; left; by exists er].
  right. exists c0. split; [done|].
  destruct (applyEnvOverrides Getenv c0) as [c|er] eqn:E; cbn in H; [right|left].
  - apply applyEnvOverrides_iff in E. pose proof (validate_None c) as Hv.
    destruct (validate Struct Stat c) as [er|]; [|done]. injection H as <-. exists c, er.
    split_and!; [done..|]. destruct (tags_hold is_file c); [|by left]. right. intros Hs.
    by discriminate (proj2 Hv (conj eq_refl Hs)).
  - injection H as <-. exists er. split; [|done]. intros [c Hc].
    apply applyEnvOverrides_iff in Hc. congruence.
Qed.

(** C26: what a loaded configuration guarantees to the rest of the program:
    ports are machine integers from 0, there is a worker, the digest interval
    is from one minute to the largest duration, and the encryption key has at
    least 32 bytes.  Ports have no upper bound but the machine's. *)
Theorem Load_bounds path c :
  Load path = Ok c →
  0 ≤ HTTPPort c ≤ int64_max ∧ 0 ≤ MetricsPort c ≤ int64_max ∧ 1 ≤ NumWorkers c ≤ int64_max ∧
  Minute ≤ DefaultInterval c ≤ int64_max ∧ (32 ≤ String.length (EncryptionKey c))%nat ∧
  LogLevel c ∈ ["debug"; "info"; "warn"; "error"]%string.
Proof.
  intros H. apply Load_iff in H as (data & c0 & _ & Hd & Ho & Ht & _).
  apply overridden_int64 in Ho; [|by eapply Unmarshal_int64].
  destruct Ho as ([_ ?] & [_ ?] & [_ ?] & [_ ?]). apply tags_hold_true in Ht as (?&?&?&?&?&?).
  pose proof (rune_count_le 0 (EncryptionKey c)). split_and!; done || lia.
Qed.

(** C27: the tags ask for an encryption key of at least 32 characters, the
    stores for one of exactly 32 bytes: with any other key that is accepted,
    nothing is ever encrypted, no token is stored and none is read; with 32
    bytes the cipher is there. *)
Theorem accepted_key_works_iff {T : Type} `{!TokenJSON T} path c d :
  Load path = Ok c →
  let ts := mkTokenStore d (EncryptionKey c) in
  if decide (String.length (EncryptionKey c) = 32%nat) then is_ok (NewGCM (EncryptionKey c)) = true
  else (∀ rd text, EncryptToken rd (EncryptionKey c) text = Err ErrInvalidKeySize) ∧
       (∀ e u (t : option T), ∃ er, TokenStore.StoreToken e u t ts = (ts, Err er)) ∧
       (∀ e u, ∃ er, TokenStore.GetToken (T:=T) e u ts = Returns (Err er)).
Proof.
  intros H ts. apply Load_iff in H as (_ & _ & _ & _ & _ & Ht & _).
  apply tags_hold_true in Ht as (_ & _ & _ & _ & Hk & _). pose proof (rune_count_le 0 (EncryptionKey c)).
  pose proof (valid_key_long (EncryptionKey c) ltac:(lia)) as Hv. case_decide as Hl.
  { unfold NewGCM. by rewrite Hv, bool_decide_true. }
  assert (Hg : NewGCM (EncryptionKey c) = Err KeySizeError).
  { unfold NewGCM. by rewrite Hv, bool_decide_false. }
  split_and!.
  - intros rd text. unfold EncryptToken. by rewrite (proj2 (Nat.eqb_neq _ KeySize) Hl).
  - intros e u [t|]; cbn; [|by eexists]. rewrite Hg. destruct (tok_Marshal t); by eexists.
  - intros e u. unfold TokenStore.GetToken, ts. cbn [db encryptionKey]. rewrite Hg.
    destruct (Storage.GetToken _ u d) as [[??]|]; by eexists.
Qed.

(** C30: the configuration file of the repository is never accepted as it is:
    the key in it, named as one of 32 bytes, has 31.  It is accepted as soon as
    the environment gives a key that is long enough and leaves the rest alone. *)
Theorem example_config_needs_a_key path :
  ReadFile path = Ok example_config →
  is_file "test/fixtures/dummy_credentials.json" = true →
  Stat "test/fixtures/dummy_credentials.json" = None →
  (∀ name, name ≠ "ENCRYPTION_KEY"%string → Getenv name = ""%string) →
  is_ok (Load path) = (32 <=? rune_count 0 (Getenv "ENCRYPTION_KEY")).
Proof.
  intros Hr Hf Hs He. apply eq_true_iff_eq. rewrite is_ok_true, Z.leb_le. setoid_rewrite Load_iff. split.
  - intros (c & data & c0 & Hd & H0 & Ho & Ht & _). rewrite Hr in Hd. injection Hd as <-.
    rewrite decode_example in H0. injection H0 as <-. apply tags_hold_true in Ht as (_ & _ & _ & _ & Hk & _).
    destruct Ho as [_ _ _ _ _ E _ _ _ _ _ _]. rewrite E in Hk. unfold env_or in Hk.
    case_decide; [by vm_compute in Hk|done].
  - intros Hk. exists (set_EncryptionKey (Getenv "ENCRYPTION_KEY") decoded_example), example_config, decoded_example.
    split_and!; [done|apply decode_example| | |done].
    + assert (Hn : Getenv "ENCRYPTION_KEY" ≠ ""%string) by (intros E; rewrite E in Hk; done).
      assert (Hu : ∀ name old, name ≠ "ENCRYPTION_KEY"%string → env_or name old = old).
      { intros name old Hne. unfold env_or. by rewrite He. }
      split; rewrite ?Hu by done; try (unfold parsed_env_or; by rewrite He); try done.
      unfold env_or. by rewrite decide_False.
    + assert (Hq : required (Getenv "ENCRYPTION_KEY") = true).
      { unfold required. destruct (Getenv "ENCRYPTION_KEY"); done. }
      unfold tags_hold, decoded_example. cbn -[required rune_count Z.leb]. rewrite Hf, Hq.
      by rewrite (proj2 (Z.leb_le _ _) Hk).
Qed.
End load_props.

(** ** Witnesses: the example file, with a key of 33 bytes in the environment *)

Definition demo_overflow (_ : spec_float) : Z := int64_min.
Definition demo_key : string := "0123456789abcdef0123456789abcdef!".
Definition demo_Getenv (name : string) : string :=
  if decide (name = "ENCRYPTION_KEY")%string then demo_key else "".
Definition demo_ReadFile (path : string) : result string :=
  if decide (path = "config.json")%string then Ok example_config else Err (ExtError "no such file").
Definition demo_is_file (path : string) : bool := bool_decide (path = "test/fixtures/dummy_credentials.json"%string).
Definition demo_Stat (path : string) : option error :=
  if demo_is_file path then None else Some (ExtError "no such file").
Definition demo_Struct (c : Config) : option error :=
  if tags_hold demo_is_file c then None else Some (ExtError "a tag does not hold").
Definition demo_Load : string → result Config :=
  Load demo_overflow demo_Getenv demo_ReadFile demo_Struct demo_Stat.
Definition demo_loaded : Config := set_EncryptionKey demo_key decoded_example.

Lemma demo_Struct_tags c : demo_Struct c = None ↔ tags_hold demo_is_file c = true.
Proof. unfold demo_Struct. by destruct (tags_hold _ c). Qed.

Lemma demo_overflow_int64 f : in_int64 (demo_overflow f).
Proof. unfold demo_overflow, in_int64, int64_min, int64_max. lia. Qed.

Lemma demo_Load_Ok : demo_Load "config.json" = Ok demo_loaded.
Proof. vm_compute. reflexivity. Qed.

Lemma Load_spec_witness :
  overridden demo_Getenv decoded_example demo_loaded ∧ demo_Load "config.json" = Ok demo_loaded ∧
  ∃ er, demo_Load "other.json" = Err (wrap_pre "reading config file: " er).
Proof.
  pose proof (Load_spec demo_overflow demo_Getenv demo_ReadFile demo_Struct demo_Stat demo_is_file
    demo_Struct_tags) as H.
  split; [|split].
  - destruct (proj1 (proj1 (H "config.json"%string) demo_loaded) demo_Load_Ok) as (data & c0 & H1 & H2 & H3 & _).
    injection H1 as <-. rewrite decode_example in H2. injection H2 as <-. exact H3.
  - exact demo_Load_Ok.
  - destruct (proj2 (H "other.json"%string) (wrap_pre "reading config file: " (ExtError "no such file")))
      as [(er & _ & _)|(data & H1 & _)]; [reflexivity| |discriminate H1].
    by exists (ExtError "no such file").
Defined.

Lemma Load_bounds_witness :
  demo_Load "config.json" = Ok demo_loaded ∧ 0 ≤ HTTPPort demo_loaded ≤ int64_max ∧
  Minute ≤ DefaultInterval demo_loaded ≤ int64_max.
Proof.
  destruct (Load_bounds demo_overflow demo_Getenv demo_ReadFile demo_Struct demo_Stat demo_is_file
    demo_overflow_int64 demo_Struct_tags "config.json" demo_loaded demo_Load_Ok) as (H1 & _ & _ & H2 & _).
  split; [exact demo_Load_Ok|]. split; [exact H1|exact H2].
Defined.

#[local] Program Instance demo_token_json : TokenJSON string :=
  { tok_Marshal s := Ok s; tok_Unmarshal s := Ok s }.
Next Obligation. done. Qed.

Lemma accepted_key_works_iff_witness :
  demo_Load "config.json" = Ok demo_loaded ∧
  ∃ er, TokenStore.StoreToken (demo_token_env "x") "u" (Some "token"%string) (mkTokenStore empty_DB demo_key)
        = (mkTokenStore empty_DB demo_key, Err er).
Proof.
  split; [exact demo_Load_Ok|].
  pose proof (accepted_key_works_iff demo_overflow demo_Getenv demo_ReadFile demo_Struct demo_Stat demo_is_file
    demo_Struct_tags "config.json" demo_loaded empty_DB demo_Load_Ok) as H.
  assert (Hl : String.length (EncryptionKey demo_loaded) ≠ 32%nat) by (vm_compute; discriminate).
  cbv zeta in H. rewrite decide_False in H by exact Hl. apply H.
Defined.

Lemma example_config_needs_a_key_witness :
  is_ok (demo_Load "config.json") = true ∧
  is_ok (Load demo_overflow (λ _, ""%string) demo_ReadFile demo_Struct demo_Stat "config.json") = false.
Proof.
  split; [rewrite demo_Load_Ok; reflexivity|].
  rewrite (example_config_needs_a_key demo_overflow (λ _, ""%string) demo_ReadFile demo_Struct demo_Stat
    demo_is_file demo_Struct_tags "config.json"); reflexivity.
Defined.

Lemma Duration_roundtrip_witness :
  ∃ v, parse_json (q "-1h0m5s") = Ok v ∧ decode_Duration demo_overflow v 0 = Ok (- (Hour + 5 * Second), None).
Proof.
  apply (Duration_roundtrip demo_overflow (- (Hour + 5 * Second)) 0); [|reflexivity].
  vm_compute. split; discriminate.
Defined.
