(* ===== verification/App.v ===== *)
(** * The web application: [internal/app]

    The routes, the session middleware and the handlers, over any session
    store and any token storage.  A request is what net/http hands to the mux:
    a method, a path (percent escapes already undone), the query values and
    the cookies in order; the context carries the user ID the middleware adds.
    A handler returns the new state and a response, or panics.  The body is
    what the handler writes; the note [http.Redirect] adds is left out.

    The source names the fields of [Application] in two ways ([a.Auth] and
    [authService], [a.SessionStore] and [sessionStore]) and calls
    [getUserIDFromContext] once as a function and once as a method; one field
    and one function stand for each pair. *)
From Stdlib Require Import ZArith Lia Ascii.
From stdpp Require Import base gmap list strings.
From S2P Require Import Prelude GoTime GoStrings GoBase64 Worker Job Storage Auth Session UserDetails.

(** ** Requests and responses *)

Record Request := mkRequest {
  r_Method : string;
  r_Path : string;
  r_Query : list (string * string);
  r_Cookies : list (string * string);
  r_user : option string;
}.

Fixpoint first_value (key : string) (l : list (string * string)) : option string :=
  match l with
  | [] => None
  | (k, v) :: rest => if decide (k = key) then Some v else first_value key rest
  end.

(** [r.URL.Query().Get(key)] and [r.Cookie(name)]. *)
Definition Query_Get (key : string) (r : Request) : string := default "" (first_value key (r_Query r)).
Definition Cookie (name : string) (r : Request) : option string := first_value name (r_Cookies r).

Record SetCookie := mkSetCookie {
  c_Name : string;
  c_Value : string;
  c_Expires : option Z;
  c_MaxAge : Z;
  c_HttpOnly : bool;
  c_Path : string;
}.

Record Response := mkResponse {
  status : Z;
  location : option string;
  set_cookies : list SetCookie;
  body : string;
}.

(** [http.Redirect(w, r, url, http.StatusSeeOther)] and [http.Error]. *)
Definition see_other (url : string) (cs : list SetCookie) : Response := mkResponse 303 (Some url) cs "".
Definition http_Error (msg : string) (code : Z) : Response := mkResponse code None [] (msg +:+ newline).
Definition reply (code : Z) (text : string) : Response := mkResponse code None [] text.

(** ** The context *)

(** @src internal/app/middleware.go 47-51 withUserID *)
Definition withUserID (r : Request) (userID : string) : Request :=
  mkRequest (r_Method r) (r_Path r) (r_Query r) (r_Cookies r) (Some userID).

(** @src internal/app/middleware.go 53-57 getUserIDFromContext *)
Definition getUserIDFromContext (r : Request) : option string := r_user r.

(** ** The mux *)

(** [path.Clean] of a rooted path and net/http's [cleanPath]. *)
Definition clean_step (acc : list string) (seg : string) : list string :=
  if decide (seg = "" ∨ seg = ".")%string then acc
  else if decide (seg = "..")%string then tail acc else seg :: acc.

Definition path_Clean (p : string) : string :=
  "/" +:+ Join (rev (foldl clean_step [] (Split p "/"))) "/".

Definition cleanPath (p : string) : string :=
  let p := match p with
           | EmptyString => "/"%string
           | String c _ => if decide (c = "/"%char) then p else "/" +:+ p
           end in
  let np := path_Clean p in
  if decide (last (Split p "/") = Some ""%string ∧ np ≠ "/"%string) then np +:+ "/" else np.

Inductive route :=
| RouteLogin | RouteCallback | RouteLogout | RouteDashboard | RouteTelegramConnect | RouteDigestNow
| RouteMethodNotAllowed
| RouteClean (path : string).

Definition get_route (path : string) : route :=
  if decide (path = "/login")%string then RouteLogin
  else if decide (path = "/auth/callback")%string then RouteCallback
  else if decide (path = "/telegram/connect")%string then RouteTelegramConnect
  else if decide (path = "/digest/now")%string then RouteDigestNow
  else RouteDashboard.

(** ["GET /"] matches every path, and a GET pattern matches HEAD; a path that
    matches with another method only answers 405. *)
Definition match_route (method path : string) : route :=
  if decide (method = "GET" ∨ method = "HEAD")%string then get_route path
  else if decide (method = "POST" ∧ path = "/logout")%string then RouteLogout
  else RouteMethodNotAllowed.

(** @src internal/app/app.go 120-134 routes *)
Definition routes (r : Request) : route :=
  if decide (r_Method r = "CONNECT"%string) then RouteMethodNotAllowed
  else let p := cleanPath (r_Path r) in
       if decide (p = r_Path r) then match_route (r_Method r) p else RouteClean p.

Definition protected (rt : route) : bool :=
  match rt with RouteDashboard | RouteTelegramConnect | RouteDigestNow => true | _ => false end.

Section app.
Context {S : Type} `{!SessionStore S} {E ST T : Type} `{!OAuthToken T} `{!TokenStorage E ST T}.
Context (AuthCodeURL : OAuthConfig → string → string → string).
Context (Exchange : OAuthConfig → string → string → result (option T)).

(** [digests] lists the users whose digest a handler has started; the job
    itself runs in a goroutine of its own (file Digest). *)
(** @src internal/app/app.go 23-37 Application *)
Record Application := mkApp {
  authService : OAuthManager ST T;
  sessionStore : S;
  users : UserTable;
  digests : list string;
}.
Implicit Types a : Application.

(** What a request sees of the outside: the clock, the random source, the
    token storage, the database. *)
Record Env := mkEnv {
  env_now : Z;
  env_verifier : nat → result string;
  env_session : result string;
  env_tokens : E;
  env_db : db_faults;
}.

Definition with_auth m a := mkApp m (sessionStore a) (users a) (digests a).
Definition with_sessions s a := mkApp (authService a) s (users a) (digests a).
Definition with_users u a := mkApp (authService a) (sessionStore a) u (digests a).
Definition start_digest u a := mkApp (authService a) (sessionStore a) (users a) (digests a ++ [u]).

Definition handler := Env → Request → Application → Application * outcome Response.

(** @src internal/app/handlers.go 14-27 handleLogin *)
Definition handleLogin : handler := λ env r a,
  let userID := "user-123"%string in
  match GetAuthURL AuthCodeURL (env_verifier env) userID (authService a) with
  | (m, Panics p) => (with_auth m a, Panics p)
  | (m, Returns (Err _)) => (with_auth m a, Returns (http_Error "Failed to generate auth URL" 500))
  | (m, Returns (Ok (authURL, _))) => (with_auth m a, Returns (see_other authURL []))
  end.

Definition session_cookie (sessionID : string) (now : Z) : SetCookie :=
  mkSetCookie "session_id" sessionID (Some (Add now (24 * Hour))) 0 true "/".

(** @src internal/app/handlers.go 29-67 handleAuthCallback *)
Definition handleAuthCallback : handler := λ env r a,
  let userID := "user-123"%string in
  let code := Query_Get "code" r in
  let state := Query_Get "state" r in
  if decide (code = "" ∨ state = "")%string
  then (a, Returns (http_Error "Invalid request: missing code or state" 400))
  else match HandleCallback Exchange (env_tokens env) code state userID (authService a) with
  | (m, Panics p) => (with_auth m a, Panics p)
  | (m, Returns (Err _)) => (with_auth m a, Returns (http_Error "Authentication failed" 500))
  | (m, Returns (Ok _)) =>
      let a := with_auth m a in
      match ss_Create (env_session env) (env_now env) userID (24 * Hour) (sessionStore a) with
      | (s, Err _) => (with_sessions s a, Returns (http_Error "Failed to create session" 500))
      | (s, Ok sessionID) =>
          (with_sessions s a, Returns (see_other "/" [session_cookie sessionID (env_now env)]))
      end
  end.

(** @src internal/app/handlers.go 69-93 handleLogout *)
Definition handleLogout : handler := λ env r a,
  match Cookie "session_id" r with
  | None => (a, Returns (see_other "/login" []))
  | Some sessionID =>
      let '(s, _) := ss_Delete sessionID (sessionStore a) in
      (with_sessions s a,
       Returns (see_other "/login" [mkSetCookie "session_id" "" None (-1) true "/"]))
  end.

(** @src internal/app/handlers.go 99-110 handleDashboard *)
Definition handleDashboard : handler := λ env r a,
  match getUserIDFromContext r with
  | None => (a, Returns (http_Error "Could not identify user" 500))
  | Some userID => (a, Returns (reply 200 ("Welcome, " +:+ userID +:+ "!")))
  end.

(** @src internal/app/handlers.go 112-142 handleTelegramConnect *)
Definition handleTelegramConnect : handler := λ env r a,
  let tokenStr := Query_Get "token" r in
  if decide (tokenStr = "") then (a, Returns (http_Error "Missing token" 400))
  else match ParseInt tokenStr with
  | Err _ => (a, Returns (http_Error "Invalid token" 400))
  | Ok telegramUserID =>
      let telegramChatID := telegramUserID in
      let userID := default "" (getUserIDFromContext r) in
      match UpdateUserTelegramDetails (env_now env) (env_db env) userID telegramUserID
              telegramChatID (users a) with
      | (u, Err _) =>
          (with_users u a, Returns (http_Error "Failed to connect account. Please try again." 500))
      | (u, Ok _) =>
          (with_users u a, Returns (reply 200
             "Telegram account successfully connected! You can now close this window."))
      end
  end.

(** @src internal/app/handlers.go 144-160 handleDigestNow *)
Definition handleDigestNow : handler := λ env r a,
  let userID := default "" (getUserIDFromContext r) in
  if decide (userID = "") then (a, Returns (http_Error "Unauthorized" 401))
  else (start_digest userID a, Returns (reply 202
          "Digest creation initiated. You will receive a message on Telegram shortly.")).

Definition cleared_cookie : SetCookie := mkSetCookie "session_id" "" None (-1) false "/".

(** @src internal/app/middleware.go 14-45 requireAuth *)
Definition requireAuth (next : handler) : handler := λ env r a,
  match Cookie "session_id" r with
  | None => (a, Returns (see_other "/login" []))
  | Some sessionID =>
      match ss_Get (env_now env) sessionID (sessionStore a) with
      | Err _ => (a, Returns (see_other "/login" [cleared_cookie]))
      | Ok userID => next env (withUserID r userID) a
      end
  end.

(** @src internal/app/app.go 120-134 routes *)
Definition serve : handler := λ env r a,
  match routes r with
  | RouteLogin => handleLogin env r a
  | RouteCallback => handleAuthCallback env r a
  | RouteLogout => handleLogout env r a
  | RouteDashboard => requireAuth handleDashboard env r a
  | RouteTelegramConnect => requireAuth handleTelegramConnect env r a
  | RouteDigestNow => requireAuth handleDigestNow env r a
  | RouteMethodNotAllowed => (a, Returns (http_Error "Method Not Allowed" 405))
  | RouteClean p => (a, Returns (mkResponse 301 (Some p) [] ""))
  end.

(** The requests one after another. *)
Fixpoint serve_all (rs : list (Env * Request)) a : Application * list (outcome Response) :=
  match rs with
  | [] => (a, [])
  | (env, r) :: rest =>
      let '(a', o) := serve env r a in
      let '(a'', os) := serve_all rest a' in (a'', o :: os)
  end.
End app.
Arguments Application : clear implicits.
Arguments Env : clear implicits.
