(* ===== verification/AppProps.v ===== *)
(** * What the web application does

    Properties of file App against any session store and token storage; the
    witnesses use the in-memory sessions and a map of plain tokens. *)
From Stdlib Require Import ZArith Lia Ascii.
From stdpp Require Import base gmap list strings.
From S2P Require Import Prelude GoTime GoStrings GoBase64 Worker Job Storage Auth AuthProps Session UserDetails App.

Section props.
Context {S : Type} `{!SessionStore S} {E ST T : Type} `{!OAuthToken T} `{!TokenStorage E ST T}.
Context (AuthCodeURL : OAuthConfig → string → string → string).
Context (Exchange : OAuthConfig → string → string → result (option T)).
Implicit Types a : Application S ST T.
Implicit Types env : Env E.
Abbreviation serve := (serve AuthCodeURL Exchange).
Abbreviation serve_all := (serve_all AuthCodeURL Exchange).

(** The user of the session the request's cookie names. *)
Definition session_user env r a : option string :=
  match Cookie "session_id" r with
  | None => None
  | Some c => match ss_Get (env_now env) c (sessionStore a) with Ok u => Some u | Err _ => None end
  end.

Definition to_login (r : Request) : Response :=
  see_other "/login" (match Cookie "session_id" r with None => [] | Some _ => [cleared_cookie] end).

Lemma requireAuth_spec (h : handler (E:=E)) env r a :
  requireAuth h env r a =
  match session_user env r a with
  | None => (a, Returns (to_login r))
  | Some u => h env (withUserID r u) a
  end.
Proof.
  unfold requireAuth, session_user, to_login. destruct (Cookie "session_id" r) as [c|]; [|done].
  by destruct (ss_Get _ _ _).
Qed.

Lemma routes_get r :
  (r_Method r = "GET" ∨ r_Method r = "HEAD")%string → cleanPath (r_Path r) = r_Path r →
  routes r = get_route (r_Path r).
Proof.
  intros Hm Hp. unfold routes, match_route. rewrite decide_False by (intros E0; destruct Hm; congruence).
  rewrite Hp, decide_True by done. by rewrite decide_True.
Qed.

Lemma UpdateUserTelegramDetails_other now flt u tu tc m id :
  id ≠ u → (UpdateUserTelegramDetails now flt u tu tc m).1 !! id = m !! id.
Proof.
  intros Hne. unfold UpdateUserTelegramDetails.
  repeat case_match; cbn; try done; by rewrite lookup_insert_ne.
Qed.

Lemma handleTelegramConnect_spec env r u a a' o :
  handleTelegramConnect env (withUserID r u) a = (a', o) →
  ∃ resp, o = Returns resp ∧ authService a' = authService a ∧ sessionStore a' = sessionStore a ∧
    digests a' = digests a ∧ (∀ id, id ≠ u → users a' !! id = users a !! id) ∧
    (telegram_unique (users a) → telegram_unique (users a')) ∧
    (status resp = 200 ∨ status resp = 400 ∨ status resp = 500)%Z ∧
    (status resp = 200%Z ↔ ∃ t, ParseInt (Query_Get "token" r) = Ok t ∧
      (UpdateUserTelegramDetails (env_now env) (env_db env) u t t (users a)).2 = Ok tt).
Proof.
  unfold handleTelegramConnect. cbn [getUserIDFromContext withUserID r_user default].
  change (Query_Get "token" (withUserID r u)) with (Query_Get "token" r).
  assert (Hfail : ∀ tok, ParseInt tok = ParseInt (Query_Get "token" r) →
    (∀ t, ParseInt tok ≠ Ok t) →
    (400%Z = 200%Z ↔ ∃ t, ParseInt (Query_Get "token" r) = Ok t ∧
      (UpdateUserTelegramDetails (env_now env) (env_db env) u t t (users a)).2 = Ok tt)).
  { intros tok E1 E2. split; [done|]. intros (t & H & _). by rewrite <- E1 in H; apply E2 in H. }
  case_decide as Hd.
  - intros [= <- <-]. eexists. split_and!; try done; [by auto|]. apply (Hfail ""); [by rewrite Hd|done].
  - destruct (ParseInt (Query_Get "token" r)) as [t|er] eqn:Ep.
    + pose proof (UpdateUserTelegramDetails_unique (env_now env) (env_db env) u t t (users a)) as Hu.
      pose proof (UpdateUserTelegramDetails_other (env_now env) (env_db env) u t t (users a)) as Ho.
      destruct (UpdateUserTelegramDetails _ _ _ _ _ _) as [us [[]|er]] eqn:Eu; intros [= <- <-]; cbn in *;
        eexists; split_and!; try done; try by auto.
      * split; [|done]. intros _. exists t. by rewrite Eu.
      * split; [done|]. intros (t' & [= <-] & H). by rewrite Eu in H.
    + intros [= <- <-]. eexists. split_and!; try done; [by auto|].
      split; [done|]. by intros (t & H & _).
Qed.

(** C5: Every page but the login ones needs a session, and acts for its user
    only.  A GET or HEAD of any clean path other than /login and
    /auth/callback, /logout included, changes nothing and is redirected to
    /login when its cookie names no live session, with an order to drop the
    cookie if there was one; with a session of user [u] it leaves sessions and
    authentication alone, touches no other user's row, keeps Telegram accounts
    unique, starts at most one digest, for [u] and on /digest/now only, and on
    a path of no other handler shows [u] the welcome page. *)
Theorem protected_routes env r a :
  (r_Method r = "GET" ∨ r_Method r = "HEAD")%string → cleanPath (r_Path r) = r_Path r →
  r_Path r ≠ "/login"%string → r_Path r ≠ "/auth/callback"%string →
  match session_user env r a with
  | None => serve env r a = (a, Returns (to_login r))
  | Some u =>
      ∃ a' resp, serve env r a = (a', Returns resp) ∧ status resp ≠ 303%Z ∧
        authService a' = authService a ∧ sessionStore a' = sessionStore a ∧
        (∀ id, id ≠ u → users a' !! id = users a !! id) ∧
        (telegram_unique (users a) → telegram_unique (users a')) ∧
        (if decide (r_Path r = "/digest/now" ∧ u ≠ "")%string
         then digests a' = digests a ++ [u] ∧ status resp = 202%Z else digests a' = digests a) ∧
        (r_Path r ≠ "/telegram/connect"%string → r_Path r ≠ "/digest/now"%string →
           a' = a ∧ resp = reply 200 ("Welcome, " +:+ u +:+ "!"))
  end.
Proof.
  intros Hm Hp Hl Hc. unfold App.serve. rewrite routes_get by done. unfold get_route.
  rewrite !decide_False by done.
  destruct (decide (r_Path r = "/telegram/connect")%string) as [Et|Et];
    [|destruct (decide (r_Path r = "/digest/now")%string) as [Ed|Ed]]; rewrite requireAuth_spec;
    destruct (session_user env r a) as [u|]; try done.
  - destruct (handleTelegramConnect env (withUserID r u) a) as [a' o] eqn:Eh.
    apply handleTelegramConnect_spec in Eh as (resp & -> & Hau & Hse & Hdi & Ho & Hu & Hst & _).
    exists a', resp. rewrite decide_False by (intros [Eq _]; congruence). split_and!; try done.
    lia.
  - unfold handleDigestNow. cbn. destruct (decide (u = "")%string) as [->|Hu]; eexists _, _;
      (split; [reflexivity|]).
    + rewrite decide_False by (by intros [_ ?]). by split_and!.
    + rewrite decide_True by done. by split_and!.
  - eexists _, _. split; [reflexivity|]. rewrite decide_False by (by intros [? _]). by split_and!.
Qed.

(** ** Nobody logs in *)

(** What holds as long as no verifier is stored. *)
Definition no_login (us : UserTable) a : Prop :=
  verifiers (pkceStore (authService a)) = ∅ ∧
  (∀ now id, is_ok (ss_Get now id (sessionStore a)) = false) ∧ users a = us ∧ digests a = [].

(** A response that neither serves a user nor gives out a session. *)
Definition turned_away (o : outcome Response) : Prop :=
  match o with
  | Returns resp => (200 < status resp)%Z ∧ status resp ≠ 202%Z ∧ Forall (λ c, c_Value c = "") (set_cookies resp)
  | Panics _ => True
  end.

Ltac stay_out :=
  split; [done | cbn; first [done | split; [lia | split; [done | repeat first [constructor | done]]]]].

Lemma no_login_session_user us env r a : no_login us a → session_user env r a = None.
Proof.
  intros (_ & H & _). unfold session_user. destruct (Cookie "session_id" r) as [c|]; [|done].
  specialize (H (env_now env) c). by destruct (ss_Get _ _ _).
Qed.

Lemma turned_away_login r : turned_away (Returns (to_login r)).
Proof. unfold to_login. cbn. destruct (Cookie "session_id" r); (split; [lia|split; [done|by repeat constructor]]). Qed.

Lemma handleLogin_no_login us env r a :
  no_login us a → no_login us (handleLogin AuthCodeURL env r a).1 ∧
                  turned_away (handleLogin AuthCodeURL env r a).2.
Proof.
  intros (Hv & Hr). unfold handleLogin.
  pose proof (run_call_verifiers AuthCodeURL Exchange (λ _ _, Err (ErrorString "")) 
    (CGetAuthURL (env_verifier env) "user-123") (authService a) Hv) as H. cbn [run_call] in H.
  destruct (GetAuthURL _ _ _ _) as [m [[[url ?]|]|]]; stay_out.
Qed.

Lemma handleAuthCallback_no_login us env r a :
  no_login us a → no_login us (handleAuthCallback Exchange env r a).1 ∧
                  turned_away (handleAuthCallback Exchange env r a).2.
Proof.
  intros Hn. unfold handleAuthCallback. case_decide; [stay_out|].
  destruct Hn as (Hv & Hr). unfold HandleCallback.
  do 3 (case_decide; [stay_out|]).
  destruct (ValidateState _ _ _) as [s' []]; [|stay_out].
  rewrite GetVerifier_empty by done. stay_out.
Qed.

Lemma handleLogout_no_login us env r a :
  no_login us a → no_login us (handleLogout (E:=E) env r a).1 ∧ turned_away (handleLogout env r a).2.
Proof.
  intros (Hv & Hs & Hr). unfold handleLogout. destruct (Cookie "session_id" r) as [c|];
    [|stay_out].
  destruct (ss_Delete c (sessionStore a)) as [s res] eqn:Ed. apply ss_delete_law in Ed as (_ & H1 & H2).
  split; [|cbn; split; [lia|split; [done|by repeat constructor]]]. split; [done|]. split; [|done]. cbn. intros now id.
  destruct (decide (id = c)) as [->|Hne]; [done|]. by rewrite H2.
Qed.

Lemma serve_no_login us env r a :
  no_login us a → no_login us (serve env r a).1 ∧ turned_away (serve env r a).2.
Proof.
  intros Hn. unfold App.serve.
  destruct (routes r); try (rewrite requireAuth_spec, (no_login_session_user us) by done;
    split; [done|apply turned_away_login]).
  - by apply handleLogin_no_login.
  - by apply handleAuthCallback_no_login.
  - by apply handleLogout_no_login.
  - stay_out.
  - stay_out.
Qed.

(** C18: Nobody can log in to the application as it is.  Started with no
    session, no stored verifier and any credentials, users and tokens, it
    answers every sequence of requests without creating a session, without
    setting a cookie but to clear it, without serving a page (200) or starting
    a digest (202), and leaves the users as they are. *)
Theorem nobody_logs_in (rs : list (Env E * Request)) a :
  verifiers (pkceStore (authService a)) = ∅ →
  (∀ now id, is_ok (ss_Get now id (sessionStore a)) = false) → digests a = [] →
  let '(a', os) := serve_all rs a in
  Forall turned_away os ∧ users a' = users a ∧ digests a' = [] ∧
  ∀ now id, is_ok (ss_Get now id (sessionStore a')) = false.
Proof.
  intros Hv Hs Hd. assert (Hn : no_login (users a) a) by done. revert Hn. generalize (users a) as us.
  clear Hv Hs Hd. revert a. induction rs as [|[env r] rs IH]; intros a us Hn; cbn [App.serve_all].
  - destruct Hn as (_ & ? & ? & ?). by split_and!.
  - destruct (serve_no_login us env r a Hn) as [Hn' Ht]. destruct (serve env r a) as [a' o].
    specialize (IH a' us Hn'). destruct (serve_all rs a') as [a'' os]. destruct IH as (? & ? & ? & ?).
    split_and!; [|done..]. by constructor.
Qed.

(** ** The session of a login that completes *)

Lemma dashboard_spec env r a :
  routes r = RouteDashboard →
  serve env r a = (a, Returns match session_user env r a with
                              | Some u => reply 200 ("Welcome, " +:+ u +:+ "!")
                              | None => to_login r end).
Proof.
  intros H. unfold App.serve. rewrite H, requireAuth_spec. by destruct (session_user env r a).
Qed.

(** C17: Login, session, logout.  When [HandleCallback] accepts the code and a
    session is created, the answer redirects to / with a 24 hour [HttpOnly]
    cookie; up to 24 hours later that cookie shows the welcome page, later it
    is cleared and leads back to /login, and so it does at once after a POST
    of /logout with it, which leaves every other session alone. *)
Theorem login_logout_flow env r a m' s' sid :
  routes r = RouteCallback → Query_Get "code" r ≠ "" → Query_Get "state" r ≠ "" →
  HandleCallback Exchange (env_tokens env) (Query_Get "code" r) (Query_Get "state" r) "user-123"
    (authService a) = (m', Returns (Ok tt)) →
  ss_Create (env_session env) (env_now env) "user-123" (24 * Hour) (sessionStore a) = (s', Ok sid) →
  let a1 := mkApp m' s' (users a) (digests a) in
  serve env r a = (a1, Returns (see_other "/" [session_cookie sid (env_now env)])) ∧
  (∀ env2 r2, routes r2 = RouteDashboard → Cookie "session_id" r2 = Some sid →
     serve env2 r2 a1 =
       (a1, Returns (if decide (env_now env + 24 * Hour < env_now env2)%Z then to_login r2
                     else reply 200 "Welcome, user-123!"))) ∧
  (∀ env3 r3, routes r3 = RouteLogout → Cookie "session_id" r3 = Some sid →
     ∃ a2, serve env3 r3 a1 =
             (a2, Returns (see_other "/login" [mkSetCookie "session_id" "" None (-1) true "/"])) ∧
       (∀ env2 r2, routes r2 = RouteDashboard → Cookie "session_id" r2 = Some sid →
          serve env2 r2 a2 = (a2, Returns (to_login r2))) ∧
       ∀ now id, id ≠ sid → ss_Get now id (sessionStore a2) = ss_Get now id (sessionStore a)).
Proof.
  intros Hr Hc Hst Hcb Hcr a1. pose proof (ss_create_law _ _ _ _ _ _ _ Hcr) as [Hget Hoth]. split_and!.
  - unfold App.serve. rewrite Hr. unfold handleAuthCallback.
    rewrite decide_False by (by intros [?|?]). rewrite Hcb. cbn [sessionStore with_auth].
    by rewrite Hcr.
  - intros env2 r2 H1 H2. rewrite dashboard_spec by done. unfold session_user. rewrite H2. cbn [sessionStore a1].
    specialize (Hget (env_now env2)). case_decide; [|by rewrite Hget]. by destruct (ss_Get _ _ _).
  - intros env3 r3 H1 H2. unfold App.serve at 1. rewrite H1. unfold handleLogout. rewrite H2. cbn [sessionStore a1].
    destruct (ss_Delete sid s') as [s2 res] eqn:Ed. apply ss_delete_law in Ed as (_ & G1 & G2).
    eexists. split; [reflexivity|]. split.
    + intros env2 r2 H3 H4. rewrite dashboard_spec by done. unfold session_user. rewrite H4. cbn.
      specialize (G1 (env_now env2)). by destruct (ss_Get _ _ _).
    + intros now id Hne. cbn. by rewrite G2, Hoth.
Qed.
End props.

(** ** Witnesses *)

Definition demo_env (now : Z) : Env unit :=
  mkEnv now (λ n, Ok (demo_random n)) (Ok "0123456789abcdef0123456789abcdef") tt (mkFaults None None).
Definition demo_sid : string := EncodeToString true "0123456789abcdef0123456789abcdef".
Definition demo_get (path : string) (query cookies : list (string * string)) : Request :=
  mkRequest "GET" path query cookies None.
Definition demo_url (_ : OAuthConfig) (state challenge : string) : string :=
  "https://accounts.example/auth?state=" +:+ state +:+ "&code_challenge=" +:+ challenge.

(** A manager that has stored a verifier for the state it sent out. *)
Definition demo_waiting : OAuthManager demo_store DemoToken :=
  mkManager (Some demo_config) ∅ (mkPKCE {["temporary-state" := "ver"%string]})
    (mkStates {["user-123" := "temporary-state"%string]}) None.
Definition demo_app (m : OAuthManager demo_store DemoToken) : Application InMemoryStore demo_store DemoToken :=
  mkApp m NewInMemoryStore {["user-123" := mkAppUser "user-123" "u@example.com" None None 0 0]} [].

(** As it is: the login page sends the user away, the way back fails, and
    GET /logout is the welcome page's redirect. *)
Example demo_login_attempt :
  let m := mkManager (Some demo_config) ∅ NewInMemoryPKCEStore NewInMemoryStateStore None
           : OAuthManager demo_store DemoToken in
  ((λ o, match o with Returns r => (status r, location r) | Panics _ => (0%Z, None) end) <$>
   (serve_all demo_url demo_exchange
     [(demo_env 0, demo_get "/auth/callback" [("code", "c"); ("state", "temporary-state")] []);
      (demo_env 1, demo_get "/logout" [] []); (demo_env 2, demo_get "/a/../login" [] []);
      (demo_env 3, mkRequest "POST" "/login" [] [] None)]%string (demo_app m)).2)
  = [(500, None); (303, Some "/login"); (301, Some "/login"); (405, None)]%Z%string.
Proof. vm_compute. reflexivity. Qed.

Lemma login_logout_flow_witness :
  let r := demo_get "/auth/callback" [("code", "c"); ("state", "temporary-state")]%string [] in
  let '(m', _) := HandleCallback demo_exchange tt "c" "temporary-state" "user-123" demo_waiting in
  let '(s', _) := Create (Ok "0123456789abcdef0123456789abcdef"%string) 0 "user-123" (24 * Hour) NewInMemoryStore in
  let a1 := mkApp m' s' (users (demo_app demo_waiting)) [] in
  serve demo_url demo_exchange (demo_env 0) r (demo_app demo_waiting)
    = (a1, Returns (see_other "/" [session_cookie demo_sid 0])) ∧
  serve demo_url demo_exchange (demo_env Hour) (demo_get "/" [] [("session_id"%string, demo_sid)]) a1
    = (a1, Returns (reply 200 "Welcome, user-123!")).
Proof.
  intros r.
  destruct (HandleCallback demo_exchange tt "c" "temporary-state" "user-123" demo_waiting) as [m' o] eqn:E1.
  destruct (Create _ 0 "user-123" (24 * Hour) NewInMemoryStore) as [s' o2] eqn:E2.
  assert (Ho : o = Returns (Ok tt)) by (injection E1 as _ <-; vm_compute; reflexivity).
  assert (Ho2 : o2 = Ok demo_sid) by (injection E2 as _ <-; vm_compute; reflexivity).
  rewrite Ho in E1. rewrite Ho2 in E2.
  destruct (login_logout_flow demo_url demo_exchange (demo_env 0) r (demo_app demo_waiting) m' s' demo_sid)
    as (H1 & H2 & _); [vm_compute; reflexivity|discriminate|discriminate|exact E1|exact E2|].
  split; [exact H1|]. rewrite H2 by (vm_compute; reflexivity).
  rewrite decide_False by (vm_compute; discriminate). reflexivity.
Defined.

Lemma protected_routes_witness :
  let a := mkApp demo_waiting (Create (Ok "k"%string) 0 "user-123" Hour NewInMemoryStore).1
             (users (demo_app demo_waiting)) [] in
  let sid := EncodeToString true "k" in
  serve demo_url demo_exchange (demo_env 0) (demo_get "/digest/now" [] []) a
    = (a, Returns (see_other "/login" [])) ∧
  ∃ a' resp, serve demo_url demo_exchange (demo_env 0)
      (demo_get "/digest/now" [] [("session_id"%string, sid)]) a = (a', Returns resp) ∧
    digests a' = ["user-123"%string].
Proof.
  intros a sid. split.
  - pose proof (protected_routes demo_url demo_exchange (demo_env 0) (demo_get "/digest/now" [] []) a) as H.
    apply H; [by left|vm_compute; reflexivity|discriminate|discriminate].
  - pose proof (protected_routes demo_url demo_exchange (demo_env 0)
      (demo_get "/digest/now" [] [("session_id"%string, sid)]) a) as H.
    assert (Hu : session_user (demo_env 0) (demo_get "/digest/now" [] [("session_id"%string, sid)]) a
                 = Some "user-123"%string) by (vm_compute; reflexivity).
    rewrite Hu in H. destruct H as (a' & resp & H & _ & _ & _ & _ & _ & Hd & _);
      [by left|vm_compute; reflexivity|discriminate|discriminate|].
    exists a', resp. split; [exact H|]. rewrite decide_True in Hd by (split; [reflexivity|discriminate]).
    destruct Hd as [Hd _]. rewrite Hd. reflexivity.
Defined.

Lemma nobody_logs_in_witness :
  let m := mkManager (Some demo_config) ∅ NewInMemoryPKCEStore NewInMemoryStateStore None
           : OAuthManager demo_store DemoToken in
  let rs := [(demo_env 0, demo_get "/login" [] []);
             (demo_env 0, demo_get "/auth/callback" [("code", "c"); ("state", "temporary-state")] [])]%string in
  let '(_, os) := serve_all demo_url demo_exchange rs (demo_app m) in Forall turned_away os.
Proof.
  intros m rs. pose proof (nobody_logs_in demo_url demo_exchange rs (demo_app m)) as H.
  destruct (serve_all _ _ rs (demo_app m)) as [a' os]. apply H; [reflexivity| |reflexivity].
  intros now id. reflexivity.
Defined.
