(* ===== verification/Summary.v ===== *)
(** * Summarizing: [internal/summary/service.go]

    The OpenAI client is a parameter: the texts of the choices it answers to a
    prompt.  [Summarize] returns the prompts it sent with its result. *)
From stdpp Require Import base list strings.
From S2P Require Import Prelude GoStrings Gmail.

(** @src internal/summary/service.go 29-36 Summarize *)
Definition prompt (emails : list Email) : string :=
  "Please provide a concise summary of the following emails:" +:+ newline +:+ newline +:+
  String.concat "" ((λ email,
    "From: " +:+ From email +:+ newline +:+
    "Subject: " +:+ Subject email +:+ newline +:+
    "Body: " +:+ Body email +:+ newline +:+ newline) <$> emails).

(** @src internal/summary/service.go 23-61 Summarize *)
Definition Summarize (CreateChatCompletion : string → result (list string)) (emails : list Email)
  : list string * result string :=
  if decide (emails = []) then ([], Ok "No new emails to summarize."%string)
  else let p := prompt emails in
       ([p], match CreateChatCompletion p with
             | Err e => Err (wrap_pre "failed to create chat completion: " e)
             | Ok [] => Err (ErrorString "no summary returned from OpenAI")
             | Ok (choice :: _) => Ok choice
             end).
