(* ===== verification/Telegram.v ===== *)
(** * The bot: [internal/telegram/service.go]

    The Bot API client is a parameter.  [StartPolling] is the list of messages
    it sends for a sequence of updates; what sending answers is only logged. *)
From Stdlib Require Import ZArith Lia Ascii.
From stdpp Require Import base gmap list strings pretty.
From S2P Require Import Prelude GoTime GoStrings Worker Job Storage Auth AuthProps Session UserDetails App AppProps.

(** A message of the Bot API: what the code reads of it. *)
Record TgMessage := mkTgMessage {
  IsCommand : bool;
  Command : string;
  From : option Z;
  Chat : Z;
}.

(** @src internal/telegram/service.go 67-71 handleStartCommand *)
Definition connectURL (httpPort token : Z) : string :=
  "http://localhost:" +:+ pretty httpPort +:+ "/telegram/connect?token=" +:+ pretty token.

Definition start_text (httpPort token : Z) : string :=
  "Welcome! To connect your account and receive email digests, please click this link:"
  +:+ newline +:+ newline +:+ connectURL httpPort token.

(** The chat and the text that are sent; a message without a sender panics. *)
(** @src internal/telegram/service.go 64-76 handleStartCommand *)
Definition handleStartCommand (httpPort : Z) (m : TgMessage) : outcome (Z * string) :=
  match From m with
  | None => Panics "runtime error: invalid memory address or nil pointer dereference"
  | Some token => Returns (Chat m, start_text httpPort token)
  end.

(** @src internal/telegram/service.go 42-62 StartPolling *)
Fixpoint StartPolling (httpPort : Z) (updates : list (option TgMessage)) : outcome (list (Z * string)) :=
  match updates with
  | [] => Returns []
  | None :: rest => StartPolling httpPort rest
  | Some m :: rest =>
      if negb (IsCommand m) then StartPolling httpPort rest
      else if decide (Command m = "start")%string then
        match handleStartCommand httpPort m with
        | Panics p => Panics p
        | Returns sent =>
            match StartPolling httpPort rest with
            | Panics p => Panics p
            | Returns l => Returns (sent :: l)
            end
        end
      else StartPolling httpPort rest
  end.

Lemma ParseInt_pretty (z : Z) : (0 ≤ z ≤ int64_max)%Z → ParseInt (pretty z) = Ok z.
Proof.
  intros H. pose proof (Atoi_pretty z H) as E. unfold Atoi, ParseInt, parse_int in *.
  repeat case_match; done.
Qed.

Section connect.
Context {S : Type} `{!SessionStore S} {E ST T : Type} `{!OAuthToken T} `{!TokenStorage E ST T}.
Context (AuthCodeURL : OAuthConfig → string → string → string).
Context (Exchange : OAuthConfig → string → string → result (option T)).

(** The request of a browser that follows the link. *)
Definition follow_link (token : string) (cookies : list (string * string)) : Request :=
  mkRequest "GET" "/telegram/connect" [("token"%string, token)] cookies None.

(** The link of the bot works, for whoever uses it.  A /start of Telegram
    user [id] is answered in its chat, and nothing else is sent, with a link
    whose token is [id] in decimal; whichever logged-in user [u] follows it,
    with a row and no other row holding [id], the row gets [id] as Telegram
    user and as chat and 200 is answered.  Nothing ties the link to [u] or
    to a /start: the number is the whole token. *)
Theorem connect_link port id chat u row env cookies (a : Application S ST T) :
  (0 ≤ id ≤ int64_max)%Z →
  session_user env (follow_link "" cookies) a = Some u →
  users a !! u = Some row → telegram_taken u id (users a) = false →
  env_db env = mkFaults None None →
  StartPolling port [Some (mkTgMessage true "start" (Some id) chat)]
    = Returns [(chat, start_text port id)] ∧
  (∃ prefix, start_text port id = prefix +:+ "?token=" +:+ pretty id) ∧
  serve AuthCodeURL Exchange env (follow_link (pretty id) cookies) a
    = (with_users (<[u := mkAppUser (ID row) (Email row) (Some id) (Some id) (CreatedAt row)
                            (CURRENT_TIMESTAMP (env_now env))]> (users a)) a,
       Returns (reply 200
         "Telegram account successfully connected! You can now close this window.")).
Proof.
  intros Hid Hu Hrow Hfree Hdb. split_and!.
  - reflexivity.
  - exists ("Welcome! To connect your account and receive email digests, please click this link:"
      +:+ newline +:+ newline +:+ "http://localhost:" +:+ pretty port +:+ "/telegram/connect").
    unfold start_text, connectURL. rewrite <- !append_assoc.
    change "/telegram/connect?token="%string with ("/telegram/connect" +:+ "?token=").
    by rewrite <- append_assoc.
  - unfold serve.
    assert (Hr : routes (follow_link (pretty id) cookies) = RouteTelegramConnect) by reflexivity.
    rewrite Hr, requireAuth_spec. change (session_user env (follow_link (pretty id) cookies) a)
      with (session_user env (follow_link "" cookies) a). rewrite Hu.
    unfold handleTelegramConnect.
    change (Query_Get "token" (withUserID (follow_link (pretty id) cookies) u)) with (pretty id).
    assert (Hne : pretty id ≠ "").
    { rewrite pretty_Z_nonneg by lia. apply pretty_N_nonempty. }
    rewrite decide_False, ParseInt_pretty by done. 
    change (default "" (getUserIDFromContext _)) with u.
    unfold UpdateUserTelegramDetails. rewrite Hdb. cbn [exec_fault rows_fault].
    by rewrite Hrow, Hfree.
Qed.
End connect.

Lemma connect_link_witness :
  let a := mkApp demo_waiting (Create (Ok "k"%string) 0 "user-123" Hour NewInMemoryStore).1
             (users (demo_app demo_waiting)) [] in
  let sid := GoBase64.EncodeToString true "k" in
  (serve demo_url demo_exchange (demo_env 0)
     (follow_link (pretty 42%Z) [("session_id"%string, sid)]) a).2
  = Returns (reply 200 "Telegram account successfully connected! You can now close this window.").
Proof.
  intros a sid.
  destruct (connect_link demo_url demo_exchange 8080 42 7 "user-123" 
    (mkAppUser "user-123" "u@example.com" None None 0 0) (demo_env 0) [("session_id"%string, sid)] a)
    as (_ & _ & H); [vm_compute; split; discriminate|vm_compute; reflexivity|vm_compute; reflexivity
                    |vm_compute; reflexivity|reflexivity|].
  rewrite H. reflexivity.
Defined.
