(* ===== verification/Digest.v ===== *)
(** * The digest job: [internal/scheduler/digest_job.go]

    [Run] reads a user's token and row, fetches the unread mail, summarizes it
    and sends the summary to the user's chat.  The services it calls are
    parameters; its outcome comes with the calls it made to them, in order, and
    with the mailbox it leaves, the state the Gmail client of the user's token
    acts on. *)
From Stdlib Require Import ZArith Lia.
From stdpp Require Import base gmap list strings pretty.
From S2P Require Import Prelude GoBase64 Worker Job Storage Auth AuthProps UserDetails Gmail Summary.

Inductive call :=
| CallGmail (c : gmail_call)
| CallOpenAI (p : string)
| CallTelegram (chat : Z) (text : string).

Section digest.
Context {E ST T MB : Type} `{!OAuthToken T} `{!TokenStorage E ST T}.

(** What the run sees of the outside.  [gmail_service] is [gmail.NewService]
    of the token, a client of the mailbox, with the faults of this run. *)
Record Outside := mkOutside {
  o_tokens : E;
  o_db : db_faults;
  gmail_service : option T → result (GmailClient MB);
  openai : string → result (list string);
  telegram : Z → string → result unit;
}.

(** @src internal/scheduler/digest_job.go 16-40 DigestJob *)
Record DigestJob := mkDigestJob { tokenStore : ST; j_users : UserTable }.

(** @src internal/telegram/service.go 33-38 SendMessage *)
Definition SendMessage (o : Outside) (chat : Z) (text : string) : list call * result unit :=
  ([CallTelegram chat text], telegram o chat text).

(** Steps 5 to 7 of [Run]. *)
(** @src internal/scheduler/digest_job.go 71-89 Run *)
Definition deliver (o : Outside) (userID : string) (user : AppUser) (emails : list Email)
  : list call * result unit :=
  let '(ps, r) := Summarize (openai o) emails in
  let cs := CallOpenAI <$> ps in
  match r with
  | Err e => (cs, Err (wrap_pre ("failed to summarize emails for user " +:+ userID +:+ ": ") e))
  | Ok digest =>
      match TelegramChatID user with
      | None => (cs, Err (ErrorString
                  ("user " +:+ userID +:+ " has not connected their telegram account")))
      | Some chatID =>
          let '(ts, sent) := SendMessage o chatID digest in
          (cs ++ ts, wrap_err ("failed to send digest to user " +:+ userID +:+ ": ") sent)
      end
  end.

(** @src internal/scheduler/digest_job.go 42-90 Run *)
Definition Run (o : Outside) (userID : string) (j : DigestJob) (mb : MB)
  : list call * MB * outcome (result unit) :=
  match ts_GetToken (o_tokens o) userID (tokenStore j) with
  | Err e => ([], mb, Returns (Err (wrap_pre ("failed to get token for user " +:+ userID +:+ ": ") e)))
  | Ok oauthToken =>
      match GetUserByID (o_db o) userID (j_users j) with
      | Err e => ([], mb, Returns (Err (wrap_pre ("failed to get user " +:+ userID +:+ ": ") e)))
      | Ok user =>
          match gmail_service o oauthToken with
          | Err e => ([], mb, Returns (Err (wrap_pre
                            ("failed to create gmail service for user " +:+ userID +:+ ": ") e)))
          | Ok gmailService =>
              let '(gs, mb', r) := FetchUnreadEmails gmailService mb in
              let gs := CallGmail <$> gs in
              match r with
              | Panics p => (gs, mb', Panics p)
              | Returns (Err e) => (gs, mb', Returns (Err (wrap_pre
                                     ("failed to fetch emails for user " +:+ userID +:+ ": ") e)))
              | Returns (Ok emails) =>
                  let '(cs, res) := deliver o userID user emails in (gs ++ cs, mb', Returns res)
              end
          end
      end
  end.

(** The summary of the emails, when there is one. *)
Definition digest_of (o : Outside) (emails : list Email) : option string :=
  match (Summarize (openai o) emails).2 with Ok d => Some d | Err _ => None end.

Definition prompts_of (emails : list Email) : list string :=
  if decide (emails = []) then [] else [prompt emails].

Lemma Summarize_prompts o emails : (Summarize (openai o) emails).1 = prompts_of emails.
Proof. unfold Summarize, prompts_of. by case_decide. Qed.

Lemma deliver_spec o userID user emails :
  deliver o userID user emails =
  ((CallOpenAI <$> prompts_of emails) ++
   match digest_of o emails, TelegramChatID user with
   | Some d, Some chat => [CallTelegram chat d]
   | _, _ => []
   end,
   (deliver o userID user emails).2) ∧
  (is_ok (deliver o userID user emails).2 = true ↔
   ∃ d chat, digest_of o emails = Some d ∧ TelegramChatID user = Some chat ∧
     is_ok (telegram o chat d) = true).
Proof.
  unfold deliver, digest_of. pose proof (Summarize_prompts o emails) as Hp.
  destruct (Summarize (openai o) emails) as [ps [d|e]]; cbn in Hp; subst ps.
  - destruct (TelegramChatID user) as [chat|]; cbn.
    + split; [done|]. destruct (telegram o chat d) as [[]|e] eqn:Et; cbn; split; try done.
      * intros _. exists d, chat. by rewrite Et.
      * intros (d' & chat' & [= <-] & [= <-] & H). by rewrite Et in H.
    + rewrite app_nil_r. split; [done|]. split; [done|]. by intros (d' & chat' & _ & ? & _).
  - cbn. rewrite app_nil_r. split; [done|]. split; [done|]. by intros (d' & chat' & ? & _).
Qed.

(** ** Properties *)

(** What a user needs for a digest: a token the Gmail client accepts, a row,
    a mailbox that can be listed and no malformed message in it. *)
Definition can_fetch (o : Outside) (userID : string) (user : AppUser) (g : GmailClient MB)
    (refs : list string) (j : DigestJob) (mb : MB) : Prop :=
  (∃ t, ts_GetToken (o_tokens o) userID (tokenStore j) = Ok t ∧ gmail_service o t = Ok g) ∧
  GetUserByID (o_db o) userID (j_users j) = Ok user ∧
  gm_List g mb = Ok refs ∧ no_nil_body g refs.

Lemma Run_fetched o userID user g refs j mb :
  can_fetch o userID user g refs j mb →
  let emails := omap (readable g) refs in
  Run o userID j mb =
    ((CallGmail <$> (GList :: mbind (ref_calls g) refs)) ++ (deliver o userID user emails).1,
     mark_all g emails mb, Returns (deliver o userID user emails).2).
Proof.
  intros ((t & Ht & Hg) & Hu & Hl & Hn) emails. unfold Run. rewrite Ht, Hu, Hg.
  unfold FetchUnreadEmails. rewrite Hl, (fetch_loop_spec g) by done. cbn [app].
  unfold emails. by destruct (deliver _ _ _ _).
Qed.

(** A run fetches unread messages only. *)
Lemma Run_gets (unread : MB → gset string) o userID j mb ref :
  (∀ t g, gmail_service o t = Ok g → GmailLaws unread g) →
  ref ∉ unread mb → CallGmail (GGet ref) ∉ (Run o userID j mb).1.1.
Proof.
  intros HL Hu. unfold Run. destruct (ts_GetToken _ _ _) as [t|]; [|apply not_elem_of_nil].
  destruct (GetUserByID _ _ _) as [user|]; [|apply not_elem_of_nil].
  destruct (gmail_service o t) as [g|] eqn:Eg; [|apply not_elem_of_nil].
  specialize (HL t g Eg). pose proof (FetchUnreadEmails_gets g mb ref Hu) as H.
  destruct (FetchUnreadEmails g mb) as [[gs mb'] r]. cbn in H.
  assert (Hgs : CallGmail (GGet ref) ∉ CallGmail <$> gs).
  { intros (x & [= <-] & Hx)%list_elem_of_fmap. done. }
  destruct r as [[emails|e]|p]; [|done..]. unfold deliver.
  destruct (Summarize _ _) as [ps s]. unfold SendMessage.
  repeat case_match; simplify_eq/=;
    rewrite ?elem_of_app, ?list_elem_of_fmap, ?list_elem_of_singleton; firstorder congruence.
Qed.

(** C21: A digest run, call by call, of a user who can be fetched for: whose
    stored token the Gmail client accepts, whose row is found, and whose
    mailbox can be listed and holds no message whose body is nil
    ([can_fetch]).  It lists the unread mail, fetches every message and marks
    the readable ones read, sends one prompt with all of them, or none when
    there is none, and then at most one message, to the user's chat, with the
    summary; it succeeds exactly when that message is sent and accepted.  The
    mailbox it leaves is the one the marking made. *)
Theorem Run_calls o userID user g refs j mb :
  can_fetch o userID user g refs j mb →
  let emails := omap (readable g) refs in
  ∃ res, Run o userID j mb =
    ((CallGmail <$> (GList :: mbind (ref_calls g) refs)) ++
     (CallOpenAI <$> prompts_of emails) ++
     match digest_of o emails, TelegramChatID user with
     | Some d, Some chat => [CallTelegram chat d]
     | _, _ => []
     end, mark_all g emails mb, Returns res) ∧
    (is_ok res = true ↔
     ∃ d chat, digest_of o emails = Some d ∧ TelegramChatID user = Some chat ∧
       is_ok (telegram o chat d) = true).
Proof.
  intros H emails. destruct (deliver_spec o userID user emails) as [H1 H2].
  exists (deliver o userID user emails).2. split; [|done].
  rewrite (Run_fetched o userID user g refs j mb H). fold emails. by rewrite H1.
Qed.

(** The message of this run reaches the user's chat. *)
Definition delivered (o : Outside) (user : AppUser) (emails : list Email) : Prop :=
  ∃ d chat, digest_of o emails = Some d ∧ TelegramChatID user = Some chat ∧
    is_ok (telegram o chat d) = true.

Lemma deliver_fails o userID user emails :
  ¬ delivered o user emails →
  (∃ e, (deliver o userID user emails).2 = Err e) ∧
  (∀ chat d, CallTelegram chat d ∈ (deliver o userID user emails).1 → is_ok (telegram o chat d) = false).
Proof.
  intros Hfail. destruct (deliver_spec o userID user emails) as [H1 H2]. split.
  - destruct (deliver o userID user emails).2 as [[]|e]; [|by exists e]. by destruct Hfail; apply H2.
  - intros chat d. rewrite H1. cbn [fst]. rewrite elem_of_app, list_elem_of_fmap.
    intros [(x & [=] & _)|Hin]. destruct (is_ok (telegram o chat d)) eqn:Et; [|done].
    destruct (digest_of o emails) as [d0|] eqn:Ed; [|by apply elem_of_nil in Hin].
    destruct (TelegramChatID user) as [c0|] eqn:Ec; [|by apply elem_of_nil in Hin].
    apply list_elem_of_singleton in Hin as [= -> ->]. destruct Hfail. by exists d0, c0.
Qed.

(** C8: A digest that fails loses its mail.  Messages are marked read while
    they are fetched; so when a run that can fetch has no summary, no chat to
    send it to, or its message to the user's chat is refused, the run is an
    error and no message of it is accepted, and yet every message it could
    read and whose marking Gmail does not refuse is no longer unread in the
    mailbox it leaves.  As long as the message is not unread again, no later
    run, of any user and under any outside, fetches it. *)
Theorem failed_digest_marks_read (unread : MB → gset string) o userID user g refs j mb :
  (∀ t g, gmail_service o t = Ok g → GmailLaws unread g) →
  can_fetch o userID user g refs j mb →
  ¬ delivered o user (omap (readable g) refs) →
  ∃ cs mb' e, Run o userID j mb = (cs, mb', Returns (Err e)) ∧
    (∀ chat d, CallTelegram chat d ∈ cs → is_ok (telegram o chat d) = false) ∧
    (∀ ref, ref ∈ refs → is_Some (readable g ref) →
      (∀ b, is_ok (gm_Modify g ref b).2 = true) →
      ref ∈ unread mb ∧ (ref ∉ unread mb') ∧
      ∀ o' userID' j' mb'', (unread mb'' ∩ unread mb) ⊆ unread mb' →
        (∀ t g', gmail_service o' t = Ok g' → GmailLaws unread g') →
        CallGmail (GGet ref) ∉ (Run o' userID' j' mb'').1.1).
Proof.
  intros HL H Hfail. pose proof H as ((t & _ & Hg) & _ & Hl & _). pose proof (HL t g Hg).
  destruct (deliver_fails o userID user _ Hfail) as [[e He] Ht].
  rewrite (Run_fetched o userID user g refs j mb H), He. eexists _, _, e. split; [reflexivity|]. split.
  - intros chat d. rewrite elem_of_app, list_elem_of_fmap. intros [(x & [=] & _)|Hin]. by apply Ht.
  - intros ref Hr [m Hm] Hok. pose proof (readable_ID g ref m Hm) as <-.
    assert (Hbefore : ID m ∈ unread mb) by by apply (gm_List_unread mb refs).
    assert (Hafter : ID m ∉ unread (mark_all g (omap (readable g) refs) mb)).
    { apply (mark_all_read g _ mb m); [|exact Hok]. apply list_elem_of_omap. by exists (ID m). }
    split; [done|]. split; [done|]. intros o' userID' j' mb'' Hsub HL'.
    apply (Run_gets unread); [done|]. intros Hin. apply Hafter, Hsub, elem_of_intersection. done.
Qed.
End digest.
Arguments Outside : clear implicits.
Arguments DigestJob : clear implicits.

(** ** Witnesses: one message to read, one that cannot be fetched *)

Definition demo_outside (accepts : bool) : Outside unit DemoToken (gset string) :=
  mkOutside tt (mkFaults None None) (λ _, Ok demo_client)
    (λ _, Ok ["A greeting."%string]) (λ _ _, if accepts then Ok tt else Err (ExtError "403")).

Definition demo_job : DigestJob demo_store :=
  mkDigestJob {["u" := Some (mkDemo "r" 9)]}
    {["u" := mkAppUser "u" "u@example.com" (Some 42%Z) (Some 42%Z) 0 0]}.

Definition demo_user : AppUser := mkAppUser "u" "u@example.com" (Some 42%Z) (Some 42%Z) 0 0.
Definition demo_unread : gset string := {["m1"; "m2"]}.

Lemma demo_can_fetch accepts :
  can_fetch (demo_outside accepts) "u" demo_user demo_client ["m1"; "m2"]%string demo_job demo_unread.
Proof.
  split; [by exists (Some (mkDemo "r" 9))|]. split; [vm_compute; reflexivity|].
  split; [vm_compute; reflexivity|]. apply demo_no_nil_body.
Qed.

Lemma demo_outside_laws accepts t g :
  gmail_service (demo_outside accepts) t = Ok g → GmailLaws (λ s : gset string, s) g.
Proof. intros [= <-]. apply demo_client_laws. Qed.

Lemma Run_calls_witness :
  ∃ p, (Run (demo_outside true) "u" demo_job demo_unread).1.1 =
    [CallGmail GList; CallGmail (GGet "m1"); CallGmail (GMarkRead "m1"); CallGmail (GGet "m2");
     CallOpenAI p; CallTelegram 42 "A greeting."].
Proof.
  destruct (Run_calls (demo_outside true) "u" demo_user demo_client ["m1"; "m2"]%string demo_job demo_unread)
    as (res & H & _); [apply demo_can_fetch|].
  rewrite H. eexists. vm_compute. reflexivity.
Defined.

(** The chat refuses the digest, later accepts messages, and never gets "m1". *)
Lemma failed_digest_marks_read_witness :
  ∃ cs mb' e, Run (demo_outside false) "u" demo_job demo_unread = (cs, mb', Returns (Err e)) ∧
    "m1" ∈ demo_unread ∧ ("m1" ∉ mb') ∧
    CallGmail (GGet "m1") ∉ (Run (demo_outside true) "u" demo_job mb').1.1.
Proof.
  destruct (failed_digest_marks_read (λ s : gset string, s) (demo_outside false) "u" demo_user demo_client
    ["m1"; "m2"]%string demo_job demo_unread) as (cs & mb' & e & H & _ & Hm).
  - apply demo_outside_laws.
  - apply demo_can_fetch.
  - intros (d & chat & _ & _ & [=]).
  - destruct (Hm "m1") as (H1 & H2 & H3);
      [constructor|vm_compute; by eexists|done|].
    exists cs, mb', e. split; [exact H|]. split; [exact H1|]. split; [exact H2|].
    apply H3; [apply intersection_subseteq_l|apply demo_outside_laws].
Defined.
